(* ===== verification/_CoqProject ===== *)
-Q . S2P
Prelude.v
Apperr.v
Encoding.v
Ids.v
Cursor.v
Db.v
Authz.v
Slug.v
Tenant.v
Paging.v
AuditLog.v
Invoice.v
Float64.v
Webhook.v
Outbox.v
OutboxProps.v
InvoiceStore.v
InvoiceProps.v
InvoiceSessions.v
Idempotency.v
IdempotencyHttp.v
IdempotencyProps.v
Refresh.v
RefreshProps.v
RateLimit.v
ApiKey.v
ApiKeyProps.v
Password.v
Token.v
Render.v
Account.v
AccountProps.v
Bearer.v
Project.v
ProjectProps.v
Ssrf.v
ClientIp.v
Handlers.v
HandlersProps.v
Router.v
RouterProps.v
Logging.v
Config.v
Startup.v
Trace.v
Worker.v
WorkerProps.v
Workers.v
Migrations.v
Commands.v
Lifecycle.v
Isolation.v
IsolationStores.v
IsolationHooks.v
IsolationAccounts.v
IsolationHttp.v
Api.v
ApiProps.v
Invariants.v
Service.v
