(* ===== verification/Prelude.v ===== *)
(** * Tenant API platform: a verification library

    The service is a multi-tenant HTTP API in Go over PostgreSQL and redis. This
    library models its own logic (validation, authorization, the stores with the
    constraints and row-level policies their tables carry, the rate limiter, the
    idempotency layer, the webhook outbox, the refresh sessions) and proves what
    makes each part correct.

    ** How the code is represented

    Go functions are Rocq functions; a function that can fail returns
    [result err]; a store operation is [SE DB err A], a function of the tables that
    returns its result and the new tables. A transaction ([Db.WithSettings]) keeps the
    tables of its callback when it succeeds and the old ones when it fails, which is
    what pgx.BeginFunc does. SQL statements are functions of the tables: an insert
    checks the policy, the CHECK constraints, the keys and the foreign keys the
    migrations declare, and fails with the SQLSTATE postgres reports. Integers are [Z]
    with wrap-around written where the code computes on 64 bits; strings are byte
    strings; identifiers are 128-bit numbers with the nil identifier as 0; times are
    nanoseconds since the epoch, and [env_now] is the clock of the transaction.
    What is read from outside (the clock, fresh identifiers, random bytes) is an
    argument. Interleavings of sessions are sequences of committed transactions: a
    [step] relation closed under [rtc]; where the code runs several transactions
    ([Idempotency.Begin], [Refresh.Rotate], the claim and the settles of a worker), other
    sessions' steps may come between. Most transactions are one step: those that race carry
    what they read into the condition of their write (a version, a status, an unused token, an
    attempt's number), and where that write is, other sessions are given room before it. The
    edits of an invoice's lines carry no such condition, and there each statement is a step of
    its own ([InvoiceSessions]).

    ** Files

    - [Prelude]: results, the state-and-error monad, 64-bit arithmetic, byte
      strings and the operations of strings and strconv the code uses, with lemmas.
    - [Apperr]: internal/platform/apperr, db/errors.go, httperr: error values,
      errors.Is and errors.As, [Map] and [clientMessage].
    - [Encoding]: base64, hexadecimal, SHA-256 and HMAC, executable, as the language's
      library defines them. [Ids]: identifiers and times. [Float64]: the binary64
      operations the backoff needs.
    - [Cursor]: internal/platform/cursor: signed page cursors.
    - [Db]: internal/platform/db/tx.go: transactions and settings. [Authz]:
      internal/authz. [Slug]: internal/platform/idgen and the slug rules of project.go
      and handlers_auth.go. [Tenant]: internal/tenant, httpx/tenant_middleware.go and
      the member and tenant handlers.
    - [Paging]: the keyset query of every list endpoint. [AuditLog]: internal/audit.
    - [Invoice], [InvoiceStore], [InvoiceProps]: internal/invoice. [InvoiceSessions]: AddItem and
      RemoveItem of store.go statement by statement, any number of them open at once.
    - [Webhook], [Outbox], [OutboxProps]: internal/webhook.
    - [Idempotency], [IdempotencyHttp], [IdempotencyProps]: internal/idempotency and
      httpx/idempotency.go.
    - [Refresh], [RefreshProps]: internal/authn/refresh.go, with migrations 0002 and 0003.
    - [RateLimit]: internal/ratelimit and httpx/ratelimit.go.
    - [ApiKey], [ApiKeyProps]: authn/apikey.go, the principals of authn/service.go and
      the middleware of authn/middleware.go.
    - [Password]: authn/password.go. [Token]: authn/token.go. [Render]: the request and
      rendering helpers of httpx (render.go, support.go).
    - [Account], [AccountProps]: authn/users.go, login, refresh and registration of
      authn/service.go, the handlers of httpx/handlers_auth.go. [Bearer]: a session's
      request from its header to the gate.
    - [Project], [ProjectProps]: internal/project. [Ssrf]: internal/platform/ssrf.
      [ClientIp]: internal/platform/clientip.
    - [Handlers], [HandlersProps]: the tenant-scoped handlers of httpx and the replies of
      httperr/respond.go. [Router], [RouterProps]: httpx/router.go, its guards in order
      and a request on its way through them.
    - [Logging]: internal/platform/logging, over the record, group and attribute rules of
      log/slog. [Trace]: internal/platform/reqid, httpx/trace.go and the labels and headers
      of httpx/middleware.go.
    - [Config]: internal/platform/config with [time.ParseDuration]. [Startup]: what
      cmd/api/main.go and cmd/worker/main.go build and when they refuse to, with
      platform/db/role.go.
    - [Worker], [WorkerProps]: internal/webhook/worker.go, from a polling round to the
      request on the wire, over [Outbox] and [Ssrf]. [Workers]: several of them on one outbox.
    - [Lifecycle]: both processes from their start to their exit: listener, signal, drain.
    - [Migrations]: internal/platform/migrations. [Commands]: cmd/migrate and cmd/loadseed,
      over [Migrations], [Tenant], [Idempotency], [Token] and [Project].

    - [Isolation]: what one tenant sees of tables all tenants share, and the rules by which a
      computation is confined to a tenant. [IsolationStores], [IsolationHooks],
      [IsolationAccounts], [IsolationHttp]: the statements of the stores, the gate, the limiter
      and the idempotency layer under these rules. [Api], [ApiProps]: the tenant routes of
      httpx/router.go over one database and one redis, from the gate to the handler, and any
      sequence of requests to them. [Invariants]: what the operations of each store leave
      alone in the others' tables. [Service]: that API behind the authenticator, with the opening
      of accounts, the worker and the sweep, as one step relation.

    ** What the theorems show

    Tenancy: the gate lets a request through only with an authorization for the tenant
    its path names, and a non-member cannot tell a tenant that exists from one that
    does not ([Tenant]). Isolation: however the requests of many
    tenants are mixed, what one tenant's requests are answered, and the rows, replay records
    and limiter bucket it ends with, are those of its own requests run without the others
    ([ApiProps]); this asks that no request draws an identifier or a key's secret that another
    tenant's row already has, and keeps the accounts of users, which are the service's.
    Composition: from an empty database every run of the service keeps the invariants of all
    stores at once, over the one audit trail they share, and no table has a row of a tenant that
    does not exist ([Service]); the sessions and the refresh tokens are apart ([Refresh],
    [Account]), and the requests of such a run do not overlap: within a request only project
    writes and the replay records see what other sessions commit.
    Money: a stored invoice adds up as long as no two sessions edit its lines at once, whatever
    else overlaps, and two that do can break its subtotal ([InvoiceSessions]); it is frozen once
    issued and a version is spent once ([InvoiceProps]). Delivery: an outbox row is never lost, a
    stale worker cannot settle a reclaimed delivery, and no due row is stranded
    ([OutboxProps]); an approved webhook address is only ever dialled at a public address
    that was checked, unless its host carries an IPv6 zone ([Ssrf]); with any number of workers a
    row reads delivered only by an attempt that a receiver answered with a 2xx and that still held
    the row ([Workers]); an undisturbed round settles every delivery it claimed, and
    what a receiver gets verifies under its secret ([WorkerProps]). Projects: every change of a project spends one version and
    leaves one entry on the trail, updates are never lost, an archive is final
    ([ProjectProps]); a listing followed to its end gives every project once, a create
    is readable, and another tenant's identifiers answer as unknown ones do
    ([HandlersProps]). The whole surface: a request changes nothing before the gate, the
    limiter and the permission of its route have let it through ([RouterProps]), and without a
    Forwarded header a caller behind declared proxies cannot choose the address its limits are
    counted under ([ClientIp]). Idempotency: one request runs per key, and a retry gets the
    response of the original ([IdempotencyProps]). Sessions: a refresh token is spent
    once, a session's tokens are one chain that only grows at its end, and a replay ends it
    ([RefreshProps]). Credentials: a
    key's request stays inside the key's tenant and scopes, a revoked key is dead and its
    life is on the audit trail ([ApiKeyProps]); a login is decided by the stored account
    alone and refusals are indistinguishable, a registration leaves an account that can
    log in ([AccountProps]); an access token lives exactly its window ([Token]) and what
    it may do is decided by the memberships of the moment ([Bearer]), which is also what
    the service reports about itself ([me_reports_the_gate]). The limiter
    refines a log of its admissions and so bounds every window ([RateLimit]). Cursors
    and webhook signatures round-trip and refuse what was not signed ([Cursor],
    [Webhook]). Pages enumerate the table without loss or repetition ([Paging]). Operation: a
    configuration is loaded exactly when the environment allows it, with the values it states
    ([Config]); a process starts only under a role the policies bind, with its secrets in range
    ([Startup]); it exits well only after a signal, the API with no request cut off while the
    timeouts are kept, the worker with no attempt in progress ([Lifecycle]); deployments,
    however they are interrupted, converge to the files' schema, applied once each
    ([Migrations]); the seed converges and a load test's sessions open the
    tenants beside them ([Commands]); no credential reaches the log through an attribute the
    redaction names, however it is grouped or bound ([Logging]).

    ** Bounds

    Loops with a fixed number of rounds are recursions on it ([trim_rounds] four,
    [begin_attempts] and [tryClaim] two, as in the code). [trim_left_fuel] is given the
    length of the string, and each round consumes a byte; so does each round of
    [Config.parse_elements], whose fuel is the length of the duration. The divisions of
    [Config.fdiv] keep 160 bits before they round to 53. [Paging.walk] is given one
    snapshot per request; [paging_exact] shows how many requests end it. SHA-256 takes as
    fuel the number of blocks of its padded input.

    ** Not modelled

    The statements of one transaction are not interleaved with other sessions except in the places
    named above. A script of redis either ran and was answered or did not run: a reply that is lost
    after the script has counted is not represented ([RateLimit]). The attempts of a delivery are
    counted without the column's 32 bits ([Outbox]). Metric registrations and the test fixtures are I/O; internal/platform/httpserver is
    imported by no binary; of net/http only what the shutdown needs is described ([Lifecycle]). The SQL inside a
    migration's file is run by postgres: what it does to a schema is a parameter. The bytes of JSON documents are the language's: a
    handler is given the outcome of decoding its body. The JWT library, chi, pgx, redis and postgres are not under src/;
    what the code relies on of them is written into the definitions that stand for
    their statements, or is a parameter ([UUIDLib], [Collation], [Unicode], [NetURL],
    [AddrText], [GoJSON], [JWT], [Argon2], [TimeJSON]), the last with the documented behaviour the
    proofs use as classes of laws ([UUIDLaws], [JWTLaws], [Argon2Laws]). *)

From Stdlib Require Export Sorted ZArith Lia Ascii String DecimalString DecimalPos DecimalN.
From stdpp Require Export base tactics list sorting numbers strings gmap relations.

#[export] Set Warnings "-notation-overridden,-clear-no-such-hyp".

Declare Scope go_scope.
Delimit Scope go_scope with go.
#[global] Arguments String.append : simpl nomatch.
Open Scope Z_scope.

(** ** Fallible computations: a Go function returning [(A, error)]. *)

Inductive result (E A : Type) : Type :=
  | Ok (a : A)
  | Err (e : E).
Arguments Ok {E A} a.
Arguments Err {E A} e.

#[export] Instance result_ret {E} : MRet (result E) := fun A a => Ok a.
#[export] Instance result_bind {E} : MBind (result E) :=
  fun A B f m => match m with Ok a => f a | Err e => Err e end.

Definition is_ok {E A} (r : result E A) : bool :=
  match r with Ok _ => true | Err _ => false end.

Lemma Ok_inj {E A} (a b : A) : Ok (E:=E) a = Ok b -> a = b.
Proof. congruence. Qed.

Lemma bind_Ok {E A B} (m : result E A) (f : A -> result E B) b :
  m ≫= f = Ok b <-> exists a, m = Ok a /\ f a = Ok b.
Proof.
  destruct m as [a|e]; cbn; split; intros H.
  - eauto.
  - destruct H as (a' & [= ->] & H). exact H.
  - discriminate.
  - destruct H as (a' & [=] & _).
Qed.

(** ** State passing with errors

    A body run against a mutable state: the state survives an error, so that
    the transaction wrapper (and not the body) decides about rolling back. *)

Definition SE (S E A : Type) : Type := S -> result E A * S.

#[export] Instance SE_ret {S E} : MRet (SE S E) := fun A a s => (Ok a, s).
#[export] Instance SE_bind {S E} : MBind (SE S E) :=
  fun A B f m s =>
    match m s with
    | (Ok a, s') => f a s'
    | (Err e, s') => (Err e, s')
    end.

Definition throw {S E A} (e : E) : SE S E A := fun s => (Err e, s).
Definition lift {S E A} (r : result E A) : SE S E A := fun s => (r, s).
Definition get {S E} : SE S E S := fun s => (Ok s, s).
Definition put {S E} (s' : S) : SE S E unit := fun _ => (Ok tt, s').
Definition modify {S E} (f : S -> S) : SE S E unit := fun s => (Ok tt, f s).

Lemma SE_bind_inv {S E A B} (m : SE S E A) (f : A -> SE S E B) s b s' :
  (m ≫= f) s = (Ok b, s') ->
  exists a s1, m s = (Ok a, s1) /\ f a s1 = (Ok b, s').
Proof.
  unfold mbind, SE_bind. destruct (m s) as [[a|e] s1]; [eauto|discriminate].
Qed.

(** ** Machine integers

    [int] is 64 bits wide on the platforms this service is deployed on; both
    [int] and [int64] are [Z] with two's-complement wrap-around. *)

Definition MaxInt64 : Z := 9223372036854775807.
Definition MinInt64 : Z := -9223372036854775808.
Definition wrap64 (z : Z) : Z := (z + 2 ^ 63) mod 2 ^ 64 - 2 ^ 63.
Definition in_int64 (z : Z) : Prop := MinInt64 <= z <= MaxInt64.
Definition in_int64b (z : Z) : bool := (MinInt64 <=? z) && (z <=? MaxInt64).

Definition add64 (a b : Z) : Z := wrap64 (a + b).
Definition sub64 (a b : Z) : Z := wrap64 (a - b).
Definition mul64 (a b : Z) : Z := wrap64 (a * b).
Definition neg64 (a : Z) : Z := wrap64 (- a).

Lemma wrap64_id z : in_int64 z -> wrap64 z = z.
Proof.
  unfold in_int64, wrap64, MinInt64, MaxInt64. intros H.
  rewrite Z.mod_small; lia.
Qed.

Lemma wrap64_range z : in_int64 (wrap64 z).
Proof.
  unfold in_int64, wrap64, MinInt64, MaxInt64.
  pose proof (Z.mod_pos_bound (z + 2 ^ 63) (2 ^ 64) ltac:(lia)). lia.
Qed.

Lemma in_int64b_spec z : in_int64b z = true <-> in_int64 z.
Proof. unfold in_int64b, in_int64. rewrite andb_true_iff. lia. Qed.

(** ** Byte strings

    A Go [string] and a Go [[]byte] are both byte sequences; both are the
    Standard Library's [string], whose characters are bytes. *)

Definition byte_of (c : ascii) : Z := Z.of_N (N_of_ascii c).
Definition byte_to (z : Z) : ascii := ascii_of_N (Z.to_N (z mod 256)).
Definition chr (n : nat) : ascii := ascii_of_nat n.

Definition slen (s : string) : Z := Z.of_nat (String.length s).

Lemma str_length_app a b : String.length (a +:+ b) = (String.length a + String.length b)%nat.
Proof. induction a as [|c a IH]; cbn; [done|]. f_equal. exact IH. Qed.

Lemma slen_app a b : slen (a +:+ b) = slen a + slen b.
Proof. unfold slen. rewrite str_length_app. lia. Qed.

Lemma slen_nonneg s : 0 <= slen s.
Proof. unfold slen. lia. Qed.

Lemma byte_of_range c : 0 <= byte_of c < 256.
Proof.
  unfold byte_of. pose proof (N_ascii_bounded c). lia.
Qed.

Lemma byte_to_of c : byte_to (byte_of c) = c.
Proof.
  unfold byte_to. pose proof (byte_of_range c). rewrite Z.mod_small by lia.
  unfold byte_of. rewrite N2Z.id. apply ascii_N_embedding.
Qed.

Lemma byte_of_to z : byte_of (byte_to z) = z mod 256.
Proof.
  unfold byte_of, byte_to. pose proof (Z.mod_pos_bound z 256 ltac:(lia)).
  rewrite N_ascii_embedding; lia.
Qed.

Definition bytes_of (s : string) : list Z := byte_of <$> String.list_ascii_of_string s.
Definition of_bytes (l : list Z) : string := String.string_of_list_ascii (byte_to <$> l).

Lemma of_bytes_of s : of_bytes (bytes_of s) = s.
Proof.
  unfold of_bytes, bytes_of. rewrite <- list_fmap_compose.
  rewrite (list_fmap_ext _ id).
  - rewrite list_fmap_id. apply String.string_of_list_ascii_of_string.
  - intros ? x _. apply byte_to_of.
Qed.

Lemma length_bytes_of s : length (bytes_of s) = String.length s.
Proof. unfold bytes_of. rewrite length_fmap. induction s; cbn; auto. Qed.

Lemma length_of_bytes l : String.length (of_bytes l) = length l.
Proof. unfold of_bytes. induction l as [|x l IH]; cbn; [done|]. f_equal. exact IH. Qed.

Lemma bytes_of_range s : Forall (fun b => 0 <= b < 256) (bytes_of s).
Proof. unfold bytes_of. apply Forall_fmap, Forall_true. intros c. apply byte_of_range. Qed.

Lemma bytes_of_of l : Forall (fun b => 0 <= b < 256) l -> bytes_of (of_bytes l) = l.
Proof.
  unfold bytes_of, of_bytes. intros H.
  rewrite String.list_ascii_of_string_of_list_ascii, <- list_fmap_compose.
  rewrite <- (list_fmap_id l) at 2. apply list_fmap_ext. intros i x Hx. cbn.
  rewrite byte_of_to. apply Z.mod_small. eapply Forall_lookup_1 in H; eauto.
Qed.

Lemma bytes_of_app a b : bytes_of (a +:+ b) = bytes_of a ++ bytes_of b.
Proof. unfold bytes_of. induction a as [|c a IH]; cbn; [done|]. f_equal. exact IH. Qed.

Lemma str_app_nil_r s : s +:+ "" = s.
Proof. induction s as [|c s IH]; cbn; [done|]. f_equal. exact IH. Qed.

Lemma str_app_assoc a b c : a +:+ (b +:+ c) = (a +:+ b) +:+ c.
Proof. induction a as [|x a IH]; cbn; [done|]. f_equal. exact IH. Qed.

Lemma str_app_inv_l a b c : a +:+ b = a +:+ c -> b = c.
Proof. induction a as [|x a IH]; cbn; [done|]. intros [= H]. auto. Qed.

Lemma str_app_inv_r a b c : a +:+ c = b +:+ c -> a = b.
Proof.
  revert b. induction a as [|x a IH]; intros [|y b]; cbn; intros H; [done| | |].
  - exfalso. apply (f_equal String.length) in H. cbn in H. rewrite str_length_app in H. lia.
  - exfalso. apply (f_equal String.length) in H. cbn in H. rewrite str_length_app in H. lia.
  - injection H as -> H. f_equal. auto.
Qed.

(** *** [strings.HasPrefix], [HasSuffix], [TrimPrefix], [TrimSuffix] *)

Fixpoint strip_prefix (p s : string) : option string :=
  match p, s with
  | "", _ => Some s
  | String a p', String b s' => if decide (a = b) then strip_prefix p' s' else None
  | _, "" => None
  end.

Fixpoint strip_suffix (p s : string) : option string :=
  if decide (s = p) then Some ""
  else match s with
       | "" => None
       | String c s' => String c <$> strip_suffix p s'
       end.

Definition has_prefix (p s : string) : bool := bool_decide (is_Some (strip_prefix p s)).
Definition has_suffix (p s : string) : bool := bool_decide (is_Some (strip_suffix p s)).
Definition trim_prefix (p s : string) : string := default s (strip_prefix p s).
Definition trim_suffix (p s : string) : string := default s (strip_suffix p s).

Lemma strip_prefix_spec p s r : strip_prefix p s = Some r <-> s = p +:+ r.
Proof.
  revert s. induction p as [|a p IH]; intros s; cbn.
  - split; congruence.
  - destruct s as [|b s]; [split; discriminate|]. case_decide as Hab.
    + rewrite IH. subst. split; [by intros ->|by intros [= ->]].
    + split; [done|]. intros [= -> _]. done.
Qed.

Lemma strip_suffix_spec p s r : strip_suffix p s = Some r <-> s = r +:+ p.
Proof.
  revert r. induction s as [|c s IH]; intros r; cbn; case_decide as Hp.
  - subst. split; [by intros [= <-]|]. destruct r; [done|discriminate].
  - split; [done|]. intros H. destruct r; cbn in H; [congruence|discriminate].
  - subst p. split; [by intros [= <-]|]. intros H.
    destruct r as [|x r]; [done|]. exfalso.
    apply (f_equal String.length) in H. rewrite str_length_app in H. cbn in H. lia.
  - destruct (strip_suffix p s) as [q|] eqn:E; cbn.
    + split.
      * intros [= <-]. cbn. f_equal. by apply IH.
      * destruct r as [|x r]; cbn; [congruence|]. intros [= -> H].
        apply IH in H. congruence.
    + split; [done|]. destruct r as [|x r]; cbn; [congruence|]. intros [= -> H].
      apply IH in H. discriminate.
Qed.

Lemma strip_prefix_app p r : strip_prefix p (p +:+ r) = Some r.
Proof. by apply strip_prefix_spec. Qed.

Lemma strip_suffix_app p r : strip_suffix p (r +:+ p) = Some r.
Proof. by apply strip_suffix_spec. Qed.

(** *** [strings.Split] and [strings.Cut] *)

Fixpoint split_on (c : ascii) (s : string) : list string :=
  match s with
  | "" => [""]
  | String x s' =>
      if decide (x = c) then "" :: split_on c s'
      else match split_on c s' with
           | [] => [String x ""]
           | h :: t => String x h :: t
           end
  end.

(** [strings.Cut(s, sep)]: the text before and after the first [sep]. *)
Fixpoint cut_str (sep s : string) : option (string * string) :=
  match strip_prefix sep s with
  | Some r => Some ("", r)
  | None =>
      match s with
      | "" => None
      | String c s' => prod_map (String c) id <$> cut_str sep s'
      end
  end.

Definition str_contains (sep s : string) : bool := bool_decide (is_Some (cut_str sep s)).

Fixpoint has_byte (c : ascii) (s : string) : bool :=
  match s with
  | "" => false
  | String x s' => if decide (x = c) then true else has_byte c s'
  end.

Lemma split_on_nonempty c s : split_on c s <> [].
Proof. destruct s as [|x s]; cbn; [done|]. case_decide; [done|]. by destruct (split_on c s). Qed.

Lemma split_on_none c s : has_byte c s = false -> split_on c s = [s].
Proof.
  induction s as [|x s IH]; cbn; [done|]. case_decide; [done|]. intros Hs. by rewrite (IH Hs).
Qed.

Lemma split_on_app c a b :
  has_byte c a = false -> split_on c (a +:+ String c "" +:+ b) = a :: split_on c b.
Proof.
  induction a as [|x a IH]; cbn; [by rewrite decide_True|].
  case_decide; [done|]. intros H'. cbn in IH. by rewrite (IH H').
Qed.

Lemma has_byte_app c a b : has_byte c (a +:+ b) = has_byte c a || has_byte c b.
Proof. induction a as [|x a IH]; cbn; [done|]. by case_decide. Qed.

Lemma cut_byte_app c a b :
  has_byte c a = false -> cut_str (String c "") (a +:+ String c "" +:+ b) = Some (a, b).
Proof.
  induction a as [|x a IH]; cbn.
  - by rewrite decide_True.
  - case_decide as Hx; [done|]. intros Hs. rewrite decide_False by congruence.
    cbn in IH. by rewrite (IH Hs).
Qed.

Lemma cut_str_spec sep s a b : cut_str sep s = Some (a, b) -> s = a +:+ sep +:+ b.
Proof.
  revert a b. induction s as [|c s IH]; intros a b; cbn.
  - destruct (strip_prefix sep "") as [r|] eqn:E; [|done].
    intros [= <- <-]. by apply strip_prefix_spec in E.
  - destruct (strip_prefix sep (String c s)) as [r|] eqn:E.
    + intros [= <- <-]. by apply strip_prefix_spec in E.
    + destruct (cut_str sep s) as [[x y]|]; [|done]. cbn. intros [= <- <-].
      cbn. f_equal. by apply IH.
Qed.

(** *** [strings.TrimSpace]

    [space_runes] lists the UTF-8 encodings of the code points with Unicode's
    White_Space property, which is what [unicode.IsSpace] tests. *)

Definition space_runes : list string :=
  of_bytes <$>
    [[9]; [10]; [11]; [12]; [13]; [32]; [194; 133]; [194; 160]; [225; 154; 128];
     [226; 128; 128]; [226; 128; 129]; [226; 128; 130]; [226; 128; 131]; [226; 128; 132];
     [226; 128; 133]; [226; 128; 134]; [226; 128; 135]; [226; 128; 136]; [226; 128; 137];
     [226; 128; 138]; [226; 128; 168]; [226; 128; 169]; [226; 128; 175]; [226; 129; 159];
     [227; 128; 128]].

Fixpoint first_rest (ws : list string) (s : string) : option string :=
  match ws with
  | [] => None
  | w :: ws' =>
      match strip_prefix w s with
      | Some r => Some r
      | None => first_rest ws' s
      end
  end.

Fixpoint trim_left_fuel (fuel : nat) (ws : list string) (s : string) : string :=
  match fuel with
  | O => s
  | S n => match first_rest ws s with Some r => trim_left_fuel n ws r | None => s end
  end.

Definition trim_left (ws : list string) (s : string) : string :=
  trim_left_fuel (String.length s) ws s.

Definition str_rev (s : string) : string :=
  String.string_of_list_ascii (reverse (String.list_ascii_of_string s)).

Definition trim_right (ws : list string) (s : string) : string :=
  str_rev (trim_left (str_rev <$> ws) (str_rev s)).

Definition trim_both (ws : list string) (s : string) : string := trim_right ws (trim_left ws s).
Definition trim_space (s : string) : string := trim_both space_runes s.

Lemma list_of_app a b :
  String.list_ascii_of_string (a +:+ b) =
  String.list_ascii_of_string a ++ String.list_ascii_of_string b.
Proof. induction a as [|c a IH]; cbn; [done|]. f_equal. exact IH. Qed.

Lemma of_list_app a b :
  String.string_of_list_ascii (a ++ b) =
  String.string_of_list_ascii a +:+ String.string_of_list_ascii b.
Proof. induction a as [|c a IH]; cbn; [done|]. f_equal. exact IH. Qed.

Lemma str_rev_rev s : str_rev (str_rev s) = s.
Proof.
  unfold str_rev. rewrite String.list_ascii_of_string_of_list_ascii, reverse_involutive.
  apply String.string_of_list_ascii_of_string.
Qed.

Lemma str_rev_app a b : str_rev (a +:+ b) = str_rev b +:+ str_rev a.
Proof. unfold str_rev. by rewrite list_of_app, reverse_app, of_list_app. Qed.

Lemma str_rev_length s : String.length (str_rev s) = String.length s.
Proof.
  unfold str_rev.
  assert (forall l, String.length (String.string_of_list_ascii l) = length l) as ->.
  { induction l; cbn; auto. }
  rewrite length_reverse. induction s; cbn; auto.
Qed.

Lemma first_rest_Some ws s r :
  first_rest ws s = Some r -> exists w, w ∈ ws /\ s = w +:+ r.
Proof.
  induction ws as [|w ws IH]; cbn; [done|].
  destruct (strip_prefix w s) as [q|] eqn:E.
  - intros [= ->]. apply strip_prefix_spec in E. exists w. split; [left|done].
  - intros H. destruct (IH H) as (w' & ? & ?). exists w'. split; [by right|done].
Qed.

Lemma first_rest_None ws s : first_rest ws s = None <-> forall w r, w ∈ ws -> s <> w +:+ r.
Proof.
  induction ws as [|w ws IH]; cbn.
  - split; [|done]. intros _ w r Hw. by apply elem_of_nil in Hw.
  - destruct (strip_prefix w s) as [q|] eqn:E.
    + split; [done|]. intros H. apply strip_prefix_spec in E. by destruct (H w q ltac:(left)).
    + rewrite IH. split.
      * intros H w' r [->|Hw]%elem_of_cons; [|by apply H].
        intros Heq. apply strip_prefix_spec in Heq. congruence.
      * intros H w' r Hw. apply H. by right.
Qed.

(** No trimmable prefix is left, provided no entry of the cut set is empty. *)
Lemma trim_left_None ws s :
  "" ∉ ws -> first_rest ws (trim_left ws s) = None.
Proof.
  intros Hne. unfold trim_left.
  assert (forall n t, (String.length t <= n)%nat ->
    first_rest ws (trim_left_fuel n ws t) = None) as H; [|by apply H].
  induction n as [|n IH]; intros t Ht.
  - destruct t; [|cbn in Ht; lia]. cbn. apply first_rest_None. intros w r Hw Heq.
    destruct w; [done|discriminate].
  - cbn. destruct (first_rest ws t) as [r|] eqn:E; [|done].
    apply IH. apply first_rest_Some in E as (w & Hw & ->).
    rewrite str_length_app in Ht. destruct w; [done|]. cbn in Ht. lia.
Qed.

Lemma trim_left_suffix ws s : exists p, s = p +:+ trim_left ws s.
Proof.
  unfold trim_left. generalize (String.length s) as n. intros n. revert s.
  induction n as [|n IH]; intros s; cbn; [by exists ""|].
  destruct (first_rest ws s) as [r|] eqn:E; [|by exists ""].
  apply first_rest_Some in E as (w & _ & ->). destruct (IH r) as [p Hp].
  exists (w +:+ p). rewrite <- str_app_assoc. by rewrite <- Hp.
Qed.

Lemma trim_left_id ws s : first_rest ws s = None -> trim_left ws s = s.
Proof. unfold trim_left. destruct (String.length s); [done|]. cbn. by intros ->. Qed.

Lemma trim_right_prefix ws s : exists p, s = trim_right ws s +:+ p.
Proof.
  destruct (trim_left_suffix (str_rev <$> ws) (str_rev s)) as [p Hp].
  exists (str_rev p). unfold trim_right. rewrite <- str_rev_app, <- Hp. by rewrite str_rev_rev.
Qed.

Lemma trim_both_idem ws s : "" ∉ ws -> trim_both ws (trim_both ws s) = trim_both ws s.
Proof.
  intros Hne. unfold trim_both.
  assert ("" ∉ str_rev <$> ws) as Hne'.
  { intros (w & Heq & Hw)%list_elem_of_fmap. apply (f_equal str_rev) in Heq.
    rewrite str_rev_rev in Heq. cbn in Heq. by subst. }
  rewrite (trim_left_id ws (trim_right _ _)).
  - unfold trim_right at 1. rewrite trim_left_id; [by rewrite str_rev_rev|].
    unfold trim_right. rewrite str_rev_rev. by apply trim_left_None.
  - apply first_rest_None. intros w r Hw Heq.
    destruct (trim_right_prefix ws (trim_left ws s)) as [p Hp].
    rewrite Heq, <- str_app_assoc in Hp.
    eapply (proj1 (first_rest_None _ _)) in Hp; [done|by apply trim_left_None|done].
Qed.

Lemma trim_space_idem s : trim_space (trim_space s) = trim_space s.
Proof.
  apply trim_both_idem. rewrite list_elem_of_In. cbn. intuition discriminate.
Qed.

Lemma slen_trim_both ws s : slen (trim_both ws s) <= slen s.
Proof.
  unfold trim_both. destruct (trim_left_suffix ws s) as [p Hp].
  destruct (trim_right_prefix ws (trim_left ws s)) as [q Hq].
  apply (f_equal slen) in Hp, Hq. rewrite slen_app in Hp, Hq.
  pose proof (slen_nonneg p). pose proof (slen_nonneg q). lia.
Qed.

(** *** Case mapping

    The ASCII path of [strings.ToUpper] and [strings.ToLower] is written out;
    a string with a byte from 0x80 on goes through Go's Unicode case tables,
    which are a parameter without laws. *)

Class Unicode := {
  unicode_to_upper : string -> string;
  unicode_to_lower : string -> string;
  unicode_quote : string -> string;
}.

Fixpoint str_map (f : Z -> Z) (s : string) : string :=
  match s with
  | "" => ""
  | String c s' => String (byte_to (f (byte_of c))) (str_map f s')
  end.

Fixpoint str_forall (p : Z -> bool) (s : string) : bool :=
  match s with
  | "" => true
  | String c s' => p (byte_of c) && str_forall p s'
  end.

Definition is_ascii (s : string) : bool := str_forall (fun b => b <? 128) s.
Definition is_lower_b (b : Z) : bool := (97 <=? b) && (b <=? 122).
Definition is_upper_b (b : Z) : bool := (65 <=? b) && (b <=? 90).
Definition is_digit_b (b : Z) : bool := (48 <=? b) && (b <=? 57).
Definition upper_b (b : Z) : Z := if is_lower_b b then b - 32 else b.
Definition lower_b (b : Z) : Z := if is_upper_b b then b + 32 else b.

Definition to_upper `{Unicode} (s : string) : string :=
  if is_ascii s then str_map upper_b s else unicode_to_upper s.
Definition to_lower `{Unicode} (s : string) : string :=
  if is_ascii s then str_map lower_b s else unicode_to_lower s.

(** A concrete instance, used by the witnesses only. *)
Definition DemoUnicode : Unicode :=
  {| unicode_to_upper s := s; unicode_to_lower s := s; unicode_quote s := s |}.

(** [%q] of package fmt, on ASCII. *)
Definition dquote : string := String (chr 34) "".
Definition quote_hex (d : Z) : ascii := byte_to (if d <? 10 then d + 48 else d + 87).
Definition quote_b (b : Z) : string :=
  if decide (b = 34) then "\" +:+ dquote
  else if decide (b = 92) then "\\"
  else if (32 <=? b) && (b <=? 126) then String (byte_to b) ""
  else if decide (b = 7) then "\a" else if decide (b = 8) then "\b"
  else if decide (b = 9) then "\t" else if decide (b = 10) then "\n"
  else if decide (b = 11) then "\v" else if decide (b = 12) then "\f"
  else if decide (b = 13) then "\r"
  else "\x" +:+ String (quote_hex (b / 16)) (String (quote_hex (b mod 16)) "").
Definition fmt_q `{Unicode} (s : string) : string :=
  if is_ascii s
  then dquote +:+ foldr (fun b acc => quote_b b +:+ acc) dquote (bytes_of s)
  else unicode_quote s.

Lemma str_forall_app p a b : str_forall p (a +:+ b) = str_forall p a && str_forall p b.
Proof. induction a as [|c a IH]; cbn; [done|]. by rewrite IH, andb_assoc. Qed.

Lemma str_forall_impl p q s :
  (forall b, 0 <= b < 256 -> p b = true -> q b = true) ->
  str_forall p s = true -> str_forall q s = true.
Proof.
  intros H. induction s as [|c s IH]; cbn; [done|].
  rewrite !andb_true_iff. intros [H1 H2]. split; [|by apply IH].
  apply H; [apply byte_of_range|done].
Qed.

Lemma str_forall_substring p n s :
  str_forall p s = true -> str_forall p (String.substring 0 n s) = true.
Proof.
  revert s. induction n as [|n IH]; intros [|c s]; cbn; try done.
  rewrite !andb_true_iff. naive_solver.
Qed.

Lemma has_byte_forall c p s :
  p (byte_of c) = false -> str_forall p s = true -> has_byte c s = false.
Proof.
  intros Hc. induction s as [|x s IH]; cbn; [done|].
  rewrite andb_true_iff. intros [H1 H2]. case_decide; [|by apply IH]. congruence.
Qed.

Lemma str_forall_rev p s : str_forall p (str_rev s) = str_forall p s.
Proof.
  induction s as [|c s IH]; [done|]. change (String c s) with (String c "" +:+ s).
  rewrite str_rev_app, !str_forall_app, IH. apply andb_comm.
Qed.

(** Text that neither begins nor ends with white space or with a byte of a
    multi-byte rune is left alone by [strings.TrimSpace]. *)
Definition visible_b (b : Z) : bool := (33 <=? b) && (b <=? 127).
Definition starts_visible (s : string) : bool :=
  match s with "" => true | String c _ => visible_b (byte_of c) end.

Lemma starts_visible_no_space ws s :
  forallb (fun w => match w with "" => false | String c _ => negb (visible_b (byte_of c)) end) ws = true ->
  starts_visible s = true -> first_rest ws s = None.
Proof.
  intros Hws Hs. apply first_rest_None. intros w r Hw ->.
  rewrite forallb_forall in Hws. apply list_elem_of_In, Hws in Hw.
  destruct w as [|c w]; [done|]. cbn in Hs. by rewrite Hs in Hw.
Qed.

Lemma trim_space_ends s : starts_visible s = true -> starts_visible (str_rev s) = true -> trim_space s = s.
Proof.
  intros Hl Hr. unfold trim_space, trim_both.
  rewrite trim_left_id by (by apply starts_visible_no_space; [vm_compute|]).
  unfold trim_right. rewrite trim_left_id; [by rewrite str_rev_rev|].
  by apply starts_visible_no_space; [vm_compute|].
Qed.

Lemma starts_visible_forall s : str_forall visible_b s = true -> starts_visible s = true.
Proof. destruct s; [done|]. cbn. by intros [? _]%andb_true_iff. Qed.

Lemma trim_space_visible s : str_forall visible_b s = true -> trim_space s = s.
Proof.
  intros Hs. apply trim_space_ends; apply starts_visible_forall; [done|by rewrite str_forall_rev].
Qed.

(** A visible word before a visible word. *)
Lemma trim_space_words a m b :
  starts_visible a = true -> a <> "" -> str_forall visible_b b = true -> b <> "" ->
  trim_space (a +:+ m +:+ b) = a +:+ m +:+ b.
Proof.
  intros Ha Hne Hb Hnb. apply trim_space_ends; [by destruct a|].
  rewrite !str_rev_app. destruct (str_rev b) as [|c r] eqn:E.
  - apply (f_equal str_rev) in E. by rewrite str_rev_rev in E.
  - rewrite <- str_forall_rev, E in Hb. by apply starts_visible_forall in Hb.
Qed.

(** *** Decimal: [fmt.Sprintf("%d")] and [strconv.ParseInt(s, 10, 64)] *)

Definition udec (n : N) : string := NilZero.string_of_uint (N.to_uint n).
Definition dec (z : Z) : string :=
  if z <? 0 then "-" +:+ udec (Z.abs_N z) else udec (Z.abs_N z).

Definition parse_udec (s : string) : option N := N.of_uint <$> NilZero.uint_of_string s.

Definition parse_int64 (s : string) : option Z :=
  let go (neg : bool) (digits : string) : option Z :=
    match parse_udec digits with
    | Some n =>
        let v := if neg then - Z.of_N n else Z.of_N n in
        if in_int64b v then Some v else None
    | None => None
    end in
  match s with
  | String "-" rest => go true rest
  | String "+" rest => go false rest
  | _ => go false s
  end.

Lemma to_uint_nonnil n : N.to_uint n <> Decimal.Nil.
Proof.
  destruct n as [|p]; cbn; [done|]. apply DecimalPos.Unsigned.to_uint_nonnil.
Qed.

Lemma parse_udec_udec n : parse_udec (udec n) = Some n.
Proof.
  unfold parse_udec, udec. rewrite NilZero.usu by apply to_uint_nonnil. cbn.
  f_equal. apply DecimalN.Unsigned.of_to.
Qed.

Lemma string_of_uint_digits d : str_forall is_digit_b (NilEmpty.string_of_uint d) = true.
Proof. induction d; cbn; auto. Qed.

Lemma udec_digits n : str_forall is_digit_b (udec n) = true.
Proof.
  unfold udec, NilZero.string_of_uint.
  destruct (N.to_uint n); [done|..]; apply string_of_uint_digits.
Qed.

Lemma udec_nonempty n : udec n <> "".
Proof.
  intros H. pose proof (parse_udec_udec n) as E. rewrite H in E. discriminate.
Qed.

Lemma parse_int64_dec z : in_int64 z -> parse_int64 (dec z) = Some z.
Proof.
  intros Hz. unfold dec. destruct (Z.ltb_spec z 0).
  - cbn. rewrite parse_udec_udec. cbn.
    replace (- Z.of_N (Z.abs_N z)) with z by lia.
    apply in_int64b_spec in Hz. by rewrite Hz.
  - pose proof (udec_digits (Z.abs_N z)) as Hd.
    assert (parse_int64 (udec (Z.abs_N z)) =
      match parse_udec (udec (Z.abs_N z)) with
      | Some n => if in_int64b (Z.of_N n) then Some (Z.of_N n) else None
      | None => None end) as ->.
    { destruct (udec (Z.abs_N z)) as [|c s] eqn:E; [done|].
      cbn in Hd. apply andb_true_iff in Hd as [Hc _].
      unfold parse_int64. destruct c as [[] [] [] [] [] [] [] []]; try done; discriminate Hc. }
    rewrite parse_udec_udec. replace (Z.of_N (Z.abs_N z)) with z by lia.
    apply in_int64b_spec in Hz. by rewrite Hz.
Qed.

(** ** Automation *)

(** [inv_bind] opens the monadic binds of a successful run. *)
Ltac inv_bind :=
  repeat match goal with
  | H : (_ ≫= _) _ = (Ok _, _) |- _ => apply SE_bind_inv in H as (? & ? & ? & H)
  | H : _ ≫= _ = Ok _ |- _ => apply bind_Ok in H as (? & ? & H)
  end.

(** [case_all] splits every guard of the goal; [case_in H] those of [H]. *)
Ltac case_all := repeat (case_match; simplify_eq/=).
Ltac case_in H :=
  repeat (match type of H with
          | context [match ?x with _ => _ end] => destruct x eqn:?; simplify_eq/=
          end).

(** [to_prop] turns boolean comparisons into propositions [lia] reads. *)
Ltac to_prop :=
  repeat match goal with
  | H : (_ && _) = true |- _ => apply andb_true_iff in H as [? ?]
  | H : (_ || _) = false |- _ => apply orb_false_iff in H as [? ?]
  | H : negb _ = true |- _ => apply negb_true_iff in H
  | H : negb _ = false |- _ => apply negb_false_iff in H
  | H : (_ <? _) = true |- _ => apply Z.ltb_lt in H
  | H : (_ <? _) = false |- _ => apply Z.ltb_ge in H
  | H : (_ <=? _) = true |- _ => apply Z.leb_le in H
  | H : (_ <=? _) = false |- _ => apply Z.leb_gt in H
  | H : (_ =? _) = true |- _ => apply Z.eqb_eq in H
  | H : (_ =? _) = false |- _ => apply Z.eqb_neq in H
  | H : bool_decide _ = true |- _ => apply bool_decide_eq_true in H
  | H : bool_decide _ = false |- _ => apply bool_decide_eq_false in H
  end.

Create HintDb go discriminated.
Create Rewrite HintDb go.
#[export] Hint Resolve slen_nonneg byte_of_range wrap64_range udec_digits : go.
#[export] Hint Rewrite str_app_nil_r str_rev_rev byte_to_of of_bytes_of
  strip_prefix_app strip_suffix_app slen_app : go.
