(* ===== verification/Apperr.v ===== *)
(** * Errors and their HTTP rendering

    The error values of the service ([internal/platform/apperr], with the
    sentinels the other packages declare) and the single place where they meet
    HTTP ([internal/platform/httperr/status.go]). *)

From S2P Require Import Prelude.

(** ** Error values

    [errors.New] sentinels are compared by identity; they are constructors.
    [Wrapf msg inner] is [fmt.Errorf("...%w...", inner)] with its formatted text
    [msg], [Plain] an error no other package inspects, [PgErr] the driver's
    [*pgconn.PgError] with its SQLSTATE. *)

Inductive sentinel :=
  | ErrNotFound | ErrConflict | ErrNoScope | ErrForbidden | ErrUnauthorized
  | ErrValidation | ErrVersionConflict | ErrUnavailable
  | CursorErrMalformed | CursorErrSignature | CursorErrBinding
  | WebhookErrNotFound | WebhookErrNotDead
  | ErrKeyBlank | ErrKeyTooLong | ErrFingerprintMismatch | ErrInProgress
  | ErrNotReplayable | ErrSweepNeedsPrivilegedRole
  | ErrRefreshUnknown | ErrRefreshExpired | ErrRefreshRevoked | ErrRefreshReused
  | ErrRefreshRetryRace
  | ErrAPIKeyUnknown | ErrAPIKeyRevoked | ErrAPIKeyExpired
  | ErrTokenInvalid | ErrInvalidHash
  | SsrfErrBlocked | SsrfErrScheme | SsrfErrNoAddresses
  | PgxErrNoRows.

#[export] Instance sentinel_eq_dec : EqDecision sentinel.
Proof. solve_decision. Defined.

Inductive err :=
  | Sentinel (s : sentinel)
  | ClientError (Field Msg : string)
  | Plain (msg : string)
  | Wrapf (msg : string) (inner : err)
  | PgErr (code msg : string)
  | ReuseError (UserID FamilyID : N)
  | ReuseErrorRevocationFailed (UserID FamilyID : N) (RevocationFailed : err)
  | LeaseLostError (ID : N)
  | DeadLetterError (ID : N) (Event : string) (EndpointID : N).

Notation go_result := (result err).

Definition sentinel_text (s : sentinel) : string :=
  match s with
  | ErrNotFound => "not found"
  | ErrConflict => "conflict"
  | ErrNoScope => "no tenant scope"
  | ErrForbidden => "forbidden"
  | ErrUnauthorized => "unauthorized"
  | ErrValidation => "validation failed"
  | ErrVersionConflict => "version conflict"
  | ErrUnavailable => "dependency unavailable"
  | CursorErrMalformed => "cursor: malformed"
  | CursorErrSignature => "cursor: signature does not verify"
  | CursorErrBinding => "cursor: does not belong to this query"
  | WebhookErrNotFound => "webhook: not found"
  | WebhookErrNotDead => "webhook: only a dead delivery can be replayed"
  | ErrKeyBlank => "idempotency: the key must not be blank"
  | ErrKeyTooLong => "idempotency: key exceeds the maximum length"
  | ErrFingerprintMismatch => "idempotency: this key was already used for a different request"
  | ErrInProgress => "idempotency: a request with this key is currently in progress"
  | ErrNotReplayable => "idempotency: the original response was too large to replay"
  | ErrSweepNeedsPrivilegedRole =>
      "idempotency: sweeping requires a role that bypasses row-level security"
  | ErrRefreshUnknown => "authn: refresh token not recognised"
  | ErrRefreshExpired => "authn: refresh token expired"
  | ErrRefreshRevoked => "authn: refresh family revoked"
  | ErrRefreshReused => "authn: refresh token replayed"
  | ErrRefreshRetryRace => "authn: concurrent refresh retry"
  | ErrAPIKeyUnknown => "authn: api key not recognised"
  | ErrAPIKeyRevoked => "authn: api key revoked"
  | ErrAPIKeyExpired => "authn: api key expired"
  | ErrTokenInvalid => "authn: invalid access token"
  | ErrInvalidHash => "authn: malformed password hash"
  | SsrfErrBlocked => "ssrf: the address is not publicly routable"
  | SsrfErrScheme => "ssrf: only http and https are permitted"
  | SsrfErrNoAddresses => "ssrf: the host did not resolve"
  | PgxErrNoRows => "no rows in result set"
  end.

(** [err.Error()]; the texts of the typed errors are not inspected anywhere and
    are kept schematic. *)
Definition error_text (e : err) : string :=
  match e with
  | Sentinel s => sentinel_text s
  | ClientError _ m => m
  | Plain m | Wrapf m _ | PgErr _ m => m
  | ReuseError _ _ | ReuseErrorRevocationFailed _ _ _ => "refresh token replayed"
  | LeaseLostError _ => "webhook: delivery was reclaimed by another worker before it settled"
  | DeadLetterError _ _ _ => "webhook: delivery exhausted its attempts and is now dead"
  end.

(** [errors.Is(err, target)]: the unwrap chain, with the [Is] method of
    [ReuseError] and the [Unwrap] of [ClientError]. *)
Fixpoint Is (e : err) (target : sentinel) : bool :=
  match e with
  | Sentinel s => bool_decide (s = target)
  | ClientError _ _ => bool_decide (target = ErrValidation)
  | Plain _ | PgErr _ _ | LeaseLostError _ | DeadLetterError _ _ _ => false
  | Wrapf _ i => Is i target
  | ReuseError _ _ => bool_decide (target = ErrRefreshReused)
  | ReuseErrorRevocationFailed _ _ i => bool_decide (target = ErrRefreshReused) || Is i target
  end.

(** [errors.As(err, &ce)] for [*apperr.ClientError]. *)
Fixpoint AsClientError (e : err) : option (string * string) :=
  match e with
  | ClientError f m => Some (f, m)
  | Wrapf _ i => AsClientError i
  | ReuseErrorRevocationFailed _ _ i => AsClientError i
  | _ => None
  end.

Fixpoint AsPgErr (e : err) : option string :=
  match e with
  | PgErr code _ => Some code
  | Wrapf _ i => AsPgErr i
  | ReuseErrorRevocationFailed _ _ i => AsPgErr i
  | _ => None
  end.

Definition Invalid (field msg : string) : err := ClientError field msg.

Definition Sentinels : list sentinel :=
  [ErrNotFound; ErrConflict; ErrNoScope; ErrForbidden; ErrUnauthorized;
   ErrValidation; ErrVersionConflict; ErrUnavailable].

Definition ClientSafe (e : err) : bool :=
  Is e ErrNotFound || Is e ErrValidation || Is e ErrConflict ||
  Is e ErrVersionConflict || Is e ErrUnauthorized || Is e ErrForbidden.

(** [db/errors.go]: the driver's constraint violations. *)
Definition IsUniqueViolation (e : err) : bool := bool_decide (AsPgErr e = Some "23505").
Definition IsForeignKeyViolation (e : err) : bool := bool_decide (AsPgErr e = Some "23503").
Definition IsCheckViolation (e : err) : bool := bool_decide (AsPgErr e = Some "23514").

(** ** [httperr.Map] *)

Record Problem := mkProblem {
  Status : Z;
  Code : string;
  Message : string;
  Details : option string;   (* the [field] member of the details map *)
}.

Definition fieldDetails (field : string) : option string :=
  if decide (field = "") then None else Some field.

(** One pass over the trim list: [msg] and whether anything changed. *)
Definition trim_step (acc : string * bool) (s : sentinel) : string * bool :=
  let '(msg, changed) := acc in
  let text := sentinel_text s in
  if decide (msg = text) then ("", true)
  else match strip_suffix (": " +:+ text) msg with
       | Some m => (m, true)
       | None => (msg, changed)
       end.

Definition trim_pass (msg : string) : string * bool :=
  fold_left trim_step (Sentinels ++ [ErrUnauthorized]) (msg, false).

(** [for range 4 { ...; if !changed { break } }] *)
Fixpoint trim_rounds (n : nat) (msg : string) : string :=
  match n with
  | O => msg
  | S n' => let '(m, changed) := trim_pass msg in
            if changed then trim_rounds n' m else m
  end.

Definition clientMessage (e : err) (fallback : string) : string :=
  let msg := trim_space (trim_rounds 4 (error_text e)) in
  if decide (msg = "") then fallback else msg.

Definition Map (e : err) : Problem :=
  match AsClientError e with
  | Some (f, m) => mkProblem 400 "validation_failed" m (fieldDetails f)
  | None =>
    if Is e ErrNotFound then
      mkProblem 404 "not_found" (clientMessage e "the requested resource does not exist") None
    else if Is e ErrUnauthorized then
      mkProblem 401 "unauthorized" "authentication required" None
    else if Is e ErrForbidden then
      mkProblem 403 "forbidden" (clientMessage e "this credential may not perform that action") None
    else if Is e ErrVersionConflict then
      mkProblem 409 "version_conflict"
        "the resource changed since it was read; re-read it and retry" None
    else if Is e ErrConflict then
      mkProblem 409 "conflict" (clientMessage e "that value is already in use") None
    else if Is e ErrValidation then
      mkProblem 400 "validation_failed" (clientMessage e "the request failed validation") None
    else if Is e ErrUnavailable then
      mkProblem 503 "service_unavailable" "the service is temporarily unavailable" None
    else mkProblem 500 "internal_error" "an internal error occurred" None
  end.

(** [httperr.Fail]: the response, and whether the cause goes to the log. *)
Definition Fail (e : err) : Problem * bool := (Map e, negb (ClientSafe e)).

(** ** Lemmas *)

Lemma AsClientError_validation e f m :
  AsClientError e = Some (f, m) -> Is e ErrValidation = true.
Proof.
  induction e; cbn; intros H; try discriminate; auto.
Qed.

(** Two suffixes of one string are suffixes of one another. *)
Lemma suffix_total p a q b :
  p +:+ a = q +:+ b -> is_Some (strip_suffix a b) \/ is_Some (strip_suffix b a).
Proof.
  revert q. induction p as [|c p IH]; intros q H.
  - cbn in H. right. exists q. by apply strip_suffix_spec.
  - destruct q as [|d q].
    + cbn in H. left. exists (String c p). apply strip_suffix_spec. by cbn.
    + cbn in H. injection H as _ H. eauto.
Qed.

Lemma strip_suffix_incompat p a b :
  strip_suffix a b = None -> strip_suffix b a = None -> strip_suffix b (p +:+ a) = None.
Proof.
  intros Ha Hb. destruct (strip_suffix b (p +:+ a)) as [q|] eqn:E; [|done].
  apply strip_suffix_spec in E. destruct (suffix_total _ _ _ _ E) as [[? H]|[? H]]; congruence.
Qed.

(** A message the trim pass leaves alone. *)
Definition clean_message (p : string) : Prop :=
  p <> "" /\ trim_space p = p /\
  forall s, s ∈ Sentinels -> p <> sentinel_text s /\ strip_suffix (": " +:+ sentinel_text s) p = None.

Definition clean_messageb (p : string) : bool :=
  bool_decide (p <> "") && bool_decide (trim_space p = p) &&
  forallb (fun s => bool_decide (p <> sentinel_text s) &&
                    bool_decide (strip_suffix (": " +:+ sentinel_text s) p = None)) Sentinels.

Lemma clean_messageb_spec p : clean_messageb p = true -> clean_message p.
Proof.
  unfold clean_messageb, clean_message. intros H. to_prop. split_and!; [done..|].
  rewrite forallb_forall in *. intros s Hs%list_elem_of_In.
  match goal with H : forall x, In x _ -> _ |- _ => apply H in Hs end.
  to_prop. done.
Qed.

Lemma trim_step_skip p c s :
  p <> sentinel_text s -> strip_suffix (": " +:+ sentinel_text s) p = None ->
  trim_step (p, c) s = (p, c).
Proof. intros H1 H2. unfold trim_step. rewrite decide_False by done. by rewrite H2. Qed.

Lemma trim_pass_clean p l c :
  (forall s, s ∈ l -> p <> sentinel_text s /\ strip_suffix (": " +:+ sentinel_text s) p = None) ->
  fold_left trim_step l (p, c) = (p, c).
Proof.
  induction l as [|s l IH]; intros H; cbn [fold_left]; [done|].
  destruct (H s ltac:(left)). rewrite trim_step_skip by done. apply IH.
  intros t Ht. apply H. by right.
Qed.

(** The whole pass over a message with one sentinel's suffix. *)
Lemma trim_pass_suffix p s l1 l2 c :
  (forall t, t ∈ l1 ++ s :: l2 ->
     p <> sentinel_text t /\ strip_suffix (": " +:+ sentinel_text t) p = None) ->
  (forall t, t ∈ l1 ->
     strip_suffix (": " +:+ sentinel_text s) (": " +:+ sentinel_text t) = None /\
     strip_suffix (": " +:+ sentinel_text t) (": " +:+ sentinel_text s) = None) ->
  (forall t, t ∈ l1 ++ [s] -> strip_suffix (": " +:+ sentinel_text s) (sentinel_text t) = None) ->
  fold_left trim_step (l1 ++ s :: l2) (p +:+ (": " +:+ sentinel_text s), c) = (p, true).
Proof.
  intros Hp Hinc Hne.
  assert (forall t, t ∈ l1 ++ [s] -> p +:+ (": " +:+ sentinel_text s) <> sentinel_text t) as Hne'.
  { intros t Ht Heq. apply Hne in Ht. rewrite <- Heq, strip_suffix_app in Ht. done. }
  rewrite fold_left_app.
  rewrite trim_pass_clean.
  - cbn [fold_left]. unfold trim_step at 2. rewrite decide_False by (apply Hne'; set_solver).
    rewrite strip_suffix_app. apply trim_pass_clean.
    intros t Ht. apply Hp. set_solver.
  - intros t Ht. split; [apply Hne'; set_solver|].
    destruct (Hinc t Ht). by apply strip_suffix_incompat.
Qed.

(** The sentinel names are pairwise unrelated as suffixes. *)
Lemma sentinel_suffixes_apart s t :
  s ∈ Sentinels -> t ∈ Sentinels ->
  strip_suffix (": " +:+ sentinel_text s) (sentinel_text t) = None /\
  (s = t \/
   strip_suffix (": " +:+ sentinel_text s) (": " +:+ sentinel_text t) = None /\
   strip_suffix (": " +:+ sentinel_text t) (": " +:+ sentinel_text s) = None).
Proof.
  assert (Forall (fun s => Forall (fun t =>
    strip_suffix (": " +:+ sentinel_text s) (sentinel_text t) = None /\
    (s = t \/
     strip_suffix (": " +:+ sentinel_text s) (": " +:+ sentinel_text t) = None /\
     strip_suffix (": " +:+ sentinel_text t) (": " +:+ sentinel_text s) = None)) Sentinels)
    Sentinels) as H by (eapply bool_decide_eq_true; vm_compute; reflexivity).
  rewrite Forall_forall in H. intros Hs Ht. specialize (H s Hs).
  rewrite Forall_forall in H. exact (H t Ht).
Qed.

(** The text every wrapped sentinel shows to a client is the sentence in front
    of the sentinel's name. *)
Lemma trim_rounds_wrapped p s :
  clean_message p -> s ∈ Sentinels ->
  trim_rounds 4 (p +:+ (": " +:+ sentinel_text s)) = p.
Proof.
  intros (Hne & _ & Hp) Hs.
  assert (trim_pass (p +:+ (": " +:+ sentinel_text s)) = (p, true)) as E1.
  { unfold trim_pass. destruct (list_elem_of_split _ _ Hs) as (l1 & l2 & Heq).
    rewrite Heq, <- app_assoc. cbn [app]. apply trim_pass_suffix.
    - intros t Ht. apply Hp.
      assert (t ∈ Sentinels ++ [ErrUnauthorized]) as Ht'
        by (rewrite Heq, <- app_assoc; exact Ht).
      rewrite list_elem_of_In in *. cbn in *. tauto.
    - intros t Ht. assert (s <> t /\ t ∈ Sentinels) as [Hst Hin].
      { split; [|rewrite Heq; set_solver]. intros <-.
        assert (NoDup Sentinels) as Hnd by (eapply bool_decide_eq_true; vm_compute; reflexivity).
        rewrite Heq in Hnd. apply NoDup_app in Hnd. set_solver. }
      destruct (sentinel_suffixes_apart s t Hs Hin) as (_ & [H|H]); [done|exact H].
    - intros t Ht. assert (t ∈ Sentinels) as Hin by (rewrite Heq; set_solver).
      by destruct (sentinel_suffixes_apart s t Hs Hin). }
  assert (trim_pass p = (p, false)) as E2.
  { unfold trim_pass. apply trim_pass_clean. intros t Ht. apply Hp.
    rewrite list_elem_of_In in *. cbn in *. tauto. }
  cbn [trim_rounds]. by rewrite E1, E2.
Qed.

(** ** Properties *)

(** C39: An error that is not client-safe never shows its text: the response is one
    of the two fixed problems, and [Fail] logs the cause. *)
Theorem Map_hides_internal_causes e :
  ClientSafe e = false ->
  Fail e = (mkProblem 503 "service_unavailable" "the service is temporarily unavailable" None, true) \/
  Fail e = (mkProblem 500 "internal_error" "an internal error occurred" None, true).
Proof.
  unfold Fail. intros H. rewrite H. unfold ClientSafe in H. to_prop.
  assert (AsClientError e = None) as Hce.
  { destruct (AsClientError e) as [[f m]|] eqn:E; [|done].
    apply AsClientError_validation in E. congruence. }
  unfold Map. rewrite Hce.
  repeat match goal with H : Is e _ = false |- _ => rewrite H; clear H end.
  case_match; auto.
Qed.

Lemma Map_hides_internal_causes_witness :
  ClientSafe (Wrapf "get project: dial tcp 10.0.0.3" (PgErr "08006" "connection failure")) = false /\
  (Fail (Wrapf "get project: dial tcp 10.0.0.3" (PgErr "08006" "connection failure")) =
     (mkProblem 503 "service_unavailable" "the service is temporarily unavailable" None, true) \/
   Fail (Wrapf "get project: dial tcp 10.0.0.3" (PgErr "08006" "connection failure")) =
     (mkProblem 500 "internal_error" "an internal error occurred" None, true)).
Proof.
  split; [reflexivity|]. apply Map_hides_internal_causes. reflexivity.
Defined.

(** A domain message wrapped around a sentinel reaches the client without the
    sentinel's own name, whichever sentinel it wraps. *)
Theorem clientMessage_strips_sentinel p s fallback :
  clean_message p -> s ∈ Sentinels ->
  clientMessage (Wrapf (p +:+ (": " +:+ sentinel_text s)) (Sentinel s)) fallback = p.
Proof.
  intros Hp Hs. unfold clientMessage. cbn [error_text].
  rewrite trim_rounds_wrapped by done. destruct Hp as (Hne & Htrim & _).
  rewrite Htrim. by rewrite decide_False.
Qed.

Lemma clientMessage_strips_sentinel_witness :
  clientMessage (Wrapf "a project with the slug taken already exists: conflict" (Sentinel ErrConflict)) "f"
  = "a project with the slug taken already exists".
Proof.
  apply (clientMessage_strips_sentinel "a project with the slug taken already exists" ErrConflict "f").
  - apply clean_messageb_spec. vm_compute. reflexivity.
  - rewrite list_elem_of_In. cbn. tauto.
Defined.
