(* ===== verification/Encoding.v ===== *)
(** * Byte encodings and digests of Go's standard library

    [encoding/base64] (the unpadded URL and standard alphabets), [encoding/hex],
    [crypto/sha256] and [crypto/hmac], as the service uses them; all executable. *)

From S2P Require Import Prelude.

(** ** base64, unpadded *)

Inductive alphabet := RawURLEncoding | RawStdEncoding.

Definition b64_digit (al : alphabet) (d : Z) : Z :=
  if d <? 26 then d + 65
  else if d <? 52 then d + 71
  else if d <? 62 then d - 4
  else match al with
       | RawURLEncoding => if d =? 62 then 45 else 95
       | RawStdEncoding => if d =? 62 then 43 else 47
       end.

Definition b64_value (al : alphabet) (b : Z) : option Z :=
  if is_upper_b b then Some (b - 65)
  else if is_lower_b b then Some (b - 71)
  else if is_digit_b b then Some (b + 4)
  else match al with
       | RawURLEncoding => if b =? 45 then Some 62 else if b =? 95 then Some 63 else None
       | RawStdEncoding => if b =? 43 then Some 62 else if b =? 47 then Some 63 else None
       end.

Fixpoint b64_sextets (l : list Z) : list Z :=
  match l with
  | [] => []
  | [a] => [a / 4; a mod 4 * 16]
  | [a; b] => [a / 4; a mod 4 * 16 + b / 16; b mod 16 * 4]
  | a :: b :: c :: r =>
      a / 4 :: (a mod 4 * 16 + b / 16) :: (b mod 16 * 4 + c / 64) :: c mod 64 :: b64_sextets r
  end.

(** The trailing bits of a final quantum are ignored, as without [Strict()]. *)
Fixpoint b64_octets (l : list Z) : option (list Z) :=
  match l with
  | [] => Some []
  | [_] => None
  | [a; b] => Some [a * 4 + b / 16]
  | [a; b; c] => Some [a * 4 + b / 16; b mod 16 * 16 + c / 4]
  | a :: b :: c :: d :: r =>
      out ← b64_octets r;
      Some (a * 4 + b / 16 :: (b mod 16 * 16 + c / 4) :: (c mod 4 * 64 + d) :: out)
  end.

Definition b64_encode (al : alphabet) (s : string) : string :=
  of_bytes (b64_digit al <$> b64_sextets (bytes_of s)).

(** [DecodeString] skips carriage returns and line feeds. *)
Definition b64_decode (al : alphabet) (s : string) : option string :=
  ds ← mapM (b64_value al) (base.filter (fun b => b <> 10 /\ b <> 13) (bytes_of s));
  of_bytes <$> b64_octets ds.

(** [list_triple_ind]: induction three elements at a time. *)
Lemma list_triple_ind {A} (P : list A -> Prop) :
  P [] -> (forall a, P [a]) -> (forall a b, P [a; b]) ->
  (forall a b c r, P r -> P (a :: b :: c :: r)) -> forall l, P l.
Proof.
  intros H0 H1 H2 H3. fix IH 1.
  intros [|a [|b [|c r]]]; [exact H0|apply H1|apply H2|apply H3, IH].
Qed.

Ltac div_mod := Z.to_euclidean_division_equations; lia.

Lemma b64_digit_ok al d :
  0 <= d < 64 ->
  b64_value al (b64_digit al d) = Some d /\ 0 <= b64_digit al d < 128 /\
  b64_digit al d <> 10 /\ b64_digit al d <> 13 /\ b64_digit al d <> 46.
Proof.
  intros Hd. assert (Forall (fun d =>
    b64_value al (b64_digit al d) = Some d /\ 0 <= b64_digit al d < 128 /\
    b64_digit al d <> 10 /\ b64_digit al d <> 13 /\ b64_digit al d <> 46) (seqZ 0 64)) as Hf.
  { destruct al; (eapply bool_decide_eq_true; vm_compute; reflexivity). }
  rewrite Forall_forall in Hf. apply Hf, elem_of_seqZ. lia.
Qed.

Lemma b64_sextets_range l :
  Forall (fun b => 0 <= b < 256) l -> Forall (fun d => 0 <= d < 64) (b64_sextets l).
Proof.
  induction l as [|a|a b|a b c r IH] using list_triple_ind; intros H; cbn.
  - constructor.
  - rewrite Forall_singleton in H. repeat constructor; div_mod.
  - apply Forall_cons in H as [Ha H]. rewrite Forall_singleton in H.
    repeat constructor; div_mod.
  - apply Forall_cons in H as [Ha H]. apply Forall_cons in H as [Hb H].
    apply Forall_cons in H as [Hc H]. repeat (constructor; [div_mod|]). auto.
Qed.

Lemma b64_octets_sextets l :
  Forall (fun b => 0 <= b < 256) l -> b64_octets (b64_sextets l) = Some l.
Proof.
  induction l as [|a|a b|a b c r IH] using list_triple_ind; intros H; cbn.
  - done.
  - rewrite Forall_singleton in H. do 2 f_equal. div_mod.
  - apply Forall_cons in H as [Ha H]. rewrite Forall_singleton in H.
    do 2 f_equal; [div_mod|]. f_equal. div_mod.
  - apply Forall_cons in H as [Ha H]. apply Forall_cons in H as [Hb H].
    apply Forall_cons in H as [Hc H]. rewrite IH by done. cbn.
    do 2 f_equal; [div_mod|]. f_equal; [div_mod|]. f_equal. div_mod.
Qed.

(** What holds of the 64 digits of an alphabet holds of every byte of an encoding. *)
Lemma b64_encode_forall al p s :
  (forall d, 0 <= d < 64 -> p (b64_digit al d) = true) -> str_forall p (b64_encode al s) = true.
Proof.
  intros Hp. unfold b64_encode, of_bytes.
  pose proof (b64_sextets_range _ (bytes_of_range s)) as H.
  induction H as [|d ds Hd H IH]; cbn; [done|]. rewrite IH, andb_true_r, byte_of_to.
  destruct (b64_digit_ok al d Hd) as (_ & ? & _). rewrite Z.mod_small by lia. by apply Hp.
Qed.

Lemma b64_encode_chars al s :
  str_forall (fun b => (b <? 128) && negb (b =? 46)) (b64_encode al s) = true.
Proof.
  apply b64_encode_forall. intros d Hd. destruct (b64_digit_ok al d Hd) as (_ & ? & _ & _ & ?).
  destruct (Z.ltb_spec (b64_digit al d) 128), (Z.eqb_spec (b64_digit al d) 46); cbn; lia.
Qed.

Theorem b64_decode_encode al s : b64_decode al (b64_encode al s) = Some s.
Proof.
  unfold b64_decode, b64_encode.
  pose proof (b64_sextets_range _ (bytes_of_range s)) as Hr.
  rewrite bytes_of_of.
  2: { apply Forall_fmap. eapply Forall_impl; [exact Hr|]. intros d Hd. cbn.
       destruct (b64_digit_ok al d Hd) as (_ & ? & _). lia. }
  assert (base.filter (fun b => b <> 10 /\ b <> 13) (b64_digit al <$> b64_sextets (bytes_of s))
          = b64_digit al <$> b64_sextets (bytes_of s)) as ->.
  { clear -Hr. induction Hr as [|d ds Hd H IH]; [done|]. cbn [fmap list_fmap].
    destruct (b64_digit_ok al d Hd) as (_ & _ & ? & ? & _).
    rewrite filter_cons_True by done. by rewrite IH. }
  assert (mapM (b64_value al) (b64_digit al <$> b64_sextets (bytes_of s))
          = Some (b64_sextets (bytes_of s))) as ->.
  { clear -Hr. induction Hr as [|d ds Hd H IH]; [done|]. cbn.
    destruct (b64_digit_ok al d Hd) as (-> & _). cbn. by rewrite IH. }
  cbn. rewrite b64_octets_sextets by apply bytes_of_range. cbn. by rewrite of_bytes_of.
Qed.

(** ** hex *)

Definition hex_digit (d : Z) : Z := if d <? 10 then d + 48 else d + 87.

Definition hex_value (b : Z) : option Z :=
  if is_digit_b b then Some (b - 48)
  else if (97 <=? b) && (b <=? 102) then Some (b - 87)
  else if (65 <=? b) && (b <=? 70) then Some (b - 55)
  else None.

Fixpoint hex_encode (s : string) : string :=
  match s with
  | "" => ""
  | String c s' =>
      String (byte_to (hex_digit (byte_of c / 16)))
        (String (byte_to (hex_digit (byte_of c mod 16))) (hex_encode s'))
  end.

Fixpoint hex_decode (s : string) : option string :=
  match s with
  | "" => Some ""
  | String a (String b s') =>
      x ← hex_value (byte_of a); y ← hex_value (byte_of b); r ← hex_decode s';
      Some (String (byte_to (x * 16 + y)) r)
  | String _ "" => None
  end.

Lemma hex_value_digit d :
  0 <= d < 16 -> hex_value (byte_of (byte_to (hex_digit d))) = Some d.
Proof.
  intros Hd. assert (Forall (fun d => hex_value (byte_of (byte_to (hex_digit d))) = Some d)
    (seqZ 0 16)) as Hf by (eapply bool_decide_eq_true; vm_compute; reflexivity).
  rewrite Forall_forall in Hf. apply Hf, elem_of_seqZ. lia.
Qed.

Theorem hex_decode_encode s : hex_decode (hex_encode s) = Some s.
Proof.
  induction s as [|c s IH]; [done|]. cbn [hex_encode hex_decode].
  pose proof (byte_of_range c). rewrite !hex_value_digit by div_mod. cbn.
  rewrite IH. cbn. f_equal. f_equal.
  replace (byte_of c / 16 * 16 + byte_of c mod 16) with (byte_of c) by div_mod.
  apply byte_to_of.
Qed.

Definition is_hex_lower_b (b : Z) : bool := is_digit_b b || ((97 <=? b) && (b <=? 102)).

Lemma hex_encode_chars s : str_forall is_hex_lower_b (hex_encode s) = true.
Proof.
  induction s as [|c s IH]; [done|]. cbn [hex_encode str_forall]. rewrite IH, andb_true_r.
  assert (Forall (fun d => is_hex_lower_b (byte_of (byte_to (hex_digit d))) = true) (seqZ 0 16))
    as Hf by (eapply bool_decide_eq_true; vm_compute; reflexivity).
  rewrite Forall_forall in Hf. pose proof (byte_of_range c).
  rewrite !Hf; [done|apply elem_of_seqZ; div_mod..].
Qed.

Lemma hex_encode_length s : slen (hex_encode s) = 2 * slen s.
Proof.
  unfold slen. induction s as [|c s IH]; [done|]. cbn [hex_encode String.length]. lia.
Qed.

(** ** SHA-256 *)

Module Sha256.

Definition w32 (x : Z) : Z := x mod 2 ^ 32.
Definition rotr (n x : Z) : Z := Z.lor (Z.shiftr x n) (w32 (Z.shiftl x (32 - n))).
Definition ch (x y z : Z) : Z := Z.lxor (Z.land x y) (Z.land (Z.lxor x (2 ^ 32 - 1)) z).
Definition maj (x y z : Z) : Z := Z.lxor (Z.land x y) (Z.lxor (Z.land x z) (Z.land y z)).
Definition bsig0 (x : Z) : Z := Z.lxor (rotr 2 x) (Z.lxor (rotr 13 x) (rotr 22 x)).
Definition bsig1 (x : Z) : Z := Z.lxor (rotr 6 x) (Z.lxor (rotr 11 x) (rotr 25 x)).
Definition ssig0 (x : Z) : Z := Z.lxor (rotr 7 x) (Z.lxor (rotr 18 x) (Z.shiftr x 3)).
Definition ssig1 (x : Z) : Z := Z.lxor (rotr 17 x) (Z.lxor (rotr 19 x) (Z.shiftr x 10)).

(** The constants: the first 32 bits of the fractional parts of the roots of the
    first primes. *)
Definition is_prime (n : Z) : bool := forallb (fun d => negb (n mod Z.of_nat d =? 0)) (seq 2 (Z.to_nat n - 2)).
Definition primes (upto : nat) : list Z := filter (fun n => is_prime n = true) (Z.of_nat <$> seq 2 (upto - 1)).
Definition root (k n : Z) : Z :=
  fold_left (fun r b => let r' := r + 2 ^ Z.of_nat b in if r' ^ k <=? n then r' else r) (reverse (seq 0 40)) 0.
Definition frac_root (k p : Z) : Z := root k (p * 2 ^ (32 * k)) mod 2 ^ 32.

Definition K : list Z := Eval vm_compute in frac_root 3 <$> primes 311.

Record hstate := H8 { ha : Z; hb : Z; hc : Z; hd : Z; he : Z; hf : Z; hg : Z; hh : Z }.

Definition init : hstate := Eval vm_compute in
  match frac_root 2 <$> primes 19 with
  | [a; b; c; d; e; f; g; h] => H8 a b c d e f g h
  | _ => H8 0 0 0 0 0 0 0 0
  end.

(** The message schedule, newest word first. *)
Fixpoint extend (n : nat) (ws : list Z) : list Z :=
match n with
| O => ws
| S n' =>
    let w i := nth i ws 0 in
    extend n' (w32 (ssig1 (w 1%nat) + w 6%nat + ssig0 (w 14%nat) + w 15%nat) :: ws)
end.

Fixpoint words (l : list Z) : list Z :=
match l with
| a :: b :: c :: d :: r => (a * 2 ^ 24 + b * 2 ^ 16 + c * 2 ^ 8 + d) :: words r
| _ => []
end.

Definition round (s : hstate) (kw : Z * Z) : hstate :=
let t1 := hh s + bsig1 (he s) + ch (he s) (hf s) (hg s) + kw.1 + kw.2 in
let t2 := bsig0 (ha s) + maj (ha s) (hb s) (hc s) in
H8 (w32 (t1 + t2)) (ha s) (hb s) (hc s) (w32 (hd s + t1)) (he s) (hf s) (hg s).

Definition compress (s : hstate) (block : list Z) : hstate :=
let ws := reverse (extend 48 (reverse (words block))) in
let t := fold_left round (zip K ws) s in
H8 (w32 (ha s + ha t)) (w32 (hb s + hb t)) (w32 (hc s + hc t)) (w32 (hd s + hd t))
   (w32 (he s + he t)) (w32 (hf s + hf t)) (w32 (hg s + hg t)) (w32 (hh s + hh t)).

Definition be (n : nat) (x : Z) : list Z :=
(fun i => Z.shiftr x (8 * Z.of_nat i) mod 256) <$> reverse (seq 0 n).

Definition pad (msg : list Z) : list Z :=
let n := Z.of_nat (length msg) in
msg ++ 0x80 :: repeat 0 (Z.to_nat ((55 - n) mod 64)) ++ be 8 (8 * n).

Fixpoint blocks (fuel : nat) (s : hstate) (l : list Z) : hstate :=
match fuel with
| O => s
| S f => match l with [] => s | _ => blocks f (compress s (take 64 l)) (drop 64 l) end
end.

Definition digest (s : hstate) : list Z :=
be 4 (ha s) ++ be 4 (hb s) ++ be 4 (hc s) ++ be 4 (hd s) ++
be 4 (he s) ++ be 4 (hf s) ++ be 4 (hg s) ++ be 4 (hh s).

Definition sum (msg : list Z) : list Z :=
let p := pad msg in digest (blocks (S (length p / 64)) init p).

End Sha256.

Definition sha256 (s : string) : string := of_bytes (Sha256.sum (bytes_of s)).

(** ** HMAC-SHA256 *)

Definition hmac_sha256 (key msg : string) : string :=
  let k0 := if 64 <? slen key then Sha256.sum (bytes_of key) else bytes_of key in
  let k := k0 ++ repeat 0 (64 - length k0) in
  of_bytes (Sha256.sum ((Z.lxor 0x5c <$> k) ++ Sha256.sum ((Z.lxor 0x36 <$> k) ++ bytes_of msg))).

Lemma sha256_length s : slen (sha256 s) = 32.
Proof. unfold slen, sha256. by rewrite length_of_bytes. Qed.

Lemma hmac_length k m : slen (hmac_sha256 k m) = 32.
Proof. unfold slen, hmac_sha256. by rewrite length_of_bytes. Qed.

(** The published test vectors. *)
Example sha256_abc : hex_encode (sha256 "abc") =
  "ba7816bf8f01cfea414140de5dae2223b00361a396177a9cb410ff61f20015ad".
Proof. vm_compute. reflexivity. Qed.

Example sha256_two_blocks :
  hex_encode (sha256 "abcdbcdecdefdefgefghfghighijhijkijkljklmklmnlmnomnopnopq") =
  "248d6a61d20638b8e5c026930c3e6039a33ce45964ff2167f6ecedd419db06c1".
Proof. vm_compute. reflexivity. Qed.

Example hmac_vector : hex_encode (hmac_sha256 "Jefe" "what do ya want for nothing?") =
  "5bdcc146bf60754e6a042426089575c75a003f089d2739839dec58b964ec3843".
Proof. vm_compute. reflexivity. Qed.

(** The digests are opaque to the proofs: no theorem needs their definition. *)
#[global] Opaque sha256 hmac_sha256.
