(* ===== verification/Ids.v ===== *)
(** * Identifiers and clocks

    [github.com/google/uuid] is a third-party package: its textual form is a
    parameter with the documented round trip as its only law. *)

From S2P Require Import Prelude Encoding.

(** A [uuid.UUID] is its 128-bit value; [uuid.Nil] is 0. *)
Definition uuid := N.
Definition uuid_Nil : uuid := 0%N.

(** [UUID.String], [uuid.Parse]. *)
Class UUIDLib := {
  uuid_String : uuid -> string;
  uuid_Parse : string -> option uuid;
}.

Class UUIDLaws `{UUIDLib} := {
  uuid_Parse_String : forall u : uuid, uuid_Parse (uuid_String u) = Some u;
  uuid_Parse_empty : uuid_Parse "" = None;   (* an invalid length *)
}.

Lemma uuid_String_nonempty `{UUIDLaws} (u : uuid) : uuid_String u <> "".
Proof. intros He. pose proof (uuid_Parse_String u) as Hp. rewrite He, uuid_Parse_empty in Hp. done. Qed.

(** A concrete instance, used by the witnesses only. *)
Module DemoUUID.
#[export] Instance lib : UUIDLib :=
  {| uuid_String u := udec u; uuid_Parse := parse_udec |}.
#[export] Instance laws : UUIDLaws.
Proof. split; [intros u; apply parse_udec_udec|done]. Qed.
End DemoUUID.

(** A [time.Time] is nanoseconds since the Unix epoch; [timestamptz] columns are
    microseconds since the epoch. *)
Definition gotime := Z.
Definition UnixMicro (t : gotime) : Z := wrap64 (t / 1000).
Definition of_UnixMicro (us : Z) : gotime := us * 1000.
Definition Unix (t : gotime) : Z := wrap64 (t / 1000000000).

Lemma Unix_micro_roundtrip us : in_int64 us -> UnixMicro (of_UnixMicro us) = us.
Proof.
  intros H. unfold UnixMicro, of_UnixMicro. rewrite Z.div_mul by lia. by apply wrap64_id.
Qed.
