(* ===== verification/Cursor.v ===== *)
(** * Signed keyset cursors ([internal/platform/cursor/cursor.go]) *)

From S2P Require Import Prelude Apperr Encoding Ids.

Definition minKeyLen : Z := 32.

(** The double quote and the NUL byte, which source strings cannot spell. *)
Definition dq : string := String (chr 34) "".
Definition nul : string := String (chr 0) "".

Definition DeriveKey (secret : string) : string :=
  hmac_sha256 secret "tenant-api-platform/cursor/v1".

Record Binding := mkBinding { BTenantID : uuid; Resource : string; Filter : string }.

#[export] Instance Binding_eq_dec : EqDecision Binding.
Proof. solve_decision. Defined.

Record Position := mkPosition { Time : gotime; ID : uuid }.

#[export] Instance Position_eq_dec : EqDecision Position.
Proof. solve_decision. Defined.

(** The wire payload. *)
Record encoded := mkEncoded { T : Z; I : uuid; B : string }.

Record Codec := mkCodec { key : string }.

Definition NewCodec (k : string) : go_result Codec :=
  if slen k <? minKeyLen
  then Err (Plain ("cursor: key must be at least 32 bytes, got " +:+ dec (slen k)))
  else Ok (mkCodec k).

Section Codec.
Context `{UUIDLib}.

(** [json.Marshal] of the payload: no member needs escaping, because the id is
    the canonical UUID text and the fingerprint is hexadecimal. *)
Definition json_Marshal (e : encoded) : string :=
  "{" +:+ dq +:+ "t" +:+ dq +:+ ":" +:+ dec (T e) +:+
  "," +:+ dq +:+ "i" +:+ dq +:+ ":" +:+ dq +:+ uuid_String (I e) +:+ dq +:+
  "," +:+ dq +:+ "b" +:+ dq +:+ ":" +:+ dq +:+ B e +:+ dq +:+ "}".

(** [json.Unmarshal] into the payload accepts more than [json_Marshal] prints
    (white space, reordered and unknown members); it is used through the law
    that it reads back what was marshalled. *)
Context (json_Unmarshal : string -> option encoded).

Definition fingerprint (b : Binding) : string :=
  String.substring 0 32 (hex_encode (sha256
    ("v1" +:+ nul +:+ uuid_String (BTenantID b) +:+ nul +:+ Resource b +:+ nul +:+ Filter b))).

Definition sign (c : Codec) (body : string) : string :=
  b64_encode RawURLEncoding (hmac_sha256 (key c) body).

Definition Encode (c : Codec) (b : Binding) (p : Position) : go_result string :=
  if decide (ID p = uuid_Nil)
  then Err (Wrapf "cursor: refusing to encode a nil position id: cursor: malformed"
                  (Sentinel CursorErrMalformed))
  else
    let raw := json_Marshal (mkEncoded (UnixMicro (Time p)) (ID p) (fingerprint b)) in
    let body := b64_encode RawURLEncoding raw in
    Ok (body +:+ "." +:+ sign c body).

Definition malformed {A} : go_result A := Err (Sentinel CursorErrMalformed).

Definition Decode (c : Codec) (b : Binding) (token : string) : go_result Position :=
  match cut_str "." token with
  | None => malformed
  | Some (body, sig) =>
    if decide (body = "" \/ sig = "") then malformed else
    match b64_decode RawURLEncoding sig with
    | None => malformed
    | Some want =>
      if decide (b64_encode RawURLEncoding want = sig) then
        if decide (hmac_sha256 (key c) body = want) then
          match b64_decode RawURLEncoding body with
          | None => malformed
          | Some raw =>
            match json_Unmarshal raw with
            | None => malformed
            | Some p =>
              if decide (I p = uuid_Nil) then malformed
              else if decide (B p = fingerprint b)
              then Ok (mkPosition (of_UnixMicro (T p)) (I p))
              else Err (Sentinel CursorErrBinding)
            end
          end
        else Err (Sentinel CursorErrSignature)
      else malformed
    end
  end.

(** ** Lemmas *)

Lemma b64_nonempty s : s <> "" -> b64_encode RawURLEncoding s <> "".
Proof.
  intros Hs Heq. pose proof (b64_decode_encode RawURLEncoding s) as E.
  rewrite Heq in E. cbn in E. injection E as <-. done.
Qed.

Lemma b64_no_dot s : has_byte "." (b64_encode RawURLEncoding s) = false.
Proof. eapply has_byte_forall; [|apply b64_encode_chars]. reflexivity. Qed.

Lemma hmac_nonempty k m : hmac_sha256 k m <> "".
Proof. intros E. pose proof (hmac_length k m) as Hl. rewrite E in Hl. discriminate. Qed.

Lemma fingerprint_hex b : str_forall is_hex_lower_b (fingerprint b) = true.
Proof. apply str_forall_substring, hex_encode_chars. Qed.

Lemma json_nonempty e : json_Marshal e <> "".
Proof. discriminate. Qed.

Context (json_law : forall e, in_int64 (T e) -> str_forall is_hex_lower_b (B e) = true ->
  json_Unmarshal (json_Marshal e) = Some e).

(** What decoding makes of a token this service signed. *)
Lemma Decode_Encode_gen c b b' p token :
  Encode c b p = Ok token ->
  Decode c b' token =
    if decide (fingerprint b = fingerprint b')
    then Ok (mkPosition (of_UnixMicro (UnixMicro (Time p))) (ID p))
    else Err (Sentinel CursorErrBinding).
Proof.
  unfold Encode. case_decide as Hid; [done|]. intros <-%Ok_inj.
  unfold Decode, sign. rewrite (cut_byte_app "." _ _ (b64_no_dot _)).
  rewrite decide_False.
  2: { intros [E|E]; revert E; apply b64_nonempty; [apply json_nonempty|apply hmac_nonempty]. }
  rewrite b64_decode_encode, !decide_True by done. rewrite b64_decode_encode.
  rewrite json_law by (apply wrap64_range || apply fingerprint_hex). cbn. rewrite decide_False by done. done.
Qed.

(** C33: Round trip: a cursor decodes, under the binding it was minted for, to the
    position it was minted at, whenever that position has the microsecond
    precision of the database. *)
Theorem Decode_Encode c b us id token :
  in_int64 us ->
  Encode c b (mkPosition (of_UnixMicro us) id) = Ok token ->
  Decode c b token = Ok (mkPosition (of_UnixMicro us) id).
Proof.
  intros Hus HE. rewrite (Decode_Encode_gen _ _ _ _ _ HE), decide_True by done. cbn.
  by rewrite Unix_micro_roundtrip.
Qed.

(** A cursor minted for one query is refused by every query whose binding
    fingerprint differs, with the error that says so. *)
Theorem Decode_other_binding c b b' p token :
  Encode c b p = Ok token ->
  fingerprint b <> fingerprint b' ->
  Decode c b' token = Err (Sentinel CursorErrBinding).
Proof. intros HE Hne. by rewrite (Decode_Encode_gen _ _ _ _ _ HE), decide_False. Qed.

End Codec.

(** ** Integrity, for any JSON decoder *)

Section Integrity.
Context `{UUIDLib} (json_Unmarshal : string -> option encoded).

(** Only one token is accepted per payload: a decodable token is its body
    followed by the canonical signature of that body, so no re-encoding of a
    signature and no unsigned payload is ever accepted. *)
Theorem Decode_canonical c b token p :
  Decode json_Unmarshal c b token = Ok p ->
  exists body, token = body +:+ "." +:+ sign c body /\ body <> "" /\
  exists raw e, b64_decode RawURLEncoding body = Some raw /\
    json_Unmarshal raw = Some e /\ B e = fingerprint b /\
    p = mkPosition (of_UnixMicro (T e)) (I e) /\ ID p <> uuid_Nil.
Proof.
  unfold Decode, malformed. intros HD.
  destruct (cut_str "." token) as [[body sig]|] eqn:Hcut; [|done].
  apply cut_str_spec in Hcut as ->.
  case_decide as Hne; [done|].
  destruct (b64_decode RawURLEncoding sig) as [want|]; [|done].
  case_decide as Hcanon; [|done]. case_decide as Hmac; [|done].
  destruct (b64_decode RawURLEncoding body) as [raw|] eqn:Hraw; [|done].
  destruct (json_Unmarshal raw) as [e|] eqn:Hjson; [|done].
  case_decide as Hnil; [done|]. case_decide as Hfp; [|done]. injection HD as <-.
  exists body. unfold sign. rewrite Hmac, Hcanon. split; [done|]. split; [tauto|].
  exists raw, e. done.
Qed.

(** Tampering with a signed payload, or signing under another key, is a
    signature error and nothing more specific. *)
Theorem Decode_forged c c' b body :
  body <> "" -> has_byte "." body = false ->
  hmac_sha256 (key c) body <> hmac_sha256 (key c') body ->
  Decode json_Unmarshal c b (body +:+ "." +:+ sign c' body) = Err (Sentinel CursorErrSignature).
Proof.
  intros Hne Hdot Hmac. unfold Decode, sign. rewrite (cut_byte_app "." _ _ Hdot).
  rewrite decide_False.
  2: { intros [E|E]; [done|revert E; apply b64_nonempty, hmac_nonempty]. }
  by rewrite b64_decode_encode, decide_True, decide_False.
Qed.
End Integrity.

(** ** Witnesses *)

Module CursorDemo.
Import DemoUUID.

Definition demo_codec : Codec := mkCodec "0123456789abcdef0123456789abcdef".
Definition demo_binding : Binding := mkBinding 7%N "projects" "archived=false".
Definition other_binding : Binding := mkBinding 8%N "projects" "archived=false".

(** A decoder of exactly the marshalled form: the text between the quotes. *)
Definition demo_Unmarshal (raw : string) : option encoded :=
match split_on (chr 34) raw with
| ["{"; "t"; t; "i"; ":"; i; ","; "b"; ":"; b; "}"] =>
    match strip_prefix ":" t with
    | Some t' =>
        match strip_suffix "," t' with
        | Some t'' =>
            z ← parse_int64 t''; u ← parse_udec i;
            Some (mkEncoded z u b)
        | None => None
        end
    | None => None
    end
| _ => None
end.

Lemma json_shape t i b :
json_Marshal (mkEncoded t i b) =
"{" +:+ dq +:+ "t" +:+ dq +:+ (":" +:+ dec t +:+ ",") +:+ dq +:+ "i" +:+ dq +:+ ":" +:+
  dq +:+ udec i +:+ dq +:+ "," +:+ dq +:+ "b" +:+ dq +:+ ":" +:+ dq +:+ b +:+ dq +:+ "}".
Proof. rewrite <- !str_app_assoc. reflexivity. Qed.

Lemma demo_law e : in_int64 (T e) -> str_forall is_hex_lower_b (B e) = true ->
demo_Unmarshal (json_Marshal e) = Some e.
Proof.
intros HT HB. destruct e as [t i b]. rewrite json_shape. cbn [T I B] in *.
assert (has_byte (chr 34) (":" +:+ dec t +:+ ",") = false) as Ht.
{ pose proof (fun n => has_byte_forall (chr 34) is_digit_b _ eq_refl (udec_digits n)) as Hu.
  rewrite !has_byte_app. unfold dec. case_match; rewrite ?has_byte_app, Hu; done. }
assert (has_byte (chr 34) (udec i) = false) as Hi
  by (apply (has_byte_forall _ is_digit_b); [done|apply udec_digits]).
assert (has_byte (chr 34) b = false) as Hb by (by apply (has_byte_forall _ is_hex_lower_b)).
unfold demo_Unmarshal.
pose proof (fun a b => split_on_app (chr 34) a b : _ ->
  split_on (chr 34) (a +:+ dq +:+ b) = a :: split_on (chr 34) b) as Hsplit.
repeat (rewrite Hsplit by (assumption || reflexivity)).
rewrite split_on_none by done.
change (":" +:+ dec t +:+ ",") with (":" +:+ (dec t +:+ ",")).
rewrite strip_prefix_app, strip_suffix_app, parse_int64_dec by done. cbn.
rewrite parse_udec_udec. done.
Qed.

Definition demo_token : string :=
match Encode demo_codec demo_binding (mkPosition 0 42%N) with Ok t => t | Err _ => "" end.

End CursorDemo.

Section Witnesses.
Import DemoUUID CursorDemo.

Definition token_of (r : go_result string) : string := match r with Ok t => t | Err _ => "" end.
Definition demo_tok1 : string := Eval vm_compute in
  token_of (Encode demo_codec demo_binding (mkPosition (of_UnixMicro 1700000000000001) 42%N)).
Definition demo_tok2 : string := Eval vm_compute in
  token_of (Encode demo_codec demo_binding (mkPosition 0 42%N)).

Lemma Decode_Encode_witness :
  exists token,
    Encode demo_codec demo_binding (mkPosition (of_UnixMicro 1700000000000001) 42%N) = Ok token /\
    Decode demo_Unmarshal demo_codec demo_binding token =
      Ok (mkPosition (of_UnixMicro 1700000000000001) 42%N).
Proof.
  exists demo_tok1. split; [vm_compute; reflexivity|].
  apply (Decode_Encode demo_Unmarshal demo_law _ _ 1700000000000001 42%N).
  - apply in_int64b_spec. reflexivity.
  - vm_compute. reflexivity.
Defined.

Lemma Decode_other_binding_witness :
  exists token,
    Encode demo_codec demo_binding (mkPosition 0 42%N) = Ok token /\
    Decode demo_Unmarshal demo_codec other_binding token = Err (Sentinel CursorErrBinding).
Proof.
  exists demo_tok2. split; [vm_compute; reflexivity|].
  apply (Decode_other_binding demo_Unmarshal demo_law _ demo_binding _ (mkPosition 0 42%N)).
  - vm_compute. reflexivity.
  - apply String.eqb_neq. vm_compute. reflexivity.
Defined.

Lemma Decode_canonical_witness :
  Decode demo_Unmarshal demo_codec demo_binding demo_token = Ok (mkPosition 0 42%N) /\
  exists body, demo_token = body +:+ "." +:+ sign demo_codec body /\ body <> "" /\
  exists raw e, b64_decode RawURLEncoding body = Some raw /\
    demo_Unmarshal raw = Some e /\ B e = fingerprint demo_binding /\
    mkPosition 0 42%N = mkPosition (of_UnixMicro (T e)) (I e) /\
    ID (mkPosition 0 42%N) <> uuid_Nil.
Proof.
  assert (Decode demo_Unmarshal demo_codec demo_binding demo_token = Ok (mkPosition 0 42%N)) as HD
    by (vm_compute; reflexivity).
  split; [exact HD|]. exact (Decode_canonical demo_Unmarshal _ _ _ _ HD).
Defined.

Lemma Decode_forged_witness :
  Decode demo_Unmarshal demo_codec demo_binding
    ("eyJ0IjowfQ" +:+ "." +:+ sign (mkCodec "another key of at least 32 bytes") "eyJ0IjowfQ") =
  Err (Sentinel CursorErrSignature).
Proof.
  apply Decode_forged.
  - discriminate.
  - vm_compute. reflexivity.
  - apply String.eqb_neq. vm_compute. reflexivity.
Defined.
End Witnesses.
