(* ===== verification/Db.v ===== *)
(** * Transactions, identities and calls

    [internal/platform/db/tx.go] and [errors.go]: a transaction carries the
    settings the row-level-security policies read, commits when its body
    succeeds and restores the database when it fails. *)

From S2P Require Import Prelude Apperr Ids.

(** What a call observes of the world outside the database: the transaction's
    [now()], the process clock, the identifiers [uuid.NewV7] draws during the
    call, in order, those [gen_random_uuid()] draws in the database, the bytes [crypto/rand] yields, and the request id of its
    context. *)
Record Env := mkEnv {
  env_now : gotime;
  env_time : gotime;
  env_id : nat -> uuid;
  env_dbid : nat -> uuid;
  env_rand : nat -> Z;
  env_reqid : string;
}.

(** JSON documents ([map[string]any] payloads, [jsonb] columns). *)
Inductive json :=
  | JNull
  | JStr (s : string)
  | JBool (b : bool)
  | JNum (z : Z)
  | JList (l : list json)
  | JObj (l : list (string * json)).

(** How [json.Marshal] renders a [time.Time]; a nil pointer is null. *)
Class TimeJSON := { time_json : gotime -> json }.
Definition json_opt_time `{TimeJSON} (t : option gotime) : json :=
  match t with Some t => time_json t | None => JNull end.

(** ** Settings

    The transaction-scoped settings a policy reads; [None] is an unset one, whose
    [current_setting] is NULL and matches no row. *)
Record Settings := mkSettings {
  SettingTenantID : option uuid;
  SettingUserID : option uuid;
  SettingRefreshTokenHash : option string;
  SettingAPIKeyHash : option string;
  SettingWorker : bool;
}.

Definition no_settings : Settings := mkSettings None None None None false.

#[export] Instance Settings_eq_dec : EqDecision Settings.
Proof. solve_decision. Defined.

Definition tenant_is (g : Settings) (t : uuid) : bool := bool_decide (SettingTenantID g = Some t).
Definition user_is (g : Settings) (u : uuid) : bool := bool_decide (SettingUserID g = Some u).

Record Identity := mkIdentity {
  id_TenantID : uuid;
  id_UserID : uuid;
}.

Definition Identity_Valid (i : Identity) : bool :=
  bool_decide (id_TenantID i <> uuid_Nil) || bool_decide (id_UserID i <> uuid_Nil).

Definition set_unless_nil (u : uuid) : option uuid := if decide (u = uuid_Nil) then None else Some u.

Section tx.
Context {S A : Type}.

(** [pgx.BeginFunc] *)
Definition BeginFunc (fn : SE S err A) : SE S err A := fun s =>
  match fn s with
  | (Ok a, s') => (Ok a, s')
  | (Err e, _) => (Err e, s)
  end.

Definition WithSettings (settings : Settings) (fn : Settings -> SE S err A) : SE S err A :=
  if decide (settings = no_settings) then throw (Sentinel ErrNoScope)
  else BeginFunc (fn settings).

Definition WithIdentityTx (id : Identity) (fn : Settings -> SE S err A) : SE S err A :=
  if negb (Identity_Valid id) then throw (Sentinel ErrNoScope)
  else WithSettings
         (mkSettings (set_unless_nil (id_TenantID id)) (set_unless_nil (id_UserID id)) None None false) fn.

Definition WithPresentedSecret (setting : string -> Settings) (hash : string)
    (fn : Settings -> SE S err A) : SE S err A :=
  WithSettings (setting hash) fn.

Lemma BeginFunc_Err fn s e s' : BeginFunc fn s = (Err e, s') -> s' = s.
Proof. unfold BeginFunc. destruct (fn s) as [[a|x] t]; by intros [= _ <-]. Qed.

Lemma BeginFunc_Ok fn s a s' : BeginFunc fn s = (Ok a, s') <-> fn s = (Ok a, s').
Proof. unfold BeginFunc. destruct (fn s) as [[b|x] t]; split; congruence. Qed.

Lemma WithSettings_Err g fn s e s' : WithSettings g fn s = (Err e, s') -> s' = s.
Proof. unfold WithSettings. case_decide; [by intros [= _ <-]|apply BeginFunc_Err]. Qed.

Lemma WithSettings_Ok g fn s a s' :
  WithSettings g fn s = (Ok a, s') -> g <> no_settings /\ fn g s = (Ok a, s').
Proof. unfold WithSettings. case_decide; [done|]. by rewrite BeginFunc_Ok. Qed.

Lemma WithIdentityTx_Err id fn s e s' : WithIdentityTx id fn s = (Err e, s') -> s' = s.
Proof.
  unfold WithIdentityTx. case_match; [by intros [= _ <-]|apply WithSettings_Err].
Qed.

Lemma WithIdentityTx_Ok id fn s a s' :
  WithIdentityTx id fn s = (Ok a, s') ->
  fn (mkSettings (set_unless_nil (id_TenantID id)) (set_unless_nil (id_UserID id)) None None false) s
    = (Ok a, s').
Proof.
  unfold WithIdentityTx. destruct (negb _); [done|]. intros H. by apply WithSettings_Ok in H as [_ ?].
Qed.

Lemma WithIdentityTx_run id fn s :
  Identity_Valid id = true ->
  WithIdentityTx id fn s =
  BeginFunc (fn (mkSettings (set_unless_nil (id_TenantID id)) (set_unless_nil (id_UserID id)) None None false)) s.
Proof.
  intros H. unfold WithIdentityTx. rewrite H. cbn [negb]. unfold WithSettings.
  case_decide as Hn; [|done]. injection Hn as H1 H2. unfold set_unless_nil in *.
  unfold Identity_Valid in H. repeat case_decide; try done.
Qed.
End tx.

(** The driver's failures. *)
Definition unique_violation (constraint : string) : err := PgErr "23505" constraint.
Definition fk_violation (constraint : string) : err := PgErr "23503" constraint.
Definition check_violation (constraint : string) : err := PgErr "23514" constraint.
Definition numeric_out_of_range : err := PgErr "22003" "integer out of range".

(** Running [fn] on each element in order, stopping at the first failure. *)
Fixpoint for_range {S A B} (i : Z) (l : list A) (fn : Z -> A -> SE S err B) : SE S err (list B) :=
  match l with
  | [] => mret []
  | x :: l' => y ← fn i x; ys ← for_range (i + 1) l' fn; mret (y :: ys)
  end.

(** ** SQL text and ordering

    [length(text)] counts characters: the bytes of UTF-8 text that are not
    continuation bytes. [ORDER BY] on text uses the database's collation, a
    parameter. *)
Definition char_length (s : string) : Z :=
  Z.of_nat (length (filter (fun b => b < 128 \/ 192 <= b) (bytes_of s))).

(** Seven-bit text counts as many characters as bytes. *)
Lemma char_length_ascii s : str_forall (fun b => b <? 128) s = true -> char_length s = slen s.
Proof.
  induction s as [|c s IH]; [done|]. cbn [str_forall]. intros [Hc Hs]%andb_true_iff. apply Z.ltb_lt in Hc.
  unfold char_length in *. change (bytes_of (String c s)) with (byte_of c :: bytes_of s).
  rewrite filter_cons_True by (by left). cbn [length]. specialize (IH Hs). unfold slen in *. cbn [String.length]. lia.
Qed.

Class Collation := { text_leb : string -> string -> bool }.

Fixpoint insert_by {A} (leb : A -> A -> bool) (x : A) (l : list A) : list A :=
  match l with
  | [] => [x]
  | y :: l' => if leb x y then x :: l else y :: insert_by leb x l'
  end.
Definition order_by {A} (leb : A -> A -> bool) (l : list A) : list A := foldr (insert_by leb) [] l.

Lemma insert_by_Permutation {A} leb (x : A) l : insert_by leb x l ≡ₚ x :: l.
Proof.
  induction l as [|y l IH]; cbn; [done|]. case_match; [done|]. rewrite IH. apply Permutation_swap.
Qed.

Lemma order_by_Permutation {A} leb (l : list A) : order_by leb l ≡ₚ l.
Proof. induction l as [|x l IH]; cbn; [done|]. by rewrite insert_by_Permutation, IH. Qed.

(** Running a component's statements against its part of a larger state. *)
Definition zoom {S T E A} (get : S -> T) (set : T -> S -> S) (m : SE T E A) : SE S E A := fun s =>
  match m (get s) with
  | (Ok a, t) => (Ok a, set t s)
  | (Err e, t) => (Err e, set t s)
  end.

Lemma zoom_Ok {S T E A} (get : S -> T) set (m : SE T E A) s a s' :
  zoom get set m s = (Ok a, s') <-> exists t, m (get s) = (Ok a, t) /\ s' = set t s.
Proof. unfold zoom. destruct (m (get s)) as [[b|e] t]; split; naive_solver. Qed.

Lemma zoom_Err {S T E A} (get : S -> T) set (m : SE T E A) s e s' :
  zoom get set m s = (Err e, s') <-> exists t, m (get s) = (Err e, t) /\ s' = set t s.
Proof. unfold zoom. destruct (m (get s)) as [[b|x] t]; split; naive_solver. Qed.

(** [if _, err := tx.Exec(...); err != nil { return f(err) }] *)
Definition or_fail {S A} (m : SE S err A) (f : err -> err) : SE S err A := fun s =>
  match m s with
  | (Ok a, s') => (Ok a, s')
  | (Err e, s') => (Err (f e), s')
  end.

Lemma or_fail_Ok {S A} (m : SE S err A) f s a s' :
  or_fail m f s = (Ok a, s') <-> m s = (Ok a, s').
Proof. unfold or_fail. destruct (m s) as [[b|e] t]; split; congruence. Qed.

Lemma or_fail_Err {S A} (m : SE S err A) f s e s' :
  or_fail m f s = (Err e, s') <-> exists e', e = f e' /\ m s = (Err e', s').
Proof.
  unfold or_fail. destruct (m s) as [[b|x] t]; split; [done|naive_solver| |naive_solver].
  intros [= <- <-]. eauto.
Qed.

(** A handler that answers a store's failure with [httperr.Fail]. *)
Definition failing {S A} (m : SE S err A) : SE S Problem A := fun s =>
  match m s with
  | (Ok a, s') => (Ok a, s')
  | (Err e, s') => (Err (Map e), s')
  end.

Lemma lift_Ok {S E A} (r : result E A) (s : S) a s' : lift r s = (Ok a, s') -> r = Ok a /\ s' = s.
Proof. unfold lift. by intros [= -> ->]. Qed.

Lemma existsb_false_forall {A} (f : A -> bool) l :
  existsb f l = false <-> forall x, x ∈ l -> f x = false.
Proof.
  rewrite <- not_true_iff_false, existsb_exists. split.
  - intros Hn x Hx. apply not_true_iff_false. intros Hf. apply Hn. exists x.
    by rewrite <- list_elem_of_In.
  - intros Hf (x & Hx & Ht). rewrite <- list_elem_of_In in Hx. rewrite (Hf x Hx) in Ht. done.
Qed.


(** The settings of the delivery worker's transactions. *)
Definition worker_settings : Settings := mkSettings None None None None true.
