(* ===== verification/Authz.v ===== *)
(** * Roles, permissions, principals

    [internal/authz]: the role table, the scopes an API key may hold, the
    principal carried by a request and the [Require] middleware. *)

From S2P Require Import Prelude Apperr Ids.

(** [Role] and [Perm] are string types. *)
Definition Role := string.
Definition Perm := string.

Definition RoleOwner : Role := "owner".
Definition RoleAdmin : Role := "admin".
Definition RoleMember : Role := "member".

Definition PermTenantRead : Perm := "tenant:read".
Definition PermTenantManage : Perm := "tenant:manage".
Definition PermMemberRead : Perm := "member:read".
Definition PermMemberManage : Perm := "member:manage".
Definition PermProjectRead : Perm := "project:read".
Definition PermProjectWrite : Perm := "project:write".
Definition PermInvoiceRead : Perm := "invoice:read".
Definition PermInvoiceWrite : Perm := "invoice:write".
Definition PermInvoiceSettle : Perm := "invoice:settle".
Definition PermAPIKeyRead : Perm := "apikey:read".
Definition PermAPIKeyManage : Perm := "apikey:manage".
Definition PermWebhookRead : Perm := "webhook:read".
Definition PermWebhookManage : Perm := "webhook:manage".
Definition PermAuditRead : Perm := "audit:read".

(** ** The role table *)

Definition memberPerms : list Perm :=
  [PermTenantRead; PermMemberRead; PermProjectRead; PermInvoiceRead].
Definition adminPerms : list Perm :=
  [PermTenantRead; PermMemberRead; PermMemberManage; PermProjectRead; PermProjectWrite;
   PermInvoiceRead; PermInvoiceWrite; PermInvoiceSettle; PermAPIKeyRead; PermAPIKeyManage;
   PermWebhookRead; PermWebhookManage; PermAuditRead].
Definition ownerPerms : list Perm :=
  [PermTenantRead; PermTenantManage; PermMemberRead; PermMemberManage; PermProjectRead;
   PermProjectWrite; PermInvoiceRead; PermInvoiceWrite; PermInvoiceSettle; PermAPIKeyRead;
   PermAPIKeyManage; PermWebhookRead; PermWebhookManage; PermAuditRead].

Definition rolePerms : gmap Role (gset Perm) :=
  list_to_map [(RoleMember, list_to_set memberPerms); (RoleAdmin, list_to_set adminPerms);
               (RoleOwner, list_to_set ownerPerms)].

Definition Role_Valid (r : Role) : bool := bool_decide (is_Some (rolePerms !! r)).

Definition Can (r : Role) (p : Perm) : bool :=
  match rolePerms !! r with
  | None => false
  | Some perms => bool_decide (p ∈ perms)
  end.

(** [sort.Slice] with [<] on strings of distinct elements. *)
Fixpoint insert_perm (p : Perm) (l : list Perm) : list Perm :=
  match l with
  | [] => [p]
  | q :: l' => if String.ltb p q then p :: l else q :: insert_perm p l'
  end.
Definition sort_perms (l : list Perm) : list Perm := foldr insert_perm [] l.

Definition Perms (r : Role) : list Perm :=
  match rolePerms !! r with
  | None => []
  | Some perms => sort_perms (elements perms)
  end.

Definition AllPerms : list Perm :=
  sort_perms (elements (⋃ (map_to_list rolePerms).*2)).

Definition Roles : list Role := [RoleMember; RoleAdmin; RoleOwner].

(** ** What an API key may hold *)

Definition keyForbiddenPerms : gmap Perm string :=
  list_to_map
    [(PermTenantManage, "tenant management changes the tenant's own identity");
     (PermMemberManage, "membership changes are identity operations and must be attributable to a person");
     (PermAPIKeyManage,
      "a key that can mint keys can survive its own revocation by issuing a successor first")].

Definition KeyForbiddenReason (p : Perm) : option string := keyForbiddenPerms !! p.

Section scopes.
Context `{Unicode}.

Fixpoint ValidateKeyScopes_from (seen : gset Perm) (scopes : list Perm) : go_result unit :=
  match scopes with
  | [] => Ok tt
  | p :: rest =>
      if negb (bool_decide (p ∈ AllPerms)) then Err (Plain ("authz: unknown scope " +:+ fmt_q p))
      else match keyForbiddenPerms !! p with
           | Some reason =>
               Err (Plain ("authz: scope " +:+ fmt_q p +:+ " may not be granted to an API key: " +:+ reason))
           | None =>
               if bool_decide (p ∈ seen) then Err (Plain ("authz: duplicate scope " +:+ fmt_q p))
               else ValidateKeyScopes_from ({[p]} ∪ seen) rest
           end
  end.

Definition ValidateKeyScopes (scopes : list Perm) : go_result unit :=
  match scopes with
  | [] => Err (Plain "authz: at least one scope is required")
  | _ => ValidateKeyScopes_from ∅ scopes
  end.
End scopes.

Definition KeyGrantablePerms : list Perm :=
  filter (fun p => keyForbiddenPerms !! p = None) AllPerms.

(** ** Principals *)

Definition MethodJWT : string := "jwt".
Definition MethodAPIKey : string := "api_key".

Record Principal := mkPrincipal {
  UserID : uuid;
  TenantID : uuid;
  p_Role : Role;
  Scopes : list Perm;
  Method : string;
  CredentialID : uuid;
}.

Definition Allows (p : Principal) (perm : Perm) : bool :=
  if decide (Method p = MethodJWT) then Can (p_Role p) perm
  else if decide (Method p = MethodAPIKey) then existsb (fun s => bool_decide (s = perm)) (Scopes p)
  else false.

Definition WithResolvedTenant (p : Principal) (tenantID : uuid) (role : Role) : Principal :=
  if decide (Method p = MethodAPIKey) then p
  else mkPrincipal (UserID p) tenantID role (Scopes p) (Method p) (CredentialID p).

Definition Resolved (p : Principal) : bool :=
  bool_decide (TenantID p <> uuid_Nil) && Role_Valid (p_Role p).

(** ** [Require]

    A middleware either answers with a problem or calls the next handler; the
    principal is what [PrincipalFrom] finds in the request's context. *)
Definition Require_ {A} (p : Perm) (principal : option Principal) (next : A) : result Problem A :=
  match principal with
  | None => Err (mkProblem 401 "unauthorized" "authentication required" None)
  | Some pr =>
      if negb (Allows pr p)
      then Err (mkProblem 403 "forbidden" ("this credential does not grant " +:+ p) None)
      else Ok next
  end.

(** ** Lemmas *)

Lemma rolePerms_cases r perms :
  rolePerms !! r = Some perms ->
  (r = RoleMember /\ perms = list_to_set memberPerms) \/
  (r = RoleAdmin /\ perms = list_to_set adminPerms) \/
  (r = RoleOwner /\ perms = list_to_set ownerPerms).
Proof.
  intros Hr%elem_of_list_to_map_2. rewrite !elem_of_cons in Hr.
  rewrite elem_of_nil in Hr. naive_solver.
Qed.

Lemma Role_Valid_cases r :
  Role_Valid r = true <-> r = RoleMember \/ r = RoleAdmin \/ r = RoleOwner.
Proof.
  split; [|intros [-> | [-> | ->]]; vm_compute; reflexivity].
  unfold Role_Valid. rewrite bool_decide_eq_true.
  intros [ps H]. apply rolePerms_cases in H. naive_solver.
Qed.

Lemma Can_In r p perms :
  rolePerms !! r = Some perms -> Can r p = bool_decide (p ∈ perms).
Proof. unfold Can. by intros ->. Qed.

Lemma Allows_key p perm :
  Method p = MethodAPIKey -> Allows p perm = true <-> perm ∈ Scopes p.
Proof.
  intros Hm. unfold Allows. rewrite Hm, decide_False, decide_True by done.
  rewrite existsb_exists. split.
  - intros (s & Hs & Heq). apply bool_decide_eq_true in Heq as ->. by apply list_elem_of_In.
  - intros Hs. exists perm. rewrite bool_decide_eq_true. by rewrite <- list_elem_of_In.
Qed.

Lemma ValidateKeyScopes_from_Ok `{Unicode} seen l :
  ValidateKeyScopes_from seen l = Ok tt <->
  NoDup l /\ (forall p, p ∈ l -> p ∈ KeyGrantablePerms /\ p ∉ seen).
Proof.
  revert seen. induction l as [|p l IH]; intros seen; cbn [ValidateKeyScopes_from].
  - split; [|done]. intros _. split; [constructor|]. intros p Hp. by apply not_elem_of_nil in Hp.
  - destruct (bool_decide (p ∈ AllPerms)) eqn:Hall; cbn [negb]; to_prop.
    + destruct (keyForbiddenPerms !! p) eqn:Hf.
      * split; [done|]. intros [_ Hin]. destruct (Hin p ltac:(left)) as [Hg _].
        unfold KeyGrantablePerms in Hg. apply list_elem_of_filter in Hg as [? _]. congruence.
      * assert (p ∈ KeyGrantablePerms) as Hg by (by apply list_elem_of_filter).
        case_bool_decide as Hs.
        -- split; [done|]. intros [_ Hin]. by destruct (Hin p ltac:(left)).
        -- rewrite IH, NoDup_cons. split.
           ++ intros [Hnd Hin]. split_and!; [|done|].
              ** intros Hp. destruct (Hin p Hp). set_solver.
              ** intros q [->|Hq]%elem_of_cons; [done|]. destruct (Hin q Hq). set_solver.
           ++ intros [[Hp Hnd] Hin]. split; [done|]. intros q Hq.
              destruct (Hin q ltac:(by right)). split; [done|]. set_solver.
    + split; [done|]. intros [_ Hin]. destruct (Hin p ltac:(left)) as [Hg _].
      unfold KeyGrantablePerms in Hg. by apply list_elem_of_filter in Hg as [_ ?].
Qed.

Lemma ValidateKeyScopes_Ok `{Unicode} l :
  ValidateKeyScopes l = Ok tt <-> l <> [] /\ NoDup l /\ (forall p, p ∈ l -> p ∈ KeyGrantablePerms).
Proof.
  unfold ValidateKeyScopes. destruct l as [|p l]; [naive_solver|].
  rewrite ValidateKeyScopes_from_Ok. split.
  - intros [Hnd Hin]. split_and!; [done|done|]. intros q Hq. by apply Hin.
  - intros (_ & Hnd & Hin). split; [done|]. intros q Hq. split; [by apply Hin|]. set_solver.
Qed.

(** ** Properties *)

(** The roles form a chain, and only the chain grants anything: whatever a
    member may do an admin may do, whatever an admin may do an owner may do, an
    unknown role may do nothing, and the owner's one extra permission is managing
    the tenant itself. *)
Theorem role_hierarchy p :
  (Can RoleMember p = true -> Can RoleAdmin p = true) /\
  (Can RoleOwner p = true <-> Can RoleAdmin p = true \/ p = PermTenantManage) /\
  Can RoleAdmin PermTenantManage = false /\
  (forall r, Can r p = true -> r ∈ Roles /\ p ∈ AllPerms).
Proof.
  assert (Hsub : Forall (fun q => q ∈ adminPerms) memberPerms /\
    Forall (fun q => q ∈ adminPerms \/ q = PermTenantManage) ownerPerms /\
    Forall (fun q => q ∈ ownerPerms) (PermTenantManage :: adminPerms) /\
    Forall (fun q => q ∈ AllPerms) ownerPerms).
  { eapply bool_decide_eq_true. vm_compute. reflexivity. }
  rewrite !Forall_forall in Hsub. destruct Hsub as (H1 & H2 & H3 & H4).
  assert (Hm : forall r l, rolePerms !! r = Some (list_to_set l) -> Can r p = true <-> p ∈ l).
  { intros r l Hr. rewrite (Can_In r p _ Hr), bool_decide_eq_true, elem_of_list_to_set. done. }
  rewrite (Hm RoleMember memberPerms eq_refl), (Hm RoleAdmin adminPerms eq_refl),
    (Hm RoleOwner ownerPerms eq_refl).
  split_and!; [apply H1| |vm_compute; reflexivity|].
  - split; [apply H2|]. intros [Hp| ->]; apply H3; [by right|left].
  - intros r Hr. destruct (rolePerms !! r) as [ps|] eqn:E; [|unfold Can in Hr; by rewrite E in Hr].
    destruct (rolePerms_cases _ _ E) as [[-> ->] | [[-> ->] | [-> ->]]]; apply (Hm _ _ E) in Hr;
      (split; [unfold Roles; set_solver|]); apply H4; auto; apply H3; right; auto.
Qed.

(** A key minted with scopes [ValidateKeyScopes] accepts reaches a route exactly
    when the route's permission is one of those scopes, and never a route that
    manages tenants, members or keys. *)
Theorem key_scopes_confine `{Unicode} (k : Principal) (perm : Perm) :
  Method k = MethodAPIKey -> ValidateKeyScopes (Scopes k) = Ok tt ->
  (Require_ perm (Some k) tt = Ok tt <-> perm ∈ Scopes k) /\
  (forall forbidden, forbidden ∈ [PermTenantManage; PermMemberManage; PermAPIKeyManage] ->
     Require_ forbidden (Some k) tt =
       Err (mkProblem 403 "forbidden" ("this credential does not grant " +:+ forbidden) None)).
Proof.
  intros Hm Hv. split.
  - rewrite <- (Allows_key k perm Hm). unfold Require_. by destruct (Allows k perm).
  - intros f Hf. unfold Require_. destruct (Allows k f) eqn:E; [|done]. exfalso.
    apply (Allows_key k f Hm) in E. apply ValidateKeyScopes_Ok in Hv as (_ & _ & Hin).
    apply Hin, list_elem_of_filter in E as [Hn _].
    assert (Forall (fun q => is_Some (keyForbiddenPerms !! q))
              [PermTenantManage; PermMemberManage; PermAPIKeyManage]) as Hall.
    { eapply bool_decide_eq_true. vm_compute. reflexivity. }
    rewrite Forall_forall in Hall. destruct (Hall f Hf). congruence.
Qed.

Definition demo_key : Principal :=
  mkPrincipal 0%N 7%N "" [PermInvoiceRead; PermProjectWrite] MethodAPIKey 9%N.

Lemma key_scopes_confine_witness :
  (Require_ PermProjectWrite (Some demo_key) tt = Ok tt <-> PermProjectWrite ∈ Scopes demo_key) /\
  (forall forbidden, forbidden ∈ [PermTenantManage; PermMemberManage; PermAPIKeyManage] ->
     Require_ forbidden (Some demo_key) tt =
       Err (mkProblem 403 "forbidden" ("this credential does not grant " +:+ forbidden) None)).
Proof.
  apply (@key_scopes_confine DemoUnicode).
  - reflexivity.
  - vm_compute. reflexivity.
Defined.
