(* ===== verification/Slug.v ===== *)
(** * Slugs and random suffixes

    [internal/platform/idgen], the slug pattern and derivation of
    [internal/project/project.go], and the tenants' copy of the derivation in
    [internal/httpx/handlers_auth.go]. *)

From S2P Require Import Prelude Apperr Encoding.

(** [idgen.ShortSuffix]; [rand] is the stream [crypto/rand] fills buffers from. *)
Definition ShortSuffix (rand : nat -> Z) (n : Z) : string :=
  let n := if n <? 1 then 1 else n in
  let n := if 32 <? n then 32 else n in
  let buf := (fun i => rand i mod 256) <$> seq 0 (Z.to_nat ((n + 1) / 2)) in
  String.substring 0 (Z.to_nat n) (hex_encode (of_bytes buf)).

(** [^[a-z0-9][a-z0-9-]{1,62}$] *)
Definition is_slug_alnum (b : Z) : bool := is_lower_b b || is_digit_b b.
Definition is_slug_char (b : Z) : bool := is_slug_alnum b || (b =? 45).

Definition slugPattern (s : string) : bool :=
  match s with
  | "" => false
  | String c r => is_slug_alnum (byte_of c) && (1 <=? slen r) && (slen r <=? 62) && str_forall is_slug_char r
  end.

(** The loop over the runes of the lowered name. It runs over bytes here: every
    byte of a multi-byte rune takes the rune's branch, and only the first of a
    run can write. *)
Fixpoint slug_loop (b : string) (lastDash : bool) (s : string) : string :=
  match s with
  | "" => b
  | String c s' =>
      let '(b', lastDash') :=
        if is_slug_alnum (byte_of c) then (b +:+ String c "", false)
        else if negb lastDash then (b +:+ "-", true)
        else (b, lastDash) in
      if 62 <=? slen b' then b' else slug_loop b' lastDash' s'
  end.

Section slugify.
Context `{Unicode} (rand : nat -> Z).

Definition slug_from (placeholder name : string) : string :=
  let slug := trim_both ["-"] (slug_loop "" true (to_lower (trim_space name))) in
  if slen slug <? 2
  then (if decide (slug = "") then placeholder else slug) +:+ "-" +:+ ShortSuffix rand 6
  else slug.

Definition Slugify (name : string) : string := slug_from "p" name.
Definition slugFromName (name : string) : string := slug_from "t" name.

(** The suffix is drawn after the base, which may itself have drawn one. *)
Definition SlugifyForCollision (rand' : nat -> Z) (name : string) : string :=
  let base := Slugify name in
  let base := if 55 <? slen base then trim_right ["-"] (String.substring 0 55 base) else base in
  base +:+ "-" +:+ ShortSuffix rand' 6.
End slugify.

(** ** Lemmas *)

Lemma slen_substring n s : slen (String.substring 0 n s) = Z.min (Z.of_nat n) (slen s).
Proof.
  revert s. induction n as [|n IH]; intros [|c s]; unfold slen in *; cbn [String.substring String.length];
    try lia. specialize (IH s). lia.
Qed.

Lemma ShortSuffix_hex rand n : str_forall is_hex_lower_b (ShortSuffix rand n) = true.
Proof. apply str_forall_substring, hex_encode_chars. Qed.

Lemma ShortSuffix_slen rand n : slen (ShortSuffix rand n) = Z.min 32 (Z.max 1 n).
Proof.
  unfold ShortSuffix. rewrite slen_substring, hex_encode_length. unfold slen.
  rewrite length_of_bytes, length_fmap, length_seq.
  assert (forall k, (if 32 <? (if k <? 1 then 1 else k) then 32 else (if k <? 1 then 1 else k)) =
    Z.min 32 (Z.max 1 k)) as ->.
  { intros k. destruct (Z.ltb_spec k 1); [cbn; lia|]. destruct (Z.ltb_spec 32 k); lia. }
  pose proof (Z.div_mod (Z.min 32 (Z.max 1 n) + 1) 2 ltac:(lia)).
  pose proof (Z.mod_pos_bound (Z.min 32 (Z.max 1 n) + 1) 2 ltac:(lia)). lia.
Qed.

Definition starts_alnum (s : string) : bool :=
  match s with "" => false | String c _ => is_slug_alnum (byte_of c) end.

Lemma slugPattern_intro s :
  starts_alnum s = true -> str_forall is_slug_char s = true -> 2 <= slen s <= 63 ->
  slugPattern s = true.
Proof.
  destruct s as [|c r]; [done|]. cbn [starts_alnum str_forall slugPattern]. intros Hc Hr Hl.
  unfold slen in *. cbn [String.length] in Hl. to_prop. rewrite Hc, andb_true_l.
  repeat (apply andb_true_iff; split); try done; apply Z.leb_le; unfold slen; lia.
Qed.

Lemma starts_alnum_app a b : starts_alnum a = true -> starts_alnum (a +:+ b) = true.
Proof. by destruct a. Qed.

(** What the loop has written is a slug in the making. *)
Definition slug_partial (b : string) : Prop :=
  (b = "" \/ starts_alnum b = true) /\ str_forall is_slug_char b = true /\ slen b <= 62.

Lemma slug_loop_partial b ld s :
  slug_partial b -> slen b < 62 -> (b = "" -> ld = true) -> slug_partial (slug_loop b ld s).
Proof.
  revert b ld. induction s as [|c s IH]; intros b ld Hb Hlt Hld; cbn [slug_loop]; [done|].
  pose proof Hb as (Hst & Hch & _).
  assert (Hstep : forall x, str_forall is_slug_char (String x "") = true ->
     (b = "" -> is_slug_alnum (byte_of x) = true) -> slug_partial (b +:+ String x "")).
  { intros x Hx He. split_and!.
    - right. destruct Hst as [-> | Hst]; [cbn; by apply He|by apply starts_alnum_app].
    - by rewrite str_forall_app, Hch, Hx.
    - rewrite slen_app. change (slen (String x "")) with 1. lia. }
  assert (Hne : forall x, b +:+ String x "" = "" -> False).
  { intros x Hx. destruct b; discriminate. }
  destruct (is_slug_alnum (byte_of c)) eqn:Hc; [|destruct ld; cbn [negb]].
  - assert (slug_partial (b +:+ String c "")) as Hp
      by (apply Hstep; [cbn; unfold is_slug_char; by rewrite Hc|done]).
    destruct (Z.leb_spec 62 (slen (b +:+ String c ""))); [done|].
    apply IH; [done|done|]. intros Hx. by apply Hne in Hx.
  - destruct (Z.leb_spec 62 (slen b)); [lia|]. by apply IH.
  - assert (slug_partial (b +:+ "-")) as Hp by (apply Hstep; [done|]; intros Hx; by apply Hld in Hx).
    destruct (Z.leb_spec 62 (slen (b +:+ "-"))); [done|].
    apply IH; [done|done|]. intros Hx. by apply Hne in Hx.
Qed.

Lemma trim_dash_left s :
  exists p, s = p +:+ trim_left ["-"] s /\ str_forall (fun b => b =? 45) p = true.
Proof.
  unfold trim_left. generalize (String.length s). intros n. revert s.
  induction n as [|n IH]; intros s; cbn [trim_left_fuel]; [by exists ""|].
  destruct (first_rest ["-"] s) as [r|] eqn:E; [|by exists ""].
  apply first_rest_Some in E as (w & Hw & ->). apply list_elem_of_singleton in Hw as ->.
  destruct (IH r) as (p & Hp & Hd). exists ("-" +:+ p).
  rewrite <- str_app_assoc, <- Hp. split; [done|]. exact Hd.
Qed.

Lemma trim_dash_right s :
  exists p, s = trim_right ["-"] s +:+ p /\ str_forall (fun b => b =? 45) p = true.
Proof.
  destruct (trim_dash_left (str_rev s)) as (p & Hp & Hd). exists (str_rev p).
  rewrite str_forall_rev. split; [|done]. unfold trim_right. cbn [fmap list_fmap str_rev reverse].
  change (str_rev "-") with "-". rewrite <- str_rev_app, <- Hp. by rewrite str_rev_rev.
Qed.

Lemma trim_right_partial s : slug_partial s -> slug_partial (trim_right ["-"] s).
Proof.
  intros (Hst & Hch & Hl). destruct (trim_dash_right s) as (p & Hp & Hd).
  remember (trim_right ["-"] s) as t. subst s. rewrite str_forall_app in Hch. to_prop.
  rewrite slen_app in Hl. pose proof (slen_nonneg p). split_and!; [|done|lia].
  destruct t as [|c t]; [by left|]. right. by destruct Hst.
Qed.

Lemma trim_right_starts s : starts_alnum s = true -> starts_alnum (trim_right ["-"] s) = true.
Proof.
  intros Hs. destruct (trim_dash_right s) as (p & Hp & Hd).
  destruct (trim_right ["-"] s) as [|c t]; rewrite Hp in Hs; [|done]. exfalso.
  destruct p as [|c p]; [done|]. cbn in Hs, Hd. to_prop.
  match goal with H : byte_of c = 45 |- _ => rewrite H in Hs end. done.
Qed.

Lemma trim_left_starts s : starts_alnum s = true -> trim_left ["-"] s = s.
Proof.
  intros Hs. apply trim_left_id, first_rest_None.
  intros w r ->%list_elem_of_singleton ->. done.
Qed.

Lemma slug_from_valid `{Unicode} rand ph name :
  starts_alnum ph = true -> str_forall is_slug_char ph = true -> slen ph = 1 ->
  slugPattern (slug_from rand ph name) = true /\ slen (slug_from rand ph name) <= 62 /\
  starts_alnum (slug_from rand ph name) = true /\
  str_forall is_slug_char (slug_from rand ph name) = true.
Proof.
  intros Hph1 Hph2 Hph3. unfold slug_from.
  pose proof (slug_loop_partial "" true (to_lower (trim_space name))
    ltac:(split_and!; [by left|done|done]) ltac:(done) ltac:(done)) as Hb.
  set (b := slug_loop "" true _) in *. clearbody b.
  assert (trim_both ["-"] b = trim_right ["-"] b) as ->.
  { unfold trim_both. destruct Hb as ([-> | Hst] & _); [done|]. by rewrite trim_left_starts. }
  apply trim_right_partial in Hb. set (t := trim_right ["-"] b) in *. clearbody t.
  destruct Hb as (Hst & Hch & Hl).
  assert (Hsuf : forall q, starts_alnum q = true -> str_forall is_slug_char q = true -> slen q <= 1 ->
    starts_alnum (q +:+ "-" +:+ ShortSuffix rand 6) = true /\
    str_forall is_slug_char (q +:+ "-" +:+ ShortSuffix rand 6) = true /\
    2 <= slen (q +:+ "-" +:+ ShortSuffix rand 6) <= 62).
  { intros q Hq1 Hq2 Hq3. split_and!; [by apply starts_alnum_app|..].
    - rewrite !str_forall_app, Hq2. cbn [andb].
      assert (str_forall is_slug_char "-" = true) as -> by done. cbn [andb].
      apply (str_forall_impl is_hex_lower_b); [|apply ShortSuffix_hex].
      intros z Hz Hh. unfold is_hex_lower_b, is_slug_char, is_slug_alnum, is_lower_b, is_digit_b in *. lia.
    - rewrite !slen_app, ShortSuffix_slen. change (slen "-") with 1. pose proof (slen_nonneg q). lia.
    - rewrite !slen_app, ShortSuffix_slen. change (slen "-") with 1. lia. }
  destruct (Z.ltb_spec (slen t) 2) as [Hlt|Hge].
  - set (q := if decide (t = "") then ph else t).
    destruct (Hsuf q) as (H1 & H2 & H3).
    1-3: subst q; case_decide; destruct Hst; try done; lia.
    split_and!; try done; [|lia]. apply slugPattern_intro; try done. lia.
  - destruct Hst as [-> | Hst]; [by change (2 <= 0) in Hge|].
    split_and!; try done. apply slugPattern_intro; try done. lia.
Qed.

(** ** Properties *)

(** C40: Every derived slug satisfies the pattern the column's CHECK constraint
    enforces: the project rule, its collision retry, and the copy of the rule
    used for tenant names, whatever the name and the random bytes. *)
Theorem derived_slugs_valid `{Unicode} rand rand' name :
  slugPattern (Slugify rand name) = true /\
  slugPattern (slugFromName rand name) = true /\
  slugPattern (SlugifyForCollision rand rand' name) = true.
Proof.
  destruct (slug_from_valid rand "p" name) as (H1 & H2 & H3 & H4); [done..|].
  destruct (slug_from_valid rand "t" name) as (H5 & _); [done..|].
  split_and!; [done|done|]. unfold SlugifyForCollision, Slugify.
  set (base := slug_from rand "p" name) in *. clearbody base.
  set (q := if 55 <? slen base then _ else _).
  assert (starts_alnum q = true /\ str_forall is_slug_char q = true /\ slen q <= 55) as (Q1 & Q2 & Q3).
  { subst q. destruct (Z.ltb_spec 55 (slen base)); [|split_and!; try done; lia].
    assert (starts_alnum (String.substring 0 55 base) = true) as Hs by (by destruct base).
    split_and!; [by apply trim_right_starts|..].
    - destruct (trim_right_prefix ["-"] (String.substring 0 55 base)) as [p Hp].
      pose proof (str_forall_substring is_slug_char 55 base H4) as Hf. rewrite Hp in Hf.
      rewrite str_forall_app in Hf. by to_prop.
    - destruct (trim_right_prefix ["-"] (String.substring 0 55 base)) as [p Hp].
      apply (f_equal slen) in Hp. rewrite slen_app, slen_substring in Hp.
      pose proof (slen_nonneg p). lia. }
  apply slugPattern_intro.
  - by apply starts_alnum_app.
  - rewrite !str_forall_app, Q2. cbn [andb].
    apply (str_forall_impl is_hex_lower_b); [|apply ShortSuffix_hex].
    intros z Hz Hh. unfold is_hex_lower_b, is_slug_char, is_slug_alnum, is_lower_b, is_digit_b in *. lia.
  - rewrite !slen_app, ShortSuffix_slen. change (slen "-") with 1.
    assert (q <> "") by (intros ->; done). destruct q; [done|].
    unfold slen in *. cbn [String.length] in *. lia.
Qed.

(** A supplied slug may hold runs of hyphens, which the field's message rules out. *)
Lemma slug_double_hyphen_accepted : slugPattern "a--b" = true /\ slugPattern "a-" = true.
Proof. by vm_compute. Qed.
