(* ===== verification/Tenant.v ===== *)
(** * Tenants, memberships and the tenant gate

    [internal/tenant] (scope, access, validation, store), the gate of
    [internal/httpx/tenant_middleware.go] and the membership and tenant handlers
    of [internal/httpx/handlers_auth.go]. The tables and their policies are those
    of migration 0001. *)

From S2P Require Import Prelude Apperr Encoding Ids Db Authz Slug.

(** ** Scopes and authorizations *)

Definition Scope := uuid.
Definition Scope_Valid (s : Scope) : bool := bool_decide (s <> uuid_Nil).

Definition NewScope (tenantID : uuid) : go_result Scope :=
  if decide (tenantID = uuid_Nil)
  then Err (Wrapf "tenant: nil tenant id: no tenant scope" (Sentinel ErrNoScope))
  else Ok tenantID.

Inductive Kind := kindUnset | KindHuman | KindMachine.

#[export] Instance Kind_eq_dec : EqDecision Kind.
Proof. solve_decision. Defined.

Record Authorized := mkAuthorized {
  scope : Scope;
  kind : Kind;
  userID : uuid;
  role : Role;
  keyID : uuid;
}.

Definition newAuthorized `{Unicode} (sc : Scope) (u : uuid) (r : Role) : go_result Authorized :=
  if negb (Scope_Valid sc)
  then Err (Wrapf "tenant: authorize with no scope: no tenant scope" (Sentinel ErrNoScope))
  else if decide (u = uuid_Nil)
  then Err (Wrapf "tenant: authorize with no principal: unauthorized" (Sentinel ErrUnauthorized))
  else if negb (Role_Valid r)
  then Err (Wrapf ("tenant: authorize with unknown role " +:+ fmt_q r +:+ ": validation failed")
              (Sentinel ErrValidation))
  else Ok (mkAuthorized sc KindHuman u r uuid_Nil).

Definition NewMachineAuthorized (sc : Scope) (k : uuid) : go_result Authorized :=
  if negb (Scope_Valid sc)
  then Err (Wrapf "tenant: machine authorize with no scope: no tenant scope" (Sentinel ErrNoScope))
  else if decide (k = uuid_Nil)
  then Err (Wrapf "tenant: machine authorize with no key: unauthorized" (Sentinel ErrUnauthorized))
  else Ok (mkAuthorized sc KindMachine uuid_Nil "" k).

Definition IsMachine (a : Authorized) : bool := bool_decide (kind a = KindMachine).

Definition Identity_of (a : Authorized) : Identity :=
  mkIdentity (scope a) (if decide (kind a = KindHuman) then userID a else uuid_Nil).

Definition Valid (a : Authorized) : bool :=
  if negb (Scope_Valid (scope a)) then false
  else match kind a with
       | KindHuman => bool_decide (userID a <> uuid_Nil) && Role_Valid (role a)
       | KindMachine => bool_decide (keyID a <> uuid_Nil)
       | kindUnset => false
       end.

(** ** Tables *)

Record Tenant := mkTenant {
  t_ID : uuid;
  t_Slug : string;
  t_Name : string;
  t_CreatedAt : gotime;
}.

Record User := mkUser {
  u_ID : uuid;
  u_Email : string;
  u_PWHash : string;
  u_CreatedAt : gotime;
}.

(** [memberships] is keyed by its primary key (tenant_id, user_id). *)
Record DB := mkDB {
  tenants : gmap uuid Tenant;
  users : gmap uuid User;
  memberships : gmap (uuid * uuid) (Role * gotime);
}.

Definition empty_DB : DB := mkDB ∅ ∅ ∅.

Definition has_slug (db : DB) (slug : string) : bool :=
  existsb (fun kv => bool_decide (t_Slug kv.2 = slug)) (map_to_list (tenants db)).
Definition has_email (db : DB) (email : string) : bool :=
  existsb (fun kv => bool_decide (u_Email kv.2 = email)) (map_to_list (users db)).

(** The policies of migration 0001. *)
Definition memberships_select (g : Settings) (t u : uuid) : bool := tenant_is g t || user_is g u.
Definition tenants_select (g : Settings) (db : DB) (t : uuid) : bool :=
  match SettingUserID g with
  | None => false
  | Some u => bool_decide (is_Some (memberships db !! (t, u)))
  end.

Section sql.
Context (env : Env) (g : Settings).

Definition rls_violation : err := PgErr "42501" "new row violates row-level security policy".

Definition insert_tenant (id : uuid) (slug name : string) : SE DB err unit := fun db =>
  if negb (tenant_is g id) then (Err rls_violation, db)
  else if negb (slugPattern slug && (1 <=? char_length name) && (char_length name <=? 200))
  then (Err (check_violation "tenants"), db)
  else if bool_decide (is_Some (tenants db !! id)) || has_slug db slug
  then (Err (unique_violation "tenants"), db)
  else (Ok tt, mkDB (<[id := mkTenant id slug name (env_now env)]> (tenants db)) (users db) (memberships db)).

Definition insert_user `{Unicode} (id : uuid) (email pw_hash : string) : SE DB err unit := fun db =>
  if negb (bool_decide (to_lower email = email) && (3 <=? char_length email) &&
           (char_length email <=? 320) && (8 <=? char_length pw_hash))
  then (Err (check_violation "users"), db)
  else if bool_decide (is_Some (users db !! id)) || has_email db email
  then (Err (unique_violation "users"), db)
  else (Ok tt, mkDB (tenants db) (<[id := mkUser id email pw_hash (env_now env)]> (users db)) (memberships db)).

Definition insert_membership (t u : uuid) (r : Role) : SE DB err unit := fun db =>
  if negb (tenant_is g t) then (Err rls_violation, db)
  else if negb (bool_decide (r ∈ [RoleOwner; RoleAdmin; RoleMember]))
  then (Err (check_violation "memberships_role_check"), db)
  else if bool_decide (is_Some (memberships db !! (t, u)))
  then (Err (unique_violation "memberships_pkey"), db)
  else if negb (bool_decide (is_Some (tenants db !! t)) && bool_decide (is_Some (users db !! u)))
  then (Err (fk_violation "memberships"), db)
  else (Ok tt, mkDB (tenants db) (users db) (<[(t, u) := (r, env_now env)]> (memberships db))).
End sql.

(** [translate] *)
Definition translate (e : err) (op : string) : err :=
  if IsUniqueViolation e then Wrapf (op +:+ ": conflict") (Sentinel ErrConflict)
  else if IsCheckViolation e then Wrapf (op +:+ ": validation failed") (Sentinel ErrValidation)
  else Wrapf (op +:+ ": " +:+ error_text e) e.

(** ** Validation *)

Definition ErrVal (msg : string) : err :=
  Wrapf (msg +:+ ": validation failed") (Sentinel ErrValidation).

Definition validateNewTenant `{Unicode} (t : Tenant) : go_result unit :=
  if decide (t_ID t = uuid_Nil) then Err (ErrVal "tenant: nil tenant id")
  else if negb (slugPattern (t_Slug t)) then Err (ErrVal ("tenant: slug " +:+ fmt_q (t_Slug t) +:+ " must match ^[a-z0-9][a-z0-9-]{1,62}$"))
  else if (slen (trim_space (t_Name t)) <? 1) || (200 <? slen (trim_space (t_Name t)))
  then Err (ErrVal "tenant: name must be 1..200 characters")
  else Ok tt.

(** [strings.LastIndex(s, "@")] *)
Fixpoint last_index (c : ascii) (s : string) : Z :=
  match s with
  | "" => -1
  | String x s' =>
      let i := last_index c s' in
      if 0 <=? i then i + 1 else if decide (x = c) then 0 else -1
  end.

Definition str_from (n : Z) (s : string) : string :=
  String.substring (Z.to_nat n) (String.length s) s.

Definition normalizeEmail `{Unicode} (raw : string) : go_result string :=
  let email := to_lower (trim_space raw) in
  if (slen email <? 3) || (320 <? slen email) then Err (ErrVal "tenant: email length out of range")
  else
    let at_ := last_index "@"%char email in
    if (at_ <=? 0) || (at_ =? slen email - 1)
    then Err (ErrVal "tenant: email must contain a local part and a domain")
    else if negb (has_byte "."%char (str_from (at_ + 1) email))
    then Err (ErrVal "tenant: email domain must be fully qualified")
    else Ok email.

(** ** Store operations *)

Section store.
Context `{Unicode} (env : Env).

Definition CreateTenantWithOwner (t : Tenant) (owner : User) (r : Role) : SE DB err unit :=
  _ ← lift (validateNewTenant t);
  if decide (u_ID owner = uuid_Nil) then throw (ErrVal "tenant: nil owner id")
  else if negb (Role_Valid r) then throw (ErrVal ("tenant: unknown role " +:+ fmt_q r))
  else
    email ← lift (normalizeEmail (u_Email owner));
    WithIdentityTx (mkIdentity (t_ID t) (u_ID owner)) (fun g =>
      _ ← or_fail (insert_tenant env g (t_ID t) (t_Slug t) (t_Name t)) (fun e => translate e "insert tenant");
      _ ← or_fail (insert_user env (u_ID owner) email (u_PWHash owner)) (fun e => translate e "insert owner");
      or_fail (insert_membership env g (t_ID t) (u_ID owner) r) (fun e => translate e "insert membership")).

(** A membership insert whose foreign key fails reports not-found. *)
Definition membership_fail (e : err) : err :=
  if IsForeignKeyViolation e then Sentinel ErrNotFound else translate e "insert membership".

Definition CreateForUser (t : Tenant) (u : uuid) (r : Role) : SE DB err unit :=
  _ ← lift (validateNewTenant t);
  if decide (u = uuid_Nil)
  then throw (Wrapf "tenant: nil user id: unauthorized" (Sentinel ErrUnauthorized))
  else if negb (Role_Valid r) then throw (ErrVal ("tenant: unknown role " +:+ fmt_q r))
  else
    WithIdentityTx (mkIdentity (t_ID t) u) (fun g =>
      _ ← or_fail (insert_tenant env g (t_ID t) (t_Slug t) (t_Name t)) (fun e => translate e "insert tenant");
      or_fail (insert_membership env g (t_ID t) u r) membership_fail).

(** The single-row lookup of [Authorize], under the memberships policy. *)
Definition select_role (g : Settings) (t u : uuid) : SE DB err Role := fun db =>
  match memberships db !! (t, u) with
  | Some (r, _) => if memberships_select g t u then (Ok r, db) else (Err (Sentinel PgxErrNoRows), db)
  | None => (Err (Sentinel PgxErrNoRows), db)
  end.

Definition Authorize (sc : Scope) (u : uuid) : SE DB err Role :=
  if negb (Scope_Valid sc) then throw (Sentinel ErrNoScope)
  else if decide (u = uuid_Nil) then throw (Sentinel ErrUnauthorized)
  else or_fail (WithIdentityTx (mkIdentity sc u) (fun g => select_role g sc u))
         (fun e => if Is e PgxErrNoRows then Sentinel ErrNotFound
                   else Wrapf ("authorize: " +:+ error_text e) e).

Definition Resolve (tenantID u : uuid) : SE DB err Authorized :=
  match NewScope tenantID with
  | Err _ => throw (Sentinel ErrNotFound)
  | Ok sc =>
      if decide (u = uuid_Nil) then throw (Sentinel ErrUnauthorized)
      else r ← Authorize sc u; lift (newAuthorized sc u r)
  end.

Definition select_tenant (g : Settings) (t : uuid) : SE DB err Tenant := fun db =>
  match tenants db !! t with
  | Some row => if tenants_select g db t then (Ok row, db) else (Err (Sentinel PgxErrNoRows), db)
  | None => (Err (Sentinel PgxErrNoRows), db)
  end.

Definition Get (a : Authorized) : SE DB err Tenant :=
  if negb (Valid a) then throw (Sentinel ErrNoScope)
  else or_fail (WithIdentityTx (Identity_of a) (fun g => select_tenant g (scope a)))
         (fun e => if Is e PgxErrNoRows then Sentinel ErrNotFound
                   else Wrapf ("get tenant: " +:+ error_text e) e).

Record Membership := mkMembership {
  m_TenantID : uuid;
  m_TenantSlug : string;
  m_TenantName : string;
  m_Role : Role;
  m_CreatedAt : gotime;
}.

Definition ListForUser `{Collation} (u : uuid) : SE DB err (list Membership) :=
  if decide (u = uuid_Nil) then throw (Sentinel ErrUnauthorized)
  else or_fail (WithIdentityTx (mkIdentity uuid_Nil u) (fun g db =>
    let rows := omap (fun '((t, v), (r, at_)) =>
      row ← tenants db !! t;
      if decide (v = u) then
        if memberships_select g t v && tenants_select g db t
        then Some (mkMembership t (t_Slug row) (t_Name row) r at_) else None
      else None) (map_to_list (memberships db)) in
    (Ok (order_by (fun x y => text_leb (m_TenantSlug x) (m_TenantSlug y)) rows), db)))
    (fun e => Wrapf ("list memberships: " +:+ error_text e) e).

Record Member := mkMember {
  mb_UserID : uuid;
  mb_Email : string;
  mb_Role : Role;
  mb_CreatedAt : gotime;
}.

Definition ListMembers `{Collation} (a : Authorized) : SE DB err (list Member) :=
  if negb (Valid a) then throw (Sentinel ErrNoScope)
  else or_fail (WithIdentityTx (Identity_of a) (fun g db =>
    let rows := omap (fun '((t, v), (r, at_)) =>
      usr ← users db !! v;
      if decide (t = scope a) then
        if memberships_select g t v then Some (mkMember v (u_Email usr) r at_) else None
      else None) (map_to_list (memberships db)) in
    (Ok (order_by (fun x y => text_leb (mb_Email x) (mb_Email y)) rows), db)))
    (fun e => Wrapf ("list members: " +:+ error_text e) e).

Definition AddMember (a : Authorized) (u : uuid) (r : Role) : SE DB err unit :=
  if negb (Valid a) then throw (Sentinel ErrNoScope)
  else if decide (u = uuid_Nil) then throw (ErrVal "tenant: nil user id")
  else if negb (Role_Valid r) then throw (ErrVal ("tenant: unknown role " +:+ fmt_q r))
  else WithIdentityTx (Identity_of a) (fun g =>
         or_fail (insert_membership env g (scope a) u r) membership_fail).
End store.

(** ** The gate and the handlers *)

Definition not_found_problem : Problem :=
  mkProblem 404 "not_found" "the requested resource does not exist" None.

(** [ResolveTenant]: the request's principal and path segment in, the
    authorization and the principal put on the context out. *)
Definition ResolveTenant `{Unicode} `{UUIDLib} (principal : option Principal) (path : string)
    : SE DB Problem (Authorized * Principal) := fun db =>
  match principal with
  | None => (Err (mkProblem 401 "unauthorized" "authentication required" None), db)
  | Some p =>
      match uuid_Parse path with
      | None => (Err not_found_problem, db)
      | Some tenantID =>
          if decide (Method p = MethodAPIKey) then
            if decide (Authz.TenantID p = tenantID) then
              match NewScope tenantID with
              | Err _ => (Err not_found_problem, db)
              | Ok sc =>
                  match NewMachineAuthorized sc (CredentialID p) with
                  | Err e => (Err (Map e), db)
                  | Ok a => (Ok (a, p), db)
                  end
              end
            else (Err not_found_problem, db)
          else
            match Resolve tenantID (Authz.UserID p) db with
            | (Err e, db') => (Err (Map e), db')
            | (Ok a, db') => (Ok (a, WithResolvedTenant p (scope a) (role a)), db')
            end
      end
  end.

(** A route under [/v1/tenants/{tenantID}] guarded by [Require perm]. *)
Definition guarded_route `{Unicode} `{UUIDLib} (perm : Perm) (principal : option Principal) (path : string)
    : SE DB Problem Authorized :=
  ap ← ResolveTenant principal path;
  lift (Require_ perm (Some ap.2) ap.1).

Definition rank (r : Role) : Z :=
  if decide (r = RoleOwner) then 3 else if decide (r = RoleAdmin) then 2
  else if decide (r = RoleMember) then 1 else 0.

Definition mayGrantRole (actor target : Role) : bool :=
  (rank target <=? rank actor) && (0 <? rank target).

(** [handleAddMember] on a decoded body; the route carries no [Require]. *)
Definition handleAddMember `{Unicode} `{UUIDLib} (env : Env) (a : Authorized) (req_UserID req_Role : string)
    : SE DB Problem (uuid * Role) := fun db =>
  match uuid_Parse (trim_space req_UserID) with
  | None => (Err (Map (Invalid "user_id" "must be a UUID")), db)
  | Some u =>
      let r : Role := trim_space req_Role in
      if negb (Role_Valid r)
      then (Err (Map (Invalid "role" "must be one of owner, admin, member")), db)
      else if negb (mayGrantRole (role a) r)
      then (Err (mkProblem 403 "forbidden" ("a " +:+ role a +:+ " may not grant the " +:+ r +:+ " role") None), db)
      else match AddMember env a u r db with
           | (Err e, db') => (Err (Map e), db')
           | (Ok _, db') => (Ok (u, r), db')
           end
  end.

(** [createTenantWithUniqueSlug]: a derived slug that collides is retried once
    with a fresh suffix and a fresh id. [env2] is what the second attempt
    observes, [rand2] the bytes its base draws, [rand3] those of the suffix. *)
Definition createTenantWithUniqueSlug `{Unicode} (env env2 : Env) (rand2 rand3 : nat -> Z)
    (name suppliedSlug : string) (u : uuid) : SE DB err Tenant := fun db =>
  let derived := bool_decide (suppliedSlug = "") in
  let slug := if derived then slugFromName (env_rand env) name else suppliedSlug in
  let newTenant := mkTenant (env_id env 0) slug name 0 in
  match CreateForUser env newTenant u RoleOwner db with
  | (Ok _, db') => (Ok newTenant, db')
  | (Err e, db') =>
      if negb derived || negb (Is e ErrConflict) then (Err e, db')
      else
        let base := slugFromName rand2 name in
        let base := if 55 <? slen base then trim_right ["-"] (String.substring 0 55 base) else base in
        let newTenant := mkTenant (env_id env2 0) (base +:+ "-" +:+ ShortSuffix rand3 6) name 0 in
        match CreateForUser env2 newTenant u RoleOwner db' with
        | (Err e2, db'') => (Err e2, db'')
        | (Ok _, db'') => (Ok newTenant, db'')
        end
  end.

(** ** Lemmas *)

(** What a successful insert did. *)
Lemma insert_tenant_Ok env g id slug name db db' :
  insert_tenant env g id slug name db = (Ok tt, db') ->
  SettingTenantID g = Some id /\ slugPattern slug = true /\ tenants db !! id = None /\
  has_slug db slug = false /\
  db' = mkDB (<[id := mkTenant id slug name (env_now env)]> (tenants db)) (users db) (memberships db).
Proof.
  unfold insert_tenant, tenant_is. case_bool_decide; cbn [negb]; [|done].
  destruct (negb _) eqn:H1; [done|]. destruct (_ || _) eqn:H2; [done|].
  intros [= <-]. to_prop. split_and!; try done. by apply eq_None_not_Some.
Qed.

Lemma insert_user_Ok `{Unicode} env id email pw db db' :
  insert_user env id email pw db = (Ok tt, db') ->
  users db !! id = None /\ has_email db email = false /\
  db' = mkDB (tenants db) (<[id := mkUser id email pw (env_now env)]> (users db)) (memberships db).
Proof.
  unfold insert_user. destruct (negb _) eqn:H1; [done|]. destruct (_ || _) eqn:H2; [done|].
  intros [= <-]. to_prop. split_and!; try done. by apply eq_None_not_Some.
Qed.

Lemma insert_membership_Ok env g t u r db db' :
  insert_membership env g t u r db = (Ok tt, db') ->
  SettingTenantID g = Some t /\ r ∈ [RoleOwner; RoleAdmin; RoleMember] /\
  memberships db !! (t, u) = None /\ is_Some (tenants db !! t) /\ is_Some (users db !! u) /\
  db' = mkDB (tenants db) (users db) (<[(t, u) := (r, env_now env)]> (memberships db)).
Proof.
  unfold insert_membership, tenant_is. case_bool_decide; cbn [negb]; [|done].
  case_bool_decide; cbn [negb]; [|done]. case_bool_decide as Hm; [done|].
  destruct (negb _) eqn:H1; [done|]. intros [= <-]. to_prop. split_and!; try done.
  by apply eq_None_not_Some.
Qed.

(** The statement-level inserts never touch the database when they fail. *)
Lemma insert_membership_Err env g t u r db e db' :
  insert_membership env g t u r db = (Err e, db') -> db' = db.
Proof. unfold insert_membership. repeat case_match; by intros [= _ <-]. Qed.

Definition settings_of (i : Identity) : Settings :=
  mkSettings (set_unless_nil (id_TenantID i)) (set_unless_nil (id_UserID i)) None None false.

Lemma Valid_identity a : Valid a = true ->
  Identity_Valid (Identity_of a) = true /\ SettingTenantID (settings_of (Identity_of a)) = Some (scope a).
Proof.
  intros Hv. unfold Valid in Hv. destruct (Scope_Valid (scope a)) eqn:Hn; [|done]. apply bool_decide_eq_true in Hn.
  unfold Identity_Valid, Identity_of, settings_of, set_unless_nil. cbn.
  by rewrite (bool_decide_eq_true_2 (scope a <> uuid_Nil)), (decide_False (P := scope a = uuid_Nil)) by done.
Qed.

Lemma throw_Ok {S E A} (e : E) (s : S) (a : A) s' : throw e s = (Ok a, s') -> False.
Proof. done. Qed.

(** What a successful operation did to the tables. *)
Lemma CreateTenantWithOwner_Ok `{Unicode} env t o r db db' :
  CreateTenantWithOwner env t o r db = (Ok tt, db') ->
  exists email,
    normalizeEmail (u_Email o) = Ok email /\ Role_Valid r = true /\ slugPattern (t_Slug t) = true /\
    tenants db !! t_ID t = None /\ has_slug db (t_Slug t) = false /\
    users db !! u_ID o = None /\ has_email db email = false /\
    memberships db !! (t_ID t, u_ID o) = None /\
    db' = mkDB (<[t_ID t := mkTenant (t_ID t) (t_Slug t) (t_Name t) (env_now env)]> (tenants db))
               (<[u_ID o := mkUser (u_ID o) email (u_PWHash o) (env_now env)]> (users db))
               (<[(t_ID t, u_ID o) := (r, env_now env)]> (memberships db)).
Proof.
  unfold CreateTenantWithOwner. intros Hrun. inv_bind.
  match goal with H : lift _ _ = _ |- _ => apply lift_Ok in H as [_ ->] end.
  case_decide; [done|]. destruct (Role_Valid r) eqn:Hr; cbn [negb] in Hrun; [|done].
  apply SE_bind_inv in Hrun as (email & s1 & He & Hrun). apply lift_Ok in He as [He ->].
  apply WithIdentityTx_Ok in Hrun.
  apply SE_bind_inv in Hrun as ([] & s1 & H1 & Hrun). apply SE_bind_inv in Hrun as ([] & s2 & H2 & H3).
  apply or_fail_Ok in H1, H2, H3.
  apply insert_tenant_Ok in H1 as (_ & ? & ? & ? & ->).
  apply insert_user_Ok in H2 as (? & ? & ->). cbn in *.
  apply insert_membership_Ok in H3 as (_ & _ & ? & _ & _ & ->). cbn in *.
  exists email. by split_and!.
Qed.

Lemma CreateForUser_Ok `{Unicode} env t u r db db' :
  CreateForUser env t u r db = (Ok tt, db') ->
  Role_Valid r = true /\ slugPattern (t_Slug t) = true /\ tenants db !! t_ID t = None /\
  has_slug db (t_Slug t) = false /\ is_Some (users db !! u) /\ memberships db !! (t_ID t, u) = None /\
  db' = mkDB (<[t_ID t := mkTenant (t_ID t) (t_Slug t) (t_Name t) (env_now env)]> (tenants db))
             (users db) (<[(t_ID t, u) := (r, env_now env)]> (memberships db)).
Proof.
  unfold CreateForUser. intros Hrun. inv_bind.
  match goal with H : lift _ _ = _ |- _ => apply lift_Ok in H as [_ ->] end.
  case_decide; [done|]. destruct (Role_Valid r) eqn:Hr; cbn [negb] in Hrun; [|done].
  apply WithIdentityTx_Ok in Hrun. apply SE_bind_inv in Hrun as ([] & s1 & H1 & H2).
  apply or_fail_Ok in H1, H2. apply insert_tenant_Ok in H1 as (_ & ? & ? & ? & ->).
  apply insert_membership_Ok in H2 as (_ & _ & ? & _ & ? & ->). cbn in *. by split_and!.
Qed.

Lemma AddMember_Ok `{Unicode} env a u r db db' :
  AddMember env a u r db = (Ok tt, db') ->
  Valid a = true /\ Role_Valid r = true /\ memberships db !! (scope a, u) = None /\
  is_Some (tenants db !! scope a) /\ is_Some (users db !! u) /\
  db' = mkDB (tenants db) (users db) (<[(scope a, u) := (r, env_now env)]> (memberships db)).
Proof.
  unfold AddMember. destruct (Valid a); cbn [negb]; [|done]. case_decide; [done|].
  destruct (Role_Valid r); cbn [negb]; [|done]. intros Hrun%WithIdentityTx_Ok.
  apply or_fail_Ok, insert_membership_Ok in Hrun. naive_solver.
Qed.

(** Every failure leaves the tables alone. *)
Lemma CreateTenantWithOwner_Err `{Unicode} env t o r db e db' :
  CreateTenantWithOwner env t o r db = (Err e, db') -> db' = db.
Proof.
  unfold CreateTenantWithOwner, mbind, SE_bind, lift, throw.
  destruct (validateNewTenant t); [|by intros [= _ <-]]. case_decide; [by intros [= _ <-]|].
  case_match; [by intros [= _ <-]|]. destruct (normalizeEmail _); [|by intros [= _ <-]].
  apply WithIdentityTx_Err.
Qed.

Lemma CreateForUser_Err `{Unicode} env t u r db e db' :
  CreateForUser env t u r db = (Err e, db') -> db' = db.
Proof.
  unfold CreateForUser, mbind, SE_bind, lift, throw.
  destruct (validateNewTenant t); [|by intros [= _ <-]]. case_decide; [by intros [= _ <-]|].
  case_match; [by intros [= _ <-]|]. apply WithIdentityTx_Err.
Qed.

Lemma AddMember_Err `{Unicode} env a u r db e db' :
  AddMember env a u r db = (Err e, db') -> db' = db.
Proof.
  unfold AddMember, throw. repeat (case_match; [by intros [= _ <-]|]). apply WithIdentityTx_Err.
Qed.

(** ** The tables as a state machine *)

(** One request, whatever it returns; [step_user] is the insert of a registration
    and of seeding ([UserStore.Create], [UserStore.Insert]). *)
Inductive step `{Unicode} `{UUIDLib} : DB -> DB -> Prop :=
  | step_user env id email pw_hash res db db' :
      insert_user env id email pw_hash db = (res, db') -> step db db'
  | step_register env t o r res db db' :
      CreateTenantWithOwner env t o r db = (res, db') -> step db db'
  | step_create env env2 rand2 rand3 name slug u res db db' :
      createTenantWithUniqueSlug env env2 rand2 rand3 name slug u db = (res, db') -> step db db'
  | step_add_member env a u r res db db' :
      handleAddMember env a u r db = (res, db') -> step db db'.

Record DB_wf (db : DB) : Prop := {
  wf_tenant_id : forall i t, tenants db !! i = Some t -> t_ID t = i /\ slugPattern (t_Slug t) = true;
  wf_slug : forall i j a b, tenants db !! i = Some a -> tenants db !! j = Some b ->
              t_Slug a = t_Slug b -> i = j;
  wf_email : forall i j a b, users db !! i = Some a -> users db !! j = Some b ->
              u_Email a = u_Email b -> i = j;
  wf_member : forall t u r at_, memberships db !! (t, u) = Some (r, at_) ->
              Role_Valid r = true /\ is_Some (tenants db !! t) /\ is_Some (users db !! u);
}.

(** No row disappears and none changes. *)
Definition DB_grows (db db' : DB) : Prop :=
  tenants db ⊆ tenants db' /\ users db ⊆ users db' /\ memberships db ⊆ memberships db'.

#[export] Instance DB_grows_preorder : PreOrder DB_grows.
Proof.
  split; [by intros db; split_and!|].
  intros a b c (?&?&?) (?&?&?). split_and!; by etrans.
Qed.

Lemma has_slug_false db slug i t :
  has_slug db slug = false -> tenants db !! i = Some t -> t_Slug t <> slug.
Proof.
  unfold has_slug. rewrite existsb_false_forall. intros Hn Hi Heq.
  specialize (Hn (i, t)). cbn in Hn. rewrite elem_of_map_to_list in Hn.
  specialize (Hn Hi). by apply bool_decide_eq_false in Hn.
Qed.

Lemma has_email_false db email i t :
  has_email db email = false -> users db !! i = Some t -> u_Email t <> email.
Proof.
  unfold has_email. rewrite existsb_false_forall. intros Hn Hi Heq.
  specialize (Hn (i, t)). cbn in Hn. rewrite elem_of_map_to_list in Hn.
  specialize (Hn Hi). by apply bool_decide_eq_false in Hn.
Qed.

Lemma wf_insert_tenant T U M id slug name now :
  DB_wf (mkDB T U M) -> T !! id = None -> slugPattern slug = true -> has_slug (mkDB T U M) slug = false ->
  DB_wf (mkDB (<[id := mkTenant id slug name now]> T) U M).
Proof.
  intros [W1 W2 W3 W4] Hid Hp Hs. split; cbn; try done.
  - intros i t [[<- <-] | [_ Hi]]%lookup_insert_Some; [done|eauto].
  - intros i j a b [[<- <-] | [? Hi]]%lookup_insert_Some [[<- <-] | [? Hj]]%lookup_insert_Some;
      cbn; intros Heq; [done|..|eauto];
      exfalso; eapply (has_slug_false (mkDB T U M)); eauto.
  - intros t u r at_ Hm. destruct (W4 _ _ _ _ Hm) as (? & ? & ?). split_and!; try done.
    destruct (decide (t = id)) as [-> | Hne]; [by rewrite lookup_insert_eq|by rewrite lookup_insert_ne].
Qed.

Lemma wf_insert_user T U M id email pw now :
  DB_wf (mkDB T U M) -> U !! id = None -> has_email (mkDB T U M) email = false ->
  DB_wf (mkDB T (<[id := mkUser id email pw now]> U) M).
Proof.
  intros [W1 W2 W3 W4] Hid Hs. split; cbn; try done.
  - intros i j a b [[<- <-] | [? Hi]]%lookup_insert_Some [[<- <-] | [? Hj]]%lookup_insert_Some;
      cbn; intros Heq; [done|..|eauto];
      exfalso; eapply (has_email_false (mkDB T U M)); eauto.
  - intros t u r at_ Hm. destruct (W4 _ _ _ _ Hm) as (? & ? & ?). split_and!; try done.
    destruct (decide (u = id)) as [-> | Hne]; [by rewrite lookup_insert_eq|by rewrite lookup_insert_ne].
Qed.

Lemma insert_user_Err `{Unicode} env id email pw db e db' :
  insert_user env id email pw db = (Err e, db') -> db' = db.
Proof. unfold insert_user. repeat case_match; by intros [= _ <-]. Qed.

Lemma insert_user_wf `{Unicode} env id email pw db res db' :
  insert_user env id email pw db = (res, db') -> DB_wf db -> DB_wf db' /\ DB_grows db db'.
Proof.
  destruct res as [[]|e]; [|by intros ->%insert_user_Err]. intros (Hid & Hem & ->)%insert_user_Ok Hwf.
  split; [apply wf_insert_user; [by destruct db|done|by destruct db]|].
  split_and!; cbn; try done. by apply insert_subseteq.
Qed.

Lemma wf_insert_membership T U M t u r now :
  DB_wf (mkDB T U M) -> Role_Valid r = true -> is_Some (T !! t) -> is_Some (U !! u) ->
  DB_wf (mkDB T U (<[(t, u) := (r, now)]> M)).
Proof.
  intros [W1 W2 W3 W4] Hr Ht Hu. split; cbn; try done.
  intros t' u' r' at_ [[[= <- <-] [= <- <-]] | [_ Hi]]%lookup_insert_Some; [done|eauto].
Qed.

Lemma CreateTenantWithOwner_wf `{Unicode} env t o r db res db' :
  CreateTenantWithOwner env t o r db = (res, db') -> DB_wf db -> DB_wf db' /\ DB_grows db db'.
Proof.
  destruct res as [[]|e]; [|by intros ->%CreateTenantWithOwner_Err].
  intros (em & _ & ? & ? & ? & ? & ? & ? & ? & ->)%CreateTenantWithOwner_Ok Hwf. split.
  - apply wf_insert_membership; rewrite ?lookup_insert_eq; try done; eauto.
    apply wf_insert_user; try done. apply wf_insert_tenant; try done. by destruct db.
  - split_and!; cbn; by apply insert_subseteq.
Qed.

Lemma CreateForUser_wf `{Unicode} env t u r db res db' :
  CreateForUser env t u r db = (res, db') -> DB_wf db -> DB_wf db' /\ DB_grows db db'.
Proof.
  destruct res as [[]|e]; [|by intros ->%CreateForUser_Err].
  intros (? & ? & ? & ? & ? & ? & ->)%CreateForUser_Ok Hwf. split.
  - apply wf_insert_membership; rewrite ?lookup_insert_eq; try done; eauto.
    apply wf_insert_tenant; try done. by destruct db.
  - split_and!; cbn; try done; by apply insert_subseteq.
Qed.

Lemma AddMember_wf `{Unicode} env a u r db res db' :
  AddMember env a u r db = (res, db') -> DB_wf db -> DB_wf db' /\ DB_grows db db'.
Proof.
  destruct res as [[]|e]; [|by intros ->%AddMember_Err].
  intros (? & ? & ? & ? & ? & ->)%AddMember_Ok Hwf. split.
  - apply wf_insert_membership; try done. by destruct db.
  - split_and!; cbn; try done; by apply insert_subseteq.
Qed.

Lemma step_wf `{Unicode} `{UUIDLib} db db' : step db db' -> DB_wf db -> DB_wf db' /\ DB_grows db db'.
Proof.
  intros [env id em pw res ? ? Hrun|env t o r res ? ? Hrun|env env2 r2 r3 name slug u res ? ? Hrun|env a u r res ? ? Hrun] Hwf.
  - by eapply insert_user_wf.
  - by eapply CreateTenantWithOwner_wf.
  - unfold createTenantWithUniqueSlug in Hrun.
    destruct (CreateForUser env _ u RoleOwner _) as [r1 d1] eqn:E1.
    destruct (CreateForUser_wf _ _ _ _ _ _ _ E1 Hwf) as [Hwf1 G1].
    destruct r1 as [[]|e1]; [by simplify_eq|]. case_match; [by simplify_eq|].
    match type of Hrun with context [CreateForUser env2 ?t u RoleOwner d1] =>
      destruct (CreateForUser env2 t u RoleOwner d1) as [r2' d2] eqn:E2 end.
    destruct (CreateForUser_wf _ _ _ _ _ _ _ E2 Hwf1) as [Hwf2 G2].
    destruct r2' as [[]|e2]; simplify_eq; (split; [done|by etrans]).
  - unfold handleAddMember in Hrun. destruct (uuid_Parse _) as [uid|]; [|by simplify_eq].
    case_match; [by simplify_eq|]. case_match; [by simplify_eq|].
    destruct (AddMember env a uid _ _) as [r1 d1] eqn:E1.
    pose proof (AddMember_wf _ _ _ _ _ _ _ E1 Hwf).
    by destruct r1; simplify_eq.
Qed.

Lemma tenant_empty_wf : DB_wf empty_DB.
Proof. split; cbn; intros *; by rewrite lookup_empty. Qed.

Lemma tenant_steps_wf `{Unicode} `{UUIDLib} db db' :
  rtc step db db' -> DB_wf db -> DB_wf db' /\ DB_grows db db'.
Proof.
  induction 1 as [|a b c Hs _ IH]; intros Hwf; [done|].
  destruct (step_wf _ _ Hs Hwf) as [Hb Gab]. destruct (IH Hb). split; [done|by etrans].
Qed.

(** ** Properties *)

(** C4: Whatever requests are served, in whatever order and with whatever outcome:
    every membership names an existing tenant, an existing user and a known
    role, slugs and addresses stay unique, every slug is well formed, and no row
    once written is changed or lost. *)
Theorem tenancy_invariant `{Unicode} `{UUIDLib} db db' :
  rtc step empty_DB db -> rtc step db db' -> DB_wf db' /\ DB_grows db db'.
Proof.
  intros H1 H2. apply tenant_steps_wf; [done|]. by apply (tenant_steps_wf _ _ H1), tenant_empty_wf.
Qed.

(** C1: The gate: a request reaches a tenant's handler only with an authorization
    for exactly the tenant its path names, carried by a key minted for that
    tenant or by a user with a membership row there, and only when that key's
    scopes or that membership's role hold the route's permission. Serving it
    changes nothing. *)
Theorem gate_sound `{Unicode} `{UUIDLib} perm principal path db a db' :
  guarded_route perm principal path db = (Ok a, db') ->
  db' = db /\ Valid a = true /\ uuid_Parse path = Some (scope a) /\
  exists p, principal = Some p /\
    ((Method p = MethodAPIKey /\ Authz.TenantID p = scope a /\ keyID a = CredentialID p /\
      IsMachine a = true /\ perm ∈ Scopes p) \/
     (Method p <> MethodAPIKey /\ userID a = Authz.UserID p /\ IsMachine a = false /\
      (exists at_, memberships db !! (scope a, userID a) = Some (role a, at_)) /\
      Can (role a) perm = true)).
Proof.
  unfold guarded_route. intros Hrun. apply SE_bind_inv in Hrun as ([a' p'] & s1 & H1 & H2).
  apply lift_Ok in H2 as [H2 ->]. cbn in H2. unfold Require_ in H2.
  destruct (Allows p' perm) eqn:Hal; cbn [negb] in H2; [|done]. apply Ok_inj in H2 as ->.
  unfold ResolveTenant in H1. destruct principal as [p|]; [|done].
  destruct (uuid_Parse path) as [tid|] eqn:Hpath; [|done]. case_decide as Hm.
  - case_decide as Ht; [|done]. unfold NewScope in H1. case_decide as Hn; [done|].
    unfold NewMachineAuthorized in H1.
    assert (Hs : Scope_Valid tid = true) by (by apply bool_decide_eq_true).
    rewrite Hs in H1. cbn [negb] in H1. case_decide as Hk; [done|]. injection H1 as <- <- <-.
    cbn. split_and!; [done|..|done|].
    + unfold Valid. cbn. rewrite Hs. cbn. by apply bool_decide_eq_true.
    + exists p. split; [done|]. left. split_and!; try done. by apply (Allows_key p perm Hm).
  - destruct (Resolve tid (Authz.UserID p) db) as [[a'|e] d] eqn:HR; [|done].
    injection H1 as <- <- <-. unfold Resolve, NewScope in HR. case_decide; [done|]. case_decide as Hu; [done|].
    apply SE_bind_inv in HR as (r & s2 & HA & HN). apply lift_Ok in HN as [HN ->].
    unfold Authorize in HA. destruct (negb (Scope_Valid tid)) eqn:Hs; [done|].
    rewrite decide_False in HA by done. apply or_fail_Ok, WithIdentityTx_Ok in HA.
    unfold select_role in HA. destruct (memberships db !! (tid, Authz.UserID p)) as [[r' at_]|] eqn:Hmem; [|done].
    case_match; [|done]. injection HA as <- <-.
    unfold newAuthorized in HN. rewrite Hs, decide_False in HN by done.
    destruct (Role_Valid r') eqn:Hr; cbn [negb] in HN; [|done]. apply Ok_inj in HN as <-. cbn in *.
    to_prop. split_and!; [done|..|done|].
    + unfold Valid. cbn. rewrite Hs. cbn. rewrite Hr, andb_true_r. by apply bool_decide_eq_true.
    + exists p. split; [done|]. right. split_and!; try done; [by exists at_|].
      unfold WithResolvedTenant in Hal. rewrite decide_False in Hal by done.
      unfold Allows in Hal. cbn in Hal. case_decide; [done|]. by rewrite decide_False in Hal.
Qed.

(** A user without a membership gets one and the same answer for a tenant that
    exists and for one that does not. *)
Theorem non_member_indistinguishable `{Unicode} `{UUIDLib} p path tid db1 db2 :
  Method p <> MethodAPIKey -> Authz.UserID p <> uuid_Nil -> uuid_Parse path = Some tid ->
  memberships db1 !! (tid, Authz.UserID p) = None ->
  memberships db2 !! (tid, Authz.UserID p) = None ->
  (ResolveTenant (Some p) path db1).1 = (ResolveTenant (Some p) path db2).1 /\
  (ResolveTenant (Some p) path db1).1 = Err not_found_problem.
Proof.
  intros Hm Hu Hp H1 H2.
  assert (forall db, memberships db !! (tid, Authz.UserID p) = None ->
    (ResolveTenant (Some p) path db).1 = Err not_found_problem) as Hall; [|by rewrite !Hall].
  intros db Hdb. unfold ResolveTenant. rewrite Hp, decide_False by done.
  unfold Resolve, NewScope. case_decide as Ht; [reflexivity|]. rewrite decide_False by done.
  unfold Authorize, Scope_Valid. rewrite bool_decide_eq_true_2 by done. cbn [negb].
  rewrite decide_False by done. unfold mbind, SE_bind, or_fail.
  rewrite WithIdentityTx_run
    by (unfold Identity_Valid; cbn; by rewrite bool_decide_eq_true_2).
  unfold BeginFunc, select_role. rewrite Hdb. reflexivity.
Qed.

(** Granting a role: success adds exactly the named row, in the caller's tenant
    and with a role no higher than the caller's own; every failure leaves the
    tables as they were. A machine credential holds no role and can grant none. *)
Theorem handleAddMember_grants `{Unicode} `{UUIDLib} env a req_UserID req_Role db res db' :
  handleAddMember env a req_UserID req_Role db = (res, db') ->
  match res with
  | Ok (u, r) =>
      uuid_Parse (trim_space req_UserID) = Some u /\ r = trim_space req_Role /\ Role_Valid r = true /\
      rank r <= rank (role a) /\ IsMachine a && bool_decide (role a = "") = false /\
      memberships db !! (scope a, u) = None /\
      db' = mkDB (tenants db) (users db) (<[(scope a, u) := (r, env_now env)]> (memberships db))
  | Err _ => db' = db
  end.
Proof.
  unfold handleAddMember. destruct (uuid_Parse _) as [u|] eqn:Hu; [|by intros [= <- <-]].
  destruct (negb (Role_Valid _)) eqn:Hr; [by intros [= <- <-]|].
  destruct (negb (mayGrantRole _ _)) eqn:Hg; [by intros [= <- <-]|]. to_prop.
  destruct (AddMember env a u _ db) as [[[]|e] d] eqn:E; intros [= <- <-].
  - apply AddMember_Ok in E as (_ & _ & Hnone & _ & _ & ->). unfold mayGrantRole in Hg. to_prop.
    split_and!; try done. apply andb_false_iff. right. apply bool_decide_eq_false.
    intros Hrole. rewrite Hrole in *. change (rank "") with 0 in *. lia.
  - by eapply AddMember_Err.
Qed.

(** The permission the model reserves for it, [member:manage], is not what the
    route asks for: a plain member, who does not hold it, adds members. *)
Theorem member_adds_members `{Unicode} `{UUIDLib} env sc m u text db :
  sc <> uuid_Nil -> m <> uuid_Nil -> u <> uuid_Nil ->
  uuid_Parse (trim_space text) = Some u ->
  is_Some (tenants db !! sc) -> is_Some (users db !! u) -> memberships db !! (sc, u) = None ->
  let a := mkAuthorized sc KindHuman m RoleMember uuid_Nil in
  Can (role a) PermMemberManage = false /\
  handleAddMember env a text "member" db =
    (Ok (u, RoleMember),
     mkDB (tenants db) (users db) (<[(sc, u) := (RoleMember, env_now env)]> (memberships db))).
Proof.
  intros Hsc Hm Hu Hp Ht Hus Hmem a. split; [by vm_compute|].
  unfold handleAddMember. rewrite Hp. change (trim_space "member") with RoleMember.
  assert (Hrv : Role_Valid RoleMember = true) by (vm_compute; reflexivity).
  rewrite Hrv. cbn [negb]. change (mayGrantRole (role a) RoleMember) with true. cbn [negb].
  unfold AddMember.
  assert (Valid a = true) as ->.
  { unfold Valid, Scope_Valid. cbn. rewrite !bool_decide_eq_true_2 by done. cbn. exact Hrv. }
  cbn [negb]. rewrite decide_False, Hrv by done. cbn [negb].
  rewrite WithIdentityTx_run by (unfold Identity_Valid; cbn; by rewrite bool_decide_eq_true_2).
  unfold BeginFunc, or_fail, insert_membership, tenant_is, set_unless_nil. cbn.
  rewrite (decide_False (P := sc = uuid_Nil)) by done.
  rewrite (bool_decide_eq_true_2 (Some sc = Some sc)) by done. cbn [negb].
  rewrite (bool_decide_eq_true_2 (RoleMember ∈ _)) by set_solver. cbn [negb].
  rewrite Hmem. rewrite (bool_decide_eq_false_2 (is_Some None)) by (by intros [? ?]).
  rewrite !bool_decide_eq_true_2 by done. reflexivity.
Qed.

(** A key holding [tenant:read] is let through to the handler that reads the
    tenant, and is always told it does not exist: its identity names no user, and
    the policy on tenants is keyed on one. *)
Theorem key_cannot_read_tenant a db :
  Valid a = true -> IsMachine a = true -> (Get a db).1 = Err (Sentinel ErrNotFound).
Proof.
  intros Hv Hm. unfold Get. rewrite Hv. cbn [negb]. apply bool_decide_eq_true in Hm.
  unfold Valid in Hv. destruct (Scope_Valid (scope a)) eqn:Hs; cbn [negb] in Hv; [|done].
  apply bool_decide_eq_true in Hs. unfold or_fail, Identity_of. rewrite Hm, decide_False by done.
  rewrite WithIdentityTx_run by (unfold Identity_Valid; cbn; by rewrite bool_decide_eq_true_2).
  unfold BeginFunc, select_tenant, tenants_select. cbn.
  by destruct (_ !! _).
Qed.

(** ** Witnesses *)

Module TenantDemo.
#[local] Existing Instance DemoUnicode.
#[local] Existing Instance DemoUUID.lib.

Definition env0 : Env := mkEnv 100 100 (fun n => N.of_nat (50 + n)) (fun n => N.of_nat (500 + n)) (fun _ => 7) "req-1".
Definition acme : Tenant := mkTenant 5%N "acme" "Acme" 0.
Definition ada : User := mkUser 11%N "Ada@Example.com" "argon2id-hash" 0.
Definition db1 : DB := (CreateTenantWithOwner env0 acme ada RoleOwner empty_DB).2.
Definition bob_row : User := mkUser 12%N "bob@example.com" "argon2id-hash" 0.
Definition db2 : DB := mkDB (tenants db1) (<[12%N := bob_row]> (users db1)) (memberships db1).
Definition ada_jwt : Principal := mkPrincipal 11%N 0%N "" [] MethodJWT 0%N.
Definition bob_jwt : Principal := mkPrincipal 12%N 0%N "" [] MethodJWT 0%N.
Definition ada_auth : Authorized := mkAuthorized 5%N KindHuman 11%N RoleOwner 0%N.
Definition key_auth : Authorized := mkAuthorized 5%N KindMachine 0%N "" 9%N.

Lemma tenancy_invariant_witness : DB_wf db1 /\ DB_grows db1 db1.
Proof.
  apply tenancy_invariant; [|apply rtc_refl]. apply rtc_once.
  apply (step_register env0 acme ada RoleOwner (Ok tt)). vm_compute. reflexivity.
Defined.

Lemma gate_sound_witness :
  db1 = db1 /\ Valid ada_auth = true /\ uuid_Parse "5" = Some (scope ada_auth) /\
  exists p, Some ada_jwt = Some p /\
    ((Method p = MethodAPIKey /\ Authz.TenantID p = scope ada_auth /\ keyID ada_auth = CredentialID p /\
      IsMachine ada_auth = true /\ PermInvoiceSettle ∈ Scopes p) \/
     (Method p <> MethodAPIKey /\ userID ada_auth = Authz.UserID p /\ IsMachine ada_auth = false /\
      (exists at_, memberships db1 !! (scope ada_auth, userID ada_auth) = Some (role ada_auth, at_)) /\
      Can (role ada_auth) PermInvoiceSettle = true)).
Proof.
  apply (gate_sound PermInvoiceSettle (Some ada_jwt) "5" db1 ada_auth db1).
  vm_compute. reflexivity.
Defined.

Lemma non_member_indistinguishable_witness :
  (ResolveTenant (Some bob_jwt) "5" db1).1 = (ResolveTenant (Some bob_jwt) "5" empty_DB).1 /\
  (ResolveTenant (Some bob_jwt) "5" db1).1 = Err not_found_problem.
Proof.
  apply (non_member_indistinguishable bob_jwt "5" 5%N db1 empty_DB);
    [discriminate|discriminate|vm_compute; reflexivity..].
Defined.

Lemma handleAddMember_grants_witness :
  handleAddMember env0 ada_auth " 12" "admin" db2 =
    (Ok (12%N, RoleAdmin), (handleAddMember env0 ada_auth " 12" "admin" db2).2) /\
  rank RoleAdmin <= rank (role ada_auth).
Proof.
  assert (H : handleAddMember env0 ada_auth " 12" "admin" db2 =
    (Ok (12%N, RoleAdmin), (handleAddMember env0 ada_auth " 12" "admin" db2).2))
    by (vm_compute; reflexivity).
  split; [exact H|]. apply handleAddMember_grants in H. apply H.
Defined.

Lemma member_adds_members_witness :
  let a := mkAuthorized 5%N KindHuman 11%N RoleMember uuid_Nil in
  Can (role a) PermMemberManage = false /\
  handleAddMember env0 a "12" "member" db2 =
    (Ok (12%N, RoleMember),
     mkDB (tenants db2) (users db2) (<[(5%N, 12%N) := (RoleMember, env_now env0)]> (memberships db2))).
Proof.
  apply (member_adds_members env0 5%N 11%N 12%N "12" db2);
    try discriminate; try (vm_compute; reflexivity).
  - exists (mkTenant 5%N "acme" "Acme" 100). vm_compute. reflexivity.
  - exists bob_row. vm_compute. reflexivity.
Defined.

Lemma key_cannot_read_tenant_witness : (Get key_auth db1).1 = Err (Sentinel ErrNotFound).
Proof. apply key_cannot_read_tenant; vm_compute; reflexivity. Defined.
End TenantDemo.
