(* ===== verification/Paging.v ===== *)
(** * Keyset pagination

    The listings of projects, invoices, webhook deliveries and audit entries all
    run the same query: rows after the cursor in (time, id) order, newest first,
    one more than the page size; the extra row only decides whether a next page
    exists. The query and the cut are written once here, over any row type with
    a key, and each listing instantiates them. *)

From S2P Require Import Prelude Apperr Ids Db Cursor.

(** Row comparison of SQL: lexicographic on (timestamptz, uuid). *)
Definition Key : Type := Z * N.
Definition key_lt (a b : Key) : Prop := a.1 < b.1 \/ (a.1 = b.1 /\ (a.2 < b.2)%N).
#[export] Instance key_lt_dec a b : Decision (key_lt a b).
Proof. unfold key_lt. apply _. Defined.
Definition key_geb (a b : Key) : bool := negb (bool_decide (key_lt a b)).

#[export] Instance key_lt_trans : Transitive key_lt.
Proof. intros [] [] []. unfold key_lt. cbn. lia. Qed.
Lemma key_lt_irrefl a : ~ key_lt a a.
Proof. unfold key_lt. lia. Qed.
Lemma key_lt_trichotomy a b : key_lt a b \/ a = b \/ key_lt b a.
Proof.
  destruct a as [t i], b as [u j]. unfold key_lt. cbn.
  destruct (Z.lt_trichotomy t u) as [?|[->|?]]; [lia| |lia].
  destruct (N.lt_trichotomy i j) as [?|[->|?]]; [lia|by right; left|lia].
Qed.

Section paging.
Context {A : Type} (key : A -> Key).

(** [ORDER BY time DESC, id DESC] *)
Definition newest_first (l : list A) : list A := order_by (fun x y => key_geb (key x) (key y)) l.

Definition before_cursor (after : option Position) (x : A) : Prop :=
  match after with
  | None => True
  | Some p => key_lt (key x) (Time p, ID p)
  end.
#[export] Instance before_cursor_dec after x : Decision (before_cursor after x).
Proof. unfold before_cursor. destruct after; apply _. Defined.

(** [SELECT ... WHERE (... IS NULL OR (time, id) < ...) ORDER BY ... LIMIT limit+1];
    [rows] are those the other conditions of the WHERE clause keep. *)
Definition keyset_query (rows : list A) (after : option Position) (limit : Z) : list A :=
  take (Z.to_nat (limit + 1)) (newest_first (filter (before_cursor after) rows)).

(** The cut after the query: [res.Next] points at the last row returned. *)
Definition cut_page (out : list A) (limit : Z) : list A * option Position :=
  if limit <? Z.of_nat (length out)
  then (take (Z.to_nat limit) out,
        (fun last => mkPosition (key last).1 (key last).2) <$> (out !! Z.to_nat (limit - 1)))
  else (out, None).

Definition page (rows : list A) (after : option Position) (limit : Z) : list A * option Position :=
  cut_page (keyset_query rows after limit) limit.

(** A client following [next] until it is absent; the table may be a different
    one at each request. *)
Fixpoint walk (snapshots : list (list A)) (after : option Position) (limit : Z) : list A * bool :=
  match snapshots with
  | [] => ([], false)
  | rows :: rest =>
      match page rows after limit with
      | (out, None) => (out, true)
      | (out, Some next) => let '(more, finished) := walk rest (Some next) limit in (out ++ more, finished)
      end
  end.

(** ** Lemmas *)

Definition key_gt (x y : A) : Prop := key_lt (key y) (key x).
Definition unique_keys (l : list A) : Prop := NoDup (key <$> l).

Lemma insert_by_sorted x l :
  (forall y, y ∈ l -> key y <> key x) ->
  StronglySorted key_gt l ->
  StronglySorted key_gt (insert_by (fun x y => key_geb (key x) (key y)) x l).
Proof.
  induction l as [|y l IH]; cbn; intros Hne Hs; [by repeat constructor|].
  apply StronglySorted_inv in Hs as [Hs Hy].
  unfold key_geb at 1. case_bool_decide as Hlt; cbn [negb].
  - constructor; [apply IH; [|done]; intros z Hz; apply Hne; by right|].
    rewrite Forall_forall in *. intros z. rewrite insert_by_Permutation.
    intros [-> | Hz]%elem_of_cons; [done|by apply Hy].
  - assert (key_gt x y) as Hxy.
    { destruct (key_lt_trichotomy (key x) (key y)) as [?|[He|?]]; [done| |done].
      destruct (Hne y); [left|done]. }
    constructor; [by constructor|]. constructor; [done|].
    rewrite Forall_forall in *. intros z Hz. unfold key_gt in *. etrans; [by apply Hy|done].
Qed.

Lemma newest_first_sorted l : unique_keys l -> StronglySorted key_gt (newest_first l).
Proof.
  unfold unique_keys, newest_first, order_by. induction l as [|x l IH]; cbn; [constructor|].
  rewrite NoDup_cons. intros [Hx Hnd]. apply insert_by_sorted; [|by apply IH].
  intros y Hy He. apply Hx. rewrite <- He. apply list_elem_of_fmap_2.
  fold (order_by (fun x y => key_geb (key x) (key y)) l) in Hy.
  by rewrite order_by_Permutation in Hy.
Qed.

Lemma unique_keys_filter (P : A -> Prop) `{forall x, Decision (P x)} l :
  unique_keys l -> unique_keys (filter P l).
Proof.
  unfold unique_keys. intros Hnd.
  refine (sublist_NoDup _ _ Hnd _). apply fmap_sublist, sublist_filter.
Qed.

Lemma elem_of_query rows after x :
  x ∈ newest_first (filter (before_cursor after) rows) <-> x ∈ rows /\ before_cursor after x.
Proof. unfold newest_first. rewrite order_by_Permutation, list_elem_of_filter. tauto. Qed.

Lemma sorted_app_inv (l1 l2 : list A) x y :
  StronglySorted key_gt (l1 ++ l2) -> x ∈ l1 -> y ∈ l2 -> key_gt x y.
Proof.
  induction l1 as [|z l1 IH]; cbn; [by intros _ ?%elem_of_nil|].
  intros [Hs Hf]%StronglySorted_inv [-> | Hx]%elem_of_cons Hy; [|by apply IH].
  rewrite Forall_forall in Hf. apply Hf. set_solver.
Qed.

Lemma sorted_app (l1 l2 : list A) :
  StronglySorted key_gt l1 -> StronglySorted key_gt l2 ->
  (forall x y, x ∈ l1 -> y ∈ l2 -> key_gt x y) -> StronglySorted key_gt (l1 ++ l2).
Proof.
  induction 1 as [|z l1 Hs IH Hf]; cbn; intros H2 Hxy; [done|]. constructor.
  - apply IH; [done|]. intros x y Hx Hy. apply Hxy; [by right|done].
  - rewrite Forall_forall in *. intros y [Hy|Hy]%elem_of_app; [by apply Hf|].
    apply Hxy; [left|done].
Qed.

Lemma sorted_take n (l : list A) : StronglySorted key_gt l -> StronglySorted key_gt (take n l).
Proof.
  intros Hs. revert n. induction Hs as [|x l Hs IH Hf]; intros [|n]; cbn; try constructor; [done|].
  rewrite Forall_forall in *. intros y Hy. apply Hf. by apply (subseteq_take n) in Hy.
Qed.

(** One page: what it returns and where the next one starts. *)
Lemma page_spec rows after limit out next :
  1 <= limit -> unique_keys rows -> page rows after limit = (out, next) ->
  StronglySorted key_gt out /\
  (forall x, x ∈ out -> x ∈ rows /\ before_cursor after x) /\
  match next with
  | None => forall x, x ∈ rows -> before_cursor after x -> x ∈ out
  | Some p =>
      Z.of_nat (length out) = limit /\
      (exists last, last ∈ out /\ key last = (Time p, ID p)) /\
      (forall x, x ∈ out -> key_lt (key x) (Time p, ID p) -> False) /\
      (forall x, x ∈ rows -> before_cursor after x -> x ∈ out \/ before_cursor (Some p) x)
  end.
Proof.
  intros Hlim Huk. unfold page, keyset_query, cut_page.
  pose proof (newest_first_sorted _ (unique_keys_filter (before_cursor after) _ Huk)) as Hsort.
  pose proof (fun x => proj1 (elem_of_query rows after x)) as Hin1.
  pose proof (fun x H1 H2 => proj2 (elem_of_query rows after x) (conj H1 H2)) as Hin2.
  set (q := newest_first _) in *. clearbody q. set (n := Z.to_nat limit).
  replace (Z.to_nat (limit + 1)) with (S n) by lia.
  destruct (Z.ltb_spec limit (Z.of_nat (length (take (S n) q)))) as [Hlong|Hshort].
  - rewrite length_take in Hlong. rewrite take_take, Nat.min_l by lia.
    rewrite lookup_take_lt by lia. replace (Z.to_nat (limit - 1)) with (pred n) by lia.
    destruct (lookup_lt_is_Some_2 q (pred n)) as [last Hlast]; [lia|]. rewrite Hlast. cbn.
    intros [= <- <-]. cbn. pose proof Hsort as Hs2. rewrite <- (take_drop n q) in Hs2.
    assert (last ∈ take n q) as Hl.
    { apply (list_elem_of_lookup_2 _ (pred n)). rewrite lookup_take_lt by lia. done. }
    assert (Hmin : forall x, x ∈ take n q -> x = last \/ key_lt (key last) (key x)).
    { intros x Hx. replace n with (S (pred n)) in Hx by lia.
      rewrite (take_S_r _ _ _ Hlast) in Hx.
      apply elem_of_app in Hx as [Hx|Hx%list_elem_of_singleton]; [|by left]. right.
      pose proof Hsort as Hs3. rewrite <- (take_drop (pred n) q) in Hs3.
      eapply (sorted_app_inv _ _ _ _ Hs3); [done|].
      rewrite (drop_S q last (pred n) Hlast). left. }
    split_and!.
    + by apply sorted_take.
    + intros x Hx. apply Hin1. by apply (subseteq_take n) in Hx.
    + rewrite length_take. lia.
    + exists last. split; [done|]. by destruct (key last).
    + intros x Hx Hlt. rewrite <- surjective_pairing in Hlt.
      destruct (Hmin x Hx) as [-> | Hgt]; [by apply key_lt_irrefl in Hlt|].
      apply (key_lt_irrefl (key x)). by etrans.
    + intros x Hx Hb. rewrite <- surjective_pairing. specialize (Hin2 x Hx Hb).
      rewrite <- (take_drop n q) in Hin2. apply elem_of_app in Hin2 as [?|Hd]; [by left|]. right.
      by apply (sorted_app_inv _ _ last x Hs2).
  - rewrite length_take in Hshort. rewrite take_ge by lia. intros [= <- <-].
    split_and!; [done|done|]. intros x Hx Hb. by apply Hin2.
Qed.
End paging.

Lemma filter_length_lt {A} (P Q : A -> Prop) `{!forall x, Decision (P x)} `{!forall x, Decision (Q x)} l z :
  (forall x, Q x -> P x) -> z ∈ l -> P z -> ~ Q z ->
  (length (filter Q l) < length (filter P l))%nat.
Proof.
  intros HQP Hz HP HQ.
  assert (Hle : forall k, (length (filter Q k) <= length (filter P k))%nat).
  { induction k as [|x k IH]; [done|]. rewrite !filter_cons.
    repeat case_decide; cbn; try lia. exfalso. eauto. }
  induction l as [|x l IH]; [by apply elem_of_nil in Hz|]. rewrite !filter_cons.
  apply elem_of_cons in Hz as [-> | Hz].
  - rewrite (decide_True (P := P x)), (decide_False (P := Q x)) by done. cbn. pose proof (Hle l). lia.
  - specialize (IH Hz). repeat case_decide; cbn; try lia. exfalso. eauto.
Qed.

Section walking.
Context {A : Type} (key : A -> Key).

Lemma sorted_NoDup l : StronglySorted (key_gt key) l -> NoDup l.
Proof.
  induction 1 as [|x l Hs IH Hf]; constructor; [|done].
  intros Hx. rewrite Forall_forall in Hf. apply Hf in Hx. by apply key_lt_irrefl in Hx.
Qed.

Lemma before_next after p x last :
  before_cursor key after last -> key last = (Time p, ID p) ->
  before_cursor key (Some p) x -> before_cursor key after x.
Proof.
  destruct after as [q|]; cbn; [|done]. intros Hl Hk Hx. rewrite <- Hk in Hx. by etrans.
Qed.

Lemma walk_spec snaps after limit out fin :
  1 <= limit -> Forall (unique_keys key) snaps -> walk key snaps after limit = (out, fin) ->
  StronglySorted (key_gt key) out /\
  (forall x, x ∈ out -> before_cursor key after x /\ exists rows, rows ∈ snaps /\ x ∈ rows) /\
  (fin = true -> forall x, (forall rows, rows ∈ snaps -> x ∈ rows) ->
     before_cursor key after x -> x ∈ out).
Proof.
  intros Hlim Huk. revert after out fin. induction Huk as [|rows rest Hr _ IH]; intros after out fin; cbn.
  { intros [= <- <-]. split_and!; [constructor| |done]. by intros x Hx%elem_of_nil. }
  destruct (page key rows after limit) as [pg [p|]] eqn:Hpg.
  - destruct (walk key rest (Some p) limit) as [more f] eqn:Hw. intros [= <- <-].
    destruct (page_spec key _ _ _ _ _ Hlim Hr Hpg) as (Hs1 & Hin1 & _ & (last & Hl & Hk) & Hge & Hcov).
    destruct (IH _ _ _ Hw) as (Hs2 & Hin2 & Hc2). split_and!.
    + apply sorted_app; [done|done|]. intros x y Hx Hy. destruct (Hin2 y Hy) as [Hy' _]. cbn in Hy'.
      unfold key_gt. destruct (key_lt_trichotomy (key x) (Time p, ID p)) as [H|[H|H]].
      * by apply Hge in H.
      * by rewrite H.
      * by etrans.
    + intros x [Hx|Hx]%elem_of_app.
      * destruct (Hin1 x Hx). split; [done|]. exists rows. split; [left|done].
      * destruct (Hin2 x Hx) as (Hb & r & Hr1 & Hr2). split; [|exists r; split; [by right|done]].
        eapply before_next; [|exact Hk|done]. by apply Hin1.
    + intros Hf x Hall Hb. apply elem_of_app.
      destruct (Hcov x (Hall rows ltac:(left)) Hb) as [?|Hb2]; [by left|]. right.
      apply Hc2; [done| |done]. intros r Hr'. apply Hall. by right.
  - intros [= <- <-]. destruct (page_spec key _ _ _ _ _ Hlim Hr Hpg) as (Hs1 & Hin1 & Hcov).
    split_and!; [done| |].
    + intros x Hx. destruct (Hin1 x Hx). split; [done|]. exists rows. split; [left|done].
    + intros _ x Hall Hb. apply Hcov; [apply Hall; left|done].
Qed.

(** Over a table that does not change the walk ends. *)
Lemma walk_terminates rows after limit n :
  1 <= limit -> unique_keys key rows ->
  (length (filter (before_cursor key after) rows) < n)%nat ->
  (walk key (replicate n rows) after limit).2 = true.
Proof.
  intros Hlim Huk. revert after. induction n as [|n IH]; intros after Hn; [lia|]. cbn.
  destruct (page key rows after limit) as [pg [p|]] eqn:Hpg; [|done].
  destruct (page_spec key _ _ _ _ _ Hlim Huk Hpg) as (_ & Hin & _ & (last & Hl & Hk) & Hge & _).
  destruct (Hin last Hl) as [Hlr Hlb].
  specialize (IH (Some p)). destruct (walk key (replicate n rows) (Some p) limit) as [more f].
  cbn in *. apply IH.
  assert (length (filter (before_cursor key (Some p)) rows) <
          length (filter (before_cursor key after) rows))%nat; [|cbn in *; lia].
  apply (filter_length_lt _ _ _ last); [|done|done|].
  - intros x Hx. by eapply before_next.
  - cbn. rewrite <- Hk. apply key_lt_irrefl.
Qed.

Lemma sorted_same_elements l1 l2 :
  StronglySorted (key_gt key) l1 -> StronglySorted (key_gt key) l2 ->
  (forall x, x ∈ l1 <-> x ∈ l2) -> l1 = l2.
Proof.
  intros H1 H2 Hin. eapply (StronglySorted_unique_strong (key_gt key)); [|exact H1|exact H2|].
  - intros x y _ _ Hxy Hyx. exfalso. apply (key_lt_irrefl (key x)). by etrans.
  - apply NoDup_Permutation; [by apply sorted_NoDup..|done].
Qed.

(** A walk over a table that does not change returns it, in order. *)
Lemma walk_constant rows limit :
  1 <= limit -> unique_keys key rows ->
  walk key (replicate (S (length rows)) rows) None limit = (newest_first key rows, true).
Proof.
  intros Hlim Hr. pose proof (walk_terminates rows None limit (S (length rows)) Hlim Hr) as Ht.
  destruct (walk key (replicate _ rows) None limit) as [o f] eqn:Ho. cbn in Ht.
  assert (f = true) as ->.
  { apply Ht. pose proof (length_filter (before_cursor key None) rows). cbn in *. lia. }
  f_equal. destruct (walk_spec _ _ _ _ _ Hlim (Forall_replicate _ _ _ Hr) Ho) as (Hs' & Hin' & Hc').
  apply sorted_same_elements; [done|by apply newest_first_sorted|]. intros x.
  unfold newest_first. rewrite order_by_Permutation. split.
  - intros (_ & r & [-> _]%elem_of_replicate & ?)%Hin'. done.
  - intros Hx. apply Hc'; [done| |done]. by intros r [-> _]%elem_of_replicate.
Qed.

(** Following [next] from the first page, with any page size: no row is returned
    twice and the rows come strictly newest first, even when the table changes
    between requests; a walk that ends has returned every row that was there
    throughout; and over a table that does not change the walk ends and has
    returned exactly the table, in order. *)
Theorem paging_exact snaps rows limit out fin :
  1 <= limit -> Forall (unique_keys key) snaps -> unique_keys key rows ->
  walk key snaps None limit = (out, fin) ->
  NoDup out /\ StronglySorted (key_gt key) out /\
  (forall x, x ∈ out -> exists r, r ∈ snaps /\ x ∈ r) /\
  (fin = true -> forall x, (forall r, r ∈ snaps -> x ∈ r) -> x ∈ out) /\
  walk key (replicate (S (length rows)) rows) None limit = (newest_first key rows, true).
Proof.
  intros Hlim Huk Hr Hw. destruct (walk_spec _ _ _ _ _ Hlim Huk Hw) as (Hs & Hin & Hc).
  split_and!; [by apply sorted_NoDup|done|by intros x ?%Hin; naive_solver|by intros ? x ?; apply Hc|by apply walk_constant].
Qed.
End walking.

Lemma paging_exact_witness :
  let rows := [(5, 1%N); (7, 2%N); (5, 3%N); (6, 4%N)] in
  let out := [(7, 2%N); (6, 4%N); (5, 3%N); (5, 1%N)] in
  NoDup out /\ StronglySorted (key_gt id) out /\
  (forall x, x ∈ out -> exists r, r ∈ [rows; (9, 9%N) :: rows] /\ x ∈ r) /\
  (true = true -> forall x, (forall r, r ∈ [rows; (9, 9%N) :: rows] -> x ∈ r) -> x ∈ out) /\
  walk id (replicate 5 rows) None 2 = (newest_first id rows, true).
Proof.
  intros rows out. apply (paging_exact id [rows; (9, 9%N) :: rows] rows 2 out true).
  - lia.
  - eapply bool_decide_eq_true. vm_compute. reflexivity.
  - eapply bool_decide_eq_true. vm_compute. reflexivity.
  - vm_compute. reflexivity.
Defined.
