(* ===== verification/AuditLog.v ===== *)
(** * The audit trail

    [internal/audit]: entries, their validation, the insert that joins the
    caller's transaction, and the reader. [audit_log] (migrations 0007 and 0008)
    is append-only: its trigger refuses every UPDATE and DELETE, so the only
    statement of the model is the INSERT. *)

From S2P Require Import Prelude Apperr Ids Cursor Db Authz Tenant Paging.

Definition ActorUser : string := "user".
Definition ActorAPIKey : string := "api_key".
Definition ActorSystem : string := "system".

Definition ActionProjectCreate : string := "project.create".
Definition ActionProjectUpdate : string := "project.update".
Definition ActionProjectArchive : string := "project.archive".
Definition ActionInvoiceCreate : string := "invoice.create".
Definition ActionInvoiceItemAdded : string := "invoice.item_added".
Definition ActionInvoiceItemRemoved : string := "invoice.item_removed".
Definition ActionInvoiceIssued : string := "invoice.issued".
Definition ActionInvoicePaid : string := "invoice.paid".
Definition ActionInvoiceVoided : string := "invoice.voided".
Definition ActionWebhookEndpointCreate : string := "webhook_endpoint.create".
Definition ActionWebhookEndpointUpdate : string := "webhook_endpoint.update".
Definition ActionWebhookDeliveryReplay : string := "webhook_delivery.replay".
Definition ActionAPIKeyCreate : string := "api_key.create".
Definition ActionAPIKeyRevoke : string := "api_key.revoke".

Definition Actions : list string :=
  [ActionProjectCreate; ActionProjectUpdate; ActionProjectArchive; ActionInvoiceCreate;
   ActionInvoiceItemAdded; ActionInvoiceItemRemoved; ActionInvoiceIssued; ActionInvoicePaid;
   ActionInvoiceVoided; ActionWebhookEndpointCreate; ActionWebhookEndpointUpdate;
   ActionWebhookDeliveryReplay; ActionAPIKeyCreate; ActionAPIKeyRevoke].

Record Entry := mkEntry {
  e_TenantID : uuid;
  e_ActorID : option uuid;
  e_ActorKind : string;
  e_Action : string;
  e_Resource : string;
  e_ResourceID : option uuid;
  e_Before : option json;
  e_After : option json;
  e_RequestID : string;
}.

(** A row of [audit_log], and the read model. *)
Record Row := mkRow {
  r_ID : uuid;
  r_TenantID : uuid;
  r_ActorID : option uuid;
  r_ActorKind : string;
  r_Action : string;
  r_Resource : string;
  r_ResourceID : option uuid;
  r_Before : option json;
  r_After : option json;
  r_RequestID : option string;
  r_At : gotime;
}.

Definition Table := list Row.

(** The checks after the switch on the actor kind. *)
Definition Validate_rest `{Unicode} (e : Entry) : go_result unit :=
  if negb (has_byte "."%char (e_Action e))
  then Err (Plain ("audit: action " +:+ fmt_q (e_Action e) +:+ " is not a dotted verb"))
  else if decide (e_Resource e = "") then Err (Plain "audit: entry names no resource")
  else match e_Before e, e_After e with
       | None, None => Err (Plain "audit: entry records neither before nor after, so it says nothing changed")
       | _, _ => Ok tt
       end.

Definition Validate `{Unicode} (e : Entry) : go_result unit :=
  if decide (e_TenantID e = uuid_Nil) then Err (Plain "audit: entry has no tenant")
  else if decide (e_ActorKind e = ActorUser \/ e_ActorKind e = ActorAPIKey) then
    match e_ActorID e with
    | None => Err (Plain ("audit: actor_kind " +:+ fmt_q (e_ActorKind e) +:+ " requires an actor id"))
    | Some _ => Validate_rest e
    end
  else if decide (e_ActorKind e = ActorSystem) then
    match e_ActorID e with
    | Some _ => Err (Plain "audit: actor_kind system must not carry an actor id")
    | None => Validate_rest e
    end
  else Err (Plain ("audit: unknown actor_kind " +:+ fmt_q (e_ActorKind e))).

(** [^[a-z][a-z0-9_]*$] and [^[a-z][a-z0-9_]*\.[a-z][a-z0-9_]*$] *)
Definition is_word_b (b : Z) : bool := is_lower_b b || is_digit_b b || (b =? 95).
Definition is_word (s : string) : bool :=
  match s with
  | "" => false
  | String c r => is_lower_b (byte_of c) && str_forall is_word_b r
  end.
Definition is_dotted (s : string) : bool :=
  match cut_str "." s with
  | Some (a, b) => is_word a && is_word b
  | None => false
  end.

(** INSERT INTO audit_log *)
Definition insert_row (g : Settings) (r : Row) : SE Table err unit := fun t =>
  if negb (tenant_is g (r_TenantID r)) then (Err rls_violation, t)
  else if negb (bool_decide (r_ActorKind r ∈ [ActorUser; ActorAPIKey; ActorSystem]) &&
                is_dotted (r_Action r) && is_word (r_Resource r) &&
                Bool.eqb (bool_decide (r_ActorKind r = ActorSystem)) (bool_decide (r_ActorID r = None)))
  then (Err (check_violation "audit_log"), t)
  else if existsb (fun r' => bool_decide (r_ID r' = r_ID r)) t
  then (Err (unique_violation "audit_log_pkey"), t)
  else (Ok tt, t ++ [r]).

(** [marshalImage] maps a nil image to SQL NULL; these images always encode. *)
Definition marshalImage (v : option json) : go_result (option json) :=
  match v with
  | None => Ok None
  | Some j => Ok (Some j)
  end.

Section write.
Context `{Unicode} (env : Env) (g : Settings).

(** [Write]; [id] is the row's identifier, drawn by the call. *)
Definition Write (id : uuid) (e : Entry) : SE Table err unit :=
  _ ← lift (Validate e);
  before ← or_fail (lift (marshalImage (e_Before e)))
             (fun x => Wrapf ("audit: encode before image: " +:+ error_text x) x);
  after ← or_fail (lift (marshalImage (e_After e)))
            (fun x => Wrapf ("audit: encode after image: " +:+ error_text x) x);
  let requestID := if decide (e_RequestID e = "") then None else Some (e_RequestID e) in
  or_fail
    (insert_row g (mkRow id (e_TenantID e) (e_ActorID e) (e_ActorKind e) (e_Action e)
                     (e_Resource e) (e_ResourceID e) before after requestID (env_now env)))
    (fun x => Wrapf ("audit: record " +:+ e_Action e +:+ ": " +:+ error_text x) x).
End write.

Definition ActorFromAuthorized (a : Authorized) : go_result (option uuid * string) :=
  if IsMachine a then Ok (Some (keyID a), ActorAPIKey)
  else if decide (userID a = uuid_Nil) then Err (Sentinel ErrNoScope)
  else Ok (Some (userID a), ActorUser).

Definition IsAppendOnlyViolation (e : option err) : bool :=
  match e with
  | None => false
  | Some e => str_contains "append-only" (error_text e)
  end.

(** ** The reader *)

Definition DefaultPageSize : Z := 50.
Definition MaxPageSize : Z := 200.

Definition normalizePageSize (n : Z) : Z :=
  if n <=? 0 then DefaultPageSize else if MaxPageSize <? n then MaxPageSize else n.

Definition row_key (r : Row) : Key := (r_At r, r_ID r).

Definition visible_rows (g : Settings) (t : uuid) (rows : Table) : Table :=
  filter (fun r => tenant_is g (r_TenantID r) /\ r_TenantID r = t) rows.

Definition List_ (a : Authorized) (after : option Position) (limit : Z)
    : SE Table err (list Row * option Position) :=
  if negb (Valid a) then throw (Sentinel ErrNoScope)
  else
    let limit := normalizePageSize limit in
    out ← or_fail
      (WithIdentityTx (Identity_of a) (fun g rows =>
         (Ok (keyset_query row_key (visible_rows g (scope a) rows) after limit), rows)))
      (fun e => Wrapf ("list audit entries: " +:+ error_text e) e);
    mret (cut_page row_key out limit).

Definition Binding_of (a : Authorized) : Binding := mkBinding (scope a) "audit" "all".

(** ** Lemmas *)

Lemma insert_row_Ok g r t t' :
  insert_row g r t = (Ok tt, t') ->
  SettingTenantID g = Some (r_TenantID r) /\ t' = t ++ [r] /\ (forall x, x ∈ t -> r_ID x <> r_ID r).
Proof.
  unfold insert_row, tenant_is. case_bool_decide; cbn [negb]; [|done].
  destruct (negb _); [done|]. destruct (existsb _ _) eqn:He; [done|]. intros [= <-].
  split_and!; [done|done|]. intros x Hx. rewrite existsb_false_forall in He.
  specialize (He x Hx). by apply bool_decide_eq_false in He.
Qed.

Lemma insert_row_Err g r t e t' : insert_row g r t = (Err e, t') -> t' = t.
Proof. unfold insert_row. repeat case_match; by intros [= _ <-]. Qed.

(** What a successful write records. *)
Definition row_of (env : Env) (id : uuid) (e : Entry) : Row :=
  mkRow id (e_TenantID e) (e_ActorID e) (e_ActorKind e) (e_Action e) (e_Resource e) (e_ResourceID e)
    (e_Before e) (e_After e) (if decide (e_RequestID e = "") then None else Some (e_RequestID e))
    (env_now env).

Lemma Write_Ok `{Unicode} env g id e t t' :
  Write env g id e t = (Ok tt, t') ->
  Validate e = Ok tt /\ SettingTenantID g = Some (e_TenantID e) /\
  t' = t ++ [row_of env id e] /\ (forall x, x ∈ t -> r_ID x <> id).
Proof.
  unfold Write. intros Hw. apply SE_bind_inv in Hw as ([] & s1 & H1 & Hw).
  apply lift_Ok in H1 as [H1 ->].
  apply SE_bind_inv in Hw as (b & s2 & H2 & Hw). apply or_fail_Ok, lift_Ok in H2 as [H2 ->].
  apply SE_bind_inv in Hw as (a & s3 & H3 & Hw). apply or_fail_Ok, lift_Ok in H3 as [H3 ->].
  apply or_fail_Ok, insert_row_Ok in Hw as (Hg & -> & Hid).
  assert (marshalImage (e_Before e) = Ok (e_Before e) /\ marshalImage (e_After e) = Ok (e_After e))
    as [Eb Ea] by (destruct (e_Before e), (e_After e); done).
  rewrite Eb in H2. rewrite Ea in H3. apply Ok_inj in H2 as <-. apply Ok_inj in H3 as <-. by split_and!.
Qed.

Lemma Write_Err `{Unicode} env g id e t x t' : Write env g id e t = (Err x, t') -> t' = t.
Proof.
  unfold Write, mbind, SE_bind, lift, or_fail.
  destruct (Validate e); [|by intros [= _ <-]].
  destruct (marshalImage (e_Before e)); [|by intros [= _ <-]].
  destruct (marshalImage (e_After e)); [|by intros [= _ <-]].
  destruct (insert_row _ _ _) as [[u|y] t2] eqn:E; [done|]. intros [= _ <-]. by eapply insert_row_Err.
Qed.

Lemma Validate_Ok `{Unicode} e :
  Validate e = Ok tt <->
  e_TenantID e <> uuid_Nil /\ has_byte "."%char (e_Action e) = true /\ e_Resource e <> "" /\
  (e_Before e <> None \/ e_After e <> None) /\
  ((e_ActorKind e = ActorSystem /\ e_ActorID e = None) \/
   ((e_ActorKind e = ActorUser \/ e_ActorKind e = ActorAPIKey) /\ e_ActorID e <> None)).
Proof.
  assert (Hrest : Validate_rest e = Ok tt <->
    has_byte "."%char (e_Action e) = true /\ e_Resource e <> "" /\
    (e_Before e <> None \/ e_After e <> None)).
  { unfold Validate_rest. destruct (has_byte _ _); cbn [negb]; [|naive_solver].
    case_decide; [naive_solver|]. destruct (e_Before e), (e_After e); naive_solver. }
  unfold Validate. case_decide as Ht; [naive_solver|].
  unfold ActorUser, ActorAPIKey, ActorSystem in *.
  case_decide as Hk; [|case_decide as Hk2].
  - destruct (e_ActorID e) eqn:Ha; [rewrite Hrest|]; intuition congruence.
  - destruct (e_ActorID e) eqn:Ha; [|rewrite Hrest]; intuition congruence.
  - intuition congruence.
Qed.

(** ** Properties *)

(** Recording is all or nothing: a write either appends exactly one row, which
    says what the entry says and is stamped with the transaction's time, or
    leaves the trail as it was; nothing already recorded is ever changed. *)
Theorem Write_appends `{Unicode} env g id e t res t' :
  Write env g id e t = (res, t') ->
  match res with
  | Ok _ =>
      t' = t ++ [row_of env id e] /\ r_TenantID (row_of env id e) = e_TenantID e /\
      SettingTenantID g = Some (e_TenantID e) /\ (forall x, x ∈ t -> r_ID x <> id) /\
      (e_ActorKind e = ActorSystem <-> e_ActorID e = None) /\
      (e_Before e <> None \/ e_After e <> None)
  | Err _ => t' = t
  end.
Proof.
  destruct res as [[]|x]; [|by apply Write_Err].
  intros (Hv & Hg & -> & Hid)%Write_Ok. apply Validate_Ok in Hv as (_ & _ & _ & Himg & Hactor).
  split_and!; try done; unfold ActorUser, ActorAPIKey, ActorSystem in *; intuition congruence.
Qed.

(** Every action the service names passes both the entry's validation and the
    column's constraint: with a resolved caller, an image and a fresh id, the
    write succeeds. *)
Theorem Write_accepts_actions `{Unicode} env a action resource rid image id t :
  Valid a = true -> action ∈ Actions -> is_word resource = true ->
  (forall x, x ∈ t -> r_ID x <> id) ->
  exists actor kind,
    ActorFromAuthorized a = Ok (actor, kind) /\
    let e := mkEntry (scope a) actor kind action resource rid None (Some image) (env_reqid env) in
    Write env (settings_of (Identity_of a)) id e t = (Ok tt, t ++ [row_of env id e]).
Proof.
  intros Hv Ha Hr Hid.
  assert (Hact : Forall (fun x => has_byte "."%char x = true /\ is_dotted x = true) Actions)
    by (eapply bool_decide_eq_true; vm_compute; reflexivity).
  rewrite Forall_forall in Hact. destruct (Hact _ Ha) as [Hdot Hshape].
  unfold Valid in Hv. destruct (Scope_Valid (scope a)) eqn:Hs; cbn [negb] in Hv; [|done].
  apply bool_decide_eq_true in Hs.
  assert (exists actor kd, ActorFromAuthorized a = Ok (Some actor, kd) /\ (kd = ActorUser \/ kd = ActorAPIKey))
    as (actor & kd & Hact' & Hkd).
  { unfold ActorFromAuthorized, IsMachine. destruct (kind a); [done| |].
    - rewrite bool_decide_eq_false_2 by done. to_prop. rewrite decide_False by done. eauto.
    - rewrite bool_decide_eq_true_2 by done. eauto. }
  exists (Some actor), kd. split; [done|]. cbn zeta.
  assert (resource <> "") by (by intros ->).
  set (e := mkEntry _ _ _ _ _ _ _ _ _).
  assert (Validate e = Ok tt) as Hval.
  { apply Validate_Ok. cbn. split_and!; try done; [by right|]. right. split; [done|done]. }
  assert (marshalImage (e_After e) = Ok (e_After e)) as Hma by done.
  unfold Write, mbind, SE_bind, lift, or_fail. rewrite Hval. cbn -[insert_row].
  unfold insert_row, tenant_is, settings_of, set_unless_nil. cbn -[is_dotted is_word].
  rewrite (decide_False (P := scope a = uuid_Nil)) by done.
  rewrite (bool_decide_eq_true_2 (Some _ = Some _)) by done. cbn [negb].
  rewrite (bool_decide_eq_true_2 (kd ∈ _)) by (destruct Hkd as [-> | ->]; set_solver).
  rewrite Hshape, Hr, (bool_decide_eq_false_2 (kd = ActorSystem)) by (by destruct Hkd as [-> | ->]).
  cbn -[existsb row_of].
  assert (existsb (fun r' => bool_decide (r_ID r' = id)) t = false) as ->; [|done].
  apply existsb_false_forall. intros x Hx. apply bool_decide_eq_false. by apply Hid.
Qed.

Module AuditDemo.
#[local] Existing Instance DemoUnicode.
Definition env0 : Env := mkEnv 7000 7000 (fun n => N.of_nat (50 + n)) (fun n => N.of_nat (500 + n)) (fun _ => 7) "req-1".
Definition auth : Authorized := mkAuthorized 5%N KindMachine 0%N "" 9%N.
Definition entry : Entry :=
  mkEntry 5%N (Some 9%N) ActorAPIKey ActionInvoicePaid "invoice" (Some 77%N) None (Some (JNum 1)) "req-1".

Lemma Write_appends_witness :
  [row_of env0 50%N entry] = [] ++ [row_of env0 50%N entry] /\
  r_TenantID (row_of env0 50%N entry) = e_TenantID entry /\
  SettingTenantID (settings_of (Identity_of auth)) = Some (e_TenantID entry) /\
  (forall x, x ∈ [] -> r_ID x <> 50%N) /\
  (e_ActorKind entry = ActorSystem <-> e_ActorID entry = None) /\
  (e_Before entry <> None \/ e_After entry <> None).
Proof.
  apply (Write_appends env0 (settings_of (Identity_of auth)) 50%N entry [] (Ok tt)).
  vm_compute. reflexivity.
Defined.

Lemma Write_accepts_actions_witness :
  exists actor kind,
    ActorFromAuthorized auth = Ok (actor, kind) /\
    let e := mkEntry 5%N actor kind ActionInvoicePaid "invoice" (Some 77%N) None (Some (JNum 1)) "req-1" in
    Write env0 (settings_of (Identity_of auth)) 50%N e [] = (Ok tt, [] ++ [row_of env0 50%N e]).
Proof.
  apply (Write_accepts_actions env0 auth ActionInvoicePaid "invoice" (Some 77%N) (JNum 1) 50%N []).
  - vm_compute. reflexivity.
  - eapply bool_decide_eq_true. vm_compute. reflexivity.
  - vm_compute. reflexivity.
  - intros x Hx. by apply elem_of_nil in Hx.
Defined.
End AuditDemo.
