(* ===== verification/Invoice.v ===== *)
(** * Invoices: amounts, validation, lifecycle

    [internal/invoice/invoice.go]. Amounts are [int64]; every product and sum of
    the source is written with its wrap-around ([mul64], [add64], [sub64]), so
    that the overflow guards are what makes the results exact. *)

From S2P Require Import Prelude Apperr Ids.

(** ** Constants *)

Definition StatusDraft : string := "draft".
Definition StatusOpen : string := "open".
Definition StatusPaid : string := "paid".
Definition StatusVoid : string := "void".

Definition MaxQuantity : Z := 1000000.
Definition MaxUnitPriceMinor : Z := 1000000000000.
Definition MaxItemsPerInvoice : Z := 500.
Definition MaxTaxMinor : Z := 1000000000000000.
Definition MaxDescriptionLen : Z := 500.
Definition MaxCurrencyLen : Z := 3.
Definition DefaultPageSize : Z := 25.
Definition MaxPageSize : Z := 100.

Definition supportedCurrencies : list string :=
  ["AUD"; "CAD"; "CHF"; "EUR"; "GBP"; "INR"; "JPY"; "SGD"; "USD"].

Definition SupportedCurrency (cur : string) : bool := bool_decide (cur ∈ supportedCurrencies).

(** ** Data *)

Record Item := mkItem {
  item_ID : uuid;
  item_InvoiceID : uuid;
  item_TenantID : uuid;
  Position : Z;
  Description : string;
  Quantity : Z;
  UnitPriceMinor : Z;
  LineTotalMinor : Z;
  item_CreatedAt : gotime;
}.

Record Invoice := mkInvoice {
  ID : uuid;
  TenantID : uuid;
  Number : string;
  Status : string;
  Currency : string;
  SubtotalMinor : Z;
  TaxMinor : Z;
  TotalMinor : Z;
  Version : Z;
  CreatedBy : option uuid;
  CreatedByKey : option uuid;
  IssuedAt : option gotime;
  PaidAt : option gotime;
  VoidedAt : option gotime;
  CreatedAt : gotime;
  UpdatedAt : gotime;
  Items : list Item;
}.

Definition Terminal (i : Invoice) : bool :=
  bool_decide (Status i = StatusPaid \/ Status i = StatusVoid).

Record ItemInput := mkItemInput {
  in_Description : string;
  in_Quantity : Z;
  in_UnitPriceMinor : Z;
}.

Record CreateInput := mkCreateInput {
  in_Currency : string;
  in_TaxMinor : Z;
  in_Items : list ItemInput;
}.

(** [int] and [int64] fields hold machine integers. *)
Definition ItemInput_wf (i : ItemInput) : Prop :=
  in_int64 (in_Quantity i) /\ in_int64 (in_UnitPriceMinor i).

(** ** Checked arithmetic *)

Definition LineTotal (quantity unitPriceMinor : Z) : go_result Z :=
  if quantity <=? 0 then Err (Plain "quantity must be positive")
  else if unitPriceMinor <? 0 then Err (Plain "unit price must not be negative")
  else if negb (unitPriceMinor =? 0) && (Z.quot MaxInt64 unitPriceMinor <? quantity)
  then Err (Plain "this line's total would exceed the largest supported amount")
  else Ok (mul64 quantity unitPriceMinor).

Fixpoint SumTotals_from (sum : Z) (lineTotals : list Z) : go_result Z :=
  match lineTotals with
  | [] => Ok sum
  | lt :: rest =>
      if lt <? 0 then Err (Plain "a line total is negative")
      else if sub64 MaxInt64 lt <? sum
      then Err (Plain "the invoice total would exceed the largest supported amount")
      else SumTotals_from (add64 sum lt) rest
  end.

Definition SumTotals (lineTotals : list Z) : go_result Z := SumTotals_from 0 lineTotals.

Definition InvoiceTotal (subtotalMinor taxMinor : Z) : go_result Z :=
  if (subtotalMinor <? 0) || (taxMinor <? 0)
  then Err (Plain "amounts must not be negative")
  else if sub64 MaxInt64 taxMinor <? subtotalMinor
  then Err (Plain "the invoice total would exceed the largest supported amount")
  else Ok (add64 subtotalMinor taxMinor).

(** ** Request validation *)

Definition ValidateItem (i : ItemInput) : go_result ItemInput :=
  let desc := trim_space (in_Description i) in
  if decide (desc = "") then Err (Invalid "description" "must not be empty")
  else if MaxDescriptionLen <? slen desc
  then Err (Invalid "description" ("must be at most " +:+ dec MaxDescriptionLen +:+ " characters"))
  else if in_Quantity i <=? 0 then Err (Invalid "quantity" "must be a positive integer")
  else if MaxQuantity <? in_Quantity i
  then Err (Invalid "quantity" ("must be at most " +:+ dec MaxQuantity))
  else if in_UnitPriceMinor i <? 0 then Err (Invalid "unit_price_minor" "must not be negative")
  else if MaxUnitPriceMinor <? in_UnitPriceMinor i
  then Err (Invalid "unit_price_minor" "is implausibly large")
  else match LineTotal (in_Quantity i) (in_UnitPriceMinor i) with
       | Err e => Err (Invalid "unit_price_minor" (error_text e))
       | Ok _ => Ok (mkItemInput desc (in_Quantity i) (in_UnitPriceMinor i))
       end.

(** The loop over [in.Items]; the first bad line ends it, wrapped with its index. *)
Fixpoint ValidateItems (i : Z) (items : list ItemInput) : go_result (list ItemInput) :=
  match items with
  | [] => Ok []
  | it :: rest =>
      match ValidateItem it with
      | Err e => Err (Wrapf ("item " +:+ dec i +:+ ": " +:+ error_text e) e)
      | Ok norm => rest' ← ValidateItems (i + 1) rest; Ok (norm :: rest')
      end
  end.

Definition ValidateCreate `{Unicode} (i : CreateInput) : go_result CreateInput :=
  let cur := to_upper (trim_space (in_Currency i)) in
  if negb (slen cur =? MaxCurrencyLen)
  then Err (Invalid "currency" ("must be a " +:+ dec MaxCurrencyLen +:+ "-letter ISO 4217 code"))
  else if negb (SupportedCurrency cur)
  then Err (Invalid "currency" ("this service does not issue invoices in " +:+ fmt_q cur))
  else if in_TaxMinor i <? 0 then Err (Invalid "tax_minor" "must not be negative")
  else if MaxTaxMinor <? in_TaxMinor i then Err (Invalid "tax_minor" "is implausibly large")
  else if MaxItemsPerInvoice <? Z.of_nat (length (in_Items i))
  then Err (Invalid "items" ("an invoice may have at most " +:+ dec MaxItemsPerInvoice +:+ " lines"))
  else items ← ValidateItems 0 (in_Items i); Ok (mkCreateInput cur (in_TaxMinor i) items).

(** ** Lifecycle *)

Definition CanTransition (from to : string) : bool :=
  if decide (from = StatusDraft) then bool_decide (to = StatusOpen \/ to = StatusVoid)
  else if decide (from = StatusOpen) then bool_decide (to = StatusPaid \/ to = StatusVoid)
  else false.

(** [Transition] is a string type; the constants are its named values. *)
Definition TransitionIssue : string := "issued".
Definition TransitionPay : string := "paid".
Definition TransitionVoid : string := "voided".

Definition TransitionTo (t : string) : string :=
  if decide (t = TransitionIssue) then StatusOpen
  else if decide (t = TransitionPay) then StatusPaid
  else if decide (t = TransitionVoid) then StatusVoid
  else "".

(** ** Request normalisation *)

Definition NormalizePageSize (requested : Z) : Z :=
  if requested <=? 0 then DefaultPageSize
  else if MaxPageSize <? requested then MaxPageSize
  else requested.

Definition NormalizeStatus (raw : string) : go_result string :=
  if decide (raw = "") then Ok ""
  else if decide (raw ∈ [StatusDraft; StatusOpen; StatusPaid; StatusVoid]) then Ok raw
  else Err (Invalid "status" "must be one of draft, open, paid, void").

Definition ValidateUUID (id : uuid) : go_result unit :=
  if decide (id = uuid_Nil) then Err (Sentinel ErrNotFound) else Ok tt.

(** ** Lemmas *)

Definition sum_Z (l : list Z) : Z := foldr Z.add 0 l.

Lemma sum_Z_app a b : sum_Z (a ++ b) = sum_Z a + sum_Z b.
Proof. induction a as [|x a IH]; cbn; [done|]. fold (sum_Z (a ++ b)) (sum_Z a). lia. Qed.

Lemma sum_Z_nonneg l : Forall (fun x => 0 <= x) l -> 0 <= sum_Z l.
Proof. induction 1; cbn; [done|]. fold (sum_Z l). lia. Qed.

Lemma LineTotal_Ok q p t :
  in_int64 q -> in_int64 p ->
  LineTotal q p = Ok t <-> 0 < q /\ 0 <= p /\ q * p <= MaxInt64 /\ t = q * p.
Proof.
  intros Hq Hp. unfold LineTotal.
  assert (Hdiv : 0 < p -> (Z.quot MaxInt64 p < q <-> MaxInt64 < q * p)).
  { intros H. rewrite Z.quot_div_nonneg by (unfold MaxInt64; lia). split; intros H1.
    - apply Z.lt_nge. intros H2. apply (Z.div_le_lower_bound _ _ _ H) in H1 || idtac.
      assert (q <= MaxInt64 / p) by (apply Z.div_le_lower_bound; lia). lia.
    - apply Z.div_lt_upper_bound; lia. }
  assert (Hmul : 0 < q -> 0 <= p -> q * p <= MaxInt64 -> mul64 q p = q * p).
  { intros. apply wrap64_id. unfold in_int64, MinInt64. nia. }
  destruct (Z.leb_spec q 0); [split; [done|lia]|].
  destruct (Z.ltb_spec p 0); [split; [done|lia]|].
  destruct (Z.eqb_spec p 0) as [->|Hp0]; cbn [negb andb].
  - rewrite Hmul by (unfold MaxInt64; lia). split; [intros [= <-]|intros (_ & _ & _ & ->)]; [|done].
    unfold MaxInt64. lia.
  - destruct (Z.ltb_spec (Z.quot MaxInt64 p) q) as [H1|H1].
    + split; [done|]. apply Hdiv in H1; lia.
    + assert (q * p <= MaxInt64) by (apply Z.nlt_ge; rewrite <- Hdiv; lia).
      rewrite Hmul by lia. split; [intros [= <-]; lia|intros (_ & _ & _ & ->); done].
Qed.

Lemma sub64_headroom a : 0 <= a -> in_int64 a -> sub64 MaxInt64 a = MaxInt64 - a.
Proof. intros. apply wrap64_id. unfold in_int64, MinInt64, MaxInt64 in *. lia. Qed.

Lemma add64_fits a b : 0 <= a -> 0 <= b -> a + b <= MaxInt64 -> add64 a b = a + b.
Proof. intros. apply wrap64_id. unfold in_int64, MinInt64 in *. lia. Qed.

Lemma SumTotals_from_Ok acc ls s :
  0 <= acc <= MaxInt64 -> Forall in_int64 ls ->
  SumTotals_from acc ls = Ok s <->
  Forall (fun x => 0 <= x) ls /\ acc + sum_Z ls <= MaxInt64 /\ s = acc + sum_Z ls.
Proof.
  revert acc. induction ls as [|x ls IH]; intros acc Hacc Hls; cbn [SumTotals_from sum_Z foldr].
  - split; [intros [= <-]; split; [constructor|lia]|intros (_ & _ & ->); f_equal; lia].
  - fold (sum_Z ls). rewrite Forall_cons in Hls. destruct Hls as [Hx Hls].
    destruct (Z.ltb_spec x 0); [split; [done|]; rewrite Forall_cons; lia|].
    rewrite sub64_headroom by done.
    destruct (Z.ltb_spec (MaxInt64 - x) acc).
    + split; [done|]. rewrite Forall_cons. intros ([_ Hp] & ? & _).
      pose proof (sum_Z_nonneg ls Hp). lia.
    + rewrite add64_fits, IH, Forall_cons by (done || lia). intuition lia.
Qed.

Lemma InvoiceTotal_Ok a b t :
  in_int64 a -> in_int64 b ->
  InvoiceTotal a b = Ok t <-> 0 <= a /\ 0 <= b /\ a + b <= MaxInt64 /\ t = a + b.
Proof.
  intros Ha Hb. unfold InvoiceTotal.
  destruct (Z.ltb_spec a 0); cbn [orb]; [split; [done|lia]|].
  destruct (Z.ltb_spec b 0); [split; [done|lia]|].
  rewrite sub64_headroom by done.
  destruct (Z.ltb_spec (MaxInt64 - b) a); [split; [done|lia]|].
  rewrite add64_fits by lia. split; [intros [= <-]; lia|intros (_ & _ & _ & ->); done].
Qed.

Lemma ValidateItem_Ok i j :
  ValidateItem i = Ok j ->
  in_Description j = trim_space (in_Description i) /\ in_Description j <> "" /\
  slen (in_Description j) <= MaxDescriptionLen /\
  in_Quantity j = in_Quantity i /\ 0 < in_Quantity j <= MaxQuantity /\
  in_UnitPriceMinor j = in_UnitPriceMinor i /\ 0 <= in_UnitPriceMinor j <= MaxUnitPriceMinor /\
  LineTotal (in_Quantity j) (in_UnitPriceMinor j) = Ok (in_Quantity j * in_UnitPriceMinor j).
Proof.
  unfold ValidateItem. case_decide as Hd; [done|].
  destruct (_ <? slen _) eqn:H1; [done|].
  destruct (in_Quantity i <=? 0) eqn:H2; [done|].
  destruct (MaxQuantity <? _) eqn:H3; [done|].
  destruct (in_UnitPriceMinor i <? 0) eqn:H4; [done|].
  destruct (MaxUnitPriceMinor <? _) eqn:H5; [done|].
  to_prop. destruct (LineTotal _ _) as [t|] eqn:Ht; [|done]. intros <-%Ok_inj. cbn.
  pose proof Ht as Ht'. apply LineTotal_Ok in Ht' as (_ & _ & _ & ->);
    [|unfold in_int64, MinInt64, MaxInt64, MaxQuantity, MaxUnitPriceMinor in *; lia..].
  repeat split; done || lia.
Qed.

(** A line already in the range is returned unchanged. *)
Lemma ValidateItem_fix i :
  trim_space (in_Description i) = in_Description i -> in_Description i <> "" ->
  slen (in_Description i) <= MaxDescriptionLen ->
  0 < in_Quantity i <= MaxQuantity -> 0 <= in_UnitPriceMinor i <= MaxUnitPriceMinor ->
  ValidateItem i = Ok i.
Proof.
  intros Ht Hne Hl Hq Hp. unfold ValidateItem. rewrite Ht, decide_False by done.
  repeat match goal with
  | |- context [?a <? ?b] => destruct (Z.ltb_spec a b); [lia|]
  | |- context [?a <=? ?b] => destruct (Z.leb_spec a b); [lia|]
  end.
  assert (LineTotal (in_Quantity i) (in_UnitPriceMinor i) =
    Ok (in_Quantity i * in_UnitPriceMinor i)) as ->; [|by destruct i].
  unfold MaxQuantity, MaxUnitPriceMinor in *.
  apply LineTotal_Ok; unfold in_int64, MinInt64, MaxInt64; nia.
Qed.

Lemma ValidateItem_idem i j : ValidateItem i = Ok j -> ValidateItem j = Ok j.
Proof.
  intros (Hd & Hne & Hl & _ & Hq & _ & Hp & _)%ValidateItem_Ok.
  apply ValidateItem_fix; try done. rewrite Hd. apply trim_space_idem.
Qed.

Lemma ValidateItems_Ok k xs ys :
  ValidateItems k xs = Ok ys <-> Forall2 (fun i j => ValidateItem i = Ok j) xs ys.
Proof.
  revert k ys. induction xs as [|i xs IH]; intros k ys; cbn [ValidateItems].
  - split; [intros <-%Ok_inj; constructor|]. by inversion 1.
  - destruct (ValidateItem i) as [n|e] eqn:E.
    + rewrite bind_Ok. setoid_rewrite IH. split.
      * intros (js' & H & <-%Ok_inj). by constructor.
      * inversion 1 as [|? j ? js' H1 H2]; subst. exists js'. split; [done|]. congruence.
    + split; [done|]. inversion 1; congruence.
Qed.

Lemma supported_fix `{Unicode} cur :
  SupportedCurrency cur = true -> to_upper (trim_space cur) = cur /\ slen cur = MaxCurrencyLen.
Proof.
  unfold SupportedCurrency. rewrite bool_decide_eq_true.
  assert (Forall (fun c => is_ascii c = true /\ trim_space c = c /\ str_map upper_b c = c /\
                           slen c = MaxCurrencyLen) supportedCurrencies) as Hall.
  { eapply bool_decide_eq_true; vm_compute; reflexivity. }
  intros Hin. rewrite Forall_forall in Hall. destruct (Hall _ Hin) as (Ha & Ht & Hu & Hl).
  unfold to_upper. by rewrite Ht, Ha.
Qed.

(** What the service guarantees about an accepted create request. *)
Definition CreateInput_ok (j : CreateInput) : Prop :=
  SupportedCurrency (in_Currency j) = true /\
  0 <= in_TaxMinor j <= MaxTaxMinor /\
  Z.of_nat (length (in_Items j)) <= MaxItemsPerInvoice /\
  Forall (fun it => in_Description it <> "" /\ slen (in_Description it) <= MaxDescriptionLen /\
                    0 < in_Quantity it <= MaxQuantity /\
                    0 <= in_UnitPriceMinor it <= MaxUnitPriceMinor) (in_Items j).

Lemma ValidateCreate_Ok `{Unicode} i j :
  ValidateCreate i = Ok j ->
  in_Currency j = to_upper (trim_space (in_Currency i)) /\ in_TaxMinor j = in_TaxMinor i /\
  Forall2 (fun a b => ValidateItem a = Ok b) (in_Items i) (in_Items j) /\ CreateInput_ok j.
Proof.
  unfold ValidateCreate. destruct (negb (_ =? _)) eqn:H1; [done|].
  destruct (negb (SupportedCurrency _)) eqn:H2; [done|].
  destruct (in_TaxMinor i <? 0) eqn:H3; [done|]. destruct (MaxTaxMinor <? _) eqn:H4; [done|].
  destruct (MaxItemsPerInvoice <? _) eqn:H5; [done|]. to_prop.
  rewrite bind_Ok. intros (items & Hi & <-%Ok_inj). apply ValidateItems_Ok in Hi.
  unfold CreateInput_ok. cbn. pose proof (Forall2_length _ _ _ Hi) as Hlen.
  repeat split; try done; try lia.
  clear -Hi. induction Hi as [|a b ? ? Hab]; constructor; [|done].
  apply ValidateItem_Ok in Hab. naive_solver.
Qed.

(** Validation accepts only requests inside every documented limit, returns them
    in a normal form it would itself accept unchanged, and never alters an
    amount: prices, quantities and tax come out as they came in. *)
Theorem ValidateCreate_sound `{Unicode} i j :
  ValidateCreate i = Ok j ->
  CreateInput_ok j /\
  in_TaxMinor j = in_TaxMinor i /\
  (in_Quantity <$> in_Items j) = (in_Quantity <$> in_Items i) /\
  (in_UnitPriceMinor <$> in_Items j) = (in_UnitPriceMinor <$> in_Items i) /\
  ValidateCreate j = Ok j.
Proof.
  intros Hv. pose proof (ValidateCreate_Ok i j Hv) as (Hc & Ht & Hi & Hok).
  split_and!; [done|done|..].
  1,2: clear -Hi; induction Hi as [|a b ? ? Hab]; cbn; [done|]; f_equal; [|done];
    apply ValidateItem_Ok in Hab; naive_solver.
  destruct Hok as (Hcur & [Ht1 Ht2] & Hlen & _).
  destruct (supported_fix _ Hcur) as [Hfix Hl].
  unfold ValidateCreate. rewrite Hfix, Hl, Hcur. cbn [negb]. rewrite Z.eqb_refl. cbn [negb].
  repeat match goal with
  | |- context [?a <? ?b] => destruct (Z.ltb_spec a b); [lia|]
  end.
  assert (ValidateItems 0 (in_Items j) = Ok (in_Items j)) as ->; [|by destruct j].
  apply ValidateItems_Ok. clear -Hi.
  induction Hi as [|a b ? ? Hab]; constructor; [|done]. by eapply ValidateItem_idem.
Qed.

#[local] Existing Instance DemoUnicode.

Definition demo_create : CreateInput :=
  mkCreateInput " usd " 250 [mkItemInput " Seats" 12 1500; mkItemInput "Support" 1 0].
Definition demo_created : CreateInput :=
  mkCreateInput "USD" 250 [mkItemInput "Seats" 12 1500; mkItemInput "Support" 1 0].

Lemma ValidateCreate_sound_witness :
  CreateInput_ok demo_created /\
  in_TaxMinor demo_created = in_TaxMinor demo_create /\
  (in_Quantity <$> in_Items demo_created) = (in_Quantity <$> in_Items demo_create) /\
  (in_UnitPriceMinor <$> in_Items demo_created) = (in_UnitPriceMinor <$> in_Items demo_create) /\
  ValidateCreate demo_created = Ok demo_created.
Proof. apply ValidateCreate_sound. vm_compute. reflexivity. Defined.

(** The page size a listing uses is between 1 and the maximum, and one that is
    already in range is not changed. *)
Lemma NormalizePageSize_range n : 1 <= NormalizePageSize n <= MaxPageSize.
Proof. unfold NormalizePageSize, MaxPageSize, DefaultPageSize. case_all; to_prop; lia. Qed.

Lemma CanTransition_spec from to :
  CanTransition from to = true <->
  (from = StatusDraft /\ (to = StatusOpen \/ to = StatusVoid)) \/
  (from = StatusOpen /\ (to = StatusPaid \/ to = StatusVoid)).
Proof.
  unfold CanTransition. repeat case_decide; rewrite ?bool_decide_eq_true; subst;
    unfold StatusDraft, StatusOpen in *; intuition congruence.
Qed.

(** [trim_space] before and after: the store relies on normalised statuses. *)
Lemma NormalizeStatus_Ok raw s :
  NormalizeStatus raw = Ok s -> s = raw /\
  (s = "" \/ s ∈ [StatusDraft; StatusOpen; StatusPaid; StatusVoid]).
Proof. unfold NormalizeStatus. repeat case_decide; intros [= <-]; auto. Qed.
