(* ===== verification/Float64.v ===== *)
(** * Finite [float64] values

    A finite double is an integer scaled by a power of two; an operation computes
    exactly and rounds to 53 significant bits, ties to even. The exponent range
    is not bounded: the values of this development lie far inside it. *)

From S2P Require Import Prelude.

Record F64 := mkF64 { mant : Z; expo : Z }.

Definition of_int (z : Z) : F64 := mkF64 z 0.

(** [q] and [r] are the kept part and the remainder of [m] at [d] dropped bits. *)
Definition round_half_even (m d : Z) : Z :=
  let q := m / 2 ^ d in
  let r := m mod 2 ^ d in
  if 2 * r <? 2 ^ d then q
  else if 2 ^ d <? 2 * r then q + 1
  else if Z.even q then q else q + 1.

Definition round53 (x : F64) : F64 :=
  let a := Z.abs (mant x) in
  if a <? 2 ^ 53 then x
  else
    let d := Z.log2 a - 52 in
    mkF64 (Z.sgn (mant x) * round_half_even a d) (expo x + d).

Definition align (x : F64) (e : Z) : Z := mant x * 2 ^ (expo x - e).

Definition fadd (x y : F64) : F64 :=
  let e := Z.min (expo x) (expo y) in round53 (mkF64 (align x e + align y e) e).
Definition fmul (x y : F64) : F64 := round53 (mkF64 (mant x * mant y) (expo x + expo y)).
Definition fltb (x y : F64) : bool :=
  let e := Z.min (expo x) (expo y) in align x e <? align y e.

(** [math.Round] followed by a conversion to an integer: half away from zero. *)
Definition fround (x : F64) : Z :=
  if 0 <=? expo x then mant x * 2 ^ expo x
  else
    let d := - expo x in
    Z.sgn (mant x) * ((Z.abs (mant x) + 2 ^ (d - 1)) / 2 ^ d).

(** ** Bounds survive rounding

    [le_at K x y]: [x <= y], read at a scale [2^-K] fine enough for both. *)
Definition at_scale (K : Z) (x : F64) : Z := mant x * 2 ^ (expo x + K).
Definition le_at (K : Z) (x y : F64) : Prop := at_scale K x <= at_scale K y.

Lemma pow2_pos d : 0 <= d -> 0 < 2 ^ d.
Proof. intros. by apply Z.pow_pos_nonneg. Qed.

Lemma round_half_even_bounds m d :
  0 <= d -> 0 <= m -> m / 2 ^ d <= round_half_even m d <= m / 2 ^ d + 1 /\
  (m mod 2 ^ d = 0 -> round_half_even m d = m / 2 ^ d).
Proof.
  intros Hd Hm. pose proof (pow2_pos d Hd). unfold round_half_even.
  pose proof (Z.mod_pos_bound m (2 ^ d) ltac:(lia)).
  split; [repeat case_match; lia|]. intros Hz. rewrite Hz.
  destruct (Z.ltb_spec (2 * 0) (2 ^ d)); lia.
Qed.

(** Rounding a positive value stays on its side of any bound that is itself a
    53-bit value. *)
Lemma round53_le K x k j :
  0 < mant x -> 0 < k < 2 ^ 53 -> 0 <= expo x + K -> 0 <= j + K ->
  le_at K x (mkF64 k j) -> le_at K (round53 x) (mkF64 k j).
Proof.
  destruct x as [m e]. unfold le_at, at_scale, round53. cbn [mant expo].
  intros Hm Hk He Hj Hle. rewrite Z.abs_eq, Z.sgn_pos by lia.
  destruct (Z.ltb_spec m (2 ^ 53)) as [|Hbig]; [done|]. cbn [mant expo].
  set (d := Z.log2 m - 52).
  apply Z.log2_le_pow2 in Hbig; [|lia].
  destruct (Z.log2_spec m Hm) as [Hlo Hhi].
  replace (Z.log2 m) with (52 + d) in Hlo by lia. replace (Z.succ (Z.log2 m)) with (53 + d) in Hhi by lia.
  rewrite Z.pow_add_r in Hlo, Hhi by lia.
  pose proof (pow2_pos d ltac:(lia)) as Hd. pose proof (pow2_pos (e + K) He) as HeK.
  destruct (round_half_even_bounds m d ltac:(lia) ltac:(lia)) as [[Hr1 Hr2] Hr3].
  pose proof (Z.div_mod m (2 ^ d) ltac:(lia)) as Hdm.
  pose proof (Z.mod_pos_bound m (2 ^ d) Hd) as Hmod.
  replace (e + d + K) with (d + (e + K)) by lia. rewrite (Z.pow_add_r 2 d) by lia. rewrite Z.mul_1_l.
  set (r := round_half_even m d) in *. set (B := k * 2 ^ (j + K)) in *.
  assert (r <= 2 ^ 53) as Hr53.
  { assert (m / 2 ^ d < 2 ^ 53) by (apply Z.div_lt_upper_bound; lia). lia. }
  destruct (Z.le_gt_cases (2 ^ 53 * 2 ^ d * 2 ^ (e + K)) B) as [HB|HB]; [nia|].
  (* the bound lies on the rounding grid *)
  assert (d + (e + K) <= j + K) as Hgrid.
  { apply Z.nlt_ge. intros Hlt.
    assert (2 ^ (j + K) * 2 <= 2 ^ (d + (e + K))) as Hhalf.
    { replace (2 ^ (j + K) * 2) with (2 ^ (j + K + 1)) by (rewrite Z.pow_add_r; lia).
      apply Z.pow_le_mono_r; lia. }
    rewrite (Z.pow_add_r 2 d) in Hhalf by lia. subst B.
    assert (2 ^ 52 * 2 ^ d * 2 ^ (e + K) <= m * 2 ^ (e + K)) by (apply Z.mul_le_mono_nonneg_r; lia).
    assert (k * (2 ^ (j + K) * 2) <= (2 ^ 53 - 1) * (2 ^ d * 2 ^ (e + K))) by (apply Z.mul_le_mono_nonneg; lia).
    nia. }
  assert (B = (k * 2 ^ (j - d - e)) * (2 ^ d * 2 ^ (e + K))) as HBg.
  { subst B. rewrite <- Z.mul_assoc, <- !Z.pow_add_r by lia. do 2 f_equal. lia. }
  set (b := k * 2 ^ (j - d - e)) in *.
  assert (m <= b * 2 ^ d) as Hmb by nia.
  assert (r <= b); [|nia].
  destruct (Z.eq_dec (m mod 2 ^ d) 0) as [Hz|Hz].
  - rewrite Hr3 by done. nia.
  - assert (m / 2 ^ d < b) by nia. lia.
Qed.

Lemma round53_ge K x k j :
  0 < mant x -> 0 < k < 2 ^ 53 -> 0 <= expo x + K -> 0 <= j + K ->
  le_at K (mkF64 k j) x -> le_at K (mkF64 k j) (round53 x).
Proof.
  destruct x as [m e]. unfold le_at, at_scale, round53. cbn [mant expo].
  intros Hm Hk He Hj Hle. rewrite Z.abs_eq, Z.sgn_pos by lia.
  destruct (Z.ltb_spec m (2 ^ 53)) as [|Hbig]; [done|]. cbn [mant expo].
  set (d := Z.log2 m - 52).
  apply Z.log2_le_pow2 in Hbig; [|lia].
  destruct (Z.log2_spec m Hm) as [Hlo Hhi].
  replace (Z.log2 m) with (52 + d) in Hlo by lia. replace (Z.succ (Z.log2 m)) with (53 + d) in Hhi by lia.
  rewrite Z.pow_add_r in Hlo, Hhi by lia.
  pose proof (pow2_pos d ltac:(lia)) as Hd. pose proof (pow2_pos (e + K) He) as HeK.
  destruct (round_half_even_bounds m d ltac:(lia) ltac:(lia)) as [[Hr1 Hr2] Hr3].
  pose proof (Z.div_mod m (2 ^ d) ltac:(lia)) as Hdm.
  pose proof (Z.mod_pos_bound m (2 ^ d) Hd) as Hmod.
  replace (e + d + K) with (d + (e + K)) by lia. rewrite (Z.pow_add_r 2 d) by lia. rewrite Z.mul_1_l.
  set (r := round_half_even m d) in *. set (B := k * 2 ^ (j + K)) in *.
  assert (2 ^ 52 <= r) as Hr52.
  { assert (2 ^ 52 <= m / 2 ^ d) by (apply Z.div_le_lower_bound; lia). lia. }
  destruct (Z.le_gt_cases B (2 ^ 52 * 2 ^ d * 2 ^ (e + K))) as [HB|HB]; [nia|].
  assert (d + (e + K) <= j + K) as Hgrid.
  { apply Z.nlt_ge. intros Hlt.
    assert (2 ^ (j + K) * 2 <= 2 ^ (d + (e + K))) as Hhalf.
    { replace (2 ^ (j + K) * 2) with (2 ^ (j + K + 1)) by (rewrite Z.pow_add_r; lia).
      apply Z.pow_le_mono_r; lia. }
    rewrite (Z.pow_add_r 2 d) in Hhalf by lia. subst B.
    assert (k * (2 ^ (j + K) * 2) <= (2 ^ 53 - 1) * (2 ^ d * 2 ^ (e + K))) by (apply Z.mul_le_mono_nonneg; lia).
    nia. }
  assert (B = (k * 2 ^ (j - d - e)) * (2 ^ d * 2 ^ (e + K))) as HBg.
  { subst B. rewrite <- Z.mul_assoc, <- !Z.pow_add_r by lia. do 2 f_equal. lia. }
  set (b := k * 2 ^ (j - d - e)) in *.
  assert (b * 2 ^ d <= m) as Hmb by nia.
  assert (b <= m / 2 ^ d) by (apply Z.div_le_lower_bound; lia). nia.
Qed.

Lemma round53_pos x : 0 < mant x -> 0 < mant (round53 x).
Proof.
  destruct x as [m e]. unfold round53. cbn [mant expo]. intros Hm.
  rewrite Z.abs_eq, Z.sgn_pos by lia. destruct (Z.ltb_spec m (2 ^ 53)) as [|Hbig]; [done|]. cbn [mant].
  apply Z.log2_le_pow2 in Hbig; [|lia]. destruct (Z.log2_spec m Hm) as [Hlo _].
  set (d := Z.log2 m - 52). replace (Z.log2 m) with (52 + d) in Hlo by lia.
  rewrite Z.pow_add_r in Hlo by lia. pose proof (pow2_pos d ltac:(lia)).
  destruct (round_half_even_bounds m d ltac:(lia) ltac:(lia)) as [[Hr1 _] _].
  assert (2 ^ 52 <= m / 2 ^ d) by (apply Z.div_le_lower_bound; lia). lia.
Qed.

Lemma round53_zero x : mant x = 0 -> round53 x = x.
Proof. destruct x as [m e]. cbn. intros ->. done. Qed.

Lemma round53_expo x : expo x <= expo (round53 x).
Proof.
  destruct x as [m e]. unfold round53. cbn [mant expo].
  destruct (Z.ltb_spec (Z.abs m) (2 ^ 53)) as [|Hbig]; cbn [expo]; [lia|].
  apply Z.log2_le_pow2 in Hbig; lia.
Qed.

(** Rounding keeps a value between two bounds of 53 bits; the lower one may be 0. *)
Lemma round53_between K x a i b j :
  0 <= mant x -> 0 <= a < 2 ^ 53 -> 0 < b < 2 ^ 53 -> 0 <= expo x + K -> 0 <= i + K -> 0 <= j + K ->
  le_at K (mkF64 a i) x -> le_at K x (mkF64 b j) ->
  0 <= mant (round53 x) /\ le_at K (mkF64 a i) (round53 x) /\ le_at K (round53 x) (mkF64 b j).
Proof.
  intros Hm Ha Hb He Hi Hj H1 H2. destruct (Z.eq_dec (mant x) 0) as [Hz|Hz].
  { by rewrite round53_zero. }
  assert (0 < mant (round53 x)) by (apply round53_pos; lia). split; [lia|]. split; [|apply round53_le; auto; lia].
  destruct (Z.eq_dec a 0) as [->|Hna]; [|apply round53_ge; auto; lia].
  unfold le_at, at_scale. cbn [mant expo]. pose proof (round53_expo x). pose proof (pow2_pos (expo (round53 x) + K) ltac:(lia)). nia.
Qed.

Lemma at_scale_align K x y e :
  e <= expo x -> e <= expo y -> 0 <= e + K ->
  at_scale K (mkF64 (align x e + align y e) e) = at_scale K x + at_scale K y.
Proof.
  intros Hx Hy He. unfold at_scale, align. cbn [mant expo]. rewrite Z.mul_add_distr_r, <- !Z.mul_assoc, <- !Z.pow_add_r by lia.
  do 2 f_equal; f_equal; lia.
Qed.

Lemma round53_small x : Z.abs (mant x) < 2 ^ 53 -> round53 x = x.
Proof. intros H. unfold round53. destruct (Z.ltb_spec (Z.abs (mant x)) (2 ^ 53)); [done|lia]. Qed.

Lemma fround_bounds K x a b :
  0 < mant x -> 0 <= K -> 0 <= expo x + K ->
  le_at K (of_int a) x -> le_at K x (of_int b) -> a <= fround x <= b.
Proof.
  destruct x as [m e]. unfold le_at, at_scale, of_int, fround. cbn [mant expo].
  intros Hm HK He Ha Hb. rewrite Z.add_0_l in *. destruct (Z.leb_spec 0 e) as [Hpos|Hneg].
  - rewrite Z.pow_add_r in Ha, Hb by lia. pose proof (pow2_pos K HK). nia.
  - rewrite Z.abs_eq, Z.sgn_pos by lia. set (d := - e).
    replace K with (d + (e + K)) in Ha, Hb by lia. rewrite (Z.pow_add_r 2 d) in Ha, Hb by lia.
    pose proof (pow2_pos (e + K) He) as HP. pose proof (pow2_pos (d - 1) ltac:(lia)) as HD1.
    assert (2 ^ d = 2 * 2 ^ (d - 1)) as HD by (rewrite <- Z.pow_succ_r by lia; f_equal; lia).
    replace (e + (d + (e + K))) with (e + K) in Ha, Hb by lia.
    assert (a * 2 ^ d <= m) by nia. assert (m <= b * 2 ^ d) by nia. rewrite Z.mul_1_l. split.
    + apply Z.div_le_lower_bound; lia.
    + apply Z.lt_succ_r, Z.div_lt_upper_bound; lia.
Qed.
