(* ===== verification/Webhook.v ===== *)
(** * Webhooks: validation, signatures, retry schedule

    [internal/webhook/webhook.go]. *)

From S2P Require Import Prelude Apperr Encoding Ids Float64.

Definition EventInvoiceCreated : string := "invoice.created".
Definition EventInvoiceIssued : string := "invoice.issued".
Definition EventInvoicePaid : string := "invoice.paid".
Definition EventInvoiceVoided : string := "invoice.voided".

(** The keys of the [Events] map. *)
Definition Events : list string :=
  [EventInvoiceCreated; EventInvoiceIssued; EventInvoicePaid; EventInvoiceVoided].
Definition known_event (e : string) : bool := bool_decide (e ∈ Events).

(** Durations are nanoseconds. *)
Definition Second : Z := 1000000000.
Definition MaxAttempts : Z := 6.
Definition DeliveryTimeout : Z := 10 * Second.
Definition LeaseDuration : Z := 60 * Second.
Definition SignatureTolerance : Z := 5 * 60 * Second.
Definition MaxPayloadBytes : Z := Z.shiftl 64 10.
Definition DefaultPageSize : Z := 50.
Definition MaxPageSize : Z := 200.

(** ** The retry schedule *)

Definition backoffSchedule : list Z :=
  [1 * Second; 5 * Second; 30 * Second; 5 * 60 * Second; 60 * 60 * Second].

Definition NominalBackoff (failedAttempt : Z) : Z :=
  if failedAttempt <=? 0 then 0
  else
    let i := failedAttempt - 1 in
    let i := if Z.of_nat (length backoffSchedule) <=? i
             then Z.of_nat (length backoffSchedule) - 1 else i in
    nth (Z.to_nat i) backoffSchedule 0.

Definition half : F64 := mkF64 1 (-1).

Definition clamp01 (j : F64) : F64 :=
  let j := if fltb j (of_int 0) then of_int 0 else j in
  if fltb (of_int 1) j then of_int 1 else j.

(** [None] is [retry == false]. *)
Definition NextDelay (failedAttempt : Z) (jitterFraction : F64) : option Z :=
  if MaxAttempts <=? failedAttempt then None
  else
    let nominal := NominalBackoff failedAttempt in
    if nominal =? 0 then Some 0
    else Some (fround (fmul (of_int nominal) (fadd half (fmul half (clamp01 jitterFraction))))).

(** ** Request validation *)

Record CreateInput := mkCreateInput {
  in_URL : string;
  in_Events : list string;
  in_Description : string;
}.

(** What [url.Parse] yields of interest here. *)
Record URL := mkURL {
  u_Scheme : string;
  u_Hostname : string;
  u_Fragment : string;
  u_User : bool;
}.
Class NetURL := { url_Parse : string -> option URL }.

Definition ValidateURLSyntax `{NetURL} (rawURL : string) : go_result unit :=
  if decide (rawURL = "") then Err (Invalid "url" "is required")
  else if 2048 <? slen rawURL then Err (Invalid "url" "must be at most 2048 characters")
  else match url_Parse rawURL with
       | None => Err (Invalid "url" "is not a valid URL")
       | Some u =>
           if decide (u_Scheme u <> "http" /\ u_Scheme u <> "https")
           then Err (Invalid "url" "must use http or https")
           else if decide (u_Hostname u = "") then Err (Invalid "url" "must include a host")
           else if decide (u_Fragment u <> "") then Err (Invalid "url" "must not include a fragment")
           else if u_User u then Err (Invalid "url" "must not embed credentials")
           else Ok tt
       end.

Fixpoint ValidateEvents_from `{Unicode} (seen out : list string) (events : list string)
    : go_result (list string) :=
  match events with
  | [] => Ok out
  | e :: rest =>
      let e := trim_space e in
      if decide (e = "") then Err (Invalid "events" "must not contain an empty entry")
      else if negb (known_event e) then Err (Invalid "events" ("unknown event " +:+ fmt_q e))
      else if decide (e ∈ seen) then ValidateEvents_from seen out rest
      else ValidateEvents_from (e :: seen) (out ++ [e]) rest
  end.

Definition ValidateEvents `{Unicode} (events : list string) : go_result (list string) :=
  match events with
  | [] => Err (Invalid "events" "must name at least one event")
  | _ => if 32 <? Z.of_nat (length events)
         then Err (Invalid "events" "must name at most 32 events")
         else ValidateEvents_from [] [] events
  end.

Definition ValidateCreate `{Unicode} `{NetURL} (i : CreateInput) : go_result CreateInput :=
  let url := trim_space (in_URL i) in
  _ ← ValidateURLSyntax url;
  events ← ValidateEvents (in_Events i);
  let desc := trim_space (in_Description i) in
  if 500 <? slen desc then Err (Invalid "description" "must be at most 500 characters")
  else Ok (mkCreateInput url events desc).

(** ** Secrets *)

Definition GenerateSecret (rand : nat -> Z) : string :=
  "whsec_" +:+ b64_encode RawURLEncoding (of_bytes ((fun i => rand i mod 256) <$> seq 0 32)).

Definition ValidateSecret (secret : string) : go_result unit :=
  if negb (has_prefix "whsec_" secret)
  then Err (Plain "webhook: secret must start with whsec_")
  else
    let raw := trim_prefix "whsec_" secret in
    if (slen raw <? 32) || (128 <? slen raw)
    then Err (Plain "webhook: secret body must be between 32 and 128 characters")
    else match b64_decode RawURLEncoding raw with
         | None => Err (Plain "webhook: secret body is not valid base64url")
         | Some _ => Ok tt
         end.

(** ** Signatures *)

Definition digestFor (secret : string) (unixTimestamp : Z) (body : string) : string :=
  hex_encode (hmac_sha256 secret ((dec unixTimestamp +:+ ".") +:+ body)).

Definition Sign (secret : string) (timestamp : gotime) (body : string) : string :=
  "t=" +:+ dec (Unix timestamp) +:+ ",v1=" +:+ digestFor secret (Unix timestamp) body.

(** The loop over the comma-separated parts; the accumulator holds what was
    read so far. *)
Fixpoint ParseSignature_from (t : option Z) (d : option string) (parts : list string)
    : go_result (option Z * option string) :=
  match parts with
  | [] => Ok (t, d)
  | part :: rest =>
      let part := trim_space part in
      if has_prefix "t=" part then
        match parse_int64 (trim_prefix "t=" part) with
        | None => Err (Plain "webhook: signature timestamp is not an integer")
        | Some v => ParseSignature_from (Some v) d rest
        end
      else if has_prefix "v1=" part then
        ParseSignature_from t (Some (trim_prefix "v1=" part)) rest
      else ParseSignature_from t d rest
  end.

Definition ParseSignature (header : string) : go_result (Z * string) :=
  match ParseSignature_from None None (split_on ","%char header) with
  | Err e => Err e
  | Ok (None, _) => Err (Plain "webhook: signature has no timestamp")
  | Ok (Some _, None) => Err (Plain "webhook: signature has no v1 digest")
  | Ok (Some t, Some d) => Ok (t, d)
  end.

(** [time.Unix(sec, 0)]: the internal count of seconds since year 1 wraps. *)
Definition unixToInternal : Z := 62135596800.
Definition time_Unix (sec : Z) : gotime := (wrap64 (sec + unixToInternal) - unixToInternal) * Second.

(** [Time.Sub] saturates. *)
Definition time_Sub (t u : gotime) : Z :=
  if t - u <? MinInt64 then MinInt64 else if MaxInt64 <? t - u then MaxInt64 else t - u.

Definition Verify (secret header body : string) (now : gotime) (tolerance : Z) : go_result unit :=
  match ParseSignature header with
  | Err e => Err e
  | Ok (timestamp, gotHex) =>
      let skew := time_Sub now (time_Unix timestamp) in
      let skew := if skew <? 0 then neg64 skew else skew in
      if tolerance <? skew then Err (Plain "webhook: signature is outside the tolerance")
      else match hex_decode gotHex with
           | None => Err (Plain "webhook: signature digest is not hex")
           | Some got =>
               match hex_decode (digestFor secret timestamp body) with
               | None => Err (Plain "webhook: computed digest is not hex")
               | Some want =>
                   if negb (bool_decide (got = want)) then Err (Plain "webhook: signature does not match")
                   else Ok tt
               end
           end
  end.

Definition NormalizePageSize (requested : Z) : Z :=
  if requested <=? 0 then DefaultPageSize
  else if MaxPageSize <? requested then MaxPageSize
  else requested.

(** ** Delivery states: the values the column's CHECK admits *)

Inductive State := StatePending | StateDelivering | StateDelivered | StateDead.

#[export] Instance State_eq_dec : EqDecision State.
Proof. solve_decision. Defined.

Definition state_text (s : State) : string :=
  match s with
  | StatePending => "pending"
  | StateDelivering => "delivering"
  | StateDelivered => "delivered"
  | StateDead => "dead"
  end.

(** [None] stands for [""], any state. *)
Definition NormalizeState (raw : string) : go_result (option State) :=
  if decide (raw = "") then Ok None
  else if decide (raw = "pending") then Ok (Some StatePending)
  else if decide (raw = "delivering") then Ok (Some StateDelivering)
  else if decide (raw = "delivered") then Ok (Some StateDelivered)
  else if decide (raw = "dead") then Ok (Some StateDead)
  else Err (Invalid "state" "must be one of pending, delivering, delivered, dead").

(** ** Lemmas: the retry schedule *)

Lemma NominalBackoff_cases n :
  0 < n < MaxAttempts -> NominalBackoff n ∈ backoffSchedule.
Proof.
  unfold MaxAttempts. intros Hn.
  assert (n = 1 \/ n = 2 \/ n = 3 \/ n = 4 \/ n = 5) as H by lia.
  assert (Forall (fun k => NominalBackoff k ∈ backoffSchedule) [1; 2; 3; 4; 5]) as Hall
    by (eapply bool_decide_eq_true; vm_compute; reflexivity).
  rewrite Forall_forall in Hall. apply Hall. set_solver.
Qed.

Lemma schedule_shape b :
  b ∈ backoffSchedule -> exists h, b = 2 * h /\ 0 < h < 2 ^ 50.
Proof.
  assert (Forall (fun b => b = 2 * (b / 2) /\ 0 < b / 2 < 2 ^ 50) backoffSchedule) as Hall
    by (eapply bool_decide_eq_true; vm_compute; reflexivity).
  rewrite Forall_forall in Hall. intros Hb. exists (b / 2). by apply Hall.
Qed.

(** The clamped jitter is between 0 and 1, at any scale that resolves it. *)
Lemma clamp01_bounds j K :
  0 <= K -> 0 <= expo j + K -> Z.abs (mant j) < 2 ^ 53 ->
  0 <= at_scale K (clamp01 j) <= 2 ^ K /\ 0 <= expo (clamp01 j) + K /\
  0 <= mant (clamp01 j) < 2 ^ 53.
Proof.
  intros HK He Hm. pose proof (pow2_pos K HK) as HP. unfold clamp01.
  assert (Hzero : at_scale K (of_int 0) = 0) by done.
  assert (Hone : at_scale K (of_int 1) = 2 ^ K) by (unfold at_scale, of_int; cbn [mant expo]; rewrite Z.mul_1_l; f_equal; lia).
  assert (Hlt : forall x y, 0 <= expo x + K -> 0 <= expo y + K ->
    fltb x y = true <-> at_scale K x < at_scale K y).
  { intros x y Hx Hy. unfold fltb, align, at_scale. rewrite Z.ltb_lt.
    set (e := Z.min (expo x) (expo y)).
    assert (0 <= e + K /\ e <= expo x /\ e <= expo y) as (HeK & Hex & Hey) by (subst e; lia).
    clearbody e. pose proof (pow2_pos (e + K) HeK).
    replace (expo x + K) with ((expo x - e) + (e + K)) by lia.
    replace (expo y + K) with ((expo y - e) + (e + K)) by lia.
    rewrite (Z.pow_add_r 2 (expo x - e)), (Z.pow_add_r 2 (expo y - e)), !Z.mul_assoc by lia.
    by rewrite <- Z.mul_lt_mono_pos_r. }
  destruct (fltb j (of_int 0)) eqn:H0.
  - change (fltb (of_int 1) (of_int 0)) with false. cbv iota. rewrite Hzero. cbn [mant expo of_int]. lia.
  - assert (0 <= at_scale K j) as Hj0.
    { apply Z.nlt_ge. intros Hneg. rewrite <- Hzero in Hneg. apply Hlt in Hneg; [congruence|done|done]. }
    assert (0 <= mant j) as Hmj by (unfold at_scale in Hj0; pose proof (pow2_pos _ He); nia).
    destruct (fltb (of_int 1) j) eqn:H1.
    + rewrite Hone. cbn [mant expo of_int]. lia.
    + assert (at_scale K j <= 2 ^ K); [|lia].
      apply Z.nlt_ge. intros Hbig. rewrite <- Hone in Hbig. apply Hlt in Hbig; [congruence|done|done].
Qed.

(** [0.5 + 0.5*jitter] is between one half and one. *)
Lemma half_sum_bounds j K :
  0 <= K -> 0 <= expo j - 1 + K -> Z.abs (mant j) < 2 ^ 53 -> 1 <= K ->
  let t := fadd half (fmul half (clamp01 j)) in
  0 < mant t /\ 0 <= expo t + K /\ le_at K half t /\ le_at K t (of_int 1).
Proof.
  intros HK He Hm HK1 t.
  destruct (clamp01_bounds j (K - 1)) as ([H0 H1] & Hec & Hmc0 & Hmc); [lia|lia|done|].
  set (c := clamp01 j) in *.
  assert (fmul half c = mkF64 (mant c) (expo c - 1)) as Hfm.
  { unfold fmul. rewrite round53_small by (cbn [mant half]; lia).
    cbn [mant expo half]. f_equal; lia. }
  subst t. unfold fadd. rewrite Hfm. cbn [expo half].
  set (e := Z.min (-1) (expo c - 1)). set (s := align half e + align (mkF64 (mant c) (expo c - 1)) e).
  assert (at_scale K (mkF64 s e) = 2 ^ (K - 1) + at_scale (K - 1) c) as Hs.
  { subst s. unfold at_scale, align. cbn [mant expo half]. rewrite Z.mul_add_distr_r, <- !Z.mul_assoc.
    rewrite <- !Z.pow_add_r by lia. rewrite Z.mul_1_l. do 2 f_equal; [lia|f_equal; lia]. }
  pose proof (pow2_pos (K - 1) ltac:(lia)) as HP.
  assert (2 ^ K = 2 * 2 ^ (K - 1)) as HK2 by (rewrite <- Z.pow_succ_r by lia; f_equal; lia).
  assert (0 <= e + K) as HeK by lia.
  assert (0 < s) as Hspos.
  { unfold at_scale in Hs. cbn [mant expo] in Hs. pose proof (pow2_pos _ HeK). unfold at_scale in H0. nia. }
  split_and!.
  - by apply round53_pos.
  - pose proof (round53_expo (mkF64 s e)). cbn [expo] in *. lia.
  - apply (round53_ge K _ 1 (-1)); cbn [mant expo]; try lia.
    unfold le_at. rewrite Hs. unfold at_scale. cbn [mant expo].
    replace (-1 + K) with (K - 1) by lia. unfold at_scale in H0. lia.
  - apply (round53_le K _ 1 0); cbn [mant expo]; try lia.
    unfold le_at. rewrite Hs. unfold at_scale at 2. cbn [mant expo].
    rewrite Z.add_0_l, HK2. lia.
Qed.

(** A retry is scheduled between half and all of the nominal backoff ahead. *)
Lemma NextDelay_range n j :
  Z.abs (mant j) < 2 ^ 53 ->
  match NextDelay n j with
  | None => MaxAttempts <= n
  | Some d => n < MaxAttempts /\ NominalBackoff n / 2 <= d <= NominalBackoff n /\ (0 < n -> 0 < d)
  end.
Proof.
  intros Hm. unfold NextDelay. destruct (Z.leb_spec MaxAttempts n) as [|Hmax]; [done|].
  destruct (Z.eqb_spec (NominalBackoff n) 0) as [Hz|Hnz].
  { rewrite Hz. split_and!; [lia|done|lia|]. intros Hn.
    destruct (schedule_shape _ (NominalBackoff_cases n (conj Hn Hmax))) as (h & Hh & ?). lia. }
  assert (0 < n) as Hn.
  { apply Z.nle_gt. intros Hle. apply Hnz. unfold NominalBackoff.
    by destruct (Z.leb_spec n 0); [|lia]. }
  destruct (schedule_shape _ (NominalBackoff_cases n (conj Hn Hmax))) as (h & Hh & Hh1).
  rewrite Hh. set (K := Z.abs (expo j) + 2). assert (1 <= K) by lia.
  destruct (half_sum_bounds j K) as (Ht & Het & Hlo & Hhi); [lia|lia|done|lia|].
  set (t := fadd _ _) in *. rewrite Z.mul_comm, Z.div_mul by lia.
  assert (2 ^ K = 2 * 2 ^ (K - 1)) as HK2 by (rewrite <- Z.pow_succ_r by lia; f_equal; lia).
  pose proof (pow2_pos (K - 1) ltac:(lia)) as HP.
  unfold le_at, at_scale, half, of_int in Hlo, Hhi. cbn [mant expo] in Hlo, Hhi.
  replace (-1 + K) with (K - 1) in Hlo by lia. rewrite Z.add_0_l in Hhi.
  assert (h <= fround (fmul (of_int (h * 2)) t) <= h * 2); [|lia].
  unfold fmul. cbn [mant expo of_int]. rewrite Z.add_0_l.
  apply (fround_bounds K).
  - apply round53_pos. cbn [mant]. nia.
  - lia.
  - pose proof (round53_expo (mkF64 (h * 2 * mant t) (expo t))). cbn [expo] in *. lia.
  - apply (round53_ge K _ h 0); cbn [mant expo]; try nia.
    unfold le_at, at_scale. cbn [mant expo]. rewrite Z.add_0_l, HK2. nia.
  - apply (round53_le K _ (h * 2) 0); cbn [mant expo]; try nia.
    unfold le_at, at_scale. cbn [mant expo]. rewrite Z.add_0_l. nia.
Qed.

(** ** Lemmas: signatures *)

Lemma dec_visible z : str_forall (fun b => is_digit_b b || (b =? 45)) (dec z) = true.
Proof.
  unfold dec. destruct (z <? 0); [cbn [String.append str_forall]|];
    (apply (str_forall_impl is_digit_b); [|apply udec_digits]); intros b _ ->; done.
Qed.

Lemma part_visible pre s p :
  str_forall visible_b pre = true ->
  (forall b, p b = true -> visible_b b = true) ->
  str_forall p s = true -> trim_space (pre +:+ s) = pre +:+ s.
Proof.
  intros Hpre Hp Hs. apply trim_space_visible. rewrite str_forall_app, Hpre.
  apply (str_forall_impl p); [|done]. intros b _. apply Hp.
Qed.

Lemma ParseSignature_Sign secret ts body :
  ParseSignature (Sign secret ts body) = Ok (Unix ts, digestFor secret (Unix ts) body).
Proof.
  unfold Sign, ParseSignature. set (n := Unix ts). set (h := digestFor secret n body).
  assert (Hh : str_forall is_hex_lower_b h = true) by apply hex_encode_chars.
  assert (split_on ","%char ("t=" +:+ dec n +:+ ",v1=" +:+ h) = ["t=" +:+ dec n; "v1=" +:+ h]) as ->.
  { change (",v1=" +:+ h) with (String ","%char "" +:+ ("v1=" +:+ h)).
    rewrite str_app_assoc, split_on_app.
    - f_equal. apply split_on_none. rewrite has_byte_app. cbn [has_byte].
      apply (has_byte_forall _ is_hex_lower_b); done.
    - rewrite has_byte_app. cbn [has_byte orb].
      apply (has_byte_forall _ (fun b => is_digit_b b || (b =? 45))); [done|apply dec_visible]. }
  cbn [ParseSignature_from].
  rewrite (part_visible "t=" (dec n) (fun b => is_digit_b b || (b =? 45)))
    by (try apply dec_visible; try done; intros b; unfold is_digit_b, visible_b; lia).
  rewrite (part_visible "v1=" h is_hex_lower_b)
    by (try done; intros b; unfold is_hex_lower_b, is_digit_b, visible_b; lia).
  unfold has_prefix, trim_prefix. rewrite !strip_prefix_app.
  rewrite bool_decide_eq_true_2 by eauto. cbn [from_option]. unfold id.
  rewrite parse_int64_dec by apply wrap64_range.
  rewrite bool_decide_eq_false_2 by (cbn; intros [? ?]; done).
  by rewrite bool_decide_eq_true_2 by eauto.
Qed.

(** Bounds of [Time.Sub]. *)
Lemma time_Sub_exact t u : in_int64 (t - u) -> time_Sub t u = t - u.
Proof.
  unfold in_int64, time_Sub. intros [? ?].
  destruct (Z.ltb_spec (t - u) MinInt64); [lia|]. destruct (Z.ltb_spec MaxInt64 (t - u)); lia.
Qed.

Lemma time_Unix_exact sec : MinInt64 <= sec <= MaxInt64 - unixToInternal -> time_Unix sec = sec * Second.
Proof.
  intros H. unfold time_Unix. rewrite wrap64_id; [f_equal; lia|].
  unfold in_int64, unixToInternal, MaxInt64, MinInt64 in *. lia.
Qed.

(** A signature made by [Sign] verifies with the same secret and body as long as
    the two clocks are within the tolerance, truncation to seconds included. *)
Theorem Verify_Sign secret ts body now tolerance :
  in_int64 (ts / Second) -> ts / Second <= MaxInt64 - unixToInternal ->
  0 <= tolerance < MaxInt64 -> Z.abs (now - ts / Second * Second) <= tolerance ->
  Verify secret (Sign secret ts body) body now tolerance = Ok tt.
Proof.
  intros Hts Hhi Htol Hskew. unfold Verify. rewrite ParseSignature_Sign.
  assert (Unix ts = ts / Second) as -> by (unfold Unix; by apply wrap64_id).
  rewrite time_Unix_exact by (destruct Hts; lia).
  rewrite time_Sub_exact by (unfold in_int64, MinInt64, MaxInt64 in *; lia).
  set (x := now - _) in *.
  assert ((if x <? 0 then neg64 x else x) = Z.abs x) as ->.
  { destruct (Z.ltb_spec x 0); [|lia]. unfold neg64. rewrite wrap64_id; [lia|].
    unfold in_int64, MinInt64, MaxInt64 in *. lia. }
  destruct (Z.ltb_spec tolerance (Z.abs x)); [lia|].
  unfold digestFor. rewrite hex_decode_encode. by rewrite bool_decide_eq_true_2.
Qed.

(** What verification establishes: the header's digest is the HMAC of the
    header's own timestamp and this body, under this secret; and the timestamp is
    within the tolerance of the clock, or is further ahead of it than a duration
    can express, where the skew wraps and the check does not refuse. *)
Theorem Verify_sound secret header body now tolerance :
  0 <= tolerance < MaxInt64 ->
  Verify secret header body now tolerance = Ok tt ->
  exists ts digest,
    ParseSignature header = Ok (ts, digest) /\
    hex_decode digest = Some (hmac_sha256 secret (dec ts +:+ "." +:+ body)) /\
    (Z.abs (now - time_Unix ts) <= tolerance \/ now - time_Unix ts <= MinInt64).
Proof.
  intros Htol. unfold Verify. destruct (ParseSignature header) as [[ts d]|] eqn:Hp; [|done].
  destruct (tolerance <? _) eqn:Hskew; [done|].
  destruct (hex_decode d) as [got|] eqn:Hd; [|done].
  unfold digestFor. rewrite hex_decode_encode. case_bool_decide as Heq; [|done]. intros _.
  exists ts, d. split; [done|]. rewrite <- str_app_assoc in Heq. split; [by rewrite Hd, Heq|].
  to_prop. unfold time_Sub in Hskew. set (x := now - time_Unix ts) in *.
  destruct (Z.ltb_spec x MinInt64); [right; lia|].
  destruct (Z.ltb_spec MaxInt64 x).
  - destruct (Z.ltb_spec MaxInt64 0); unfold MaxInt64 in *; lia.
  - destruct (Z.ltb_spec x 0) as [Hneg|Hpos]; [|left; lia].
    destruct (Z.eq_dec x MinInt64); [right; lia|]. left. unfold neg64 in Hskew.
    rewrite wrap64_id in Hskew by (unfold in_int64, MinInt64, MaxInt64 in *; lia). lia.
Qed.

(** Such a timestamp is accepted: a header signed for the year 2400 passes the
    five-minute tolerance in 2023, and at every time until then. *)
Theorem far_future_signature_accepted secret body now ts :
  now - ts * Second <= MinInt64 -> 0 <= ts <= MaxInt64 - unixToInternal ->
  Verify secret (Sign secret (ts * Second) body) body now SignatureTolerance = Ok tt.
Proof.
  intros Hfar Hts. unfold Verify. rewrite ParseSignature_Sign.
  assert (Unix (ts * Second) = ts) as ->.
  { unfold Unix. change 1000000000 with Second. rewrite Z.div_mul by done. apply wrap64_id.
    unfold in_int64, MinInt64, MaxInt64, unixToInternal in *. lia. }
  rewrite time_Unix_exact by (unfold MinInt64; lia).
  assert (time_Sub now (ts * Second) = MinInt64) as ->.
  { unfold time_Sub. destruct (Z.ltb_spec (now - ts * Second) MinInt64); [done|].
    destruct (Z.ltb_spec MaxInt64 (now - ts * Second)); unfold MinInt64, MaxInt64 in *; lia. }
  change (if MinInt64 <? 0 then neg64 MinInt64 else MinInt64) with MinInt64.
  change (SignatureTolerance <? MinInt64) with false. cbv iota.
  unfold digestFor. rewrite hex_decode_encode. by rewrite bool_decide_eq_true_2.
Qed.

(** A generated secret is accepted by the validation and by the column. *)
Theorem GenerateSecret_valid rand :
  ValidateSecret (GenerateSecret rand) = Ok tt /\ 32 <= slen (GenerateSecret rand) <= 128.
Proof.
  unfold ValidateSecret, GenerateSecret, has_prefix, trim_prefix.
  set (raw := of_bytes _).
  assert (slen (b64_encode RawURLEncoding raw) = 43) as Hlen.
  { assert (length (bytes_of raw) = 32%nat) as Hraw.
    { subst raw. by rewrite length_bytes_of, length_of_bytes, length_fmap, length_seq. }
    unfold b64_encode, slen. rewrite length_of_bytes, length_fmap.
    destruct (bytes_of raw) as [|b0 l]; [done|]. do 31 (destruct l as [|? l]; [done|]).
    destruct l; [reflexivity|done]. }
  rewrite strip_prefix_app. rewrite bool_decide_eq_true_2 by eauto. cbn [negb from_option]. unfold id.
  rewrite slen_app, Hlen, b64_decode_encode. done.
Qed.

Module WebhookDemo.
Lemma Verify_Sign_witness :
  Verify "whsec_demo" (Sign "whsec_demo" 1700000000123456789 "{}") "{}" 1700000012000000000
    SignatureTolerance = Ok tt.
Proof.
  apply Verify_Sign; try (split; by vm_compute); by vm_compute.
Defined.

Definition demo_header : string := Eval vm_compute in Sign "whsec_demo" (1700000000 * Second) "{}".

Lemma Verify_sound_witness :
  exists ts digest,
    ParseSignature demo_header = Ok (ts, digest) /\
    hex_decode digest = Some (hmac_sha256 "whsec_demo" (dec ts +:+ "." +:+ "{}")) /\
    (Z.abs (1700000012000000000 - time_Unix ts) <= SignatureTolerance \/
     1700000012000000000 - time_Unix ts <= MinInt64).
Proof.
  apply (Verify_sound "whsec_demo" demo_header "{}" 1700000012000000000 SignatureTolerance).
  - split; by vm_compute.
  - vm_compute. reflexivity.
Defined.

Lemma far_future_signature_accepted_witness :
  Verify "whsec_demo" (Sign "whsec_demo" (13569465600 * Second) "{}") "{}" (1700000000 * Second)
    SignatureTolerance = Ok tt.
Proof. apply far_future_signature_accepted; [|split]; by vm_compute. Defined.
End WebhookDemo.
