(* ===== verification/Outbox.v ===== *)
(** * The webhook outbox

    [internal/webhook/store.go] and [endpoints.go] over the tables of migrations
    0010 to 0012; the loop that uses them is in [Worker]. Every transaction is a step; concurrent
    transactions are interleaved steps, and the rows a concurrent claim has
    locked are a parameter of [Claim] ([FOR UPDATE SKIP LOCKED]). *)

From S2P Require Import Prelude Apperr Encoding Ids Cursor Db Authz Tenant Paging Float64 Webhook.
From S2P Require AuditLog.

(** ** Tables *)

Record Endpoint := mkEndpoint {
  ep_ID : uuid;
  ep_TenantID : uuid;
  ep_URL : string;
  ep_Secret : string;
  ep_Events : list string;
  ep_Description : string;
  ep_Active : bool;
  ep_CreatedBy : option uuid;
  ep_CreatedByKey : option uuid;
  ep_CreatedAt : gotime;
  ep_UpdatedAt : gotime;
}.

Record OutboxRow := mkOutboxRow {
  o_ID : uuid;
  o_TenantID : uuid;
  o_EndpointID : uuid;
  o_Event : string;
  o_EventID : uuid;
  o_Payload : json;
  o_Traceparent : option string;
  o_State : State;
  o_Attempts : Z;
  o_NextAt : gotime;
  o_Lease : option gotime;
  o_LastError : option string;
  o_LastStatus : option Z;
  o_DeliveredAt : option gotime;
  o_Replays : Z;
  o_CreatedAt : gotime;
}.

Record DB := mkDB {
  endpoints : gmap uuid Endpoint;
  outbox : gmap uuid OutboxRow;
  audit_log : AuditLog.Table;
}.

Definition set_endpoints (e : gmap uuid Endpoint) (db : DB) : DB := mkDB e (outbox db) (audit_log db).
Definition set_outbox (o : gmap uuid OutboxRow) (db : DB) : DB := mkDB (endpoints db) o (audit_log db).
Definition set_audit (a : AuditLog.Table) (db : DB) : DB := mkDB (endpoints db) (outbox db) a.

(** The columns a settle, a claim or a replay writes. *)
Definition with_state (r : OutboxRow) (st : State) (attempts : Z) (next : gotime) (lease : option gotime)
    (last_error : option string) (last_status : option Z) (delivered : option gotime) (replays : Z) : OutboxRow :=
  mkOutboxRow (o_ID r) (o_TenantID r) (o_EndpointID r) (o_Event r) (o_EventID r) (o_Payload r)
    (o_Traceparent r) st attempts next lease last_error last_status delivered replays (o_CreatedAt r).

(** The CHECK constraints of [webhook_outbox] that a write can meet. *)
Definition outbox_check (r : OutboxRow) : bool :=
  AuditLog.is_dotted (o_Event r) && (0 <=? o_Attempts r) && (0 <=? o_Replays r) &&
  match o_LastStatus r with None => true | Some c => (100 <=? c) && (c <=? 599) end &&
  Bool.eqb (bool_decide (o_State r = StateDelivered)) (bool_decide (o_DeliveredAt r <> None)) &&
  (bool_decide (o_Lease r = None) || bool_decide (o_State r = StateDelivering)).

Definition sees (g : Settings) (t : uuid) : bool := tenant_is g t || SettingWorker g.

(** ** Enqueue *)

(** [json.Marshal], used here for the payload's size only. *)
Class GoJSON := { json_Marshal : json -> string; json_time : gotime -> json }.

Section enqueue.
Context `{Unicode} `{UUIDLib} `{GoJSON} (env : Env).

Definition Envelope (eventID : uuid) (event : string) (t : uuid) (data : json) : json :=
  JObj [("id", JStr (uuid_String eventID)); ("event", JStr event); ("created_at", json_time (env_time env));
        ("tenant_id", JStr (uuid_String t)); ("data", data)].

Definition insert_outbox (g : Settings) (r : OutboxRow) : SE DB err unit := fun db =>
  if negb (sees g (o_TenantID r)) then (Err rls_violation, db)
  else if negb (outbox_check r) then (Err (check_violation "webhook_outbox"), db)
  else if bool_decide (is_Some (outbox db !! o_ID r)) then (Err (unique_violation "webhook_outbox_pkey"), db)
  else match endpoints db !! o_EndpointID r with
       | Some e =>
           if bool_decide (ep_TenantID e = o_TenantID r)
           then (Ok tt, set_outbox (<[o_ID r := r]> (outbox db)) db)
           else (Err (fk_violation "webhook_outbox_endpoint_fk"), db)
       | None => (Err (fk_violation "webhook_outbox_endpoint_fk"), db)
       end.

Definition new_row (id t eid : uuid) (event : string) (eventID : uuid) (payload : json)
    (traceparent : option string) : OutboxRow :=
  mkOutboxRow id t eid event eventID payload traceparent StatePending 0 (env_now env) None None None None 0
    (env_now env).

(** The endpoints the [INSERT ... SELECT] fans out to. *)
Definition subscribers (g : Settings) (t : uuid) (event : string) (db : DB) : list Endpoint :=
  filter (fun e => sees g (ep_TenantID e) /\ ep_TenantID e = t /\ ep_Active e /\ event ∈ ep_Events e)
    (map_to_list (endpoints db)).*2.

(** [Enqueue] in the caller's transaction; [eventID] is drawn by the call,
    [traceparent] comes with the context ([""] when absent). *)
Definition Enqueue (g : Settings) (eventID : uuid) (traceparent : string) (t : uuid) (event : string)
    (data : json) : SE DB err Z :=
  if negb (known_event event) then throw (Plain ("webhook: " +:+ fmt_q event +:+ " is not a known event"))
  else
    let payload := Envelope eventID event t data in
    let size := slen (json_Marshal payload) in
    if MaxPayloadBytes <? size
    then throw (Plain ("webhook: " +:+ event +:+ " payload is " +:+ dec size +:+ " bytes, over the "
                       +:+ dec MaxPayloadBytes +:+ " limit"))
    else
      let tp := if decide (traceparent = "") then None else Some traceparent in
      subs ← (fun db => (Ok (subscribers g t event db), db));
      rows ← or_fail
        (for_range 0 subs (fun i e =>
           insert_outbox g (new_row (env_dbid env (Z.to_nat i)) t (ep_ID e) event eventID payload tp)))
        (fun e => Wrapf ("webhook: enqueue " +:+ event +:+ ": " +:+ error_text e) e);
      mret (Z.of_nat (length rows)).
End enqueue.

(** ** Claim and settle *)

Record Due := mkDue {
  d_ID : uuid;
  d_TenantID : uuid;
  d_EndpointID : uuid;
  d_EventID : uuid;
  d_Event : string;
  d_Payload : json;
  d_Traceparent : option string;
  d_Attempt : Z;
  d_URL : string;
  d_Secret : string;
}.

Definition is_due (now : gotime) (r : OutboxRow) : bool :=
  (bool_decide (o_State r = StatePending) && (o_NextAt r <=? now)) ||
  (bool_decide (o_State r = StateDelivering) &&
   match o_Lease r with Some l => l <? now | None => false end).

(** [ORDER BY next_at, id] *)
Definition due_leb (a b : OutboxRow) : bool :=
  (o_NextAt a <? o_NextAt b) || ((o_NextAt a =? o_NextAt b) && (o_ID a <=? o_ID b)%N).

(** The UPDATE of one row; a timestamptz resolves microseconds, and the interval
    is a whole number of seconds. *)
Definition claimed (now : gotime) (r : OutboxRow) : OutboxRow :=
  with_state r StateDelivering (o_Attempts r + 1) (o_NextAt r) (Some (now + LeaseDuration))
    (o_LastError r) (o_LastStatus r) (o_DeliveredAt r) (o_Replays r).

Definition due_of (r : OutboxRow) (e : Endpoint) : Due :=
  mkDue (o_ID r) (o_TenantID r) (o_EndpointID r) (o_EventID r) (o_Event r) (o_Payload r) (o_Traceparent r)
    (o_Attempts r) (ep_URL e) (ep_Secret e).

Definition due_rows (now : gotime) (locked : uuid -> bool) (limit : Z) (db : DB) : list OutboxRow :=
  take (Z.to_nat limit)
    (order_by due_leb
      (filter (fun r => is_due now r /\ locked (o_ID r) = false) (map_to_list (outbox db)).*2)).

(** The join with the endpoints drops a row whose endpoint is gone. *)
Definition claim_row (now : gotime) (db : DB) (r : OutboxRow) : option (OutboxRow * Due) :=
  e ← endpoints db !! o_EndpointID r; Some (claimed now r, due_of (claimed now r) e).

Definition Claim (env : Env) (locked : uuid -> bool) (batchSize : Z) : SE DB err (list Due) :=
  let batchSize := if batchSize <=? 0 then 10 else batchSize in
  or_fail
    (WithSettings worker_settings (fun _ db =>
       let rows := omap (claim_row (env_now env) db) (due_rows (env_now env) locked batchSize db) in
       (Ok rows.*2, set_outbox (foldl (fun m r => <[o_ID r := r]> m) (outbox db) rows.*1) db)))
    (fun e => Wrapf ("webhook: claim deliveries: " +:+ error_text e) e).

Record DeliveryResult := mkResult { StatusCode : Z; res_Err : option err }.

Definition Succeeded (r : DeliveryResult) : bool :=
  bool_decide (res_Err r = None) && (200 <=? StatusCode r) && (StatusCode r <? 300).

Definition fence (now : gotime) (d : Due) (r : OutboxRow) : bool :=
  bool_decide (o_State r = StateDelivering) &&
  match o_Lease r with Some l => now <? l | None => false end && (o_Attempts r =? d_Attempt d).

(** The row the settling UPDATE writes. *)
Definition settled (now : gotime) (st : State) (nextAt : gotime) (lastErr : option string)
    (lastCode : option Z) (r : OutboxRow) : OutboxRow :=
  if decide (st = StateDelivered)
  then with_state r StateDelivered (o_Attempts r) nextAt None None lastCode (Some now) (o_Replays r)
  else with_state r st (o_Attempts r) nextAt None lastErr lastCode (o_DeliveredAt r) (o_Replays r).

Definition update_outbox (r : OutboxRow) : SE DB err unit := fun db =>
  if negb (outbox_check r) then (Err (check_violation "webhook_outbox"), db)
  else (Ok tt, set_outbox (<[o_ID r := r]> (outbox db)) db).

Definition settle_plan (env : Env) (d : Due) (res : DeliveryResult) (jitter : F64) : State * gotime :=
  if Succeeded res then (StateDelivered, env_time env)
  else match NextDelay (d_Attempt d) jitter with
       | None => (StateDead, env_time env)
       | Some delay => (StatePending, env_time env + delay)
       end.

Definition Settle (env : Env) (d : Due) (res : DeliveryResult) (jitter : F64) : SE DB err unit :=
  if d_Attempt d <=? 0 then throw (Plain "webhook: settle called with no attempt recorded")
  else
    let lastErr := match res_Err res with
                   | Some e => Some (error_text e)
                   | None => if Succeeded res then None
                             else Some ("receiver returned " +:+ dec (StatusCode res))
                   end in
    let lastCode := match res_Err res with Some _ => None | None => Some (StatusCode res) end in
    let '(st, nextAt) := settle_plan env d res jitter in
    _ ← WithSettings worker_settings (fun _ db =>
          match outbox db !! d_ID d with
          | Some r =>
              if fence (env_now env) d r then
                or_fail (update_outbox (settled (env_now env) st nextAt lastErr lastCode r))
                  (fun e => Wrapf ("webhook: settle delivery: " +:+ error_text e) e) db
              else (Err (LeaseLostError (d_ID d)), db)
          | None => (Err (LeaseLostError (d_ID d)), db)
          end);
    if decide (st = StateDead) then throw (DeadLetterError (d_ID d) (d_Event d) (d_EndpointID d))
    else mret tt.

(** ** Replay and depth *)

Record Delivery := mkDelivery {
  dl_ID : uuid;
  dl_TenantID : uuid;
  dl_EndpointID : uuid;
  dl_Event : string;
  dl_State : State;
  dl_Attempts : Z;
  dl_Replays : Z;
  dl_NextAt : gotime;
  dl_LastError : string;
  dl_LastStatus : Z;
  dl_DeliveredAt : option gotime;
  dl_CreatedAt : gotime;
}.

Definition delivery_of (r : OutboxRow) : Delivery :=
  mkDelivery (o_ID r) (o_TenantID r) (o_EndpointID r) (o_Event r) (o_State r) (o_Attempts r) (o_Replays r)
    (o_NextAt r) (default "" (o_LastError r)) (default 0 (o_LastStatus r)) (o_DeliveredAt r) (o_CreatedAt r).

Definition replayed (now : gotime) (r : OutboxRow) : OutboxRow :=
  with_state r StatePending 0 now None (o_LastError r) (o_LastStatus r) (o_DeliveredAt r) (o_Replays r + 1).

Definition Replay (env : Env) (a : Authorized) (id : uuid) : SE DB err Delivery :=
  if negb (Valid a) then throw (Sentinel ErrNoScope)
  else if decide (id = uuid_Nil) then throw (Sentinel WebhookErrNotFound)
  else WithIdentityTx (Identity_of a) (fun g db =>
    match outbox db !! id with
    | Some r =>
        if sees g (o_TenantID r) && bool_decide (o_TenantID r = scope a) then
          if decide (o_State r = StateDead) then
            match update_outbox (replayed (env_now env) r) db with
            | (Ok _, db') => (Ok (delivery_of (replayed (env_now env) r)), db')
            | (Err e, db') => (Err (Wrapf ("webhook: replay delivery: " +:+ error_text e) e), db')
            end
          else (Err (Wrapf (sentinel_text WebhookErrNotDead +:+ " (this delivery is "
                            +:+ state_text (o_State r) +:+ ")") (Sentinel WebhookErrNotDead)), db)
        else (Err (Sentinel WebhookErrNotFound), db)
    | None => (Err (Sentinel WebhookErrNotFound), db)
    end).

(** [Depth]: the count of each state but delivered. *)
Definition count_state (st : State) (db : DB) : Z :=
  Z.of_nat (length (filter (fun r => o_State r = st) (map_to_list (outbox db)).*2)).

Definition Depth : SE DB err (State -> Z) :=
  or_fail
    (WithSettings worker_settings (fun _ db =>
       (Ok (fun st => if decide (st = StateDelivered) then 0 else count_state st db), db)))
    (fun e => Wrapf ("webhook: count depth: " +:+ error_text e) e).

(** ** Listing *)

Record ListFilter := mkListFilter { f_EndpointID : string; f_State : string }.

Definition row_key (r : OutboxRow) : Key := (o_CreatedAt r, o_ID r).

Definition List_ `{UUIDLib} (a : Authorized) (filter_ : ListFilter) (after : option Position) (limit : Z)
    : SE DB err (list Delivery * option Position) :=
  if negb (Valid a) then throw (Sentinel ErrNoScope)
  else
    st ← lift (NormalizeState (f_State filter_));
    let limit := NormalizePageSize limit in
    ep ← lift (if decide (f_EndpointID filter_ = "") then Ok None
               else match uuid_Parse (f_EndpointID filter_) with
                    | None => Err (Invalid "endpoint_id" "is not a valid id")
                    | Some u => Ok (Some u)
                    end);
    out ← or_fail
      (WithIdentityTx (Identity_of a) (fun g db =>
         let rows := base.filter (fun r =>
             sees g (o_TenantID r) /\ o_TenantID r = scope a /\
             (st = None \/ st = Some (o_State r)) /\ (ep = None \/ ep = Some (o_EndpointID r)))
             (map_to_list (outbox db)).*2 in
         (Ok (keyset_query row_key rows after limit), db)))
      (fun e => Wrapf ("webhook: list deliveries: " +:+ error_text e) e);
    let '(page, next) := cut_page row_key out limit in
    mret (delivery_of <$> page, next).

Definition DeliveryBinding (a : Authorized) (filter_ : ListFilter) : Binding :=
  let st := match NormalizeState (f_State filter_) with
            | Ok (Some s) => state_text s
            | _ => "any"
            end in
  let endpoint := if decide (f_EndpointID filter_ = "") then "all" else f_EndpointID filter_ in
  mkBinding (scope a) "webhook_deliveries" (st +:+ ":" +:+ endpoint).

(** ** Endpoints ([endpoints.go]) *)

Section endpoints.
Context `{Unicode} `{UUIDLib}.

Definition json_uuid (u : option uuid) : json :=
  match u with None => JNull | Some u => JStr (uuid_String u) end.

Definition auditImage (e : Endpoint) : json :=
  JObj [("id", JStr (uuid_String (ep_ID e))); ("url", JStr (ep_URL e));
        ("events", JList (JStr <$> ep_Events e)); ("description", JStr (ep_Description e));
        ("active", JBool (ep_Active e)); ("created_by", json_uuid (ep_CreatedBy e));
        ("created_by_key", json_uuid (ep_CreatedByKey e))].

(** The CHECK constraints of [webhook_endpoints]. *)
Definition endpoint_check (e : Endpoint) : bool :=
  (has_prefix "http://" (ep_URL e) || has_prefix "https://" (ep_URL e)) && (char_length (ep_URL e) <=? 2048) &&
  (32 <=? char_length (ep_Secret e)) && (char_length (ep_Secret e) <=? 128) &&
  (1 <=? Z.of_nat (length (ep_Events e))) && (Z.of_nat (length (ep_Events e)) <=? 32) &&
  (char_length (ep_Description e) <=? 500) &&
  xorb (bool_decide (is_Some (ep_CreatedBy e))) (bool_decide (is_Some (ep_CreatedByKey e))).

Definition insert_endpoint (g : Settings) (e : Endpoint) : SE DB err unit := fun db =>
  if negb (sees g (ep_TenantID e)) then (Err rls_violation, db)
  else if negb (endpoint_check e) then (Err (check_violation "webhook_endpoints"), db)
  else if bool_decide (is_Some (endpoints db !! ep_ID e)) then (Err (unique_violation "webhook_endpoints_pkey"), db)
  else (Ok tt, set_endpoints (<[ep_ID e := e]> (endpoints db)) db).

Definition write_audit (env : Env) (g : Settings) (id : uuid) (entry : AuditLog.Entry) : SE DB err unit :=
  zoom audit_log set_audit (AuditLog.Write env g id entry).

Definition endpoint_entry (env : Env) (actor : option uuid) (kind action : string) (e : Endpoint)
    (before after : option json) : AuditLog.Entry :=
  AuditLog.mkEntry (ep_TenantID e) actor kind action "webhook_endpoint" (Some (ep_ID e)) before after
    (env_reqid env).

(** [CreateEndpoint] on validated input; the endpoint's id is the first the call
    draws, the audit row's the second. *)
Definition CreateEndpoint (env : Env) (a : Authorized) (validated : CreateInput) : SE DB err (Endpoint * string) :=
  if negb (Valid a) then throw (Sentinel ErrNoScope)
  else
    let secret := GenerateSecret (env_rand env) in
    let e := mkEndpoint (env_id env 0) (scope a) (in_URL validated) secret (in_Events validated)
               (in_Description validated) true
               (if IsMachine a then None else Some (userID a))
               (if IsMachine a then Some (keyID a) else None) (env_now env) (env_now env) in
    '(actorID, actorKind) ← lift (AuditLog.ActorFromAuthorized a);
    _ ← WithIdentityTx (Identity_of a) (fun g =>
          _ ← or_fail (insert_endpoint g e) (fun x => Wrapf ("create webhook endpoint: " +:+ error_text x) x);
          write_audit env g (env_id env 1)
            (endpoint_entry env actorID actorKind AuditLog.ActionWebhookEndpointCreate e None (Some (auditImage e))));
    mret (e, secret).

Definition find_endpoint (g : Settings) (a : Authorized) (id : uuid) (db : DB) : option Endpoint :=
  e ← endpoints db !! id;
  if sees g (ep_TenantID e) && bool_decide (ep_TenantID e = scope a) then Some e else None.

Definition GetEndpoint (a : Authorized) (id : uuid) : SE DB err Endpoint :=
  if negb (Valid a) then throw (Sentinel ErrNoScope)
  else if decide (id = uuid_Nil) then throw (Sentinel WebhookErrNotFound)
  else or_fail
    (WithIdentityTx (Identity_of a) (fun g db =>
       match find_endpoint g a id db with
       | Some e => (Ok e, db)
       | None => (Err (Sentinel PgxErrNoRows), db)
       end))
    (fun e => if Is e PgxErrNoRows then Sentinel WebhookErrNotFound
              else Wrapf ("get webhook endpoint: " +:+ error_text e) e).

Definition endpoint_key (e : Endpoint) : Key := (ep_CreatedAt e, ep_ID e).

Definition ListEndpoints (a : Authorized) (after : option Position) (limit : Z)
    : SE DB err (list Endpoint * option Position) :=
  if negb (Valid a) then throw (Sentinel ErrNoScope)
  else
    let limit := NormalizePageSize limit in
    out ← or_fail
      (WithIdentityTx (Identity_of a) (fun g db =>
         let rows := filter (fun e => sees g (ep_TenantID e) /\ ep_TenantID e = scope a)
                       (map_to_list (endpoints db)).*2 in
         (Ok (keyset_query endpoint_key rows after limit), db)))
      (fun e => Wrapf ("list webhook endpoints: " +:+ error_text e) e);
    mret (cut_page endpoint_key out limit).

(** The package's own byte-wise trim. *)
Definition trimSpace (s : string) : string :=
  trim_both [String (chr 32) ""; String (chr 9) ""; String (chr 10) ""; String (chr 13) ""] s.

Record UpdateInput := mkUpdateInput {
  up_Events : option (list string);
  up_Description : option string;
  up_Active : option bool;
}.

Definition updated (now : gotime) (i : UpdateInput) (e : Endpoint) : Endpoint :=
  mkEndpoint (ep_ID e) (ep_TenantID e) (ep_URL e) (ep_Secret e) (default (ep_Events e) (up_Events i))
    (default (ep_Description e) (up_Description i)) (default (ep_Active e) (up_Active i))
    (ep_CreatedBy e) (ep_CreatedByKey e) (ep_CreatedAt e) now.

Definition normalize_update (i : UpdateInput) : go_result UpdateInput :=
  events ← match up_Events i with
           | None => Ok None
           | Some ev => n ← ValidateEvents ev; Ok (Some n)
           end;
  match up_Description i with
  | None => Ok (mkUpdateInput events None (up_Active i))
  | Some d =>
      if 500 <? slen (trimSpace d) then Err (Invalid "description" "must be at most 500 characters")
      else Ok (mkUpdateInput events (Some (trimSpace d)) (up_Active i))
  end.

Definition UpdateEndpoint (env : Env) (a : Authorized) (id : uuid) (i : UpdateInput) : SE DB err Endpoint :=
  if negb (Valid a) then throw (Sentinel ErrNoScope)
  else if decide (id = uuid_Nil) then throw (Sentinel WebhookErrNotFound)
  else
    i ← lift (normalize_update i);
    '(actorID, actorKind) ← lift (AuditLog.ActorFromAuthorized a);
    WithIdentityTx (Identity_of a) (fun g db =>
      match find_endpoint g a id db with
      | None => (Err (Sentinel WebhookErrNotFound), db)
      | Some before =>
          let e := updated (env_now env) i before in
          if negb (endpoint_check e)
          then (Err (Wrapf "update webhook endpoint: check violation" (check_violation "webhook_endpoints")), db)
          else
            match write_audit env g (env_id env 0)
                    (endpoint_entry env actorID actorKind AuditLog.ActionWebhookEndpointUpdate e
                       (Some (auditImage before)) (Some (auditImage e)))
                    (set_endpoints (<[ep_ID e := e]> (endpoints db)) db) with
            | (Ok _, db') => (Ok e, db')
            | (Err x, db') => (Err x, db')
            end
      end).

Definition EndpointBinding (a : Authorized) : Binding := mkBinding (scope a) "webhook_endpoints" "all".
End endpoints.
