(* ===== verification/OutboxProps.v ===== *)
(** * Properties of the webhook outbox

    The outbox as a state machine: one step per transaction of the service or of
    a worker, in any interleaving, with any clock readings. *)

From S2P Require Import Prelude Apperr Encoding Ids Cursor Db Authz Tenant Paging Float64 Webhook Outbox.
From S2P Require AuditLog.

(** ** How one row evolves *)

Inductive row_step (r : OutboxRow) : OutboxRow -> Prop :=
  | row_claim now : is_due now r = true -> row_step r (claimed now r)
  | row_settle env d res j st next lastErr lastCode :
      fence (env_now env) d r = true -> settle_plan env d res j = (st, next) ->
      row_step r (settled (env_now env) st next lastErr lastCode r)
  | row_replay now : o_State r = StateDead -> row_step r (replayed now r).

(** What never changes. *)
Definition frozen (r : OutboxRow) :=
  (o_ID r, o_TenantID r, o_EndpointID r, o_Event r, o_EventID r, o_Payload r, o_Traceparent r, o_CreatedAt r).

Record row_wf (r : OutboxRow) : Prop := {
  rw_attempts : 0 <= o_Attempts r;
  rw_replays : 0 <= o_Replays r;
  rw_lease : o_State r = StateDelivering <-> o_Lease r <> None;
  rw_delivered : o_State r = StateDelivered <-> o_DeliveredAt r <> None;
  rw_delivering : o_State r = StateDelivering \/ o_State r = StateDelivered -> 1 <= o_Attempts r;
  rw_pending : o_State r = StatePending -> o_Attempts r < MaxAttempts;
  rw_dead : o_State r = StateDead -> MaxAttempts <= o_Attempts r;
}.

(** The order a row moves in: its replays count up, and between replays its
    attempts do; a delivered row stays as it is, a dead one until it is replayed. *)
Definition row_le (r r' : OutboxRow) : Prop :=
  frozen r' = frozen r /\
  (o_Replays r < o_Replays r' \/ (o_Replays r = o_Replays r' /\ o_Attempts r <= o_Attempts r')) /\
  (o_State r = StateDelivered -> r' = r) /\
  (o_State r = StateDead -> r' = r \/ o_Replays r < o_Replays r').

#[export] Instance row_le_preorder : PreOrder row_le.
Proof.
  split.
  - intros r. repeat split; auto with lia.
  - intros a b c (F1 & L1 & D1 & X1) (F2 & L2 & D2 & X2). split_and!; [congruence|lia|..].
    + intros Ha. specialize (D1 Ha). subst b. by apply D2.
    + intros Ha. destruct (X1 Ha) as [-> | ?]; [by apply X2|]. right. lia.
Qed.

Lemma is_due_cases now r :
  is_due now r = true ->
  (o_State r = StatePending /\ o_NextAt r <= now) \/
  (o_State r = StateDelivering /\ exists l, o_Lease r = Some l /\ l < now).
Proof.
  unfold is_due. rewrite orb_true_iff, !andb_true_iff, !bool_decide_eq_true.
  intros [[? ?]|[? ?]]; [left; split; [done|lia]|right; split; [done|]].
  destruct (o_Lease r) as [l|]; [|done]. exists l. split; [done|lia].
Qed.

Lemma fence_cases now d r :
  fence now d r = true ->
  o_State r = StateDelivering /\ (exists l, o_Lease r = Some l /\ now < l) /\ o_Attempts r = d_Attempt d.
Proof.
  unfold fence. rewrite !andb_true_iff, bool_decide_eq_true. intros [[? Hl] ?].
  destruct (o_Lease r) as [l|]; [|done]. split_and!; [done| |lia]. exists l. split; [done|lia].
Qed.

Lemma settle_plan_cases env d res j st next :
  settle_plan env d res j = (st, next) ->
  (st = StateDelivered /\ Succeeded res = true) \/
  (st = StateDead /\ Succeeded res = false /\ MaxAttempts <= d_Attempt d) \/
  (st = StatePending /\ Succeeded res = false /\ d_Attempt d < MaxAttempts /\
   exists delay, NextDelay (d_Attempt d) j = Some delay /\ next = env_time env + delay).
Proof.
  unfold settle_plan. destruct (Succeeded res); [intros [= <- <-]; by left|].
  destruct (NextDelay (d_Attempt d) j) as [delay|] eqn:Hn; intros [= <- <-]; right.
  - right. split_and!; [done|done| |by exists delay].
    unfold NextDelay in Hn. destruct (Z.leb_spec MaxAttempts (d_Attempt d)); [done|lia].
  - left. split_and!; [done|done|]. unfold NextDelay in Hn.
    destruct (Z.leb_spec MaxAttempts (d_Attempt d)); [done|]. by destruct (_ =? 0).
Qed.

Lemma row_step_wf r r' : row_step r r' -> row_wf r -> row_wf r' /\ row_le r r'.
Proof.
  intros Hs [A R L D DL P X]. destruct Hs as [now Hdue|env d res j st next le lc Hf Hp|now Hd].
  - unfold row_le. destruct (is_due_cases _ _ Hdue) as [[Hst _]|[Hst _]]; rewrite Hst in *.
    all: split; [split|repeat split]; cbn; intros; try done; try lia; try (intuition congruence).
    all: split; [done|]; intros Hn; exfalso; by apply D in Hn.
  - destruct (fence_cases _ _ _ Hf) as (Hst & _ & Hatt). rewrite Hst in *.
    specialize (DL (or_introl eq_refl)).
    assert (o_DeliveredAt r = None) as Hnd.
    { destruct (o_DeliveredAt r); [|done]. exfalso. by assert (StateDelivering = StateDelivered) by (by apply D). }
    unfold row_le, settled. destruct (settle_plan_cases _ _ _ _ _ _ Hp)
      as [(-> & _)|[(-> & _ & ?)|(-> & _ & ? & _)]]; cbn [decide decide_rel].
    + rewrite decide_True by done.
      split; [split|repeat split]; cbn; intros; try done; try lia; intuition congruence.
    + rewrite decide_False by done. rewrite Hatt in *.
      split; [split|repeat split]; cbn; rewrite ?Hnd; intros; try done; try lia; intuition congruence.
    + rewrite decide_False by done. rewrite Hatt in *.
      split; [split|repeat split]; cbn; rewrite ?Hnd; intros; try done; try lia; intuition congruence.
  - assert (o_DeliveredAt r = None) as Hnd.
    { destruct (o_DeliveredAt r); [|done]. exfalso. rewrite Hd in D.
      by assert (StateDead = StateDelivered) by (by apply D). }
    unfold row_le, MaxAttempts. split; [split|repeat split]; cbn; rewrite ?Hnd; intros; try done; try lia;
      try (intuition congruence).
Qed.

(** ** The tables as a state machine *)

Section machine.
Context `{Unicode} `{UUIDLib} `{GoJSON}.

(** One transaction; an enqueue runs inside a transaction that commits or rolls
    back as a whole. *)
Inductive step : DB -> DB -> Prop :=
  | step_enqueue env g ev tp t event data res db db' :
      BeginFunc (Enqueue env g ev tp t event data) db = (res, db') -> step db db'
  | step_claim env locked n res db db' : Claim env locked n db = (res, db') -> step db db'
  | step_settle env d r j res db db' : Settle env d r j db = (res, db') -> step db db'
  | step_replay env a id res db db' : Replay env a id db = (res, db') -> step db db'
  | step_create env a i res db db' : CreateEndpoint env a i db = (res, db') -> step db db'
  | step_update env a id i res db db' : UpdateEndpoint env a id i db = (res, db') -> step db db'.

Record DB_wf (db : DB) : Prop := {
  wf_id : forall i r, outbox db !! i = Some r -> o_ID r = i;
  wf_row : forall i r, outbox db !! i = Some r -> row_wf r;
  wf_endpoint_id : forall i e, endpoints db !! i = Some e -> ep_ID e = i;
  wf_fk : forall i r, outbox db !! i = Some r ->
            exists e, endpoints db !! o_EndpointID r = Some e /\ ep_TenantID e = o_TenantID r;
}.

(** Endpoints are never removed and keep their owner. *)
Definition endpoints_le (m m' : gmap uuid Endpoint) : Prop :=
  forall i e, m !! i = Some e -> exists e', m' !! i = Some e' /\ ep_TenantID e' = ep_TenantID e.

Definition new_outbox_row (r : OutboxRow) : Prop :=
  o_State r = StatePending /\ o_Attempts r = 0 /\ o_Replays r = 0 /\ o_Lease r = None /\ o_DeliveredAt r = None.

(** The effect of one step on the tables. *)
Record DB_step (db db' : DB) : Prop := {
  ds_rows : forall i r, outbox db !! i = Some r ->
              exists r', outbox db' !! i = Some r' /\ (r' = r \/ row_step r r');
  ds_new : forall i r', outbox db' !! i = Some r' -> outbox db !! i = None ->
              o_ID r' = i /\ new_outbox_row r' /\
              exists e, endpoints db !! o_EndpointID r' = Some e /\ ep_TenantID e = o_TenantID r';
  ds_endpoints : endpoints_le (endpoints db) (endpoints db');
  ds_endpoint_id : forall i e, endpoints db' !! i = Some e -> ep_ID e = i;
}.

Lemma endpoints_le_refl m : endpoints_le m m.
Proof. intros i e Hi. by exists e. Qed.

Lemma outbox_DB_step_refl db : DB_wf db -> DB_step db db.
Proof.
  intros [W1 W2 W3 W4]. split.
  - intros i r Hi. exists r. auto.
  - intros i r' Hi Hn. congruence.
  - apply endpoints_le_refl.
  - done.
Qed.

(** A step that only moves one existing row. *)
Lemma DB_step_update db i r r' :
  DB_wf db -> outbox db !! i = Some r -> row_step r r' -> o_ID r' = i ->
  DB_step db (set_outbox (<[o_ID r' := r']> (outbox db)) db).
Proof.
  intros [W1 W2 W3 W4] Hi Hrs Hid. rewrite Hid. split; cbn.
  - intros k x Hk. destruct (decide (k = i)) as [-> | Hne].
    + exists r'. rewrite lookup_insert_eq. split; [done|]. right. congruence.
    + exists x. rewrite lookup_insert_ne by done. auto.
  - intros k x [[<- <-] | [? Hk]]%lookup_insert_Some Hn; congruence.
  - apply endpoints_le_refl.
  - done.
Qed.

Lemma update_outbox_Ok r db db' :
  update_outbox r db = (Ok tt, db') ->
  outbox_check r = true /\ db' = set_outbox (<[o_ID r := r]> (outbox db)) db.
Proof. unfold update_outbox. destruct (outbox_check r); cbn [negb]; [|done]. by intros [= <-]. Qed.

(** What a settle that reached the database did. *)
Lemma Settle_cases env d res j db out db' :
  Settle env d res j db = (out, db') ->
  (db' = db) \/
  (exists r st next le lc, outbox db !! d_ID d = Some r /\ fence (env_now env) d r = true /\
     settle_plan env d res j = (st, next) /\
     db' = set_outbox (<[o_ID r := settled (env_now env) st next le lc r]> (outbox db)) db).
Proof.
  unfold Settle. destruct (_ <=? 0); [by intros [= _ <-]; left|].
  set (le := match res_Err res with Some e => Some (error_text e) | None => _ end).
  set (lc := match res_Err res with Some _ => None | None => Some (StatusCode res) end).
  destruct (settle_plan env d res j) as [st next] eqn:Hp. unfold mbind, SE_bind.
  destruct (WithSettings _ _ db) as [[[]|e] db1] eqn:HW.
  - apply WithSettings_Ok in HW as [_ HW].
    destruct (outbox db !! d_ID d) as [r|] eqn:Hr; [|done].
    destruct (fence (env_now env) d r) eqn:Hf; [|done].
    apply or_fail_Ok, update_outbox_Ok in HW as [_ ->].
    assert (o_ID (settled (env_now env) st next le lc r) = o_ID r) as Hid
      by (unfold settled; by case_decide).
    rewrite Hid. intros Hout. right. exists r, st, next, le, lc. split_and!; try done.
    case_decide; by injection Hout as _ <-.
  - apply WithSettings_Err in HW as ->. intros [= _ <-]. by left.
Qed.

Lemma Settle_step env d res j db out db' :
  Settle env d res j db = (out, db') -> DB_wf db -> DB_step db db'.
Proof.
  intros [-> | (r & st & next & le & lc & Hr & Hf & Hp & ->)]%Settle_cases Hwf; [by apply outbox_DB_step_refl|].
  assert (o_ID (settled (env_now env) st next le lc r) = o_ID r) as Hid by (unfold settled; by case_decide).
  rewrite <- Hid. eapply DB_step_update; [done|exact Hr|by eapply row_settle|].
  rewrite Hid. by eapply wf_id.
Qed.

Lemma Replay_cases env a id db out db' :
  Replay env a id db = (out, db') ->
  (db' = db) \/
  (exists r, outbox db !! id = Some r /\ o_State r = StateDead /\ o_TenantID r = scope a /\
     out = Ok (delivery_of (replayed (env_now env) r)) /\
     db' = set_outbox (<[o_ID r := replayed (env_now env) r]> (outbox db)) db).
Proof.
  unfold Replay. destruct (negb _); [by intros [= _ <-]; left|]. case_decide; [by intros [= _ <-]; left|].
  intros Hrun. destruct out as [dl|e]; [|apply WithIdentityTx_Err in Hrun; by left].
  apply WithIdentityTx_Ok in Hrun. destruct (outbox db !! id) as [r|] eqn:Hr; [|done].
  destruct (_ && _) eqn:Hsee; [|done]. to_prop. case_decide as Hd; [|done].
  destruct (update_outbox _ db) as [[[]|x] db1] eqn:Hu; [|done].
  apply update_outbox_Ok in Hu as [_ ->]. injection Hrun as <- <-. right. exists r. by split_and!.
Qed.

Lemma Replay_step env a id db out db' :
  Replay env a id db = (out, db') -> DB_wf db -> DB_step db db'.
Proof.
  intros [-> | (r & Hr & Hd & _ & _ & ->)]%Replay_cases Hwf; [by apply outbox_DB_step_refl|].
  change (o_ID r) with (o_ID (replayed (env_now env) r)).
  eapply DB_step_update; [done|exact Hr|by constructor|]. exact (wf_id db Hwf _ _ Hr).
Qed.

(** *** Claim *)

Lemma outbox_values db r : DB_wf db -> r ∈ (map_to_list (outbox db)).*2 -> outbox db !! o_ID r = Some r.
Proof.
  intros Hwf ([i x] & -> & Hi)%list_elem_of_fmap. apply elem_of_map_to_list in Hi. cbn.
  by rewrite (wf_id _ Hwf _ _ Hi).
Qed.

Lemma outbox_ids_NoDup db : DB_wf db -> NoDup (o_ID <$> (map_to_list (outbox db)).*2).
Proof.
  intros Hwf. assert (o_ID <$> (map_to_list (outbox db)).*2 = (map_to_list (outbox db)).*1) as ->.
  - rewrite <- list_fmap_compose. apply list_fmap_ext. intros k [i x] Hk. cbn.
    apply (wf_id _ Hwf), elem_of_map_to_list. by eapply list_elem_of_lookup_2.
  - apply NoDup_fst_map_to_list.
Qed.

Lemma due_rows_spec now locked n db r :
  r ∈ due_rows now locked n db ->
  r ∈ (map_to_list (outbox db)).*2 /\ is_due now r = true /\ locked (o_ID r) = false.
Proof.
  unfold due_rows. intros Hr%subseteq_take. rewrite order_by_Permutation, list_elem_of_filter in Hr.
  destruct Hr as [[? ?] ?]. by split_and!; [|apply Is_true_true|].
Qed.

Lemma due_rows_NoDup now locked n db : DB_wf db -> NoDup (o_ID <$> due_rows now locked n db).
Proof.
  intros Hwf. unfold due_rows. rewrite fmap_take. eapply sublist_NoDup; [|apply sublist_take].
  rewrite order_by_Permutation.
  refine (sublist_NoDup _ _ (outbox_ids_NoDup db Hwf) _). apply fmap_sublist, sublist_filter.
Qed.

(** The rows a claim took, with their leases. *)
Definition claim_list (env : Env) (locked : uuid -> bool) (n : Z) (db : DB) : list (OutboxRow * Due) :=
  omap (claim_row (env_now env) db)
    (due_rows (env_now env) locked (if n <=? 0 then 10 else n) db).

Lemma claim_list_spec env locked n db r' d :
  DB_wf db -> (r', d) ∈ claim_list env locked n db ->
  exists r e, outbox db !! o_ID r' = Some r /\ is_due (env_now env) r = true /\
    r' = claimed (env_now env) r /\ endpoints db !! o_EndpointID r = Some e /\ d = due_of r' e.
Proof.
  intros Hwf (r & Hr & Hc)%list_elem_of_omap. unfold claim_row in Hc.
  destruct (endpoints db !! o_EndpointID r) as [e|] eqn:He; [|done]. injection Hc as <- <-.
  apply due_rows_spec in Hr as (Hin & Hdue & _). exists r, e. split_and!; try done.
  by apply (outbox_values db r Hwf).
Qed.

Lemma claim_list_ids_sublist env locked n db :
  (o_ID <$> (claim_list env locked n db).*1) `sublist_of`
  (o_ID <$> due_rows (env_now env) locked (if n <=? 0 then 10 else n) db).
Proof.
  unfold claim_list. induction (due_rows _ _ _ _) as [|r l IH]; cbn; [constructor|].
  unfold claim_row at 1. destruct (endpoints db !! o_EndpointID r) as [e|]; cbn.
  - by constructor.
  - by constructor.
Qed.

Lemma foldl_insert_rows (l : list OutboxRow) (m : gmap uuid OutboxRow) :
  NoDup (o_ID <$> l) ->
  (forall r, r ∈ l -> foldl (fun m r => <[o_ID r := r]> m) m l !! o_ID r = Some r) /\
  (forall i, i ∉ o_ID <$> l -> foldl (fun m r => <[o_ID r := r]> m) m l !! i = m !! i).
Proof.
  revert m. induction l as [|x l IH]; intros m; cbn; [by split; [intros r ?%elem_of_nil|]|].
  rewrite NoDup_cons. intros [Hx Hnd]. destruct (IH (<[o_ID x := x]> m) Hnd) as [IH1 IH2]. split.
  - intros r [-> | Hr]%elem_of_cons; [|by apply IH1]. rewrite IH2 by done. by rewrite lookup_insert_eq.
  - intros i Hi. rewrite not_elem_of_cons in Hi. destruct Hi. rewrite IH2 by done.
    by rewrite lookup_insert_ne.
Qed.

Lemma Claim_spec env locked n db :
  DB_wf db ->
  exists db', Claim env locked n db = (Ok (claim_list env locked n db).*2, db') /\
    endpoints db' = endpoints db /\ audit_log db' = audit_log db /\
    (forall r d, (r, d) ∈ claim_list env locked n db -> outbox db' !! o_ID r = Some r) /\
    (forall i, i ∉ o_ID <$> (claim_list env locked n db).*1 -> outbox db' !! i = outbox db !! i).
Proof.
  intros Hwf.
  destruct (foldl_insert_rows (claim_list env locked n db).*1 (outbox db)) as [F1 F2].
  { refine (sublist_NoDup _ _ _ (claim_list_ids_sublist _ _ _ _)). by apply due_rows_NoDup. }
  eexists. split; [unfold Claim, or_fail, WithSettings; by rewrite decide_False|]. cbn. split_and!; try done.
  intros r d Hrd. apply F1. by apply (list_elem_of_fmap_2 fst _ (r, d)).
Qed.

Lemma Claim_step env locked n db res db' :
  Claim env locked n db = (res, db') -> DB_wf db -> DB_step db db'.
Proof.
  intros Hc Hwf. destruct (Claim_spec env locked n db Hwf) as (db1 & Hc' & He & _ & Hin & Hout).
  rewrite Hc in Hc'. injection Hc' as -> ->. destruct Hwf as [W1 W2 W3 W4]. split.
  - intros i r Hi. destruct (decide (i ∈ o_ID <$> (claim_list env locked n db).*1)) as [Hm|Hm].
    + apply list_elem_of_fmap in Hm as (r' & -> & Hm). apply list_elem_of_fmap in Hm as ([r'' d] & -> & Hm).
      cbn in *. exists r''. split; [by eapply Hin|]. right.
      destruct (claim_list_spec env locked n db r'' d) as (r0 & e & Hr0 & Hdue & -> & _); [by split|done|].
      rewrite Hi in Hr0. injection Hr0 as <-. by constructor.
    + exists r. rewrite Hout by done. auto.
  - intros i r' Hi Hn. destruct (decide (i ∈ o_ID <$> (claim_list env locked n db).*1)) as [Hm|Hm].
    + exfalso. apply list_elem_of_fmap in Hm as (r0 & -> & Hm). apply list_elem_of_fmap in Hm as ([r'' d] & -> & Hm).
      destruct (claim_list_spec env locked n db r'' d) as (r0 & e & Hr0 & _); [by split|done|].
      cbn in Hn. congruence.
    + rewrite Hout in Hi by done. congruence.
  - rewrite He. apply endpoints_le_refl.
  - by rewrite He.
Qed.

(** *** Enqueue and the endpoints *)

Lemma insert_outbox_Ok g r db db' :
  insert_outbox g r db = (Ok tt, db') ->
  outbox db !! o_ID r = None /\ db' = set_outbox (<[o_ID r := r]> (outbox db)) db /\
  exists e, endpoints db !! o_EndpointID r = Some e /\ ep_TenantID e = o_TenantID r.
Proof.
  unfold insert_outbox. destruct (negb _); [done|]. destruct (negb _); [done|].
  case_bool_decide as Hid; [done|]. destruct (endpoints db !! _) as [e|] eqn:He; [|done].
  case_bool_decide; [|done]. intros [= <-]. split_and!; [by apply eq_None_not_Some|done|by exists e].
Qed.

(** The fan-out: one fresh row per endpoint, in order, and nothing else. *)
Lemma fan_out_Ok env g t event ev payload tp subs k db l db' :
  for_range k subs (fun i e =>
    insert_outbox g (new_row env (env_dbid env (Z.to_nat i)) t (ep_ID e) event ev payload tp)) db = (Ok l, db') ->
  length l = length subs /\ endpoints db' = endpoints db /\ audit_log db' = audit_log db /\
  (forall i r, outbox db !! i = Some r -> outbox db' !! i = Some r) /\
  (forall i r, outbox db' !! i = Some r -> outbox db !! i = None ->
     o_ID r = i /\ exists e, e ∈ subs /\ r = new_row env i t (ep_ID e) event ev payload tp /\
     exists e', endpoints db !! ep_ID e = Some e' /\ ep_TenantID e' = t) /\
  (forall e, e ∈ subs -> exists i, outbox db !! i = None /\
     outbox db' !! i = Some (new_row env i t (ep_ID e) event ev payload tp)).
Proof.
  revert k db l. induction subs as [|s subs IH]; intros k db l; cbn.
  { intros [= <- <-]. split_and!; try done; [congruence|]. by intros e ?%elem_of_nil. }
  intros Hrun. apply SE_bind_inv in Hrun as ([] & db1 & Hi1 & Hrun).
  apply SE_bind_inv in Hrun as (l' & db2 & Hi2 & Hrun). injection Hrun as <- <-.
  apply insert_outbox_Ok in Hi1 as (Hfresh & -> & Hfk). cbn in Hfresh.
  destruct (IH _ _ _ Hi2) as (IHl & IHe & IHa & IHk & IHn & IHs). cbn in *.
  set (x := new_row env (env_dbid env (Z.to_nat k)) t (ep_ID s) event ev payload tp) in *.
  split_and!; try done; [by f_equal|..].
  - intros i r Hi. apply IHk. rewrite lookup_insert_ne; [done|]. intros <-. congruence.
  - intros i r Hi Hn. destruct (decide (i = o_ID x)) as [-> | Hne].
    + specialize (IHk (o_ID x) x). rewrite lookup_insert_eq in IHk. specialize (IHk eq_refl).
      rewrite IHk in Hi. injection Hi as <-. split; [done|]. exists s. split_and!; [left|done|done].
    + destruct (IHn i r Hi) as (? & e & He & ?); [by rewrite lookup_insert_ne|].
      split; [done|]. exists e. split; [by right|done].
  - intros e [-> | He]%elem_of_cons.
    + exists (o_ID x). split; [done|]. apply IHk. by rewrite lookup_insert_eq.
    + destruct (IHs e He) as (i & Hi & Hr). exists i. split; [|done].
      destruct (decide (i = o_ID x)) as [-> | Hne]; [by rewrite lookup_insert_eq in Hi|].
      by rewrite lookup_insert_ne in Hi.
Qed.

Lemma Enqueue_Ok env g ev tp t event data db n db' :
  Enqueue env g ev tp t event data db = (Ok n, db') ->
  known_event event = true /\
  slen (json_Marshal (Envelope env ev event t data)) <= MaxPayloadBytes /\
  exists l tp', tp' = (if decide (tp = "") then None else Some tp) /\
    n = Z.of_nat (length (subscribers g t event db)) /\
    for_range 0 (subscribers g t event db) (fun i e =>
      insert_outbox g (new_row env (env_dbid env (Z.to_nat i)) t (ep_ID e) event ev
        (Envelope env ev event t data) tp')) db = (Ok l, db').
Proof.
  unfold Enqueue. destruct (known_event event); cbn [negb]; [|done].
  destruct (MaxPayloadBytes <? _) eqn:Hsz; [done|]. to_prop. intros Hrun.
  apply SE_bind_inv in Hrun as (subs & d1 & Hs & Hrun). injection Hs as <- <-.
  apply SE_bind_inv in Hrun as (l & d2 & Hl & Hrun). apply or_fail_Ok in Hl. injection Hrun as <- <-.
  split_and!; [done|done|]. exists l. eexists. split_and!; [done| |done].
  by destruct (fan_out_Ok _ _ _ _ _ _ _ _ _ _ _ _ Hl) as (-> & _).
Qed.

Lemma Enqueue_step env g ev tp t event data res db db' :
  BeginFunc (Enqueue env g ev tp t event data) db = (res, db') -> DB_wf db -> DB_step db db'.
Proof.
  destruct res as [n|e]; [|intros ->%BeginFunc_Err; apply outbox_DB_step_refl].
  rewrite BeginFunc_Ok. intros (_ & _ & l & tp' & _ & _ & Hl)%Enqueue_Ok Hwf.
  destruct (fan_out_Ok _ _ _ _ _ _ _ _ _ _ _ _ Hl) as (_ & He & _ & Hk & Hn & _). split.
  - intros i r Hi. exists r. split; [by apply Hk|by left].
  - intros i r Hi Hnone. destruct (Hn i r Hi Hnone) as (? & e & _ & -> & e' & ? & ?).
    split_and!; [done|done|]. by exists e'.
  - rewrite He. apply endpoints_le_refl.
  - rewrite He. apply Hwf.
Qed.

(** Changing or adding an endpoint, with its audit entry, leaves every delivery alone. *)
Lemma DB_step_endpoint db e (a : AuditLog.Table) :
  DB_wf db -> (forall e0, endpoints db !! ep_ID e = Some e0 -> ep_TenantID e0 = ep_TenantID e) ->
  DB_step db (set_audit a (set_endpoints (<[ep_ID e := e]> (endpoints db)) db)).
Proof.
  intros [W1 W2 W3 W4] He. split; cbn.
  - intros i r Hi. exists r. auto.
  - intros i r Hi Hn. congruence.
  - intros i e0 Hi. destruct (decide (i = ep_ID e)) as [-> | Hne].
    + exists e. rewrite lookup_insert_eq. split; [done|]. symmetry. by apply He.
    + exists e0. by rewrite lookup_insert_ne.
  - intros i x [[<- <-] | [_ Hx]]%lookup_insert_Some; [done|by apply W3].
Qed.

Lemma write_audit_Ok env g id en db db' :
  write_audit env g id en db = (Ok tt, db') ->
  AuditLog.Validate en = Ok tt /\ db' = set_audit (audit_log db ++ [AuditLog.row_of env id en]) db.
Proof.
  unfold write_audit. rewrite zoom_Ok. intros (t & Hw & ->).
  apply AuditLog.Write_Ok in Hw as (? & _ & -> & _). done.
Qed.

Lemma CreateEndpoint_step env a i res db db' :
  CreateEndpoint env a i db = (res, db') -> DB_wf db -> DB_step db db'.
Proof.
  unfold CreateEndpoint. destruct (negb _); [intros [= _ <-]; apply outbox_DB_step_refl|].
  unfold mbind, SE_bind, lift. destruct (AuditLog.ActorFromAuthorized a) as [[actor kd]|x];
    [|intros [= _ <-]; apply outbox_DB_step_refl].
  set (e := mkEndpoint _ _ _ _ _ _ _ _ _ _ _).
  destruct (WithIdentityTx _ _ db) as [[[]|x] db1] eqn:HW.
  - apply WithIdentityTx_Ok in HW. intros [= _ <-] Hwf.
    destruct (or_fail _ _ db) as [[[]|y] db2] eqn:HI; [|done]. apply or_fail_Ok in HI.
    apply write_audit_Ok in HW as [_ ->]. unfold insert_endpoint in HI.
    destruct (negb _); [done|]. destruct (negb _); [done|].
    case_bool_decide as Hid; [done|]. injection HI as <-.
    apply DB_step_endpoint; [done|]. intros e0 He0. exfalso. apply Hid. by exists e0.
  - intros [= _ <-]. apply WithIdentityTx_Err in HW as ->. apply outbox_DB_step_refl.
Qed.

Lemma UpdateEndpoint_step env a id i res db db' :
  UpdateEndpoint env a id i db = (res, db') -> DB_wf db -> DB_step db db'.
Proof.
  unfold UpdateEndpoint. destruct (negb _); [intros [= _ <-]; apply outbox_DB_step_refl|].
  case_decide; [intros [= _ <-]; apply outbox_DB_step_refl|].
  unfold mbind, SE_bind, lift. destruct (normalize_update i) as [i'|x]; [|intros [= _ <-]; apply outbox_DB_step_refl].
  destruct (AuditLog.ActorFromAuthorized a) as [[actor kd]|x]; [|intros [= _ <-]; apply outbox_DB_step_refl].
  intros HW Hwf. destruct res as [e|x]; [|apply WithIdentityTx_Err in HW as ->; by apply outbox_DB_step_refl].
  apply WithIdentityTx_Ok in HW.
  destruct (find_endpoint _ a id db) as [before|] eqn:Hf; [|done].
  destruct (negb _); [done|]. destruct (write_audit _ _ _ _ _) as [[[]|y] db1] eqn:Ha; [|done].
  injection HW as <- <-. apply write_audit_Ok in Ha as [_ ->]. apply DB_step_endpoint; [done|].
  unfold find_endpoint in Hf. destruct (endpoints db !! id) as [e1|] eqn:He1; [|done]. cbn in Hf.
  destruct (_ && _); [|done]. injection Hf as <-. cbn. intros e0 He0.
  rewrite (wf_endpoint_id _ Hwf _ _ He1) in He0. congruence.
Qed.

Lemma outbox_step_DB_step db db' : step db db' -> DB_wf db -> DB_step db db'.
Proof.
  intros [] ?; by eauto using Enqueue_step, Claim_step, Settle_step, Replay_step,
    CreateEndpoint_step, UpdateEndpoint_step.
Qed.

Lemma new_row_wf r : new_outbox_row r -> row_wf r.
Proof.
  intros (Hs & Ha & Hr & Hl & Hd). split; rewrite ?Hs, ?Ha, ?Hr, ?Hl, ?Hd; try done; try lia;
    unfold MaxAttempts; intuition (congruence || lia).
Qed.

Lemma row_step_frozen r r' : row_step r r' -> frozen r' = frozen r.
Proof. intros []; cbn; try done. unfold settled. by case_decide. Qed.

Lemma DB_step_wf db db' : DB_step db db' -> DB_wf db -> DB_wf db'.
Proof.
  intros [S1 S2 S3 S4] [W1 W2 W3 W4].
  assert (Hrow : forall i r', outbox db' !! i = Some r' ->
    (exists r, outbox db !! i = Some r /\ (r' = r \/ row_step r r')) \/ outbox db !! i = None).
  { intros i r' Hi. destruct (outbox db !! i) as [r|] eqn:Hr; [left|by right].
    destruct (S1 i r Hr) as (r1 & Hr1 & Hc). rewrite Hi in Hr1. injection Hr1 as <-. by exists r. }
  assert (Hfk : forall t k, (exists e, endpoints db !! k = Some e /\ ep_TenantID e = t) ->
    exists e, endpoints db' !! k = Some e /\ ep_TenantID e = t).
  { intros t k (e & He & Ht). destruct (S3 _ _ He) as (e' & ? & ?). exists e'. split; [done|congruence]. }
  split.
  - intros i r' Hi. destruct (Hrow i r' Hi) as [(r & Hr & [-> | Hs])|Hn]; [by apply W1| |by apply (S2 i r')].
    apply row_step_frozen in Hs. unfold frozen in Hs. rewrite <- (W1 i r Hr). congruence.
  - intros i r' Hi. destruct (Hrow i r' Hi) as [(r & Hr & [-> | Hs])|Hn]; [by eapply W2| |].
    + by apply (row_step_wf r r' Hs), (W2 i).
    + apply new_row_wf. by apply (S2 i r').
  - done.
  - intros i r' Hi. destruct (Hrow i r' Hi) as [(r & Hr & [-> | Hs])|Hn].
    + apply Hfk. by eapply W4.
    + apply row_step_frozen in Hs. unfold frozen in Hs.
      assert (o_EndpointID r' = o_EndpointID r /\ o_TenantID r' = o_TenantID r) as [-> ->]
        by (split; congruence).
      apply Hfk. by eapply W4.
    + apply Hfk. by apply (S2 i r').
Qed.

Lemma outbox_steps_wf db db' : rtc step db db' -> DB_wf db -> DB_wf db'.
Proof.
  induction 1 as [|x y z Hs _ IH]; [done|]. intros Hwf. apply IH. by eapply DB_step_wf, Hwf; apply outbox_step_DB_step.
Qed.

(** A row's history along any run. *)
Lemma outbox_steps_row db db' i r :
  rtc step db db' -> DB_wf db -> outbox db !! i = Some r ->
  exists r', outbox db' !! i = Some r' /\ row_le r r'.
Proof.
  intros Hs. revert r. induction Hs as [x|x y z Hs _ IH]; intros r Hwf Hr; [by exists r|].
  pose proof (outbox_step_DB_step _ _ Hs Hwf) as Hd.
  destruct (ds_rows _ _ Hd _ _ Hr) as (r1 & Hr1 & Hc).
  destruct (IH r1) as (r2 & Hr2 & Hle); [by eapply DB_step_wf|done|].
  exists r2. split; [done|]. etrans; [|exact Hle]. destruct Hc as [-> | Hc]; [done|].
  by apply (row_step_wf r r1 Hc), (wf_row _ Hwf i).
Qed.

Definition empty_DB : DB := mkDB ∅ ∅ [].

Lemma outbox_empty_wf : DB_wf empty_DB.
Proof. split; cbn; intros *; by rewrite lookup_empty. Qed.
End machine.

(** ** Properties *)

Section properties.
Context `{Unicode} `{UUIDLib} `{GoJSON}.

(** C8: The life of a delivery, over every interleaving of enqueues, claims,
    settles, replays and endpoint changes: a row is never lost; what it announces
    and to whom never changes; within one replay its attempts only grow; a
    delivered row never changes again and a dead one only by a replay; a lease is
    held exactly while it is being delivered; and it is dead only after the last
    attempt. *)
Theorem outbox_history db db' i r :
  rtc step empty_DB db -> rtc step db db' -> outbox db !! i = Some r ->
  exists r', outbox db' !! i = Some r' /\ row_le r r' /\ row_wf r' /\
    exists e, endpoints db' !! o_EndpointID r' = Some e /\ ep_TenantID e = o_TenantID r'.
Proof.
  intros H1' H2' Hr. pose proof (outbox_steps_wf _ _ H1' outbox_empty_wf) as Hwf.
  destruct (outbox_steps_row _ _ _ _ H2' Hwf Hr) as (r' & Hr' & Hle).
  pose proof (outbox_steps_wf _ _ H2' Hwf) as Hwf'. exists r'. split_and!; [done|done|by eapply wf_row|by eapply wf_fk].
Qed.

(** A claim's deliveries are the rows it moved, with their fresh attempt number
    and a lease one [LeaseDuration] long. *)
Lemma Claim_Due env locked n db ds db' d :
  DB_wf db -> Claim env locked n db = (Ok ds, db') -> d ∈ ds ->
  exists r e, outbox db !! d_ID d = Some r /\ is_due (env_now env) r = true /\
    outbox db' !! d_ID d = Some (claimed (env_now env) r) /\ d = due_of (claimed (env_now env) r) e.
Proof.
  intros Hwf Hc Hd. destruct (Claim_spec env locked n db Hwf) as (db1 & Hc' & _ & _ & Hin & _).
  rewrite Hc in Hc'. injection Hc' as -> ->.
  apply list_elem_of_fmap in Hd as ([r' d'] & -> & Hd). cbn.
  destruct (claim_list_spec _ _ _ _ _ _ Hwf Hd) as (r & e & Hr & Hdue & -> & He & ->).
  exists r, e. split_and!; try done. by apply (Hin (claimed (env_now env) r) (due_of (claimed (env_now env) r) e)).
Qed.

Lemma Settle_not_fenced env d res j db :
  0 < d_Attempt d ->
  (forall r, outbox db !! d_ID d = Some r -> fence (env_now env) d r = false) ->
  Settle env d res j db = (Err (LeaseLostError (d_ID d)), db).
Proof.
  intros Ha Hf. unfold Settle. destruct (Z.leb_spec (d_Attempt d) 0); [lia|].
  destruct (settle_plan env d res j) as [st next]. unfold mbind, SE_bind, WithSettings, BeginFunc.
  rewrite decide_False by done. destruct (outbox db !! d_ID d) as [r|] eqn:Hr; [|done].
  by rewrite (Hf r eq_refl).
Qed.

(** C34: Fencing: once another worker has reclaimed a delivery, the first worker's
    settle is refused and changes nothing, however late it arrives and whatever
    happened in between, as long as the row was not replayed. *)
Theorem settle_fenced db0 env1 locked1 n1 ds1 db1 d1 db2 env2 locked2 n2 ds2 db3 d2 db4 r1 r4 env res j :
  rtc step empty_DB db0 ->
  Claim env1 locked1 n1 db0 = (Ok ds1, db1) -> d1 ∈ ds1 ->
  rtc step db1 db2 ->
  Claim env2 locked2 n2 db2 = (Ok ds2, db3) -> d2 ∈ ds2 -> d_ID d2 = d_ID d1 ->
  rtc step db3 db4 ->
  outbox db1 !! d_ID d1 = Some r1 -> outbox db4 !! d_ID d1 = Some r4 -> o_Replays r4 = o_Replays r1 ->
  Settle env d1 res j db4 = (Err (LeaseLostError (d_ID d1)), db4).
Proof.
  intros H0' C1 D1 S1 C2 D2 Hid S2 R1 R4 Hrep.
  pose proof (outbox_steps_wf _ _ H0' outbox_empty_wf) as W0.
  pose proof (DB_step_wf _ _ (Claim_step _ _ _ _ _ _ C1 W0) W0) as W1.
  pose proof (outbox_steps_wf _ _ S1 W1) as W2.
  pose proof (DB_step_wf _ _ (Claim_step _ _ _ _ _ _ C2 W2) W2) as W3.
  destruct (Claim_Due _ _ _ _ _ _ _ W0 C1 D1) as (r0 & e0 & Hr0 & _ & Hr1 & Hd1).
  rewrite R1 in Hr1. injection Hr1 as ->.
  destruct (outbox_steps_row _ _ _ _ S1 W1 R1) as (r2 & R2 & (_ & L12 & _)).
  destruct (Claim_Due _ _ _ _ _ _ _ W2 C2 D2) as (r2' & e2 & Hr2 & _ & Hr3 & _).
  rewrite Hid in Hr2, Hr3. rewrite R2 in Hr2. injection Hr2 as <-.
  destruct (outbox_steps_row _ _ _ _ S2 W3 Hr3) as (r4' & R4' & (_ & L34 & _)).
  rewrite R4 in R4'. injection R4' as <-. cbn in L12, L34, Hrep.
  assert (d_Attempt d1 = o_Attempts r0 + 1) as Hatt by (rewrite Hd1; done).
  pose proof (rw_attempts _ (wf_row _ W0 _ _ Hr0)) as Hnn.
  apply Settle_not_fenced; [lia|]. intros r Hr. rewrite R4 in Hr. injection Hr as <-.
  unfold fence. destruct (Z.eqb_spec (o_Attempts r4) (d_Attempt d1)); [lia|]. by rewrite andb_false_r.
Qed.

(** A batch is delivered one receiver at a time within one lease: when each of
    the receivers before it uses its whole timeout, the seventh delivery of a
    batch and every later one finds its lease gone and is sent again. *)
Theorem slow_batch_loses_leases db0 env1 locked n ds db1 k d env res j :
  rtc step empty_DB db0 ->
  Claim env1 locked n db0 = (Ok ds, db1) -> ds !! k = Some d -> (6 <= k)%nat ->
  env_now env1 + Z.of_nat k * DeliveryTimeout <= env_now env ->
  Settle env d res j db1 = (Err (LeaseLostError (d_ID d)), db1).
Proof.
  intros H0' C1 Hk Hk6 Ht. pose proof (outbox_steps_wf _ _ H0' outbox_empty_wf) as W0.
  destruct (Claim_Due _ _ _ _ _ _ d W0 C1) as (r & e & Hr & _ & Hr1 & Hd); [by eapply list_elem_of_lookup_2|].
  pose proof (rw_attempts _ (wf_row _ W0 _ _ Hr)) as Hnn.
  apply Settle_not_fenced; [rewrite Hd; cbn; lia|]. intros r1 Hr1'. rewrite Hr1 in Hr1'. injection Hr1' as <-.
  unfold fence. cbn [claimed with_state o_State o_Lease o_Attempts].
  destruct (Z.ltb_spec (env_now env) (env_now env1 + LeaseDuration)) as [Hlt|_].
  - unfold DeliveryTimeout, LeaseDuration, Second in *. lia.
  - by rewrite andb_false_r.
Qed.

(** The constraints a settled row has to meet come down to its status code. *)
Lemma settled_check now st next le lc r :
  row_wf r -> o_State r = StateDelivering -> AuditLog.is_dotted (o_Event r) = true ->
  st = StateDelivered \/ st = StateDead \/ st = StatePending ->
  outbox_check (settled now st next le lc r) =
    match lc with None => true | Some c => (100 <=? c) && (c <=? 599) end.
Proof.
  intros [A R L D _ _ _] Hs Hdot Hst.
  assert (o_DeliveredAt r = None) as Hnd.
  { destruct (o_DeliveredAt r); [|done]. rewrite Hs in D.
    by assert (StateDelivering = StateDelivered) by (by apply D). }
  unfold outbox_check, settled.
  assert ((0 <=? o_Attempts r) = true) as EA by lia. assert ((0 <=? o_Replays r) = true) as ER by lia.
  destruct Hst as [-> | [-> | ->]]; [rewrite decide_True by done|rewrite decide_False by done..];
    cbn [with_state o_Event o_Attempts o_Replays o_LastStatus o_State o_DeliveredAt o_Lease];
    rewrite Hdot, EA, ER, ?Hnd; destruct lc as [c|]; cbn; try done; by rewrite !andb_true_r.
Qed.

(** Settling by the owner of a live lease: a 2xx answer delivers the row, any
    other outcome schedules a retry between half and all of the nominal backoff
    ahead, and the last failed attempt makes it dead and says so; every branch
    releases the lease. *)
Theorem Settle_outcomes env d res j db r :
  row_wf r -> outbox db !! d_ID d = Some r -> o_ID r = d_ID d -> AuditLog.is_dotted (o_Event r) = true ->
  0 < d_Attempt d -> fence (env_now env) d r = true -> Z.abs (mant j) < 2 ^ 53 ->
  (res_Err res = None -> 100 <= StatusCode res <= 599) ->
  exists r', (Settle env d res j db).2 = set_outbox (<[d_ID d := r']> (outbox db)) db /\
    o_Lease r' = None /\ frozen r' = frozen r /\ o_Attempts r' = o_Attempts r /\
    if Succeeded res then
      (Settle env d res j db).1 = Ok tt /\ o_State r' = StateDelivered /\ o_DeliveredAt r' = Some (env_now env)
    else if MaxAttempts <=? d_Attempt d then
      (Settle env d res j db).1 = Err (DeadLetterError (d_ID d) (d_Event d) (d_EndpointID d)) /\
      o_State r' = StateDead
    else
      (Settle env d res j db).1 = Ok tt /\ o_State r' = StatePending /\
      env_time env + NominalBackoff (d_Attempt d) / 2 <= o_NextAt r'
        <= env_time env + NominalBackoff (d_Attempt d).
Proof.
  intros Hwf Hr Hid Hdot Ha Hf Hj Hstatus.
  destruct (fence_cases _ _ _ Hf) as (Hst & _ & _).
  unfold Settle. destruct (Z.leb_spec (d_Attempt d) 0); [lia|].
  set (le := match res_Err res with Some e => Some (error_text e) | None => _ end).
  set (lc := match res_Err res with Some _ => None | None => Some (StatusCode res) end).
  assert (match lc with None => true | Some c => (100 <=? c) && (c <=? 599) end = true) as Hlc.
  { subst lc. destruct (res_Err res); [done|]. specialize (Hstatus eq_refl). lia. }
  destruct (settle_plan env d res j) as [st next] eqn:Hp.
  pose proof (settle_plan_cases _ _ _ _ _ _ Hp) as Hc.
  assert (outbox_check (settled (env_now env) st next le lc r) = true) as Hchk.
  { rewrite settled_check; [done|done|done|done|]. naive_solver. }
  assert (o_ID (settled (env_now env) st next le lc r) = d_ID d) as Hid'
    by (rewrite <- Hid; unfold settled; by case_decide).
  unfold mbind, SE_bind, WithSettings, BeginFunc, or_fail, update_outbox.
  rewrite decide_False, Hr, Hf, Hchk, Hid' by done. cbn [negb].
  exists (settled (env_now env) st next le lc r).
  destruct Hc as [(-> & Hs)|[(-> & Hs & Hm)|(-> & Hs & Hm & delay & Hn & ->)]]; rewrite Hs.
  - rewrite (decide_False (P := StateDelivered = StateDead)) by done. unfold settled. rewrite decide_True by done.
    by split_and!.
  - rewrite (decide_True (P := StateDead = StateDead)) by done. unfold settled. rewrite decide_False by done.
    destruct (Z.leb_spec MaxAttempts (d_Attempt d)); [|lia]. by split_and!.
  - rewrite (decide_False (P := StatePending = StateDead)) by done. unfold settled. rewrite decide_False by done.
    destruct (Z.leb_spec MaxAttempts (d_Attempt d)); [lia|].
    pose proof (NextDelay_range (d_Attempt d) j Hj) as Hb. rewrite Hn in Hb. cbn. split_and!; try done; lia.
Qed.

(** A receiver that answers with a status from 600 on is never settled: the
    column admits 100 to 599, so every settle of its deliveries fails with the
    row still leased, the last attempt's included; the lease lapses and the next
    claim sends it again, without end. *)
Theorem settle_bad_status_stuck env d res j db r :
  row_wf r -> outbox db !! d_ID d = Some r -> AuditLog.is_dotted (o_Event r) = true ->
  0 < d_Attempt d -> fence (env_now env) d r = true ->
  res_Err res = None -> 599 < StatusCode res ->
  exists e, Settle env d res j db = (Err e, db) /\ AsPgErr e = Some "23514" /\
    (forall t, (exists l, o_Lease r = Some l /\ l < t) -> is_due t r = true).
Proof.
  intros Hwf Hr Hdot Ha Hf Herr Hcode. destruct (fence_cases _ _ _ Hf) as (Hst & _ & _).
  unfold Settle. destruct (Z.leb_spec (d_Attempt d) 0); [lia|]. rewrite Herr.
  destruct (settle_plan env d res j) as [st next] eqn:Hp.
  pose proof (settle_plan_cases _ _ _ _ _ _ Hp) as Hc.
  set (le := if Succeeded res then _ else _).
  assert (outbox_check (settled (env_now env) st next le (Some (StatusCode res)) r) = false) as Hchk.
  { rewrite settled_check; [lia|done|done|done|]. naive_solver. }
  eexists. unfold mbind, SE_bind, WithSettings, BeginFunc, or_fail, update_outbox.
  rewrite decide_False, Hr, Hf, Hchk by done. cbn [negb]. split_and!; [done|done|].
  intros t (l & Hl & Hlt). unfold is_due. rewrite Hst, Hl. apply orb_true_iff. right.
  rewrite bool_decide_eq_true_2 by done. by apply Z.ltb_lt.
Qed.

Lemma due_rows_complete now n db i r :
  DB_wf db -> outbox db !! i = Some r -> is_due now r = true -> Z.of_nat (size (outbox db)) <= n ->
  r ∈ due_rows now (fun _ => false) n db.
Proof.
  intros Hwf Hi Hdue Hn. unfold due_rows. rewrite take_ge.
  - rewrite order_by_Permutation, list_elem_of_filter. split; [split; [by rewrite Hdue|done]|].
    apply (list_elem_of_fmap_2 snd _ (i, r)). by apply elem_of_map_to_list.
  - rewrite order_by_Permutation, length_filter. rewrite length_fmap, length_map_to_list. lia.
Qed.

(** C35: No delivery is stranded: whatever has happened, a row that is neither
    delivered nor dead is claimed by any claim that comes late enough, is not
    shut out by another worker's lock, and takes the whole queue. *)
Theorem claim_liveness db i r :
  rtc step empty_DB db -> outbox db !! i = Some r -> o_State r <> StateDelivered -> o_State r <> StateDead ->
  exists t, forall env n, t < env_now env -> 0 < n -> Z.of_nat (size (outbox db)) <= n ->
    exists ds db' d, Claim env (fun _ => false) n db = (Ok ds, db') /\ d ∈ ds /\ d_ID d = i /\
      d_Attempt d = o_Attempts r + 1 /\ d_Payload d = o_Payload r.
Proof.
  intros Hs Hi Hnd Hnx. pose proof (outbox_steps_wf _ _ Hs outbox_empty_wf) as Hwf.
  assert (exists t, forall now, t < now -> is_due now r = true) as [t Ht].
  { unfold is_due. destruct (o_State r) eqn:Hst; try done.
    - exists (o_NextAt r). intros now Hnow. rewrite bool_decide_eq_true_2 by done.
      assert ((o_NextAt r <=? now) = true) as -> by lia. done.
    - destruct (o_Lease r) as [l|] eqn:Hl.
      + exists l. intros now Hnow. apply orb_true_iff. right. rewrite bool_decide_eq_true_2 by done. cbn. lia.
      + exfalso. by apply (rw_lease _ (wf_row _ Hwf _ _ Hi)) in Hst. }
  exists t. intros env n Henv Hn Hsz. destruct (Claim_spec env (fun _ => false) n db Hwf) as (db' & Hc & _).
  destruct (wf_fk _ Hwf _ _ Hi) as (e & He & _).
  exists (claim_list env (fun _ => false) n db).*2, db', (due_of (claimed (env_now env) r) e).
  split_and!; [done| |by apply (wf_id _ Hwf _ _ Hi)|done|done].
  apply (list_elem_of_fmap_2 snd _ (claimed (env_now env) r, due_of (claimed (env_now env) r) e)).
  unfold claim_list. apply list_elem_of_omap. exists r. split.
  - destruct (Z.leb_spec n 0); [lia|]. by eapply due_rows_complete; auto.
  - unfold claim_row. by rewrite He.
Qed.

(** Enqueueing fans out exactly: one pending row for each active endpoint of the
    tenant subscribed to the event, all with the same event id and frozen
    payload, and nothing else; a failure enqueues nothing. *)
Theorem Enqueue_fans_out env g ev tp t event data db res db' :
  BeginFunc (Enqueue env g ev tp t event data) db = (res, db') ->
  match res with
  | Err _ => db' = db
  | Ok n =>
      known_event event = true /\ n = Z.of_nat (length (subscribers g t event db)) /\
      (forall i r, outbox db !! i = Some r -> outbox db' !! i = Some r) /\
      (forall i r, outbox db' !! i = Some r -> outbox db !! i = None ->
         exists e, e ∈ subscribers g t event db /\ o_EndpointID r = ep_ID e /\ o_TenantID r = t /\
           o_EventID r = ev /\ o_Event r = event /\ o_Payload r = Envelope env ev event t data /\
           new_outbox_row r) /\
      (forall e, e ∈ subscribers g t event db -> exists i r,
         outbox db !! i = None /\ outbox db' !! i = Some r /\ o_EndpointID r = ep_ID e)
  end.
Proof.
  destruct res as [n|e]; [|by apply BeginFunc_Err]. rewrite BeginFunc_Ok.
  intros (Hk & _ & l & tp' & _ & Hn & Hl)%Enqueue_Ok.
  destruct (fan_out_Ok _ _ _ _ _ _ _ _ _ _ _ _ Hl) as (_ & _ & _ & Hold & Hnew & Hall).
  split_and!; [done|done|done|..].
  - intros i r Hi Hnone. destruct (Hnew i r Hi Hnone) as (_ & e & He & -> & _). exists e. by split_and!.
  - intros e He. destruct (Hall e He) as (i & ? & ?). eexists i, _. by split_and!.
Qed.
End properties.

(** ** A run, and what the fence does not cover *)

Module OutboxDemo.
#[local] Existing Instance DemoUnicode.
#[local] Existing Instance DemoUUID.lib.
#[export] Instance demo_json : GoJSON :=
  {| json_Marshal _ := "{}"; json_time t := JNum t |}.

Definition at_ (s : Z) : Env :=
  mkEnv (s * Second) (s * Second) (fun n => N.of_nat (50 + n)) (fun n => N.of_nat (700 + n)) (fun _ => 7) "req-1".
Definition owner : Authorized := mkAuthorized 5%N KindHuman 11%N RoleOwner 0%N.
Definition g5 : Settings := settings_of (Identity_of owner).
Definition nolock : uuid -> bool := fun _ => false.
Definition j0 : F64 := mkF64 0 0.
Definition ok200 : DeliveryResult := mkResult 200 None.
Definition bad500 : DeliveryResult := mkResult 500 None.

Definition db1 : DB := (CreateEndpoint (at_ 1) owner
  (mkCreateInput "https://hooks.example.com/x" [EventInvoicePaid] "") empty_DB).2.
Definition db2 : DB := (BeginFunc (Enqueue (at_ 2) g5 90%N "" 5%N EventInvoicePaid (JNum 1)) db1).2.

(** Claim once, then settle; [failing n] does so [n] times, far apart. *)
Definition due_at (s : Z) (db : DB) : list Due :=
  match (Claim (at_ s) nolock 10 db).1 with Ok ds => ds | Err _ => [] end.
Definition claim_at (s : Z) (db : DB) : DB := (Claim (at_ s) nolock 10 db).2.
Definition settle_at (s : Z) (d : Due) (r : DeliveryResult) (db : DB) : DB := (Settle (at_ s) d r j0 db).2.
Fixpoint failing (n : nat) (s : Z) (db : DB) : DB :=
  match n with
  | O => db
  | S n' =>
      match due_at s db with
      | d :: _ => failing n' (s + 10000) (settle_at (s + 1) d bad500 (claim_at s db))
      | [] => db
      end
  end.

Lemma run_db2 : rtc step empty_DB db2.
Proof.
  apply (rtc_l _ _ db1).
  - eapply (step_create (at_ 1) owner (mkCreateInput "https://hooks.example.com/x" [EventInvoicePaid] "")).
    apply surjective_pairing.
  - apply rtc_once. eapply (step_enqueue (at_ 2) g5 90%N "" 5%N EventInvoicePaid (JNum 1)).
    apply surjective_pairing.
Qed.

Lemma run_claim s db : step db (claim_at s db).
Proof. eapply (step_claim (at_ s) nolock 10). apply surjective_pairing. Qed.
Lemma run_settle s d r db : step db (settle_at s d r db).
Proof. eapply (step_settle (at_ s) d r j0). apply surjective_pairing. Qed.
Lemma run_failing n s db : rtc step db (failing n s db).
Proof.
  revert s db. induction n as [|n IH]; intros s db; cbn; [done|].
  destruct (due_at s db) as [|d l]; [done|].
  eapply rtc_l; [apply run_claim|]. eapply rtc_l; [apply run_settle|]. apply IH.
Qed.

Definition stale : Due := Eval vm_compute in
  match due_at 3 db2 with d :: _ => d | [] => mkDue 0%N 0%N 0%N 0%N "" JNull None 0 "" "" end.
(** The worker holding [stale] stalls; the delivery is reclaimed until it is
    dead, replayed, and claimed again by another worker. *)
Definition db_dead : DB := failing 5 1000 (claim_at 3 db2).
Definition db_replayed : DB := (Replay (at_ 100000) owner (d_ID stale) db_dead).2.
Definition db_taken : DB := claim_at 100001 db_replayed.

(** The attempt number is a fence only between replays: a replay starts it
    over, so the settle of a worker that stalled before it is accepted while
    another worker holds the delivery, and marks it delivered. *)
Theorem replay_reopens_fence :
  rtc step empty_DB db2 /\ stale ∈ due_at 3 db2 /\ rtc step (claim_at 3 db2) db_dead /\
  rtc step db_dead db_replayed /\ length (due_at 100001 db_replayed) = 1%nat /\
  exists r, outbox (settle_at 100002 stale ok200 db_taken) !! d_ID stale = Some r /\
    (Settle (at_ 100002) stale ok200 j0 db_taken).1 = Ok tt /\
    o_State r = StateDelivered /\ o_Replays r = 1.
Proof.
  split_and!; [apply run_db2|assert (due_at 3 db2 = [stale]) as -> by (vm_compute; reflexivity); left|apply run_failing| |vm_compute; reflexivity|].
  - apply rtc_once. eapply (step_replay (at_ 100000) owner (d_ID stale)). apply surjective_pairing.
  - eexists. split_and!; vm_compute; reflexivity.
Qed.

(** ** Witnesses *)

Definition row0 : option OutboxRow := outbox db2 !! 700%N.
Definition row_at (db : DB) : OutboxRow :=
  default (mkOutboxRow 0%N 0%N 0%N "" 0%N JNull None StatePending 0 0 None None None None 0 0) (outbox db !! 700%N).

Lemma outbox_history_witness :
  exists r', outbox (claim_at 3 db2) !! 700%N = Some r' /\ row_le (row_at db2) r' /\ row_wf r' /\
    exists e, endpoints (claim_at 3 db2) !! o_EndpointID r' = Some e /\ ep_TenantID e = o_TenantID r'.
Proof.
  apply (outbox_history db2 (claim_at 3 db2) 700%N (row_at db2)).
  - apply run_db2.
  - apply rtc_once, run_claim.
  - vm_compute. reflexivity.
Defined.

Definition due2 : Due := Eval vm_compute in
  match due_at 100 (claim_at 3 db2) with d :: _ => d | [] => stale end.

Lemma settle_fenced_witness :
  Settle (at_ 101) stale ok200 j0 (claim_at 100 (claim_at 3 db2)) =
  (Err (LeaseLostError 700%N), claim_at 100 (claim_at 3 db2)).
Proof.
  apply (settle_fenced db2 (at_ 3) nolock 10 [stale] (claim_at 3 db2) stale (claim_at 3 db2)
    (at_ 100) nolock 10 [due2] (claim_at 100 (claim_at 3 db2)) due2 (claim_at 100 (claim_at 3 db2))
    (row_at (claim_at 3 db2)) (row_at (claim_at 100 (claim_at 3 db2)))).
  - apply run_db2.
  - vm_compute. reflexivity.
  - left.
  - done.
  - vm_compute. reflexivity.
  - left.
  - reflexivity.
  - done.
  - vm_compute. reflexivity.
  - vm_compute. reflexivity.
  - vm_compute. reflexivity.
Defined.

(** Seven endpoints subscribed, one event, one claim. *)
Fixpoint create_n (n : nat) (db : DB) : DB :=
  match n with
  | O => db
  | S n' => create_n n' (CreateEndpoint
      (mkEnv 1 1 (fun k => N.of_nat (10 * (n + 10) + k)) (fun n => N.of_nat (700 + n)) (fun _ => 7) "") owner
      (mkCreateInput "https://hooks.example.com/x" [EventInvoicePaid] "") db).2
  end.
Lemma run_create n db : rtc step db (create_n n db).
Proof.
  revert db. induction n as [|n IH]; intros db; cbn [create_n]; [done|].
  eapply rtc_l; [eapply step_create, surjective_pairing|apply IH].
Qed.
Definition db7 : DB := (BeginFunc (Enqueue (at_ 2) g5 90%N "" 5%N EventInvoicePaid (JNum 1)) (create_n 7 empty_DB)).2.
Definition seventh : Due := Eval vm_compute in nth 6 (due_at 3 db7) stale.

Lemma slow_batch_loses_leases_witness :
  Settle (at_ 63) seventh ok200 j0 (claim_at 3 db7) =
  (Err (LeaseLostError (d_ID seventh)), claim_at 3 db7).
Proof.
  apply (slow_batch_loses_leases db7 (at_ 3) nolock 10 (due_at 3 db7) (claim_at 3 db7) 6).
  - eapply rtc_r; [apply (run_create 7)|].
    eapply (step_enqueue (at_ 2) g5 90%N "" 5%N EventInvoicePaid (JNum 1)). apply surjective_pairing.
  - vm_compute. reflexivity.
  - vm_compute. reflexivity.
  - lia.
  - by vm_compute.
Defined.

Lemma claimed_row_wf : row_wf (row_at (claim_at 3 db2)).
Proof.
  apply (wf_row (claim_at 3 db2)) with (i := 700%N); [|vm_compute; reflexivity].
  apply (outbox_steps_wf db2); [apply rtc_once, run_claim|]. apply (outbox_steps_wf empty_DB); [apply run_db2|apply outbox_empty_wf].
Qed.

Lemma Settle_outcomes_witness :
  exists r', (Settle (at_ 4) stale bad500 j0 (claim_at 3 db2)).2 =
      set_outbox (<[700%N := r']> (outbox (claim_at 3 db2))) (claim_at 3 db2) /\
    o_Lease r' = None /\ frozen r' = frozen (row_at (claim_at 3 db2)) /\
    o_Attempts r' = o_Attempts (row_at (claim_at 3 db2)) /\
    (Settle (at_ 4) stale bad500 j0 (claim_at 3 db2)).1 = Ok tt /\ o_State r' = StatePending /\
    env_time (at_ 4) + NominalBackoff 1 / 2 <= o_NextAt r' <= env_time (at_ 4) + NominalBackoff 1.
Proof.
  apply (Settle_outcomes (at_ 4) stale bad500 j0 (claim_at 3 db2) (row_at (claim_at 3 db2)) claimed_row_wf);
    try (vm_compute; reflexivity). intros _. by vm_compute.
Defined.

Lemma settle_bad_status_stuck_witness :
  exists e, Settle (at_ 4) stale (mkResult 999 None) j0 (claim_at 3 db2) = (Err e, claim_at 3 db2) /\
    AsPgErr e = Some "23514" /\
    (forall t, (exists l, o_Lease (row_at (claim_at 3 db2)) = Some l /\ l < t) ->
      is_due t (row_at (claim_at 3 db2)) = true).
Proof.
  apply (settle_bad_status_stuck (at_ 4) stale (mkResult 999 None) j0 (claim_at 3 db2) _ claimed_row_wf);
    vm_compute; reflexivity.
Defined.

Lemma claim_liveness_witness :
  exists t, forall env n, t < env_now env -> 0 < n -> Z.of_nat (size (outbox db2)) <= n ->
    exists ds db' d, Claim env (fun _ => false) n db2 = (Ok ds, db') /\ d ∈ ds /\ d_ID d = 700%N /\
      d_Attempt d = o_Attempts (row_at db2) + 1 /\ d_Payload d = o_Payload (row_at db2).
Proof.
  apply (claim_liveness db2 700%N (row_at db2)); [apply run_db2|vm_compute; reflexivity|by vm_compute|by vm_compute].
Defined.

Lemma Enqueue_fans_out_witness :
  known_event EventInvoicePaid = true /\ 1 = Z.of_nat (length (subscribers g5 5%N EventInvoicePaid db1)).
Proof.
  destruct (Enqueue_fans_out (at_ 2) g5 90%N "" 5%N EventInvoicePaid (JNum 1) db1 (Ok 1) db2) as (H1 & H2 & _).
  - vm_compute. reflexivity.
  - split; [exact H1|exact H2].
Defined.
End OutboxDemo.
