(* ===== verification/InvoiceStore.v ===== *)
(** * The invoice repository

    [internal/invoice/store.go] over the tables, constraints and triggers of
    migrations 0008 and 0009. A transaction is one step; its audit entry, its
    event row and its outbox rows are part of the same state, so that committing
    or rolling back concerns all of them. Foreign keys to tenants, users and keys
    are taken as satisfied: the caller is authorized. *)

From S2P Require Import Prelude Apperr Encoding Ids Cursor Db Authz Tenant Paging Invoice.
From S2P Require AuditLog Webhook Outbox.

(** ** Tables *)

Record EventRow := mkEventRow {
  ev_ID : uuid;
  ev_InvoiceID : uuid;
  ev_TenantID : uuid;
  ev_Kind : string;
  ev_From : option string;
  ev_To : option string;
  ev_ActorID : option uuid;
  ev_ActorKind : string;
  ev_At : gotime;
}.

(** Rows of [invoices] carry no lines: their [Items] is empty. [hooks] holds the
    webhook tables and the audit trail. *)
Record DB := mkDB {
  invoices : gmap uuid Invoice;
  items : gmap uuid Item;
  events : list EventRow;
  counters : gmap uuid Z;
  hooks : Outbox.DB;
}.

Definition set_invoices (x : gmap uuid Invoice) (db : DB) : DB := mkDB x (items db) (events db) (counters db) (hooks db).
Definition set_items (x : gmap uuid Item) (db : DB) : DB := mkDB (invoices db) x (events db) (counters db) (hooks db).
Definition set_events (x : list EventRow) (db : DB) : DB := mkDB (invoices db) (items db) x (counters db) (hooks db).
Definition set_counters (x : gmap uuid Z) (db : DB) : DB := mkDB (invoices db) (items db) (events db) x (hooks db).
Definition set_hooks (x : Outbox.DB) (db : DB) : DB := mkDB (invoices db) (items db) (events db) (counters db) x.

Definition with_items (inv : Invoice) (l : list Item) : Invoice :=
  mkInvoice (ID inv) (TenantID inv) (Number inv) (Status inv) (Currency inv) (SubtotalMinor inv) (TaxMinor inv)
    (TotalMinor inv) (Version inv) (CreatedBy inv) (CreatedByKey inv) (IssuedAt inv) (PaidAt inv) (VoidedAt inv)
    (CreatedAt inv) (UpdatedAt inv) l.

(** [time.Time{}] *)
Definition zero_time : gotime := -62135596800 * 1000000000.
Definition MaxInt32 : Z := 2147483647.

(** ** Constraints and triggers *)

Definition number_ok (s : string) : bool :=
  match strip_prefix "INV-" s with
  | Some r => (6 <=? slen r) && str_forall is_digit_b r
  | None => false
  end.
Definition currency_ok (s : string) : bool := (slen s =? 3) && str_forall is_upper_b s.
Definition known_status (s : string) : bool :=
  bool_decide (s ∈ [StatusDraft; StatusOpen; StatusPaid; StatusVoid]).
Definition isSome {A} (o : option A) : bool := match o with Some _ => true | None => false end.

(** [invoices_state_timestamps] *)
Definition timestamps_ok (inv : Invoice) : bool :=
  let issued := isSome (IssuedAt inv) in
  let paid := isSome (PaidAt inv) in
  let voided := isSome (VoidedAt inv) in
  (bool_decide (Status inv = StatusDraft) && negb issued && negb paid && negb voided) ||
  (bool_decide (Status inv = StatusOpen) && issued && negb paid && negb voided) ||
  (bool_decide (Status inv = StatusPaid) && issued && paid && negb voided) ||
  (bool_decide (Status inv = StatusVoid) && voided && negb paid).

Definition invoice_check (inv : Invoice) : bool :=
  number_ok (Number inv) && known_status (Status inv) && currency_ok (Currency inv) &&
  (0 <=? SubtotalMinor inv) && (0 <=? TaxMinor inv) && (0 <=? TotalMinor inv) && (0 <? Version inv) &&
  (TotalMinor inv =? SubtotalMinor inv + TaxMinor inv) &&
  xorb (isSome (CreatedBy inv)) (isSome (CreatedByKey inv)) && timestamps_ok inv.

(** The trigger [invoice_guard]. *)
Definition invoice_guard (old new : Invoice) : bool :=
  (bool_decide (Status old = Status new) ||
   (bool_decide (Status old = StatusDraft) && bool_decide (Status new ∈ [StatusOpen; StatusVoid])) ||
   (bool_decide (Status old = StatusOpen) && bool_decide (Status new ∈ [StatusPaid; StatusVoid]))) &&
  (bool_decide (Status old = StatusDraft) ||
   (bool_decide (Number new = Number old) && bool_decide (Currency new = Currency old) &&
    (SubtotalMinor new =? SubtotalMinor old) && (TaxMinor new =? TaxMinor old) &&
    (TotalMinor new =? TotalMinor old) && bool_decide (CreatedBy new = CreatedBy old) &&
    bool_decide (CreatedByKey new = CreatedByKey old))).

Definition item_check (it : Item) : bool :=
  (0 <=? Position it) && (1 <=? char_length (Description it)) && (char_length (Description it) <=? 500) &&
  (0 <? Quantity it) && (0 <=? UnitPriceMinor it) && (0 <=? LineTotalMinor it) &&
  (LineTotalMinor it =? UnitPriceMinor it * Quantity it).

Definition same_number (t : uuid) (n : string) (db : DB) : bool :=
  existsb (fun inv => bool_decide (TenantID inv = t /\ Number inv = n)) (map_to_list (invoices db)).*2.
Definition same_position (i : uuid) (p : Z) (db : DB) : bool :=
  existsb (fun it => bool_decide (item_InvoiceID it = i /\ Position it = p)) (map_to_list (items db)).*2.

Definition insert_invoice (g : Settings) (inv : Invoice) : SE DB err unit := fun db =>
  if negb (tenant_is g (TenantID inv)) then (Err rls_violation, db)
  else if negb (invoice_check inv) then (Err (check_violation "invoices"), db)
  else if bool_decide (is_Some (invoices db !! ID inv)) || same_number (TenantID inv) (Number inv) db
  then (Err (unique_violation "invoices"), db)
  else (Ok tt, set_invoices (<[ID inv := inv]> (invoices db)) db).

(** The UPDATE of a row already found, trigger first. *)
Definition update_invoice (old new : Invoice) : SE DB err unit := fun db =>
  if MaxInt32 <? Version new then (Err numeric_out_of_range, db)
  else if negb (invoice_guard old new) then (Err (check_violation "invoice_guard"), db)
  else if negb (invoice_check new) then (Err (check_violation "invoices"), db)
  else (Ok tt, set_invoices (<[ID new := new]> (invoices db)) db).

(** The trigger [invoice_items_guard]: a settled parent refuses the write. *)
Definition items_guard (i : uuid) (db : DB) : bool :=
  match invoices db !! i with
  | None => true
  | Some p => bool_decide (Status p = StatusDraft)
  end.

Definition insert_item (g : Settings) (it : Item) : SE DB err unit := fun db =>
  if negb (items_guard (item_InvoiceID it) db) then (Err (check_violation "invoice_items_guard"), db)
  else if negb (tenant_is g (item_TenantID it)) then (Err rls_violation, db)
  else if negb ((Position it <=? MaxInt32) && (Quantity it <=? MaxInt32)) then (Err numeric_out_of_range, db)
  else if negb (item_check it) then (Err (check_violation "invoice_items"), db)
  else if bool_decide (is_Some (items db !! item_ID it)) || same_position (item_InvoiceID it) (Position it) db
  then (Err (unique_violation "invoice_items"), db)
  else match invoices db !! item_InvoiceID it with
       | Some p =>
           if bool_decide (TenantID p = item_TenantID it)
           then (Ok tt, set_items (<[item_ID it := it]> (items db)) db)
           else (Err (fk_violation "invoice_items_invoice_fk"), db)
       | None => (Err (fk_violation "invoice_items_invoice_fk"), db)
       end.

(** The CHECK constraints of [invoice_events], as migration 0009 left them. *)
Definition event_check (e : EventRow) : bool :=
  bool_decide (ev_Kind e ∈ ["created"; "item_added"; "item_removed"; "issued"; "paid"; "voided"]) &&
  match ev_From e with None => true | Some s => known_status s end &&
  match ev_To e with None => true | Some s => known_status s end &&
  bool_decide (ev_ActorKind e ∈ [AuditLog.ActorUser; AuditLog.ActorAPIKey; AuditLog.ActorSystem]) &&
  Bool.eqb (bool_decide (ev_ActorKind e = AuditLog.ActorSystem)) (negb (isSome (ev_ActorID e))) &&
  ((bool_decide (ev_Kind e = "created") && negb (isSome (ev_From e)) && bool_decide (ev_To e = Some StatusDraft)) ||
   (bool_decide (ev_Kind e ∈ ["issued"; "paid"; "voided"]) && isSome (ev_From e) && isSome (ev_To e)) ||
   (bool_decide (ev_Kind e ∈ ["item_added"; "item_removed"]) && negb (isSome (ev_From e)) && negb (isSome (ev_To e)))) &&
  (bool_decide (ev_Kind e ∈ ["created"; "item_added"; "item_removed"]) || bool_decide (ev_From e <> ev_To e)).

Definition insert_event (g : Settings) (e : EventRow) : SE DB err unit := fun db =>
  if negb (tenant_is g (ev_TenantID e)) then (Err rls_violation, db)
  else if negb (event_check e) then (Err (check_violation "invoice_events"), db)
  else if existsb (fun x => bool_decide (ev_ID x = ev_ID e)) (events db)
  then (Err (unique_violation "invoice_events_pkey"), db)
  else match invoices db !! ev_InvoiceID e with
       | Some p =>
           if bool_decide (TenantID p = ev_TenantID e) then (Ok tt, set_events (events db ++ [e]) db)
           else (Err (fk_violation "invoice_events"), db)
       | None => (Err (fk_violation "invoice_events"), db)
       end.

(** ** Statements shared by the operations *)

Section store.
Context `{Unicode} `{UUIDLib} `{Outbox.GoJSON}.
Context (emits : bool) (traceparent : string).   (* [s.events != nil]; the context's traceparent *)

Definition eventPayload (inv : Invoice) : json :=
  JObj [("id", JStr (uuid_String (ID inv))); ("number", JStr (Number inv)); ("status", JStr (Status inv));
        ("currency", JStr (Currency inv)); ("subtotal_minor", JNum (SubtotalMinor inv));
        ("tax_minor", JNum (TaxMinor inv)); ("total_minor", JNum (TotalMinor inv)); ("version", JNum (Version inv));
        ("items", JList ((fun it => JObj [("description", JStr (Description it)); ("quantity", JNum (Quantity it));
             ("unit_price_minor", JNum (UnitPriceMinor it)); ("line_total_minor", JNum (LineTotalMinor it))])
           <$> Items inv))].

Definition auditImage (inv : Invoice) : json :=
  JObj [("id", JStr (uuid_String (ID inv))); ("number", JStr (Number inv)); ("status", JStr (Status inv));
        ("currency", JStr (Currency inv)); ("subtotal_minor", JNum (SubtotalMinor inv));
        ("tax_minor", JNum (TaxMinor inv)); ("total_minor", JNum (TotalMinor inv)); ("version", JNum (Version inv));
        ("item_count", JNum (Z.of_nat (length (Items inv))))].

Definition eventForTransition (t : string) : string :=
  if decide (t = TransitionIssue) then Webhook.EventInvoiceIssued
  else if decide (t = TransitionPay) then Webhook.EventInvoicePaid
  else if decide (t = TransitionVoid) then Webhook.EventInvoiceVoided
  else "".

Definition auditActionFor (t : string) : string :=
  if decide (t = TransitionIssue) then AuditLog.ActionInvoiceIssued
  else if decide (t = TransitionPay) then AuditLog.ActionInvoicePaid
  else if decide (t = TransitionVoid) then AuditLog.ActionInvoiceVoided
  else "invoice.unknown".

Definition emit (env : Env) (g : Settings) (id : uuid) (a : Authorized) (event : string) (inv : Invoice)
    : SE DB err unit :=
  if negb emits then mret tt
  else
    _ ← or_fail (zoom hooks set_hooks
                   (Outbox.Enqueue env g id traceparent (scope a) event (eventPayload inv)))
          (fun e => Wrapf ("invoice: enqueue " +:+ event +:+ ": " +:+ error_text e) e);
    mret tt.

Definition auditInvoice (env : Env) (g : Settings) (id : uuid) (a : Authorized) (action : string) (inv : Invoice)
    (before after : option json) : SE DB err unit :=
  '(actorID, actorKind) ← lift (AuditLog.ActorFromAuthorized a);
  zoom hooks set_hooks
    (Outbox.write_audit env g id
       (AuditLog.mkEntry (TenantID inv) actorID actorKind action "invoice" (Some (ID inv)) before after
          (env_reqid env))).

Definition writeEvent (env : Env) (g : Settings) (id : uuid) (a : Authorized) (inv : Invoice) (kind : string)
    (from to : option string) : SE DB err unit :=
  '(actorID, actorKind) ← lift (AuditLog.ActorFromAuthorized a);
  or_fail (insert_event g (mkEventRow id (ID inv) (TenantID inv) kind from to actorID actorKind (env_now env)))
    (fun e => Wrapf ("invoice: record " +:+ kind +:+ " event: " +:+ error_text e) e).

(** [%06d] of a positive number. *)
Definition pad6 (s : string) : string :=
  String.substring 0 (6 - String.length s) "000000" +:+ s.

Definition number_of (n : Z) : string := "INV-" +:+ pad6 (dec n).

Definition allocateNumber (g : Settings) (t : uuid) : SE DB err string := fun db =>
  if negb (tenant_is g t) then (Err (Wrapf "allocate invoice number: row-level security" rls_violation), db)
  else
    let next := match counters db !! t with None => 2 | Some k => k + 1 end in
    if MaxInt64 <? next
    then (Err (Wrapf "allocate invoice number: bigint out of range" numeric_out_of_range), db)
    else (Ok (number_of (next - 1)), set_counters (<[t := next]> (counters db)) db).

(** The visible row of [WHERE id = $1 AND tenant_id = $2]. *)
Definition find_invoice (g : Settings) (id t : uuid) (db : DB) : option Invoice :=
  inv ← invoices db !! id;
  if tenant_is g (TenantID inv) && bool_decide (TenantID inv = t) then Some inv else None.

Definition item_leb (a b : Item) : bool := Position a <=? Position b.

Definition items_of (g : Settings) (i t : uuid) (db : DB) : list Item :=
  order_by item_leb
    (filter (fun it => tenant_is g (item_TenantID it) /\ item_InvoiceID it = i /\ item_TenantID it = t)
       (map_to_list (items db)).*2).

Definition loadItems (g : Settings) (i t : uuid) : SE DB err (list Item) := fun db => (Ok (items_of g i t db), db).

(** The lines of an invoice as [WHERE invoice_id = $1] sees them. *)
Definition lines_of (g : Settings) (i : uuid) (db : DB) : list Item :=
  filter (fun it => tenant_is g (item_TenantID it) /\ item_InvoiceID it = i) (map_to_list (items db)).*2.

(** ** Create *)

(** Line totals, subtotal and total of a validated request. *)
Definition price (validated : CreateInput) : go_result (list Z * Z * Z) :=
  lineTotals ← mapM (fun it => match LineTotal (in_Quantity it) (in_UnitPriceMinor it) with
                               | Ok t => Ok t
                               | Err e => Err (Invalid "unit_price_minor" (error_text e))
                               end) (in_Items validated);
  subtotal ← match SumTotals lineTotals with
             | Ok s => Ok s
             | Err e => Err (Invalid "items" (error_text e))
             end;
  total ← match InvoiceTotal subtotal (in_TaxMinor validated) with
          | Ok t => Ok t
          | Err e => Err (Invalid "tax_minor" (error_text e))
          end;
  Ok (lineTotals, subtotal, total).

Definition insert_items (env : Env) (g : Settings) (inv : Invoice) (l : list (ItemInput * Z)) : SE DB err (list Item) :=
  for_range 0 l (fun i '(it, lt) =>
    let item := mkItem (env_id env (S (Z.to_nat i))) (ID inv) (TenantID inv) i (in_Description it) (in_Quantity it)
                  (in_UnitPriceMinor it) lt zero_time in
    _ ← or_fail (insert_item g (mkItem (item_ID item) (item_InvoiceID item) (item_TenantID item) (Position item)
                   (Description item) (Quantity item) (UnitPriceMinor item) (LineTotalMinor item) (env_now env)))
          (fun e => Wrapf ("create invoice item " +:+ dec i +:+ ": " +:+ error_text e) e);
    mret item).

(** The invoice a create builds: what the row holds, but for the two timestamps,
    which the column defaults fill in and the struct leaves zero. *)
Definition new_invoice (env : Env) (a : Authorized) (validated : CreateInput) (subtotal total : Z) (number : string)
    (created updated : gotime) : Invoice :=
  mkInvoice (env_id env 0) (scope a) number StatusDraft (in_Currency validated) subtotal (in_TaxMinor validated)
    total 1 (if IsMachine a then None else Some (userID a)) (if IsMachine a then Some (keyID a) else None)
    None None None created updated [].

Definition Create (env : Env) (a : Authorized) (i : CreateInput) : SE DB err Invoice :=
  if negb (Valid a) then throw (Sentinel ErrNoScope)
  else
    validated ← lift (ValidateCreate i);
    '(lineTotals, subtotal, total) ← lift (price validated);
    let n := length (in_Items validated) in
    let base := new_invoice env a validated subtotal total in
    or_fail
      (WithIdentityTx (Identity_of a) (fun g =>
         number ← allocateNumber g (scope a);
         _ ← or_fail (insert_invoice g (base number (env_now env) (env_now env)))
               (fun e => Wrapf ("create invoice: " +:+ error_text e) e);
         inserted ← insert_items env g (base number zero_time zero_time) (zip (in_Items validated) lineTotals);
         let inv := with_items (base number zero_time zero_time) inserted in
         _ ← writeEvent env g (env_id env (1 + n)) a inv "created" None (Some StatusDraft);
         _ ← emit env g (env_id env (2 + n)) a Webhook.EventInvoiceCreated inv;
         _ ← auditInvoice env g (env_id env (3 + n)) a AuditLog.ActionInvoiceCreate inv None (Some (auditImage inv));
         mret inv))
      (fun e => if IsUniqueViolation e
                then Wrapf ("invoice number allocation collided: " +:+ error_text e) e else e).

(** ** Reads *)

Definition Get (a : Authorized) (id : uuid) : SE DB err Invoice :=
  if negb (Valid a) then throw (Sentinel ErrNoScope)
  else
    _ ← lift (ValidateUUID id);
    or_fail
      (WithIdentityTx (Identity_of a) (fun g db =>
         match find_invoice g id (scope a) db with
         | None => (Err (Sentinel PgxErrNoRows), db)
         | Some inv => (its ← loadItems g (ID inv) (TenantID inv); mret (with_items inv its)) db
         end))
      (fun e => if Is e PgxErrNoRows then Sentinel ErrNotFound
                else Wrapf ("get invoice: " +:+ error_text e) e).

Definition inv_key (inv : Invoice) : Key := (CreatedAt inv, ID inv).

Definition List_ (a : Authorized) (status : string) (after : option Cursor.Position) (limit : Z)
    : SE DB err (list Invoice * option Cursor.Position) :=
  if negb (Valid a) then throw (Sentinel ErrNoScope)
  else
    status ← lift (NormalizeStatus status);
    let limit := NormalizePageSize limit in
    out ← or_fail
      (WithIdentityTx (Identity_of a) (fun g db =>
         let rows := filter (fun inv => tenant_is g (TenantID inv) /\ TenantID inv = scope a /\
                                        (status = "" \/ Status inv = status)) (map_to_list (invoices db)).*2 in
         (Ok ((fun inv => with_items inv []) <$> keyset_query inv_key rows after limit), db)))
      (fun e => Wrapf ("list invoices: " +:+ error_text e) e);
    mret (cut_page inv_key out limit).

(** ** Editing a draft *)

Definition with_totals (now : gotime) (subtotal total : Z) (inv : Invoice) : Invoice :=
  mkInvoice (ID inv) (TenantID inv) (Number inv) (Status inv) (Currency inv) subtotal (TaxMinor inv)
    total (Version inv + 1) (CreatedBy inv) (CreatedByKey inv) (IssuedAt inv) (PaidAt inv) (VoidedAt inv)
    (CreatedAt inv) now (Items inv).

(** [SELECT COALESCE(sum(line_total_minor), 0)] *)
Definition sum_lines (g : Settings) (i : uuid) : SE DB err Z := fun db =>
  let s := sum_Z (LineTotalMinor <$> lines_of g i db) in
  if in_int64b s then (Ok s, db)
  else (Err (Wrapf "recompute subtotal: numeric out of range" numeric_out_of_range), db).

(** What follows the sum: the update of the row and its records. [k] is the index
    of the first identifier this part of the call draws. *)
Definition store_totals (env : Env) (g : Settings) (k : nat) (before : Invoice) (a : Authorized)
    (action eventKind : string) (subtotal : Z) : SE DB err Invoice :=
  total ← lift (match InvoiceTotal subtotal (TaxMinor before) with
                | Ok t => Ok t
                | Err e => Err (Invalid "tax_minor" (error_text e))
                end);
  after ← (fun db =>
    match find_invoice g (ID before) (TenantID before) db with
    | Some cur =>
        if decide (Status cur = StatusDraft) then
          match update_invoice cur (with_totals (env_now env) subtotal total cur) db with
          | (Ok _, db') => (Ok (with_totals (env_now env) subtotal total cur), db')
          | (Err e, db') => (Err (Wrapf ("recompute totals: " +:+ error_text e) e), db')
          end
        else (Err (Wrapf ("invoice " +:+ Number before +:+
                          " was issued while its lines were being edited: conflict") (Sentinel ErrConflict)), db)
    | None => (Err (Wrapf ("invoice " +:+ Number before +:+
                           " was issued while its lines were being edited: conflict") (Sentinel ErrConflict)), db)
    end);
  its ← loadItems g (ID after) (TenantID after);
  let after := with_items after its in
  _ ← writeEvent env g (env_id env k) a after eventKind None None;
  _ ← auditInvoice env g (env_id env (S k)) a action after (Some (auditImage before)) (Some (auditImage after));
  mret after.

Definition recomputeTotals (env : Env) (g : Settings) (k : nat) (before : Invoice) (a : Authorized)
    (action eventKind : string) : SE DB err Invoice :=
  subtotal ← sum_lines g (ID before);
  store_totals env g k before a action eventKind subtotal.

Definition not_editable (before : Invoice) : err :=
  Wrapf ("invoice " +:+ Number before +:+ " is " +:+ Status before +:+
         ", so its lines cannot be changed; only a draft may be edited: conflict") (Sentinel ErrConflict).

(** [COALESCE(max(position) + 1, 0)] *)
Definition next_position (l : list Item) : Z :=
  match l with
  | [] => 0
  | x :: rest => foldr (fun it m => Z.max (Position it) m) (Position x) rest + 1
  end.

Definition AddItem (env : Env) (a : Authorized) (id : uuid) (i : ItemInput) : SE DB err Invoice :=
  if negb (Valid a) then throw (Sentinel ErrNoScope)
  else
    _ ← lift (ValidateUUID id);
    validated ← lift (ValidateItem i);
    lineTotal ← lift (match LineTotal (in_Quantity validated) (in_UnitPriceMinor validated) with
                      | Ok t => Ok t
                      | Err e => Err (Invalid "unit_price_minor" (error_text e))
                      end);
    WithIdentityTx (Identity_of a) (fun g db =>
      match find_invoice g id (scope a) db with
      | None => (Err (Sentinel ErrNotFound), db)
      | Some before =>
          if decide (Status before = StatusDraft) then
            (let nextPos := next_position (lines_of g id db) in
             if MaxInt32 <? nextPos
             then throw (Wrapf "find the next item position: integer out of range" numeric_out_of_range)
             else
               _ ← or_fail (insert_item g (mkItem (env_id env 0) id (TenantID before) nextPos (in_Description validated)
                              (in_Quantity validated) (in_UnitPriceMinor validated) lineTotal (env_now env)))
                     (fun e => Wrapf ("add invoice item: " +:+ error_text e) e);
               recomputeTotals env g 1 before a AuditLog.ActionInvoiceItemAdded "item_added") db
          else (Err (not_editable before), db)
      end).

(** DELETE FROM invoice_items: the number of rows removed. *)
Definition delete_item (g : Settings) (item i t : uuid) : SE DB err Z := fun db =>
  match items db !! item with
  | Some it =>
      if tenant_is g (item_TenantID it) && bool_decide (item_InvoiceID it = i) && bool_decide (item_TenantID it = t) then
        if items_guard i db then (Ok 1, set_items (delete item (items db)) db)
        else (Err (check_violation "invoice_items_guard"), db)
      else (Ok 0, db)
  | None => (Ok 0, db)
  end.

Definition RemoveItem (env : Env) (a : Authorized) (invoiceID itemID : uuid) : SE DB err Invoice :=
  if negb (Valid a) then throw (Sentinel ErrNoScope)
  else
    _ ← lift (ValidateUUID invoiceID);
    _ ← lift (ValidateUUID itemID);
    WithIdentityTx (Identity_of a) (fun g db =>
      match find_invoice g invoiceID (scope a) db with
      | None => (Err (Sentinel ErrNotFound), db)
      | Some before =>
          if decide (Status before = StatusDraft) then
            (affected ← or_fail (delete_item g itemID invoiceID (TenantID before))
                          (fun e => Wrapf ("remove invoice item: " +:+ error_text e) e);
             if affected =? 0 then throw (Sentinel ErrNotFound)
             else recomputeTotals env g 0 before a AuditLog.ActionInvoiceItemRemoved "item_removed") db
          else (Err (not_editable before), db)
      end).

(** ** Transition *)

Definition transitioned (now : gotime) (to : string) (inv : Invoice) : Invoice :=
  mkInvoice (ID inv) (TenantID inv) (Number inv) to (Currency inv) (SubtotalMinor inv) (TaxMinor inv)
    (TotalMinor inv) (Version inv + 1) (CreatedBy inv) (CreatedByKey inv)
    (if decide (to = StatusOpen) then Some now else IssuedAt inv)
    (if decide (to = StatusPaid) then Some now else PaidAt inv)
    (if decide (to = StatusVoid) then Some now else VoidedAt inv)
    (CreatedAt inv) now (Items inv).

(** The compare-and-set UPDATE on a row, and the classification when it matches none. *)
Definition cas_transition (env : Env) (g : Settings) (t : string) (before : Invoice) (to : string)
    (expectedVersion : Z) : SE DB err Invoice := fun db =>
  if MaxInt32 <? expectedVersion
  then (Err (Wrapf (t +:+ " invoice: integer out of range") numeric_out_of_range), db)
  else match find_invoice g (ID before) (TenantID before) db with
  | None => (Err (Wrapf ("classify " +:+ t +:+ " failure: no rows in result set") (Sentinel PgxErrNoRows)), db)
  | Some cur =>
      if bool_decide (Version cur = expectedVersion) && bool_decide (Status cur = Status before) then
        match update_invoice cur (transitioned (env_now env) to cur) db with
        | (Ok _, db') => (Ok (transitioned (env_now env) to cur), db')
        | (Err e, db') => (Err (Wrapf (t +:+ " invoice: " +:+ error_text e) e), db')
        end
      else (Err (Wrapf ("this invoice changed while you were acting on it (expected version " +:+
                        dec expectedVersion +:+ ", current version " +:+ dec (Version cur) +:+
                        "); re-read it and retry: version conflict") (Sentinel ErrVersionConflict)), db)
  end.

Definition TransitionInvoice (env : Env) (a : Authorized) (id : uuid) (t : string) (expectedVersion : Z)
    : SE DB err Invoice :=
  if negb (Valid a) then throw (Sentinel ErrNoScope)
  else
    _ ← lift (ValidateUUID id);
    let to := TransitionTo t in
    if decide (to = "") then throw (Invalid "transition" "must be one of issue, pay, void")
    else if expectedVersion <=? 0 then throw (Invalid "expected_version" "must be a positive integer")
    else WithIdentityTx (Identity_of a) (fun g db =>
      match find_invoice g id (scope a) db with
      | None => (Err (Sentinel ErrNotFound), db)
      | Some before =>
          if negb (CanTransition (Status before) to)
          then (Err (Wrapf ("invoice " +:+ Number before +:+ " is " +:+ Status before +:+ " and cannot be " +:+ to
                            +:+ ": conflict") (Sentinel ErrConflict)), db)
          else
            (updated ← cas_transition env g t before to expectedVersion;
             its ← loadItems g (ID updated) (TenantID updated);
             let updated := with_items updated its in
             _ ← writeEvent env g (env_id env 0) a updated t (Some (Status before)) (Some to);
             let event := eventForTransition t in
             if decide (event = "")
             then throw (Plain ("invoice: transition " +:+ fmt_q t +:+
                                " has no event mapped, so this change would notify nobody"))
             else
               _ ← emit env g (env_id env 1) a event updated;
               _ ← auditInvoice env g (env_id env 2) a (auditActionFor t) updated (Some (auditImage before))
                     (Some (auditImage updated));
               mret updated) db
      end).

Definition Binding_of (a : Authorized) (status : string) : Binding :=
  let st := match NormalizeStatus status with Ok s => s | Err _ => "" end in
  mkBinding (scope a) "invoices" (if decide (st = "") then "any" else st).
End store.
