(* ===== verification/InvoiceProps.v ===== *)
(** * Properties of the invoice repository *)

From S2P Require Import Prelude Apperr Encoding Ids Cursor Db Authz Tenant Paging Invoice InvoiceStore.
From S2P Require AuditLog Webhook Outbox.

(** ** Lines and their sum *)

Definition lines (m : gmap uuid Item) (i : uuid) : list Item :=
  filter (fun it => item_InvoiceID it = i) (map_to_list m).*2.
Definition line_sum (m : gmap uuid Item) (i : uuid) : Z := sum_Z (LineTotalMinor <$> lines m i).

#[export] Instance sum_Z_proper : Proper ((≡ₚ) ==> (=)) sum_Z.
Proof.
  induction 1 as [|x l k _ IH|x y l|l1 l2 l3 _ IH1 _ IH2]; unfold sum_Z in *; cbn [foldr]; lia.
Qed.

Lemma lines_insert m it i :
  m !! item_ID it = None ->
  lines (<[item_ID it := it]> m) i ≡ₚ (if decide (item_InvoiceID it = i) then it :: lines m i else lines m i).
Proof.
  intros Hm. unfold lines.
  assert (Hp : (map_to_list (<[item_ID it := it]> m)).*2 ≡ₚ it :: (map_to_list m).*2)
    by by rewrite map_to_list_insert.
  rewrite Hp, filter_cons. by case_decide.
Qed.

Lemma line_sum_insert m it i :
  m !! item_ID it = None ->
  line_sum (<[item_ID it := it]> m) i =
  line_sum m i + (if decide (item_InvoiceID it = i) then LineTotalMinor it else 0).
Proof.
  intros Hm. unfold line_sum. rewrite (lines_insert m it i Hm). case_decide; cbn; [|lia].
  fold (sum_Z (LineTotalMinor <$> lines m i)). lia.
Qed.

Lemma line_sum_delete m it i :
  m !! item_ID it = Some it ->
  line_sum m i = line_sum (delete (item_ID it) m) i + (if decide (item_InvoiceID it = i) then LineTotalMinor it else 0).
Proof.
  intros Hm. rewrite <- (insert_delete_id m (item_ID it) it Hm) at 1.
  apply line_sum_insert. apply lookup_delete_eq.
Qed.

Lemma elem_of_lines m i it :
  it ∈ lines m i <-> item_InvoiceID it = i /\ exists k, m !! k = Some it.
Proof.
  unfold lines. rewrite list_elem_of_filter, list_elem_of_fmap. split.
  - intros [? ([k x] & -> & Hk)]. apply elem_of_map_to_list in Hk. eauto.
  - intros [? [k Hk]]. split; [done|]. exists (k, it). by rewrite elem_of_map_to_list.
Qed.

(** ** The integrity of the tables *)

Record DB_wf (db : DB) : Prop := {
  wf_invoice : forall i inv, invoices db !! i = Some inv ->
    ID inv = i /\ Items inv = [] /\ invoice_check inv = true;
  wf_item : forall i it, items db !! i = Some it ->
    item_ID it = i /\ item_check it = true /\
    exists p, invoices db !! item_InvoiceID it = Some p /\ TenantID p = item_TenantID it;
  wf_subtotal : forall i inv, invoices db !! i = Some inv -> SubtotalMinor inv = line_sum (items db) i;
  wf_number : forall i inv, invoices db !! i = Some inv ->
    exists k n, counters db !! TenantID inv = Some n /\ 1 <= k < n /\ Number inv = number_of k;
  wf_counter : forall t n, counters db !! t = Some n -> 2 <= n;
  wf_unique : forall i j x y, invoices db !! i = Some x -> invoices db !! j = Some y ->
    TenantID x = TenantID y -> Number x = Number y -> i = j;
}.

Lemma zeros_value k s :
  N.of_uint <$> NilEmpty.uint_of_string (String.substring 0 k "000000" +:+ s) = N.of_uint <$> NilEmpty.uint_of_string s.
Proof.
  assert (forall t, N.of_uint <$> NilEmpty.uint_of_string (String "0" t) = N.of_uint <$> NilEmpty.uint_of_string t) as H0.
  { intros t. cbn. by destruct (NilEmpty.uint_of_string t). }
  do 6 (destruct k as [|k]; [cbn [String.substring String.append]; by rewrite ?H0|]).
  destruct k as [|k]; cbn [String.substring String.append]; by rewrite ?H0.
Qed.

(** Numbers are read back from their text, so no two of them are the same. *)
Lemma number_of_inj a b : 0 <= a -> 0 <= b -> number_of a = number_of b -> a = b.
Proof.
  intros Ha Hb Heq. unfold number_of in Heq. apply str_app_inv_l in Heq.
  assert (forall z, 0 <= z -> N.of_uint <$> NilEmpty.uint_of_string (pad6 (dec z)) = Some (Z.to_N z)) as Hv.
  { intros z Hz. assert (dec z = udec (Z.to_N z)) as -> by (unfold dec; destruct (Z.ltb_spec z 0); [lia|]; f_equal; lia).
    pose proof (parse_udec_udec (Z.to_N z)) as Hp. pose proof (udec_nonempty (Z.to_N z)) as Hne.
    assert (N.of_uint <$> NilEmpty.uint_of_string (udec (Z.to_N z)) = Some (Z.to_N z)) as <-.
    { unfold parse_udec, NilZero.uint_of_string in Hp. by destruct (udec (Z.to_N z)). }
    apply zeros_value. }
  pose proof (Hv a Ha) as H1. rewrite Heq, Hv in H1 by done. injection H1. lia.
Qed.

Lemma inv_empty_wf : DB_wf (mkDB ∅ ∅ [] ∅ (Outbox.mkDB ∅ ∅ [])).
Proof. split; cbn; intros *; by rewrite lookup_empty. Qed.

(** ** What each statement did *)

Section effects.
Context `{Unicode} `{UUIDLib} `{Outbox.GoJSON} (emits : bool) (tp : string).

Lemma insert_invoice_Ok g inv db db' :
  insert_invoice g inv db = (Ok tt, db') ->
  invoice_check inv = true /\ invoices db !! ID inv = None /\ same_number (TenantID inv) (Number inv) db = false /\
  db' = set_invoices (<[ID inv := inv]> (invoices db)) db.
Proof.
  unfold insert_invoice. destruct (negb _); [done|]. destruct (invoice_check inv); cbn [negb]; [|done].
  destruct (_ || _) eqn:E; [done|]. intros [= <-]. to_prop. split_and!; try done. by apply eq_None_not_Some.
Qed.

Lemma update_invoice_Ok old new db db' :
  update_invoice old new db = (Ok tt, db') ->
  Version new <= MaxInt32 /\ invoice_guard old new = true /\ invoice_check new = true /\
  db' = set_invoices (<[ID new := new]> (invoices db)) db.
Proof.
  unfold update_invoice. destruct (MaxInt32 <? _) eqn:Ev; [done|].
  destruct (invoice_guard old new); cbn [negb]; [|done].
  destruct (invoice_check new); cbn [negb]; [|done]. intros [= <-]. to_prop. done.
Qed.

Lemma insert_item_Ok g it db db' :
  insert_item g it db = (Ok tt, db') ->
  item_check it = true /\ items db !! item_ID it = None /\
  same_position (item_InvoiceID it) (Position it) db = false /\
  (exists p, invoices db !! item_InvoiceID it = Some p /\ TenantID p = item_TenantID it /\ Status p = StatusDraft) /\
  db' = set_items (<[item_ID it := it]> (items db)) db.
Proof.
  unfold insert_item, items_guard. destruct (invoices db !! item_InvoiceID it) as [p|] eqn:Hp.
  - case_bool_decide as Hst; cbn [negb]; [|done]. destruct (negb _); [done|].
    destruct (negb _); [done|]. destruct (item_check it); cbn [negb]; [|done].
    destruct (_ || _) eqn:E; [done|].
    destruct (bool_decide (TenantID p = _)) eqn:Et; [|done]. intros [= <-]. to_prop.
    split_and!; try done; [by apply eq_None_not_Some|by exists p].
  - cbn [negb]. repeat (case_match; try done).
Qed.

(** What the two recording statements append. *)
Definition recorded (env : Env) (id : uuid) (a : Authorized) (inv : Invoice) (kind : string) (from to : option string)
    (ev ev' : list EventRow) : Prop :=
  exists actor kd, AuditLog.ActorFromAuthorized a = Ok (actor, kd) /\
    ev' = ev ++ [mkEventRow id (ID inv) (TenantID inv) kind from to actor kd (env_now env)].

Definition audited (env : Env) (id : uuid) (a : Authorized) (action : string) (inv : Invoice)
    (before after : option json) (h h' : Outbox.DB) : Prop :=
  exists actor kd, AuditLog.ActorFromAuthorized a = Ok (actor, kd) /\
    h' = Outbox.set_audit (Outbox.audit_log h ++ [AuditLog.row_of env id (AuditLog.mkEntry (TenantID inv) actor kd action
           "invoice" (Some (ID inv)) before after (env_reqid env))]) h.

Lemma writeEvent_Ok env g id a inv kind from to db db' :
  writeEvent env g id a inv kind from to db = (Ok tt, db') ->
  exists ev', recorded env id a inv kind from to (events db) ev' /\ db' = set_events ev' db.
Proof.
  unfold writeEvent. intros Hrun. apply SE_bind_inv in Hrun as ([actor kd] & d1 & HA & Hrun).
  apply lift_Ok in HA as [HA ->]. apply or_fail_Ok in Hrun. unfold insert_event in Hrun.
  destruct (negb _); [done|]. destruct (negb _); [done|]. destruct (existsb _ _); [done|].
  destruct (invoices db !! _); [|done]. case_bool_decide; [|done]. injection Hrun as <-.
  eexists. split; [|done]. by exists actor, kd.
Qed.

Lemma auditInvoice_Ok env g id a action inv before after db db' :
  auditInvoice env g id a action inv before after db = (Ok tt, db') ->
  exists h', audited env id a action inv before after (hooks db) h' /\ db' = set_hooks h' db.
Proof.
  unfold auditInvoice. intros Hrun. apply SE_bind_inv in Hrun as ([actor kd] & d1 & HA & Hrun).
  apply lift_Ok in HA as [HA ->].
  apply zoom_Ok in Hrun as (t & Hw & ->). unfold Outbox.write_audit in Hw.
  apply zoom_Ok in Hw as (u & Hw & ->). apply AuditLog.Write_Ok in Hw as (_ & _ & -> & _).
  eexists. split; [|done]. by exists actor, kd.
Qed.

(** What an emit enqueued. *)
Definition emitted (env : Env) (g : Settings) (id : uuid) (a : Authorized) (event : string) (inv : Invoice)
    (h h' : Outbox.DB) : Prop :=
  if emits then exists n, Outbox.Enqueue env g id tp (scope a) event (eventPayload inv) h = (Ok n, h')
  else h' = h.

Lemma emit_Ok env g id a event inv db db' :
  emit emits tp env g id a event inv db = (Ok tt, db') ->
  exists h', emitted env g id a event inv (hooks db) h' /\ db' = set_hooks h' db.
Proof.
  unfold emit, emitted. destruct emits; cbn [negb].
  - intros Hrun. apply SE_bind_inv in Hrun as (n & d1 & He & Hrun). injection Hrun as <-.
    apply or_fail_Ok, zoom_Ok in He as (t & He & ->). exists t. eauto.
  - intros [= <-]. exists (hooks db). split; [done|]. by destruct db.
Qed.

(** The lines a create inserts. *)
Definition items_ext (m m' : gmap uuid Item) (inv : Invoice) (total : Z) : Prop :=
  (forall i it, m !! i = Some it -> m' !! i = Some it) /\
  (forall i it, m' !! i = Some it -> m !! i = None ->
     item_ID it = i /\ item_check it = true /\ item_InvoiceID it = ID inv /\ item_TenantID it = TenantID inv) /\
  (forall i, line_sum m' i = line_sum m i + (if decide (ID inv = i) then total else 0)).

Lemma items_ext_cons m m' it inv total :
  m !! item_ID it = None -> item_check it = true -> item_InvoiceID it = ID inv -> item_TenantID it = TenantID inv ->
  items_ext (<[item_ID it := it]> m) m' inv total -> items_ext m m' inv (LineTotalMinor it + total).
Proof.
  intros Hm Hc Hi Ht (E1 & E2 & E3). split_and!.
  - intros i x Hx. apply E1. rewrite lookup_insert_ne; [done|]. intros <-. congruence.
  - intros i x Hx Hn. destruct (decide (i = item_ID it)) as [-> | Hne].
    + specialize (E1 (item_ID it) it). rewrite lookup_insert_eq in E1. rewrite E1 in Hx by done.
      injection Hx as <-. done.
    + apply (E2 i x Hx). by rewrite lookup_insert_ne.
  - intros i. rewrite E3, line_sum_insert by done. rewrite Hi. case_decide; lia.
Qed.

(** The row of a requested line, and those of a request from position [k] on. *)
Definition line_row (env : Env) (inv : Invoice) (at_ : gotime) (p : nat) (it : ItemInput) (lt : Z) : Item :=
  mkItem (env_id env (S p)) (ID inv) (TenantID inv) (Z.of_nat p) (in_Description it) (in_Quantity it)
    (in_UnitPriceMinor it) lt at_.
Definition line_rows (env : Env) (inv : Invoice) (at_ : gotime) (k : nat) (l : list (ItemInput * Z)) : list Item :=
  imap (fun p x => line_row env inv at_ (k + p) x.1 x.2) l.

Lemma line_rows_cons env inv at_ k x l :
  line_rows env inv at_ k (x :: l) = line_row env inv at_ k x.1 x.2 :: line_rows env inv at_ (S k) l.
Proof.
  unfold line_rows. cbn [imap]. rewrite Nat.add_0_r. f_equal. apply imap_ext. intros i y _. cbn. by rewrite Nat.add_succ_r.
Qed.

Lemma line_rows_amounts env inv at_ k l : LineTotalMinor <$> line_rows env inv at_ k l = l.*2.
Proof. revert k. induction l as [|x l IH]; intros k; [done|]. rewrite line_rows_cons. cbn. by rewrite IH. Qed.

(** The table [m'] is [m] with the new [rows] and nothing else. *)
Definition stored_lines (m m' : gmap uuid Item) (rows : list Item) : Prop :=
  NoDup (item_ID <$> rows) /\ (forall it, it ∈ rows -> m !! item_ID it = None) /\
  (forall k it, m' !! k = Some it <-> m !! k = Some it \/ (it ∈ rows /\ item_ID it = k)).

Lemma stored_lines_nil m : stored_lines m m [].
Proof. split_and!; [constructor|by intros it ?%elem_of_nil|]. intros k it. split; [by left|]. by intros [?|[?%elem_of_nil _]]. Qed.

Lemma stored_lines_cons m m' it rows :
  m !! item_ID it = None -> stored_lines (<[item_ID it := it]> m) m' rows -> stored_lines m m' (it :: rows).
Proof.
  intros Hm (Hnd & Hfr & Hk).
  assert (Hother : forall x, x ∈ rows -> item_ID x <> item_ID it).
  { intros x Hx He. specialize (Hfr x Hx). by rewrite He, lookup_insert_eq in Hfr. }
  split_and!.
  - rewrite fmap_cons, NoDup_cons. split; [|done]. intros (x & He & Hx)%list_elem_of_fmap. by apply (Hother x Hx).
  - intros x [->|Hx]%elem_of_cons; [done|]. specialize (Hfr x Hx). rewrite lookup_insert_ne in Hfr; [done|].
    intros He. by apply (Hother x Hx).
  - intros k x. rewrite Hk, lookup_insert_Some, elem_of_cons. split.
    + intros [[[<- <-]|[_ ?]]|[? ?]]; [right; auto|by left|right; auto].
    + intros [Hx|[[->|Hx] He]]; [left; right; split; [congruence|done]|left; left; auto|right; auto].
Qed.

Lemma insert_items_Ok env g inv k l db r db' :
  for_range (Z.of_nat k) l (fun i '(it, lt) =>
    let item := mkItem (env_id env (S (Z.to_nat i))) (ID inv) (TenantID inv) i (in_Description it) (in_Quantity it)
                  (in_UnitPriceMinor it) lt zero_time in
    _ ← or_fail (insert_item g (mkItem (item_ID item) (item_InvoiceID item) (item_TenantID item) (Position item)
                   (Description item) (Quantity item) (UnitPriceMinor item) (LineTotalMinor item) (env_now env)))
          (fun e => Wrapf ("create invoice item " +:+ dec i +:+ ": " +:+ error_text e) e);
    mret item) db = (Ok r, db') ->
  r = line_rows env inv zero_time k l /\
  exists m', db' = set_items m' db /\ stored_lines (items db) m' (line_rows env inv (env_now env) k l) /\
    items_ext (items db) m' inv (sum_Z l.*2).
Proof.
  revert k db r. induction l as [|[it lt] l IH]; intros k db r; cbn [for_range].
  - intros [= <- <-]. split; [done|]. exists (items db). split_and!; [by destruct db|apply stored_lines_nil|].
    split_and!; [done|congruence|]. intros i. case_decide; cbn; lia.
  - intros Hrun. apply SE_bind_inv in Hrun as (x & d1 & Hx & Hrun).
    apply SE_bind_inv in Hrun as (r' & d2 & Hr & Hrun). injection Hrun as <- <-.
    apply SE_bind_inv in Hx as ([] & d3 & Hx & Hm). injection Hm as <- <-.
    apply or_fail_Ok, insert_item_Ok in Hx as (Hc & Hfresh & _ & _ & ->). cbn in Hc, Hfresh. rewrite Nat2Z.id in *.
    replace (Z.of_nat k + 1) with (Z.of_nat (S k)) in Hr by lia.
    destruct (IH _ _ _ Hr) as (-> & m' & -> & Hst & Hext). rewrite !line_rows_cons. split; [done|].
    exists m'. split; [done|]. cbn in Hext, Hst. fold (sum_Z l.*2). split.
    + exact (stored_lines_cons _ _ (line_row env inv (env_now env) k it lt) _ Hfresh Hst).
    + exact (items_ext_cons _ _ (line_row env inv (env_now env) k it lt) inv _ Hfresh Hc eq_refl eq_refl Hext).
Qed.

Lemma find_invoice_Some g i t db inv :
  find_invoice g i t db = Some inv <->
  invoices db !! i = Some inv /\ SettingTenantID g = Some t /\ TenantID inv = t.
Proof.
  unfold find_invoice, mbind, option_bind, tenant_is. destruct (invoices db !! i) as [x|]; [|naive_solver].
  destruct (bool_decide (SettingTenantID g = _)) eqn:E1; destruct (bool_decide (TenantID x = t)) eqn:E2; to_prop;
    cbn; naive_solver.
Qed.

(** What the three closing statements of an operation leave alone. *)
Lemma set_hooks_events_tables h e db :
  let db' := set_hooks h (set_events e db) in
  invoices db' = invoices db /\ items db' = items db /\ counters db' = counters db.
Proof. done. Qed.

Lemma allocateNumber_Ok g t db n db' :
  allocateNumber g t db = (Ok n, db') ->
  exists k, k = match counters db !! t with None => 1 | Some k => k end /\ k < MaxInt64 /\
    n = number_of k /\ db' = set_counters (<[t := k + 1]> (counters db)) db.
Proof.
  unfold allocateNumber. destruct (negb _); [done|]. destruct (MaxInt64 <? _) eqn:E; [done|].
  intros [= <- <-]. to_prop. eexists. split; [done|]. destruct (counters db !! t) as [k|].
  - split_and!; [lia| |done]. f_equal. lia.
  - split_and!; [done|done|done].
Qed.

(** ** Pricing *)

Definition line_amount (it : ItemInput) : Z := in_Quantity it * in_UnitPriceMinor it.

Lemma line_totals_Ok items lts :
  Forall (fun it => 0 < in_Quantity it <= MaxQuantity /\ 0 <= in_UnitPriceMinor it <= MaxUnitPriceMinor) items ->
  mapM (fun it => match LineTotal (in_Quantity it) (in_UnitPriceMinor it) with
                  | Ok t => Ok t
                  | Err e => Err (Invalid "unit_price_minor" (error_text e))
                  end) items = Ok lts <->
  lts = line_amount <$> items.
Proof.
  intros Hit. revert lts. induction Hit as [|it l [Hq Hp] _ IH]; intros lts; cbn.
  - split; [by intros [= <-]|by intros ->].
  - assert (LineTotal (in_Quantity it) (in_UnitPriceMinor it) = Ok (line_amount it)) as ->.
    { unfold MaxQuantity, MaxUnitPriceMinor, line_amount in *.
      apply LineTotal_Ok; unfold in_int64, MinInt64, MaxInt64; [lia..|]. split_and!; try lia. nia. }
    cbn. split.
    + intros Hb. apply bind_Ok in Hb as (r & Hr & <-%Ok_inj). apply IH in Hr as ->. done.
    + intros ->. rewrite bind_Ok. exists (line_amount <$> l). split; [by apply IH|done].
Qed.

Lemma line_amounts_nonneg items :
  Forall (fun it => 0 < in_Quantity it <= MaxQuantity /\ 0 <= in_UnitPriceMinor it <= MaxUnitPriceMinor) items ->
  Forall (fun x => 0 <= x <= MaxQuantity * MaxUnitPriceMinor) (line_amount <$> items).
Proof.
  intros Hit. apply Forall_fmap. eapply Forall_impl; [exact Hit|]. intros it [Hq Hp]. cbn. unfold line_amount.
  unfold MaxQuantity, MaxUnitPriceMinor in *. nia.
Qed.

Lemma CreateInput_amounts j :
  CreateInput_ok j ->
  Forall (fun it => 0 < in_Quantity it <= MaxQuantity /\ 0 <= in_UnitPriceMinor it <= MaxUnitPriceMinor) (in_Items j).
Proof. intros (_ & _ & _ & Hf). eapply Forall_impl; [exact Hf|]. naive_solver. Qed.

Lemma price_Ok j lts sub tot :
  CreateInput_ok j ->
  price j = Ok (lts, sub, tot) <->
  lts = line_amount <$> in_Items j /\ sub = sum_Z (line_amount <$> in_Items j) /\
  tot = sub + in_TaxMinor j /\ tot <= MaxInt64.
Proof.
  intros Hj. pose proof (CreateInput_amounts j Hj) as Hf. pose proof (line_amounts_nonneg _ Hf) as Hn.
  destruct Hj as (_ & Ht & _ & _).
  assert (Forall (fun x => 0 <= x) (line_amount <$> in_Items j)) as Hpos by (eapply Forall_impl; [exact Hn|naive_solver]).
  assert (Forall in_int64 (line_amount <$> in_Items j)) as H64.
  { eapply Forall_impl; [exact Hn|]. intros x Hx. cbn in Hx.
    unfold MaxQuantity, MaxUnitPriceMinor, in_int64, MinInt64, MaxInt64 in *. lia. }
  pose proof (sum_Z_nonneg _ Hpos) as Hs0.
  assert (0 <= in_TaxMinor j <= MaxInt64) as Htax by (unfold MaxTaxMinor, MaxInt64 in *; lia).
  assert (in_int64 (in_TaxMinor j)) as Ht64 by (unfold in_int64, MinInt64, MaxInt64 in *; lia).
  unfold price. split.
  - intros Hp. apply bind_Ok in Hp as (r & Hr & Hp). apply line_totals_Ok in Hr as ->; [|done].
    apply bind_Ok in Hp as (s & Hs & Hp). destruct (SumTotals _) eqn:Es; [|done]. apply Ok_inj in Hs as ->.
    apply bind_Ok in Hp as (t & Htot & Hp). destruct (InvoiceTotal _ _) eqn:Et; [|done]. apply Ok_inj in Htot as ->.
    apply Ok_inj in Hp. injection Hp as <- <- <-.
    apply SumTotals_from_Ok in Es as (_ & Hle & ->); [|done..]. cbn in *.
    apply InvoiceTotal_Ok in Et; [|unfold in_int64, MinInt64; lia|done]. intuition lia.
  - intros (-> & -> & -> & Hle). rewrite bind_Ok. eexists. split; [by apply line_totals_Ok|].
    rewrite bind_Ok. exists (sum_Z (line_amount <$> in_Items j)).
    assert (SumTotals (line_amount <$> in_Items j) = Ok (sum_Z (line_amount <$> in_Items j))) as ->.
    { apply SumTotals_from_Ok; [done..|]. split_and!; [done|lia|lia]. }
    split; [done|]. rewrite bind_Ok. eexists.
    assert (InvoiceTotal (sum_Z (line_amount <$> in_Items j)) (in_TaxMinor j) =
            Ok (sum_Z (line_amount <$> in_Items j) + in_TaxMinor j)) as ->.
    { apply InvoiceTotal_Ok; [unfold in_int64, MinInt64; lia|done|]. lia. }
    done.
Qed.

(** ** What each operation did *)

Lemma Create_Ok env a i db inv db' :
  Create emits tp env a i db = (Ok inv, db') ->
  exists j sub tot k its m' ev' h1 h2,
    Valid a = true /\ ValidateCreate i = Ok j /\ sub = sum_Z (line_amount <$> in_Items j) /\ tot = sub + in_TaxMinor j /\
    k = match counters db !! scope a with None => 1 | Some k => k end /\
    let row := new_invoice env a j sub tot (number_of k) in
    inv = with_items (row zero_time zero_time) its /\
    its = line_rows env (row zero_time zero_time) zero_time 0 (zip (in_Items j) (line_amount <$> in_Items j)) /\
    stored_lines (items db) m'
      (line_rows env (row zero_time zero_time) (env_now env) 0 (zip (in_Items j) (line_amount <$> in_Items j))) /\
    invoice_check (row (env_now env) (env_now env)) = true /\ invoices db !! env_id env 0 = None /\
    items_ext (items db) m' (row zero_time zero_time) sub /\
    recorded env (env_id env (1 + length (in_Items j))) a inv "created" None (Some StatusDraft) (events db) ev' /\
    emitted env (settings_of (Identity_of a)) (env_id env (2 + length (in_Items j))) a Webhook.EventInvoiceCreated inv
      (hooks db) h1 /\
    audited env (env_id env (3 + length (in_Items j))) a AuditLog.ActionInvoiceCreate inv None (Some (auditImage inv))
      h1 h2 /\
    db' = mkDB (<[env_id env 0 := row (env_now env) (env_now env)]> (invoices db)) m' ev'
            (<[scope a := k + 1]> (counters db)) h2.
Proof.
  unfold Create. destruct (Valid a) eqn:Hv; cbn [negb]; [|done]. intros Hrun.
  apply SE_bind_inv in Hrun as (j & d1 & Hj & Hrun). apply lift_Ok in Hj as [Hj ->].
  pose proof (ValidateCreate_Ok _ _ Hj) as (_ & _ & _ & Hok).
  apply SE_bind_inv in Hrun as ([[lts sub] tot] & d1 & Hp & Hrun). apply lift_Ok in Hp as [Hp ->].
  apply price_Ok in Hp as (-> & Hsub & Htot & _); [|done].
  apply or_fail_Ok, WithIdentityTx_Ok in Hrun. fold (settings_of (Identity_of a)) in Hrun.
  apply SE_bind_inv in Hrun as (n & d1 & Hn & Hrun). apply allocateNumber_Ok in Hn as (k & Hk & _ & -> & ->).
  apply SE_bind_inv in Hrun as ([] & d1 & Hi & Hrun). apply or_fail_Ok, insert_invoice_Ok in Hi as (Hc & Hf & _ & ->).
  apply SE_bind_inv in Hrun as (its & d1 & Hits & Hrun).
  apply (insert_items_Ok env _ _ 0) in Hits as (Hl & m' & -> & Hz & Hext).
  rewrite snd_zip in Hext by (rewrite length_fmap; done). rewrite <- Hsub in Hext.
  apply SE_bind_inv in Hrun as ([] & d1 & He & Hrun). apply writeEvent_Ok in He as (ev' & He & ->).
  apply SE_bind_inv in Hrun as ([] & d1 & Hh & Hrun). apply emit_Ok in Hh as (h1 & Hh & ->).
  apply SE_bind_inv in Hrun as ([] & d1 & Ha & Hrun). apply auditInvoice_Ok in Ha as (h2 & Ha & ->).
  injection Hrun as <- <-. cbn in *.
  exists j, sub, tot, k, its, m', ev', h1, h2. by split_and!.
Qed.

Lemma store_totals_Ok env g k before a action kind sub db inv db' :
  store_totals env g k before a action kind sub db = (Ok inv, db') ->
  exists cur tot ev' h',
    InvoiceTotal sub (TaxMinor before) = Ok tot /\
    find_invoice g (ID before) (TenantID before) db = Some cur /\ Status cur = StatusDraft /\
    let row := with_totals (env_now env) sub tot cur in
    invoice_check row = true /\
    let db1 := set_invoices (<[ID cur := row]> (invoices db)) db in
    inv = with_items row (items_of g (ID cur) (TenantID cur) db1) /\
    recorded env (env_id env k) a inv kind None None (events db) ev' /\
    audited env (env_id env (S k)) a action inv (Some (auditImage before)) (Some (auditImage inv)) (hooks db) h' /\
    db' = set_hooks h' (set_events ev' db1).
Proof.
  unfold store_totals. intros Hrun.
  apply SE_bind_inv in Hrun as (tot & d1 & Ht & Hrun). apply lift_Ok in Ht as [Ht ->].
  destruct (InvoiceTotal _ _) as [tot'|] eqn:Htot; [|done]. apply Ok_inj in Ht as <-.
  apply SE_bind_inv in Hrun as (aft & d1 & Hu & Hrun). destruct (find_invoice _ _ _ _) as [cur|] eqn:Hfind; [|done].
  case_decide as Hd; [|done]. destruct (update_invoice _ _ _) as [[[]|e] d2] eqn:Hup; [|done].
  injection Hu as <- <-. apply update_invoice_Ok in Hup as (_ & _ & Hc & ->).
  apply SE_bind_inv in Hrun as (its & d1 & Hi & Hrun). injection Hi as <- <-.
  apply SE_bind_inv in Hrun as ([] & d1 & He & Hrun). apply writeEvent_Ok in He as (ev' & He & ->).
  apply SE_bind_inv in Hrun as ([] & d1 & Ha & Hrun). apply auditInvoice_Ok in Ha as (h' & Ha & ->).
  injection Hrun as <- <-. by exists cur, tot', ev', h'.
Qed.

Lemma sum_lines_Ok g i db s db' :
  sum_lines g i db = (Ok s, db') -> s = sum_Z (LineTotalMinor <$> lines_of g i db) /\ in_int64 s /\ db' = db.
Proof.
  unfold sum_lines. cbv zeta. destruct (in_int64b _) eqn:Hb; [|done]. apply in_int64b_spec in Hb. by intros [= <- <-].
Qed.

Lemma recomputeTotals_Ok env g k before a action kind db inv db' :
  recomputeTotals env g k before a action kind db = (Ok inv, db') ->
  exists cur sub tot ev' h',
    sub = sum_Z (LineTotalMinor <$> lines_of g (ID before) db) /\
    in_int64 sub /\ InvoiceTotal sub (TaxMinor before) = Ok tot /\
    find_invoice g (ID before) (TenantID before) db = Some cur /\ Status cur = StatusDraft /\
    let row := with_totals (env_now env) sub tot cur in
    invoice_check row = true /\
    let db1 := set_invoices (<[ID cur := row]> (invoices db)) db in
    inv = with_items row (items_of g (ID cur) (TenantID cur) db1) /\
    recorded env (env_id env k) a inv kind None None (events db) ev' /\
    audited env (env_id env (S k)) a action inv (Some (auditImage before)) (Some (auditImage inv)) (hooks db) h' /\
    db' = set_hooks h' (set_events ev' db1).
Proof.
  unfold recomputeTotals. intros Hrun. apply SE_bind_inv in Hrun as (sub & d1 & Hs & Hrun).
  apply sum_lines_Ok in Hs as (Hs & Hb & ->). apply store_totals_Ok in Hrun as (cur & tot & ev' & h' & Hrest).
  by exists cur, sub, tot, ev', h'.
Qed.

Lemma AddItem_Ok env a id i db inv db' :
  AddItem env a id i db = (Ok inv, db') ->
  exists j before, Valid a = true /\ ValidateItem i = Ok j /\
    let g := settings_of (Identity_of a) in
    find_invoice g id (scope a) db = Some before /\ Status before = StatusDraft /\
    let it := mkItem (env_id env 0) id (TenantID before) (next_position (lines_of g id db)) (in_Description j)
                (in_Quantity j) (in_UnitPriceMinor j) (line_amount j) (env_now env) in
    items db !! env_id env 0 = None /\ item_check it = true /\
    recomputeTotals env g 1 before a AuditLog.ActionInvoiceItemAdded "item_added"
      (set_items (<[env_id env 0 := it]> (items db)) db) = (Ok inv, db').
Proof.
  unfold AddItem. destruct (Valid a) eqn:Hv; cbn [negb]; [|done]. intros Hrun.
  apply SE_bind_inv in Hrun as (u & d1 & Hj & Hrun). apply lift_Ok in Hj as [_ ->].
  apply SE_bind_inv in Hrun as (j & d1 & Hj & Hrun). apply lift_Ok in Hj as [Hj ->].
  apply SE_bind_inv in Hrun as (lt & d1 & Hlt & Hrun). apply lift_Ok in Hlt as [Hlt ->].
  apply WithIdentityTx_Ok in Hrun. fold (settings_of (Identity_of a)) in Hrun. cbv beta in Hrun.
  destruct (find_invoice _ _ _ _) as [before|] eqn:Hfind; [|done]. case_decide as Hd; [|done].
  cbv zeta in Hrun. destruct (MaxInt32 <? _); [done|].
  apply SE_bind_inv in Hrun as ([] & d1 & Hi & Hrun). apply or_fail_Ok, insert_item_Ok in Hi as (Hc & Hf & _ & _ & ->).
  assert (lt = line_amount j) as ->.
  { pose proof (ValidateItem_Ok _ _ Hj) as Hv'. destruct (LineTotal _ _) eqn:El in Hlt; [|done]. apply Ok_inj in Hlt as ->.
    assert (mapM (fun it => match LineTotal (in_Quantity it) (in_UnitPriceMinor it) with
                  | Ok t => Ok t
                  | Err e => Err (Invalid "unit_price_minor" (error_text e))
                  end) [j] = Ok [lt]) as Hm by (cbn; by rewrite El).
    apply line_totals_Ok in Hm; [by injection Hm|]. constructor; [|done]. naive_solver. }
  exists j, before. by split_and!.
Qed.

Lemma RemoveItem_Ok env a id item db inv db' :
  RemoveItem env a id item db = (Ok inv, db') ->
  exists before it, Valid a = true /\
    let g := settings_of (Identity_of a) in
    find_invoice g id (scope a) db = Some before /\ Status before = StatusDraft /\
    items db !! item = Some it /\ item_InvoiceID it = id /\
    recomputeTotals env g 0 before a AuditLog.ActionInvoiceItemRemoved "item_removed"
      (set_items (delete item (items db)) db) = (Ok inv, db').
Proof.
  unfold RemoveItem. destruct (Valid a) eqn:Hv; cbn [negb]; [|done]. intros Hrun.
  apply SE_bind_inv in Hrun as (u & d1 & Hj & Hrun). apply lift_Ok in Hj as [_ ->].
  apply SE_bind_inv in Hrun as (w & d1 & Hj & Hrun). apply lift_Ok in Hj as [_ ->].
  apply WithIdentityTx_Ok in Hrun. fold (settings_of (Identity_of a)) in Hrun. cbv beta in Hrun.
  destruct (find_invoice _ _ _ _) as [before|] eqn:Hfind; [|done]. case_decide as Hd; [|done].
  apply SE_bind_inv in Hrun as (n & d1 & Hi & Hrun). apply or_fail_Ok in Hi. unfold delete_item in Hi.
  destruct (items db !! item) as [it|] eqn:Hit.
  - destruct (_ && _) eqn:Hb in Hi.
    + destruct (items_guard _ _); [|done]. injection Hi as <- <-. cbn in Hrun. to_prop.
      exists before, it. by split_and!.
    + injection Hi as <- <-. done.
  - injection Hi as <- <-. done.
Qed.

Lemma TransitionInvoice_Ok env a id t v db inv db' :
  DB_wf db ->
  TransitionInvoice emits tp env a id t v db = (Ok inv, db') ->
  exists before ev' h1 h2, Valid a = true /\
    let g := settings_of (Identity_of a) in let to := TransitionTo t in
    find_invoice g id (scope a) db = Some before /\ Version before = v /\ CanTransition (Status before) to = true /\
    let row := transitioned (env_now env) to before in
    invoice_check row = true /\
    let db1 := set_invoices (<[ID before := row]> (invoices db)) db in
    inv = with_items row (items_of g (ID before) (TenantID before) db1) /\
    recorded env (env_id env 0) a inv t (Some (Status before)) (Some to) (events db) ev' /\
    emitted env g (env_id env 1) a (eventForTransition t) inv (hooks db) h1 /\
    audited env (env_id env 2) a (auditActionFor t) inv (Some (auditImage before)) (Some (auditImage inv)) h1 h2 /\
    db' = set_hooks h2 (set_events ev' db1).
Proof.
  intros Hwf. unfold TransitionInvoice. destruct (Valid a) eqn:Hv; cbn [negb]; [|done]. intros Hrun.
  apply SE_bind_inv in Hrun as (u & d1 & Hj & Hrun). apply lift_Ok in Hj as [_ ->].
  cbv zeta in Hrun. case_decide as Ht; [done|]. destruct (v <=? 0); [done|].
  apply WithIdentityTx_Ok in Hrun. fold (settings_of (Identity_of a)) in Hrun. cbv beta in Hrun.
  destruct (find_invoice _ _ _ _) as [before|] eqn:Hfind; [|done].
  destruct (CanTransition _ _) eqn:Hct; cbn [negb] in Hrun; [|done].
  apply SE_bind_inv in Hrun as (upd & d1 & Hu & Hrun).
  apply find_invoice_Some in Hfind as (Hin & Hg & Hten).
  unfold cas_transition in Hu. destruct (MaxInt32 <? v); [done|].
  destruct (find_invoice _ (ID before) _ _) as [cur|] eqn:Hf2; [|done].
  destruct (bool_decide (Version cur = v) && _) eqn:Hb; [|done]. to_prop.
  destruct (update_invoice _ _ _) as [[[]|e] d2] eqn:Hup; [|done]. injection Hu as <- <-.
  apply update_invoice_Ok in Hup as (_ & _ & Hc & ->).
  apply find_invoice_Some in Hf2 as (Hin2 & _ & _).
  rewrite (proj1 (wf_invoice _ Hwf _ _ Hin)) in Hin2. rewrite Hin in Hin2. injection Hin2 as <-.
  apply SE_bind_inv in Hrun as (its & d1 & Hi & Hrun). injection Hi as <- <-.
  apply SE_bind_inv in Hrun as ([] & d1 & He & Hrun). apply writeEvent_Ok in He as (ev' & He & ->).
  case_decide as Hev; [done|].
  apply SE_bind_inv in Hrun as ([] & d1 & Hh & Hrun). apply emit_Ok in Hh as (h1 & Hh & ->).
  apply SE_bind_inv in Hrun as ([] & d1 & Ha & Hrun). apply auditInvoice_Ok in Ha as (h2 & Ha & ->).
  injection Hrun as <- <-. cbn in *.
  exists before, ev', h1, h2. by split_and!; try (apply find_invoice_Some).
Qed.

Lemma with_identity_Err {A} (f : Settings -> SE DB err A) id db e db' (P : err -> err) :
  or_fail (WithIdentityTx id f) P db = (Err e, db') -> db' = db.
Proof. intros (e' & _ & Hrun)%or_fail_Err. by apply WithIdentityTx_Err in Hrun. Qed.

(** A failed operation leaves the database as it found it. *)
Lemma Create_Err env a i db e db' : Create emits tp env a i db = (Err e, db') -> db' = db.
Proof.
  unfold Create. destruct (negb _); [by intros [= _ <-]|]. unfold mbind, SE_bind, lift.
  destruct (ValidateCreate i) as [j|]; [|by intros [= _ <-]].
  destruct (price j) as [[[lts sub] tot]|]; [|by intros [= _ <-]]. apply with_identity_Err.
Qed.

Lemma AddItem_Err env a id i db e db' : AddItem env a id i db = (Err e, db') -> db' = db.
Proof.
  unfold AddItem. destruct (negb _); [by intros [= _ <-]|]. unfold mbind at 1 2 3, SE_bind at 1 2 3, lift.
  destruct (ValidateUUID id); [|by intros [= _ <-]]. destruct (ValidateItem i) as [j|]; [|by intros [= _ <-]].
  destruct (LineTotal _ _); [|by intros [= _ <-]]. apply WithIdentityTx_Err.
Qed.

Lemma RemoveItem_Err env a id item db e db' : RemoveItem env a id item db = (Err e, db') -> db' = db.
Proof.
  unfold RemoveItem. destruct (negb _); [by intros [= _ <-]|]. unfold mbind at 1 2, SE_bind at 1 2, lift.
  destruct (ValidateUUID id); [|by intros [= _ <-]]. destruct (ValidateUUID item); [|by intros [= _ <-]].
  apply WithIdentityTx_Err.
Qed.

Lemma TransitionInvoice_Err env a id t v db e db' :
  TransitionInvoice emits tp env a id t v db = (Err e, db') -> db' = db.
Proof.
  unfold TransitionInvoice. destruct (negb _); [by intros [= _ <-]|]. unfold mbind at 1, SE_bind at 1, lift.
  destruct (ValidateUUID id); [|by intros [= _ <-]]. case_decide; [by intros [= _ <-]|].
  destruct (v <=? 0); [by intros [= _ <-]|]. apply WithIdentityTx_Err.
Qed.

(** ** Steps of the repository *)

Inductive step : DB -> DB -> Prop :=
  | step_create env a i db res db' : Create emits tp env a i db = (res, db') -> step db db'
  | step_add env a id i db res db' : AddItem env a id i db = (res, db') -> step db db'
  | step_remove env a id item db res db' : RemoveItem env a id item db = (res, db') -> step db db'
  | step_transition env a id t v db res db' : TransitionInvoice emits tp env a id t v db = (res, db') -> step db db'
  | step_hooks h db : step db (set_hooks h db).

(** What one operation may do to one row. *)
Inductive inv_step : Invoice -> Invoice -> Prop :=
  | inv_edited now sub tot inv : Status inv = StatusDraft -> inv_step inv (with_totals now sub tot inv)
  | inv_moved now to inv : CanTransition (Status inv) to = true -> inv_step inv (transitioned now to inv).

Record DB_step (db db' : DB) : Prop := {
  ds_wf : DB_wf db';
  ds_rows : forall i old, invoices db !! i = Some old ->
    exists new, invoices db' !! i = Some new /\ (new = old \/ inv_step old new);
  ds_lines : forall i old, invoices db !! i = Some old -> Status old <> StatusDraft ->
    forall k it, item_InvoiceID it = i -> items db !! k = Some it <-> items db' !! k = Some it;
  ds_events : exists l, events db' = events db ++ l;
}.

Lemma inv_DB_step_refl db : DB_wf db -> DB_step db db.
Proof. intros Hwf. split; [done|eauto|done|]. exists []. by rewrite app_nil_r. Qed.

Lemma line_sum_absent m i : (forall k it, m !! k = Some it -> item_InvoiceID it <> i) -> line_sum m i = 0.
Proof.
  intros Hn. unfold line_sum. assert (lines m i = []) as ->; [|done].
  apply elem_of_nil_inv. intros it (Hi & k & Hk)%elem_of_lines. by apply (Hn k it).
Qed.

(** Storing a changed row [new] of the invoice [old]. *)
Lemma DB_step_row db old new m' ev h :
  DB_wf db -> invoices db !! ID old = Some old -> inv_step old new -> ID new = ID old ->
  invoice_check new = true ->
  (forall k it, m' !! k = Some it -> item_ID it = k /\ item_check it = true /\
     (items db !! k = Some it \/ item_InvoiceID it = ID old /\ item_TenantID it = TenantID old)) ->
  (Status old <> StatusDraft -> m' = items db) ->
  (forall k it, item_InvoiceID it <> ID old -> items db !! k = Some it <-> m' !! k = Some it) ->
  (forall i, i <> ID old -> line_sum m' i = line_sum (items db) i) -> SubtotalMinor new = line_sum m' (ID old) ->
  DB_step db (mkDB (<[ID old := new]> (invoices db)) m' (events db ++ ev) (counters db) h).
Proof.
  intros Hwf Hold Hst Hid Hchk Hm Hfz Hoth Hls Hsub.
  assert (TenantID new = TenantID old /\ Number new = Number old /\ Items new = Items old) as (Ht & Hnum & Hits)
    by (by destruct Hst).
  destruct (wf_invoice _ Hwf _ _ Hold) as (_ & Hnil & _).
  assert (forall i x, <[ID old := new]> (invoices db) !! i = Some x -> exists y, invoices db !! i = Some y /\
            TenantID x = TenantID y /\ Number x = Number y) as Hback.
  { intros i x Hx. apply lookup_insert_Some in Hx as [[<- <-] | [_ Hx]]; [by exists old|by exists x]. }
  split; cbn.
  - split; cbn.
    + intros i inv Hi. apply lookup_insert_Some in Hi as [[<- <-] | [_ Hi]]; [|by apply (wf_invoice _ Hwf)].
      split_and!; congruence.
    + intros i it Hi. destruct (Hm i it Hi) as (Hk & Hc & Hor). split_and!; [done|done|].
      destruct Hor as [Hor | [Hi1 Hi2]].
      * destruct (wf_item _ Hwf _ _ Hor) as (_ & _ & p & Hp & Hpt).
        destruct (decide (item_InvoiceID it = ID old)) as [He | Hne].
        -- rewrite He, lookup_insert_eq. exists new. rewrite He, Hold in Hp. injection Hp as <-. split; congruence.
        -- exists p. by rewrite lookup_insert_ne.
      * rewrite Hi1, lookup_insert_eq. exists new. split; congruence.
    + intros i inv Hi. apply lookup_insert_Some in Hi as [[<- <-] | [Hne Hi]]; [done|].
      rewrite Hls by done. by apply (wf_subtotal _ Hwf).
    + intros i inv Hi. destruct (Hback _ _ Hi) as (y & Hy & -> & ->). by apply (wf_number _ Hwf i).
    + by apply (wf_counter _ Hwf).
    + intros i j x y Hi Hj. destruct (Hback _ _ Hi) as (x' & Hx' & -> & ->). destruct (Hback _ _ Hj) as (y' & Hy' & -> & ->).
      by apply (wf_unique _ Hwf).
  - intros i x Hi. destruct (decide (i = ID old)) as [-> | Hne].
    + rewrite lookup_insert_eq. exists new. split; [done|]. right. rewrite Hold in Hi. by injection Hi as <-.
    + rewrite lookup_insert_ne by done. eauto.
  - intros i x Hi Hnd k it Hit. destruct (decide (i = ID old)) as [-> | Hne].
    + rewrite Hold in Hi. injection Hi as <-. by rewrite Hfz.
    + apply Hoth. congruence.
  - by exists ev.
Qed.

Lemma filter_ext_in {A} (P Q : A -> Prop) `{!forall x, Decision (P x)} `{!forall x, Decision (Q x)} (l : list A) :
  (forall x, x ∈ l -> P x <-> Q x) -> filter P l = filter Q l.
Proof.
  induction l as [|x l IH]; intros Hpq; [done|]. rewrite !filter_cons, IH by (intros; apply Hpq; by right).
  destruct (Hpq x ltac:(left)). case_decide; case_decide; naive_solver.
Qed.

Lemma lines_of_eq g i t (m : gmap uuid Item) db :
  items db = m -> SettingTenantID g = Some t ->
  (forall k it, m !! k = Some it -> item_InvoiceID it = i -> item_TenantID it = t) ->
  lines_of g i db = lines m i.
Proof.
  intros <- Hg Hm. unfold lines_of, lines. apply filter_ext_in. intros it ([k x] & -> & Hk)%list_elem_of_fmap.
  apply elem_of_map_to_list in Hk. cbn. unfold tenant_is. split; [naive_solver|]. intros Hi.
  rewrite (Hm k x Hk Hi), Hg. by rewrite bool_decide_eq_true_2.
Qed.

Lemma item_tenant db i inv : DB_wf db -> invoices db !! i = Some inv ->
  forall k it, items db !! k = Some it -> item_InvoiceID it = i -> item_TenantID it = TenantID inv.
Proof.
  intros Hwf Hinv k it Hk Hi. destruct (wf_item _ Hwf _ _ Hk) as (_ & _ & p & Hp & Ht). congruence.
Qed.

(** An edit of a draft: its lines become [m'], its totals are recomputed. *)
Lemma edit_step env g k before a action kind db m' inv db' :
  DB_wf db -> find_invoice g (ID before) (TenantID before) db = Some before ->
  (forall k it, m' !! k = Some it -> item_ID it = k /\ item_check it = true /\
     (items db !! k = Some it \/ item_InvoiceID it = ID before /\ item_TenantID it = TenantID before)) ->
  (forall k it, item_InvoiceID it <> ID before -> items db !! k = Some it <-> m' !! k = Some it) ->
  (forall i, i <> ID before -> line_sum m' i = line_sum (items db) i) ->
  recomputeTotals env g k before a action kind (set_items m' db) = (Ok inv, db') ->
  DB_step db db'.
Proof.
  intros Hwf Hfind Hm Hoth Hls Hrun.
  apply recomputeTotals_Ok in Hrun as (cur & sub & tot & ev' & h' & Hsub & _ & _ & Hcur & Hst & Hc & _ & Hev & _ & ->).
  assert (find_invoice g (ID before) (TenantID before) (set_items m' db) = Some before) as Hc' by done.
  rewrite Hc' in Hcur. injection Hcur as <-. apply find_invoice_Some in Hfind as (Hin & Hg & _).
  destruct Hev as (actor & kd & _ & ->).
  refine (DB_step_row db before _ m' _ h' Hwf Hin (inv_edited _ _ _ _ Hst) eq_refl Hc Hm _ Hoth Hls _).
  - intros Hne. done.
  - cbn. rewrite Hsub. unfold line_sum. f_equal. f_equal.
    apply (lines_of_eq _ _ (TenantID before)); [done|done|]. intros k' it Hk' Hi.
    destruct (Hm k' it Hk') as (_ & _ & [Hold | [_ ->]]); [|done]. by eapply item_tenant.
Qed.

Lemma AddItem_step env a id i db res db' : AddItem env a id i db = (res, db') -> DB_wf db -> DB_step db db'.
Proof.
  intros Hrun Hwf. destruct res as [inv|e]; [|apply AddItem_Err in Hrun as ->; by apply inv_DB_step_refl].
  apply AddItem_Ok in Hrun as (j & before & _ & _ & Hfind & Hst & Hfresh & Hc & Hrun).
  pose proof Hfind as (Hin & Hg & Ht)%find_invoice_Some. destruct (wf_invoice _ Hwf _ _ Hin) as (<- & _).
  eapply edit_step; [done|rewrite Ht; exact Hfind|..|exact Hrun].
  - intros k it Hk. apply lookup_insert_Some in Hk as [[<- <-] | [_ Hk]].
    + split_and!; [done|done|by right].
    + destruct (wf_item _ Hwf _ _ Hk) as (? & ? & _). split_and!; [done|done|by left].
  - intros k it Hne. destruct (decide (k = env_id env 0)) as [-> | Hk].
    + rewrite Hfresh, lookup_insert_eq. split; [done|]. intros [= <-]. done.
    + by rewrite lookup_insert_ne.
  - intros i' Hne. match goal with |- line_sum (<[_ := ?it]> _) _ = _ => pose proof (line_sum_insert (items db) it i' Hfresh) as Hl end.
    cbn in Hl. rewrite decide_False in Hl by done. rewrite Hl. lia.
Qed.

Lemma RemoveItem_step env a id item db res db' : RemoveItem env a id item db = (res, db') -> DB_wf db -> DB_step db db'.
Proof.
  intros Hrun Hwf. destruct res as [inv|e]; [|apply RemoveItem_Err in Hrun as ->; by apply inv_DB_step_refl].
  apply RemoveItem_Ok in Hrun as (before & it & _ & Hfind & Hst & Hit & Hi & Hrun).
  pose proof Hfind as (Hin & Hg & Ht)%find_invoice_Some. destruct (wf_invoice _ Hwf _ _ Hin) as (<- & _).
  destruct (wf_item _ Hwf _ _ Hit) as (Hid & _).
  eapply edit_step; [done|rewrite Ht; exact Hfind|..|exact Hrun].
  - intros k x Hk. apply lookup_delete_Some in Hk as [_ Hk].
    destruct (wf_item _ Hwf _ _ Hk) as (? & ? & _). split_and!; [done|done|by left].
  - intros k x Hne. rewrite lookup_delete_Some. split; [|naive_solver]. intros Hk. split; [|done]. intros ->. congruence.
  - intros i' Hne. subst item. rewrite (line_sum_delete (items db) it i') by done.
    rewrite decide_False by congruence. lia.
Qed.

Lemma TransitionInvoice_step env a id t v db res db' :
  TransitionInvoice emits tp env a id t v db = (res, db') -> DB_wf db -> DB_step db db'.
Proof.
  intros Hrun Hwf. destruct res as [inv|e]; [|apply TransitionInvoice_Err in Hrun as ->; by apply inv_DB_step_refl].
  apply TransitionInvoice_Ok in Hrun as (before & ev' & h1 & h2 & _ & Hfind & _ & Hct & Hc & _ & Hev & _ & _ & ->); [|done].
  pose proof Hfind as (Hin & Hg & Ht)%find_invoice_Some. destruct (wf_invoice _ Hwf _ _ Hin) as (<- & _).
  destruct Hev as (actor & kd & _ & ->).
  refine (DB_step_row db before _ (items db) _ h2 Hwf Hin (inv_moved _ _ _ Hct) eq_refl Hc _ _ _ _ _).
  - intros k it Hk. destruct (wf_item _ Hwf _ _ Hk) as (? & ? & _). split_and!; [done|done|by left].
  - done.
  - done.
  - done.
  - exact (wf_subtotal _ Hwf _ _ Hin).
Qed.

Lemma number_fresh db t i inv : DB_wf db -> invoices db !! i = Some inv -> TenantID inv = t ->
  Number inv <> number_of (match counters db !! t with None => 1 | Some k => k end).
Proof.
  intros Hwf Hi <-. destruct (wf_number _ Hwf _ _ Hi) as (k & n & Hn & Hk & ->). rewrite Hn.
  intros Heq. apply number_of_inj in Heq; lia.
Qed.

Lemma next_positive db t : DB_wf db -> 1 <= match counters db !! t with None => 1 | Some k => k end.
Proof. intros Hwf. destruct (counters db !! t) as [k|] eqn:Hk; [|lia]. pose proof (wf_counter _ Hwf _ _ Hk). lia. Qed.

Lemma Create_step env a i db res db' : Create emits tp env a i db = (res, db') -> DB_wf db -> DB_step db db'.
Proof.
  intros Hrun Hwf. destruct res as [inv|e]; [|apply Create_Err in Hrun as ->; by apply inv_DB_step_refl].
  apply Create_Ok in Hrun as (j & sub & tot & k & its & m' & ev' & h1 & h2 & _ & Hj & Hsub & _ & Hk & _ & _ & _ &
    Hc & Hfresh & (Hold & Hnew & Hls) & (actor & kd & _ & ->) & _ & _ & ->).
  unfold Scope in *.
  set (row := new_invoice env a j sub tot (number_of k) (env_now env) (env_now env)) in *.
  assert (forall i x, invoices db !! i = Some x -> i <> env_id env 0) as Hne by congruence.
  assert (1 <= k) as Hk1 by (rewrite Hk; by apply next_positive).
  split; cbn.
  - split; cbn.
    + intros i' x Hx. apply lookup_insert_Some in Hx as [[<- <-] | [_ Hx]]; [done|by apply (wf_invoice _ Hwf)].
    + intros i' it Hi'. destruct (items db !! i') as [it'|] eqn:Hit.
      * rewrite (Hold _ _ Hit) in Hi'. injection Hi' as ->. destruct (wf_item _ Hwf _ _ Hit) as (? & ? & p & Hp & ?).
        split_and!; [done|done|]. exists p. rewrite lookup_insert_ne; [done|]. intros Heq. by apply (Hne _ _ Hp).
      * destruct (Hnew _ _ Hi' Hit) as (? & ? & Hi1 & Hi2). split_and!; [done|done|]. exists row.
        rewrite Hi1. cbn. by rewrite lookup_insert_eq.
    + intros i' x Hx. rewrite Hls. cbn. apply lookup_insert_Some in Hx as [[<- <-] | [Hn Hx]].
      * rewrite decide_True, line_sum_absent by (intros; try intros Heq;
          destruct (wf_item _ Hwf _ _ H2) as (_ & _ & p & Hp & _) || done; congruence). done.
      * rewrite decide_False by done. rewrite (wf_subtotal _ Hwf _ _ Hx). lia.
    + intros i' x Hx. apply lookup_insert_Some in Hx as [[<- <-] | [_ Hx]].
      * cbn. rewrite lookup_insert_eq. exists k, (k + 1). split_and!; [done|lia..|done].
      * destruct (wf_number _ Hwf _ _ Hx) as (k' & n & Hn & Hk' & Hnum).
        destruct (decide (TenantID x = scope a)) as [Ht | Ht].
        -- rewrite Ht, lookup_insert_eq. exists k', (k + 1). rewrite Ht in Hn. rewrite Hn in Hk. subst k.
           split_and!; [done|lia..|done].
        -- rewrite lookup_insert_ne by done. eauto.
    + intros t n Hn. apply lookup_insert_Some in Hn as [[<- <-] | [_ Hn]]; [|by apply (wf_counter _ Hwf t)].
      lia.
    + intros i1 i2 x y Hx Hy Ht Hnum.
      apply lookup_insert_Some in Hx as [[<- <-] | [_ Hx]]; apply lookup_insert_Some in Hy as [[<- <-] | [_ Hy]]; [done|..].
      * exfalso. cbn in Ht, Hnum. subst k. by eapply (number_fresh db (scope a) _ _ Hwf Hy).
      * exfalso. cbn in Ht, Hnum. subst k. by eapply (number_fresh db (scope a) _ _ Hwf Hx).
      * by apply (wf_unique _ Hwf _ _ x y).
  - intros i' x Hx. exists x. rewrite lookup_insert_ne by (intros <-; by eapply Hne). eauto.
  - intros i' x Hx _ k' it Hit. split; [apply Hold|]. intros Hk'.
    destruct (items db !! k') as [y|] eqn:Hy; [by rewrite (Hold _ _ Hy) in Hk'|].
    destruct (Hnew _ _ Hk' Hy) as (_ & _ & Hi1 & _). cbn in Hi1. exfalso. apply (Hne _ _ Hx). congruence.
  - eauto.
Qed.

Lemma inv_step_DB_step db db' : step db db' -> DB_wf db -> DB_step db db'.
Proof.
  intros [] Hwf; eauto using Create_step, AddItem_step, RemoveItem_step, TransitionInvoice_step.
  destruct Hwf. split; [by split|eauto|done|]. exists []. by rewrite app_nil_r.
Qed.

Lemma inv_steps_wf db db' : rtc step db db' -> DB_wf db -> DB_wf db'.
Proof. induction 1 as [|x y z Hxy _ IH]; [done|]. intros Hwf. apply IH. by apply (inv_step_DB_step _ _ Hxy). Qed.

Lemma inv_step_version x y : inv_step x y -> Version y = Version x + 1.
Proof. by intros []. Qed.

Lemma inv_step_fixed x y : inv_step x y ->
  ID y = ID x /\ TenantID y = TenantID x /\ Number y = Number x /\ Currency y = Currency x /\
  TaxMinor y = TaxMinor x /\ CreatedBy y = CreatedBy x /\ CreatedByKey y = CreatedByKey x /\ CreatedAt y = CreatedAt x.
Proof. by intros []. Qed.

Lemma inv_step_frozen x y : inv_step x y -> Status x <> StatusDraft ->
  Status y <> StatusDraft /\ SubtotalMinor y = SubtotalMinor x /\ TotalMinor y = TotalMinor x.
Proof.
  intros [now sub tot inv Hd|now to inv Hc] Hnd; [done|]. cbn. split_and!; [|done..].
  apply CanTransition_spec in Hc. unfold StatusDraft, StatusOpen, StatusPaid, StatusVoid in *. intuition congruence.
Qed.

Lemma inv_step_terminal x y : inv_step x y -> Terminal x = true -> False.
Proof.
  unfold Terminal. rewrite bool_decide_eq_true. intros [now sub tot inv Hd|now to inv Hc] Ht.
  - unfold StatusDraft, StatusPaid, StatusVoid in *. intuition congruence.
  - apply CanTransition_spec in Hc. unfold StatusDraft, StatusOpen, StatusPaid, StatusVoid in *. intuition congruence.
Qed.

(** The rows and the lines of a settled invoice, over any number of operations. *)
Lemma inv_steps_row db db' i old :
  rtc step db db' -> DB_wf db -> invoices db !! i = Some old ->
  exists n new, invoices db' !! i = Some new /\ nsteps inv_step n old new /\
    (Status old <> StatusDraft ->
     forall k it, item_InvoiceID it = i -> items db !! k = Some it <-> items db' !! k = Some it).
Proof.
  intros Hs. revert old. induction Hs as [x|x y z Hxy _ IH]; intros old Hwf Hi.
  - exists 0%nat, old. split_and!; [done|constructor|done].
  - pose proof (inv_step_DB_step _ _ Hxy Hwf) as [Hwf' Hrows Hlines _].
    destruct (Hrows _ _ Hi) as (mid & Hmid & Hor). destruct (IH mid Hwf' Hmid) as (n & new & Hnew & Hn & Hl).
    assert (Status old <> StatusDraft -> Status mid <> StatusDraft) as Hmd.
    { intros Hnd. destruct Hor as [-> | Hst]; [done|]. by apply (inv_step_frozen _ _ Hst). }
    destruct Hor as [-> | Hst]; [exists n, new|exists (S n), new]; (split_and!; [done| |]).
    1,3: by eauto using nsteps_l.
    all: intros Hnd k it Hit; rewrite (Hlines _ _ Hi Hnd k it Hit); by apply Hl; auto.
Qed.

Lemma nsteps_facts n x y : nsteps inv_step n x y ->
  Version y = Version x + Z.of_nat n /\
  (ID y = ID x /\ TenantID y = TenantID x /\ Number y = Number x /\ Currency y = Currency x /\
   TaxMinor y = TaxMinor x /\ CreatedBy y = CreatedBy x /\ CreatedByKey y = CreatedByKey x /\ CreatedAt y = CreatedAt x) /\
  (Status x <> StatusDraft -> Status y <> StatusDraft /\ SubtotalMinor y = SubtotalMinor x /\ TotalMinor y = TotalMinor x) /\
  (Terminal x = true -> y = x).
Proof.
  induction 1 as [x|n x y z Hst _ (IH1 & IH2 & IH3 & IH4)]; [split_and!; try done; lia|].
  pose proof (inv_step_version _ _ Hst). pose proof (inv_step_fixed _ _ Hst) as Hf.
  split_and!; [lia|intuition congruence..| |].
  - intros Hnd. destruct (inv_step_frozen _ _ Hst Hnd) as (Hnd' & <- & <-). by apply IH3.
  - intros Ht. by destruct (inv_step_terminal _ _ Hst Ht).
Qed.

(** ** The properties *)

Definition empty_DB : DB := mkDB ∅ ∅ [] ∅ (Outbox.mkDB ∅ ∅ []).

(** What the integrity of the tables says of an invoice. *)
Lemma integrity_of_wf db i inv :
  DB_wf db -> invoices db !! i = Some inv ->
  SubtotalMinor inv = line_sum (items db) i /\ TotalMinor inv = SubtotalMinor inv + TaxMinor inv /\
  timestamps_ok inv = true /\ known_status (Status inv) = true /\
  (forall it, it ∈ lines (items db) i ->
     LineTotalMinor it = UnitPriceMinor it * Quantity it /\ 0 < Quantity it /\ 0 <= LineTotalMinor it /\
     item_TenantID it = TenantID inv).
Proof.
  intros Hwf Hi. destruct (wf_invoice _ Hwf _ _ Hi) as (_ & _ & Hc). unfold invoice_check in Hc. to_prop.
  split_and!; [by apply (wf_subtotal _ Hwf)|done..|].
  intros it (Hit & k & Hk)%elem_of_lines. destruct (wf_item _ Hwf _ _ Hk) as (_ & Hci & _).
  unfold item_check in Hci. to_prop. split_and!; [done..|]. by eapply item_tenant.
Qed.

(** C12: The life of an invoice: it is never deleted; its number, currency, tax and
    author never change; its version counts the operations that touched it, each
    of which edited a draft or followed an edge of the lifecycle; once issued its
    money and its lines are frozen; once paid or void it never changes again. *)
Theorem invoice_history db db' i old :
  rtc step empty_DB db -> rtc step db db' -> invoices db !! i = Some old ->
  exists n new, invoices db' !! i = Some new /\ nsteps inv_step n old new /\
    Version new = Version old + Z.of_nat n /\
    TenantID new = TenantID old /\ Number new = Number old /\ Currency new = Currency old /\
    TaxMinor new = TaxMinor old /\ CreatedBy new = CreatedBy old /\ CreatedByKey new = CreatedByKey old /\
    (Status old <> StatusDraft ->
       SubtotalMinor new = SubtotalMinor old /\ TotalMinor new = TotalMinor old /\
       forall k it, item_InvoiceID it = i -> items db !! k = Some it <-> items db' !! k = Some it) /\
    (Terminal old = true -> new = old).
Proof.
  intros H0' Hs Hi. pose proof (inv_steps_wf _ _ H0' inv_empty_wf) as Hwf.
  destruct (inv_steps_row _ _ _ _ Hs Hwf Hi) as (n & new & Hnew & Hn & Hl).
  destruct (nsteps_facts _ _ _ Hn) as (Hv & Hf & Hd & Ht).
  exists n, new. split_and!; try done; try (by intuition congruence).
Qed.

(** Invoice numbers identify an invoice of a tenant, and the counter never hands
    out one that is taken: the unique index is not what a create relies on. *)
Theorem invoice_numbers db :
  rtc step empty_DB db ->
  (forall i j x y, invoices db !! i = Some x -> invoices db !! j = Some y ->
     TenantID x = TenantID y -> Number x = Number y -> i = j) /\
  (forall g t n db', allocateNumber g t db = (Ok n, db') -> same_number t n db' = false /\
     forall g' m db'', allocateNumber g' t db' = (Ok m, db'') -> m <> n).
Proof.
  intros Hs. pose proof (inv_steps_wf _ _ Hs inv_empty_wf) as Hwf. split; [by apply (wf_unique _ Hwf)|].
  intros g t n db' Ha. apply allocateNumber_Ok in Ha as (k & Hk & _ & -> & ->). split.
  - apply existsb_false_forall. intros x ([i y] & -> & Hi)%list_elem_of_fmap. apply elem_of_map_to_list in Hi.
    apply bool_decide_eq_false. intros [Ht Hn]. cbn in *. subst k. by apply (number_fresh db t i y Hwf Hi).
  - intros g' m db'' Ha. apply allocateNumber_Ok in Ha as (k' & Hk' & _ & -> & _). cbn in Hk'.
    rewrite lookup_insert_eq in Hk'. subst k'. pose proof (next_positive db t Hwf) as Hp. rewrite <- Hk in Hp.
    intros Heq. apply number_of_inj in Heq; lia.
Qed.

(** C36: A version is spent once: after a transition that named it succeeds, no
    transition naming it succeeds on that invoice again, whoever asks and
    whatever has happened since. Two racing payments settle an invoice once. *)
Theorem version_spent_once db0 env1 a1 id t1 v inv1 db1 db2 env2 a2 t2 inv2 db3 :
  rtc step empty_DB db0 -> TransitionInvoice emits tp env1 a1 id t1 v db0 = (Ok inv1, db1) ->
  rtc step db1 db2 -> TransitionInvoice emits tp env2 a2 id t2 v db2 <> (Ok inv2, db3).
Proof.
  intros H0' Ht1 Hs Ht2. pose proof (inv_steps_wf _ _ H0' inv_empty_wf) as Hwf.
  pose proof (ds_wf _ _ (TransitionInvoice_step _ _ _ _ _ _ _ _ Ht1 Hwf)) as Hwf1.
  apply TransitionInvoice_Ok in Ht1 as (b & ev & h1 & h2 & _ & Hf & Hv & _ & _ & _ & _ & _ & _ & ->); [|done].
  apply find_invoice_Some in Hf as (Hin & _). destruct (wf_invoice _ Hwf _ _ Hin) as (<- & _).
  assert (Hrow := lookup_insert_eq (invoices db0) (ID b) (transitioned (env_now env1) (TransitionTo t1) b)).
  destruct (inv_steps_row _ _ (ID b) _ Hs Hwf1 Hrow) as (n & new & Hnew & Hn & _).
  apply nsteps_facts in Hn as (Hver & _).
  apply TransitionInvoice_Ok in Ht2 as (b2 & _ & _ & _ & _ & Hf2 & Hv2 & _); [|by eapply inv_steps_wf].
  apply find_invoice_Some in Hf2 as (Hin2 & _). rewrite Hnew in Hin2. injection Hin2 as <-. cbn in Hver. lia.
Qed.

(** C37: Create is all or nothing. It fails and changes nothing, or it stores one
    draft priced exactly from the request, one row per requested line, in order, with
    its position, description, quantity, unit price and their product under a fresh
    identifier, and no other row touched, the next number, one event, one audit entry
    and the announcement of what it stored, in one commit. The caller gets that invoice, except that its two timestamps
    are the zero time: nothing reads back the ones the row was given. *)
Theorem Create_effect env a i db res db' :
  Create emits tp env a i db = (res, db') ->
  match res with
  | Err _ => db' = db
  | Ok inv =>
      exists j k row h1 h2,
        ValidateCreate i = Ok j /\ k = match counters db !! scope a with None => 1 | Some k => k end /\
        invoices db !! ID row = None /\ invoices db' = <[ID row := row]> (invoices db) /\
        inv = with_items (new_invoice env a j (SubtotalMinor row) (TotalMinor row) (number_of k) zero_time zero_time)
                (Items inv) /\
        row = new_invoice env a j (SubtotalMinor row) (TotalMinor row) (number_of k) (env_now env) (env_now env) /\
        SubtotalMinor row = sum_Z (line_amount <$> in_Items j) /\ TotalMinor row = SubtotalMinor row + in_TaxMinor j /\
        (let requested := zip (in_Items j) (line_amount <$> in_Items j) in
         stored_lines (items db) (items db') (line_rows env row (env_now env) 0 requested) /\
         Items inv = line_rows env row zero_time 0 requested) /\
        line_sum (items db') (ID row) = line_sum (items db) (ID row) + SubtotalMinor row /\
        counters db' = <[scope a := k + 1]> (counters db) /\
        recorded env (env_id env (1 + length (in_Items j))) a inv "created" None (Some StatusDraft)
          (events db) (events db') /\
        emitted env (settings_of (Identity_of a)) (env_id env (2 + length (in_Items j))) a
          Webhook.EventInvoiceCreated inv (hooks db) h1 /\
        audited env (env_id env (3 + length (in_Items j))) a AuditLog.ActionInvoiceCreate inv None
          (Some (auditImage inv)) h1 h2 /\
        hooks db' = h2 /\ CreatedAt inv = zero_time /\ UpdatedAt inv = zero_time /\ CreatedAt row = env_now env
  end.
Proof.
  intros Hrun. destruct res as [inv|e]; [|by eapply Create_Err].
  apply Create_Ok in Hrun as (j & sub & tot & k & its & m' & ev' & h1 & h2 & _ & Hj & Hsub & Htot & Hk & Hinv & Hl & Hst &
    _ & Hfresh & (_ & _ & Hls) & He & Hh & Ha & ->).
  exists j, k, (new_invoice env a j sub tot (number_of k) (env_now env) (env_now env)), h1, h2.
  rewrite Hinv in *. split_and!; try done. cbn. rewrite Hls. cbn. by rewrite decide_True.
Qed.

(** A transition that succeeds met the row at the version it named and on a legal
    edge; it moves that row alone, stamps the time the new status calls for, and
    commits with it one event, one audit entry and the announcement. One that
    fails changes nothing. *)
Theorem Transition_effect env a id t v db res db' :
  rtc step empty_DB db -> TransitionInvoice emits tp env a id t v db = (res, db') ->
  match res with
  | Err _ => db' = db
  | Ok inv =>
      exists before h1 h2,
        let to := TransitionTo t in let row := transitioned (env_now env) to before in
        invoices db !! id = Some before /\ TenantID before = scope a /\ Version before = v /\
        CanTransition (Status before) to = true /\
        invoices db' = <[id := row]> (invoices db) /\ items db' = items db /\ counters db' = counters db /\
        inv = with_items row (Items inv) /\ Items inv ≡ₚ lines (items db) id /\
        recorded env (env_id env 0) a inv t (Some (Status before)) (Some to) (events db) (events db') /\
        emitted env (settings_of (Identity_of a)) (env_id env 1) a (eventForTransition t) inv (hooks db) h1 /\
        audited env (env_id env 2) a (auditActionFor t) inv (Some (auditImage before)) (Some (auditImage inv)) h1 h2 /\
        hooks db' = h2 /\
        IssuedAt row = (if decide (to = StatusOpen) then Some (env_now env) else IssuedAt before) /\
        PaidAt row = (if decide (to = StatusPaid) then Some (env_now env) else PaidAt before)
  end.
Proof.
  intros Hs Hrun. pose proof (inv_steps_wf _ _ Hs inv_empty_wf) as Hwf. destruct res as [inv|e]; [|by eapply TransitionInvoice_Err].
  apply TransitionInvoice_Ok in Hrun as (b & ev' & h1 & h2 & _ & Hf & Hv & Hct & _ & Hinv & Hev & Hem & Hau & ->); [|done].
  apply find_invoice_Some in Hf as (Hin & Hg & Ht). destruct (wf_invoice _ Hwf _ _ Hin) as (<- & _).
  exists b, h1, h2. rewrite Hinv in *. split_and!; try done. cbn. unfold items_of. rewrite order_by_Permutation.
  unfold lines. cbn. apply Permutation_refl', filter_ext_in. intros it ([k x] & -> & Hk)%list_elem_of_fmap.
  apply elem_of_map_to_list in Hk. cbn. split; [naive_solver|]. intros Hi.
  rewrite (item_tenant _ _ _ Hwf Hin _ _ Hk Hi). split_and!; [|done..]. unfold tenant_is. rewrite Hg, Ht.
  by rewrite bool_decide_eq_true_2.
Qed.

(** What a refused transition is told. Another tenant's invoice is not found; an
    edge the lifecycle lacks is a conflict, even with a stale version, since a
    retry cannot help; a legal edge with a stale version is a version conflict.
    None of them changes anything. *)
Theorem Transition_refusals env a id t v db :
  rtc step empty_DB db -> Valid a = true -> id <> uuid_Nil -> TransitionTo t <> "" -> 0 < v <= MaxInt32 ->
  match invoices db !! id with
  | None => TransitionInvoice emits tp env a id t v db = (Err (Sentinel ErrNotFound), db)
  | Some inv =>
      if decide (TenantID inv = scope a) then
        if CanTransition (Status inv) (TransitionTo t) then
          Version inv <> v -> exists m, TransitionInvoice emits tp env a id t v db =
                                        (Err (Wrapf m (Sentinel ErrVersionConflict)), db)
        else exists m, TransitionInvoice emits tp env a id t v db = (Err (Wrapf m (Sentinel ErrConflict)), db)
      else TransitionInvoice emits tp env a id t v db = (Err (Sentinel ErrNotFound), db)
  end.
Proof.
  intros Hs Hv Hid Hto Hver. pose proof (inv_steps_wf _ _ Hs inv_empty_wf) as Hwf.
  destruct (Valid_identity a Hv) as [HI Hg].
  eassert (TransitionInvoice emits tp env a id t v db = _) as ->.
  { unfold TransitionInvoice. rewrite Hv. cbn [negb]. unfold mbind at 1, SE_bind at 1, lift, ValidateUUID.
    rewrite !decide_False by done. cbv zeta. destruct (Z.leb_spec v 0); [lia|].
    rewrite WithIdentityTx_run by done. fold (settings_of (Identity_of a)). unfold BeginFunc. reflexivity. }
  destruct (invoices db !! id) as [inv|] eqn:Hi.
  - destruct (wf_invoice _ Hwf _ _ Hi) as (Hid' & _). case_decide as Ht.
    + assert (find_invoice (settings_of (Identity_of a)) id (scope a) db = Some inv) as Hf by (by apply find_invoice_Some).
      rewrite Hf. destruct (CanTransition _ _) eqn:Hct; cbn [negb]; [|eexists; reflexivity].
      intros Hne. unfold mbind, SE_bind, cas_transition. destruct (Z.ltb_spec MaxInt32 v); [lia|].
      rewrite Hid', Ht, Hf, bool_decide_eq_false_2 by done. cbn [andb]. by eexists.
    + destruct (find_invoice _ _ _ _) as [x|] eqn:Hf; [|done]. apply find_invoice_Some in Hf as (? & _ & ?). congruence.
  - destruct (find_invoice _ _ _ _) as [x|] eqn:Hf; [|done]. apply find_invoice_Some in Hf as (? & _). congruence.
Qed.
End effects.

(** ** A run *)

Module InvoiceDemo.
#[local] Existing Instance DemoUnicode.
#[local] Existing Instance DemoUUID.lib.
#[local] Instance demo_json : Outbox.GoJSON :=
  {| Outbox.json_Marshal _ := "{}"; Outbox.json_time t := JNum t |}.

Definition at_ (s : Z) : Env :=
  mkEnv (s * 1000000000) (s * 1000000000) (fun n => (N.of_nat n + 10000 * Z.to_N s)%N)
    (fun n => N.of_nat (700 + n)) (fun _ => 7) "req-1".
Definition owner : Authorized := mkAuthorized 5%N KindHuman 11%N RoleOwner 0%N.
Definition g5 : Settings := settings_of (Identity_of owner).
Definition seats : ItemInput := mkItemInput "Seats" 12 1500.
Definition support : ItemInput := mkItemInput "Support" 1 900.
Definition request : CreateInput := mkCreateInput "usd" 250 [seats; support].

Definition no_inv : Invoice := mkInvoice 0%N 0%N "" "" "" 0 0 0 0 None None None None None 0 0 [].
Definition the_row (db : DB) : Invoice := default no_inv (invoices db !! 10000%N).

Definition db1 : DB := (Create true "" (at_ 1) owner request empty_DB).2.
Definition db2 : DB := (TransitionInvoice true "" (at_ 2) owner 10000%N TransitionIssue 1 db1).2.
Definition db3 : DB := (TransitionInvoice true "" (at_ 3) owner 10000%N TransitionPay 2 db2).2.

Lemma inv_run1 : rtc (step true "") empty_DB db1.
Proof. apply rtc_once. eapply (step_create true "" (at_ 1) owner request). apply surjective_pairing. Qed.
Lemma run12 : rtc (step true "") db1 db2.
Proof.
  apply rtc_once. eapply (step_transition true "" (at_ 2) owner 10000%N TransitionIssue 1). apply surjective_pairing.
Qed.
Lemma run23 : rtc (step true "") db2 db3.
Proof.
  apply rtc_once. eapply (step_transition true "" (at_ 3) owner 10000%N TransitionPay 2). apply surjective_pairing.
Qed.

Lemma paid : Status (the_row db3) = StatusPaid /\ TotalMinor (the_row db3) = 12 * 1500 + 900 + 250 /\
  Number (the_row db3) = "INV-000001" /\ Version (the_row db3) = 3.
Proof. vm_compute. auto. Qed.

Lemma invoice_history_witness :
  exists n new, invoices db3 !! 10000%N = Some new /\ nsteps inv_step n (the_row db2) new /\
    Version new = Version (the_row db2) + Z.of_nat n.
Proof.
  destruct (invoice_history true "" db2 db3 10000%N (the_row db2)) as (n & new & H1 & H2 & H3 & _).
  - etrans; [apply inv_run1|apply run12].
  - apply run23.
  - vm_compute. reflexivity.
  - exists n, new. split; [exact H1|]. split; [exact H2|exact H3].
Defined.

Lemma invoice_numbers_witness :
  same_number 5%N "INV-000002" (set_counters (<[5%N := 3]> (counters db1)) db1) = false.
Proof.
  destruct (invoice_numbers true "" db1 inv_run1) as [_ H1].
  apply (H1 g5). vm_compute. reflexivity.
Defined.

Definition paid_inv : Invoice := match (TransitionInvoice true "" (at_ 3) owner 10000%N TransitionPay 2 db2).1 with
                                 | Ok i => i | Err _ => no_inv end.

Lemma version_spent_once_witness :
  TransitionInvoice true "" (at_ 4) owner 10000%N TransitionPay 2 db3 <> (Ok paid_inv, db3).
Proof.
  apply (version_spent_once true "" db2 (at_ 3) owner 10000%N TransitionPay 2 paid_inv db3).
  - etrans; [apply inv_run1|apply run12].
  - vm_compute. reflexivity.
  - apply rtc_refl.
Defined.

Definition created : Invoice := match (Create true "" (at_ 1) owner request empty_DB).1 with
                                | Ok i => i | Err _ => no_inv end.
Lemma Create_effect_witness :
  exists row, invoices db1 = <[ID row := row]> ∅ /\ CreatedAt created = zero_time /\ CreatedAt row = 1000000000.
Proof.
  destruct (Create_effect true "" (at_ 1) owner request empty_DB (Ok created) db1)
    as (j & k & row & h1 & h2 & _ & _ & _ & H1 & _ & _ & _ & _ & _ & _ & _ & _ & _ & _ & _ & H2 & _ & H3).
  - vm_compute. reflexivity.
  - exists row. split; [exact H1|]. split; [exact H2|exact H3].
Defined.

Lemma Transition_effect_witness :
  exists before, invoices db2 !! 10000%N = Some before /\
    invoices db3 = <[10000%N := transitioned 3000000000 StatusPaid before]> (invoices db2).
Proof.
  destruct (Transition_effect true "" (at_ 3) owner 10000%N TransitionPay 2 db2 (Ok paid_inv) db3)
    as (before & h1 & h2 & H1 & _ & _ & _ & H2 & _).
  - etrans; [apply inv_run1|apply run12].
  - vm_compute. reflexivity.
  - exists before. split; [exact H1|exact H2].
Defined.

Lemma Transition_refusals_witness :
  exists m, TransitionInvoice true "" (at_ 5) owner 10000%N TransitionVoid 1 db2 =
            (Err (Wrapf m (Sentinel ErrVersionConflict)), db2).
Proof.
  pose proof (Transition_refusals true "" (at_ 5) owner 10000%N TransitionVoid 1 db2) as H1.
  assert (invoices db2 !! (10000%N : uuid) = Some (the_row db2)) as Hx by (vm_compute; reflexivity).
  rewrite Hx in H1. destruct (decide _) as [_|n] in H1; [|exfalso; apply n; vm_compute; reflexivity].
  assert (CanTransition (Status (the_row db2)) (TransitionTo TransitionVoid) = true) as Hc by (vm_compute; reflexivity).
  rewrite Hc in H1. apply H1.
  - etrans; [apply inv_run1|apply run12].
  - vm_compute. reflexivity.
  - discriminate.
  - apply String.eqb_neq. vm_compute. reflexivity.
  - unfold MaxInt32. lia.
  - vm_compute. discriminate.
Defined.

(** ** What one transaction at a time hides *)

(** An [AddItem] has inserted its line and read its sum; before it updates the
    row, a [RemoveItem] of another line runs and commits. READ COMMITTED lets
    the first go on over what the second committed. *)
Definition added : Item := mkItem 50001%N 10000%N 5%N 2 "Extra" 1 100 100 5000000000.
Definition mine : DB := (insert_item g5 added db1).2.
Definition sum_read : Z := match (sum_lines g5 10000%N mine).1 with Ok s => s | Err _ => 0 end.
Definition other : DB := (RemoveItem (at_ 6) owner 10000%N 10002%N db1).2.
Definition merged : DB := set_items (<[50001%N := added]> (items other)) other.
Definition overlapped : SE DB err Invoice :=
  store_totals (at_ 5) g5 1 (the_row db1) owner AuditLog.ActionInvoiceItemAdded "item_added" sum_read.

(** Two overlapping edits of a draft can leave it with a subtotal that is not the
    sum of its lines: the sum is read in one statement and stored in another, and
    no lock or version ties them. Both transactions commit. *)
Theorem overlapping_edits_break_subtotal :
  rtc (step true "") empty_DB db1 /\ insert_item g5 added db1 = (Ok tt, mine) /\
  (exists inv, RemoveItem (at_ 6) owner 10000%N 10002%N db1 = (Ok inv, other)) /\
  exists inv db, overlapped merged = (Ok inv, db) /\ invoices db !! (10000%N : uuid) = Some (with_items inv []) /\
    SubtotalMinor inv = 19000 /\ line_sum (items db) 10000%N = 18100.
Proof.
  split_and!; [apply inv_run1|vm_compute; reflexivity|eexists; vm_compute; reflexivity|].
  eexists _, _. split; [vm_compute; reflexivity|]. split_and!; vm_compute; reflexivity.
Qed.

Definition full : DB :=
  (Create false "" (at_ 1) owner (mkCreateInput "usd" 0 (repeat support (Z.to_nat MaxItemsPerInvoice))) empty_DB).2.

(** The limit on the lines of an invoice binds its creation only: an invoice
    created full takes another line. *)
Theorem AddItem_ignores_line_limit :
  rtc (step false "") empty_DB full /\
  exists inv db, AddItem (at_ 2) owner 10000%N support full = (Ok inv, db) /\
    Z.of_nat (length (Items inv)) = MaxItemsPerInvoice + 1.
Proof.
  split.
  - apply rtc_once. eapply step_create, surjective_pairing.
  - assert (match (AddItem (at_ 2) owner 10000%N support full).1 with
            | Ok inv => Z.of_nat (length (Items inv)) =? MaxItemsPerInvoice + 1
            | Err _ => false
            end = true) as Hok by (vm_compute; reflexivity).
    destruct (AddItem _ _ _ _ _) as [[inv|e] db]; [|discriminate]. exists inv, db.
    split; [reflexivity|]. by apply Z.eqb_eq.
Qed.
End InvoiceDemo.
