(* ===== verification/InvoiceSessions.v ===== *)
(** * Editing invoices at the same time

    [AddItem] and [RemoveItem] of [internal/invoice/store.go] statement by statement: under READ COMMITTED each
    statement sees what other sessions have committed by then, and the transaction's own line. *)

From S2P Require Import Prelude Apperr Ids Db Authz Tenant Invoice InvoiceStore InvoiceProps.
From S2P Require AuditLog Outbox.

(** ** An open transaction *)

Inductive EditOp :=
  | Adding (validated : ItemInput) (lineTotal : Z)
  | Removing (item : uuid).

Record Edit := mkEdit { ed_env : Env; ed_auth : Authorized; ed_invoice : uuid; ed_op : EditOp }.

(** The line it has written and not committed. *)
Inductive Write := Put (it : Item) | Drop (item : uuid).

Definition written (w : Write) (m : gmap uuid Item) : gmap uuid Item :=
  match w with Put it => <[item_ID it := it]> m | Drop k => delete k m end.

(** What the transaction sees: what is committed, and its line. *)
Definition own_view (w : Write) (db : DB) : DB := set_items (written w (items db)) db.

(** How far it is: it has read a draft, written the line, read the sum. *)
Inductive Phase :=
  | HasRead (before : Invoice)
  | HasWritten (before : Invoice) (w : Write)
  | HasSummed (before : Invoice) (w : Write) (subtotal : Z).

Definition ed_settings (e : Edit) : Settings := settings_of (Identity_of (ed_auth e)).

(** What is checked before the transaction begins: a validated line with its total, or identifiers. *)
Definition admitted `{Unicode} (e : Edit) : Prop :=
  Valid (ed_auth e) = true /\ is_ok (ValidateUUID (ed_invoice e)) = true /\
  match ed_op e with
  | Adding validated lineTotal =>
      (exists i, ValidateItem i = Ok validated) /\ LineTotal (in_Quantity validated) (in_UnitPriceMinor validated) = Ok lineTotal
  | Removing item => is_ok (ValidateUUID item) = true
  end.

(** The first read, with the check of the status. *)
Definition read_draft (e : Edit) (db : DB) : result err Invoice :=
  match find_invoice (ed_settings e) (ed_invoice e) (scope (ed_auth e)) db with
  | None => Err (Sentinel ErrNotFound)
  | Some before => if decide (Status before = StatusDraft) then Ok before else Err (not_editable before)
  end.

(** The next position and the insert, or the delete. *)
Definition write_line (e : Edit) (before : Invoice) (db : DB) : result err Write :=
  match ed_op e with
  | Adding i lineTotal =>
      let nextPos := next_position (lines_of (ed_settings e) (ed_invoice e) db) in
      if MaxInt32 <? nextPos then Err (Wrapf "find the next item position: integer out of range" numeric_out_of_range)
      else
        let it := mkItem (env_id (ed_env e) 0) (ed_invoice e) (TenantID before) nextPos (in_Description i)
                    (in_Quantity i) (in_UnitPriceMinor i) lineTotal (env_now (ed_env e)) in
        match (insert_item (ed_settings e) it db).1 with
        | Ok _ => Ok (Put it)
        | Err x => Err (Wrapf ("add invoice item: " +:+ error_text x) x)
        end
  | Removing item =>
      match (delete_item (ed_settings e) item (ed_invoice e) (TenantID before) db).1 with
      | Ok n => if n =? 0 then Err (Sentinel ErrNotFound) else Ok (Drop item)
      | Err x => Err (Wrapf ("remove invoice item: " +:+ error_text x) x)
      end
  end.

(** [recomputeTotals], before the first of its statements and after it. *)
Definition read_sum (e : Edit) (before : Invoice) (w : Write) (db : DB) : result err Z :=
  (sum_lines (ed_settings e) (ID before) (own_view w db)).1.

Definition finish `{Unicode} `{UUIDLib} (e : Edit) (before : Invoice) (w : Write) (subtotal : Z) (db : DB) : result err Invoice * DB :=
  match ed_op e with
  | Adding _ _ => store_totals (ed_env e) (ed_settings e) 1 before (ed_auth e) AuditLog.ActionInvoiceItemAdded "item_added" subtotal (own_view w db)
  | Removing _ => store_totals (ed_env e) (ed_settings e) 0 before (ed_auth e) AuditLog.ActionInvoiceItemRemoved "item_removed" subtotal (own_view w db)
  end.

(** ** Sessions

    The committed tables and the open transactions. *)
Record Sessions := mkSessions { committed : DB; opened : gmap nat (Edit * Phase) }.

Definition line_of (ph : Phase) : option Write :=
  match ph with HasRead _ => None | HasWritten _ w | HasSummed _ w _ => Some w end.

Section sessions.
Context `{Unicode} `{UUIDLib} `{Outbox.GoJSON} (emits : bool) (tp : string).

(** The unique indexes: the identifier, and the position, of a line that is written and not committed. A session
    that would write them too waits. *)
Definition takes (w : Write) (m : gmap uuid Item) : Prop :=
  match w with
  | Put it => m !! item_ID it = None /\
              forall k x, m !! k = Some x -> item_InvoiceID x = item_InvoiceID it -> Position x <> Position it
  | Drop k => is_Some (m !! k)
  end.

(** [free o m]: no open transaction stands in the way of committing the lines [m]. *)
Definition free (o : gmap nat (Edit * Phase)) (m : gmap uuid Item) : Prop :=
  forall n e ph w, o !! n = Some (e, ph) -> line_of ph = Some w -> takes w m.

(** Whole transactions of the other operations. *)
Inductive whole : DB -> DB -> Prop :=
  | whole_create env a i db res db' : Create emits tp env a i db = (res, db') -> whole db db'
  | whole_transition env a id t v db res db' : TransitionInvoice emits tp env a id t v db = (res, db') -> whole db db'
  | whole_hooks h db : whole db (set_hooks h db).

(** [alone] asks that one session at a time edits the lines of an invoice. *)
Inductive session_step (alone : bool) : Sessions -> Sessions -> Prop :=
  | se_whole db db' o : whole db db' -> free o (items db') -> session_step alone (mkSessions db o) (mkSessions db' o)
  | se_read n e before db o :
      o !! n = None -> admitted e -> read_draft e db = Ok before ->
      (alone = true -> forall k x ph, o !! k = Some (x, ph) -> ed_invoice x <> ed_invoice e) ->
      session_step alone (mkSessions db o) (mkSessions db (<[n := (e, HasRead before)]> o))
  | se_write n e before w db o :
      o !! n = Some (e, HasRead before) -> write_line e before db = Ok w -> free o (written w (items db)) ->
      session_step alone (mkSessions db o) (mkSessions db (<[n := (e, HasWritten before w)]> o))
  | se_sum n e before w s db o :
      o !! n = Some (e, HasWritten before w) -> read_sum e before w db = Ok s ->
      session_step alone (mkSessions db o) (mkSessions db (<[n := (e, HasSummed before w s)]> o))
  | se_commit n e before w s inv db db' o :
      o !! n = Some (e, HasSummed before w s) -> finish e before w s db = (Ok inv, db') ->
      session_step alone (mkSessions db o) (mkSessions db' (delete n o))
  | se_rollback n db o : session_step alone (mkSessions db o) (mkSessions db (delete n o)).

(** ** A transaction that runs alone *)

Lemma commit_step b n e before w s inv db db' o :
  o !! n = Some (e, HasSummed before w s) -> finish e before w s db = (Ok inv, db') ->
  session_step b (mkSessions db o) (mkSessions db' (delete n o)).
Proof. econstructor; eauto. Qed.

Lemma edit_alone b e before w s inv db db' :
  admitted e -> read_draft e db = Ok before -> write_line e before db = Ok w -> read_sum e before w db = Ok s ->
  finish e before w s db = (Ok inv, db') ->
  rtc (session_step b) (mkSessions db ∅) (mkSessions db' ∅).
Proof.
  intros Ha Hr Hw Hs Hf.
  eapply rtc_l; [by apply (se_read b 0%nat e before)|].
  eapply rtc_l; [apply (se_write b 0%nat e before w); [by rewrite lookup_insert_eq|done|]|].
  { intros n x ph w' Hn Hl. apply lookup_insert_Some in Hn as [[<- [= <- <-]]|[_ Hn]]; [done|]. by rewrite lookup_empty in Hn. }
  eapply rtc_l; [by apply (se_sum b 0%nat e before w s); [rewrite lookup_insert_eq|]|].
  eapply rtc_l; [by eapply (commit_step b 0%nat e before w s); [rewrite lookup_insert_eq|exact Hf]|].
  rewrite !insert_insert_eq, delete_insert_id by done. done.
Qed.

(** Every step of the operations run whole is a run of the sessions. *)
Lemma AddItem_sessions b env a id i db res db' :
  AddItem env a id i db = (res, db') -> rtc (session_step b) (mkSessions db ∅) (mkSessions db' ∅).
Proof.
  intros Hrun. destruct res as [inv|e]; [|by apply AddItem_Err in Hrun as ->].
  unfold AddItem in Hrun. destruct (Valid a) eqn:Hv; cbn [negb] in Hrun; [|done].
  apply SE_bind_inv in Hrun as (u & d1 & Hu & Hrun). apply lift_Ok in Hu as [Hu ->].
  apply SE_bind_inv in Hrun as (j & d1 & Hj & Hrun). apply lift_Ok in Hj as [Hj ->].
  apply SE_bind_inv in Hrun as (lt & d1 & Hlt & Hrun). apply lift_Ok in Hlt as [Hlt ->].
  destruct (LineTotal _ _) as [lt'|] eqn:El in Hlt; [|done]. apply Ok_inj in Hlt as ->.
  apply WithIdentityTx_Ok in Hrun. fold (settings_of (Identity_of a)) in Hrun. cbv beta in Hrun.
  destruct (find_invoice _ _ _ _) as [before|] eqn:Hfind; [|done]. case_decide as Hd; [|done].
  cbv zeta in Hrun. destruct (MaxInt32 <? _) eqn:Hpos; [done|].
  apply SE_bind_inv in Hrun as ([] & d1 & Hi & Hrun). apply or_fail_Ok in Hi. pose proof (insert_item_Ok _ _ _ _ Hi) as (_ & _ & _ & _ & ->).
  unfold recomputeTotals in Hrun. apply SE_bind_inv in Hrun as (s & d1 & Hs & Hrun).
  pose proof (sum_lines_Ok _ _ _ _ _ Hs) as (_ & _ & ->).
  set (it := mkItem _ _ _ _ _ _ _ _ _) in *.
  apply (edit_alone b (mkEdit env a id (Adding j lt)) before (Put it) s inv).
  - split; [done|]. split; [cbn [ed_invoice]; by rewrite Hu|]. split; [by exists i|done].
  - unfold read_draft, ed_settings. cbn [ed_auth ed_invoice]. by rewrite Hfind, decide_True.
  - unfold write_line, ed_settings. cbn [ed_op ed_auth ed_invoice ed_env]. cbv zeta. rewrite Hpos. fold it. by rewrite Hi.
  - unfold read_sum, own_view, ed_settings. cbn [ed_auth written]. by rewrite Hs.
  - exact Hrun.
Qed.

Lemma RemoveItem_sessions b env a id item db res db' :
  RemoveItem env a id item db = (res, db') -> rtc (session_step b) (mkSessions db ∅) (mkSessions db' ∅).
Proof.
  intros Hrun. destruct res as [inv|e]; [|by apply RemoveItem_Err in Hrun as ->].
  unfold RemoveItem in Hrun. destruct (Valid a) eqn:Hv; cbn [negb] in Hrun; [|done].
  apply SE_bind_inv in Hrun as (u & d1 & Hu & Hrun). apply lift_Ok in Hu as [Hu ->].
  apply SE_bind_inv in Hrun as (v & d1 & Hi & Hrun). apply lift_Ok in Hi as [Hi ->].
  apply WithIdentityTx_Ok in Hrun. fold (settings_of (Identity_of a)) in Hrun. cbv beta in Hrun.
  destruct (find_invoice _ _ _ _) as [before|] eqn:Hfind; [|done]. case_decide as Hd; [|done].
  apply SE_bind_inv in Hrun as (k & d1 & Hdel & Hrun). apply or_fail_Ok in Hdel.
  destruct (k =? 0) eqn:Hk; [done|]. pose proof Hdel as Hdel'. unfold delete_item in Hdel'.
  destruct (items db !! item) as [it|] eqn:Hit; [|injection Hdel' as <- _; done].
  destruct (_ && _) in Hdel'; [|injection Hdel' as <- _; done]. destruct (items_guard _ _) in Hdel'; [|done]. injection Hdel' as _ <-.
  unfold recomputeTotals in Hrun. apply SE_bind_inv in Hrun as (s & d1 & Hs & Hrun).
  pose proof (sum_lines_Ok _ _ _ _ _ Hs) as (_ & _ & ->).
  apply (edit_alone b (mkEdit env a id (Removing item)) before (Drop item) s inv).
  - split; [done|]. split; cbn [ed_invoice ed_op]; [by rewrite Hu|by rewrite Hi].
  - unfold read_draft, ed_settings. cbn [ed_auth ed_invoice]. by rewrite Hfind, decide_True.
  - unfold write_line, ed_settings. cbn [ed_op ed_auth ed_invoice ed_env]. rewrite Hdel. cbn [fst]. by rewrite Hk.
  - unfold read_sum, own_view, ed_settings. cbn [ed_auth written]. by rewrite Hs.
  - exact Hrun.
Qed.

Lemma step_sessions b db db' : step emits tp db db' -> rtc (session_step b) (mkSessions db ∅) (mkSessions db' ∅).
Proof.
  assert (Hw : whole db db' -> rtc (session_step b) (mkSessions db ∅) (mkSessions db' ∅)).
  { intros Hw. apply rtc_once, se_whole; [done|]. intros n e ph w Hn. by rewrite lookup_empty in Hn. }
  intros Hs. destruct Hs; eauto using AddItem_sessions, RemoveItem_sessions; apply Hw; by econstructor.
Qed.

(** ** What an open transaction relies on *)

#[local] Instance sum_Z_perm : Proper ((≡ₚ) ==> (=)) sum_Z.
Proof. induction 1; cbn in *; unfold sum_Z in *; lia. Qed.

(** Nothing else changed the lines of the invoice. *)
Definition same_lines (i : uuid) (m m' : gmap uuid Item) : Prop :=
  forall k it, item_InvoiceID it = i -> m !! k = Some it <-> m' !! k = Some it.

Lemma line_sum_same i m m' : same_lines i m m' -> line_sum m i = line_sum m' i.
Proof.
  intros Hs. unfold line_sum, lines.
  assert (Hp : forall m : gmap uuid Item, filter (fun it => item_InvoiceID it = i) (map_to_list m).*2 ≡ₚ
    (map_to_list (filter (fun kv : uuid * Item => item_InvoiceID kv.2 = i) m)).*2).
  { clear. intros m. induction m as [|k it m Hk IH] using map_ind; [by rewrite map_filter_empty, map_to_list_empty|].
    rewrite map_to_list_insert, fmap_cons, filter_cons by done. cbn [snd]. case_decide as Hi.
    - rewrite map_filter_insert_True by done. rewrite map_to_list_insert; [by rewrite fmap_cons, <- IH|].
      apply map_lookup_filter_None. by left.
    - rewrite map_filter_insert_False by done. rewrite delete_id by done. exact IH. }
  apply sum_Z_perm, fmap_Permutation. rewrite !Hp.
  assert (filter (fun kv : uuid * Item => item_InvoiceID kv.2 = i) m = filter (fun kv => item_InvoiceID kv.2 = i) m') as ->; [|done].
  apply map_eq. intros k. apply option_eq. intros it. rewrite !map_lookup_filter_Some. cbn. specialize (Hs k it). naive_solver.
Qed.

Definition read_by (ph : Phase) : Invoice :=
  match ph with HasRead b | HasWritten b _ | HasSummed b _ _ => b end.

(** Of its line. *)
Definition line_ok (e : Edit) (before : Invoice) (w : Write) (m : gmap uuid Item) : Prop :=
  match w with
  | Put it => m !! item_ID it = None /\ item_check it = true /\ item_InvoiceID it = ed_invoice e /\ item_TenantID it = TenantID before
  | Drop k => exists it, m !! k = Some it /\ item_InvoiceID it = ed_invoice e
  end.

Record relies (db : DB) (e : Edit) (ph : Phase) : Prop := {
  re_invoice : ID (read_by ph) = ed_invoice e;
  re_tenant : SettingTenantID (ed_settings e) = Some (TenantID (read_by ph));
  re_row : exists cur, invoices db !! ed_invoice e = Some cur /\ TenantID cur = TenantID (read_by ph);
  re_line : forall w, line_of ph = Some w -> line_ok e (read_by ph) w (items db);
  re_sum : forall b w s, ph = HasSummed b w s -> s = line_sum (written w (items db)) (ed_invoice e);
}.

Record coherent (s : Sessions) : Prop := {
  co_wf : DB_wf (committed s);
  co_open : forall n e ph, opened s !! n = Some (e, ph) -> relies (committed s) e ph;
  co_alone : forall n m e e' ph ph', opened s !! n = Some (e, ph) -> opened s !! m = Some (e', ph') ->
    ed_invoice e = ed_invoice e' -> n = m;
  co_ids : forall n m e e' ph ph' it it', opened s !! n = Some (e, ph) -> opened s !! m = Some (e', ph') ->
    line_of ph = Some (Put it) -> line_of ph' = Some (Put it') -> item_ID it = item_ID it' -> n = m;
}.

(** What others may commit meanwhile. *)
Record meanwhile (i : uuid) (db db' : DB) : Prop := {
  me_rows : forall k x, invoices db !! k = Some x -> exists y, invoices db' !! k = Some y /\ TenantID y = TenantID x;
  me_lines : same_lines i (items db) (items db');
}.

Lemma written_same i w m m' : same_lines i m m' -> same_lines i (written w m) (written w m').
Proof.
  intros Hs k it Hi. destruct w as [x|x]; cbn.
  - rewrite !lookup_insert_Some. specialize (Hs k it Hi). naive_solver.
  - rewrite !lookup_delete_Some. specialize (Hs k it Hi). naive_solver.
Qed.

Lemma relies_kept db db' e ph :
  meanwhile (ed_invoice e) db db' -> (forall it, line_of ph = Some (Put it) -> items db' !! item_ID it = None) ->
  relies db e ph -> relies db' e ph.
Proof.
  intros [Hr Hl] Hf [R1 R2 (cur & R3 & R3') R4 R5]. split; [done|done|..].
  - destruct (Hr _ _ R3) as (y & Hy & Ht). exists y. split; [done|congruence].
  - intros w Hw. specialize (R4 w Hw). destruct w as [it|k]; cbn in *; [naive_solver|].
    destruct R4 as (it & Hk & Hi). exists it. split; [by apply Hl|done].
  - intros b w s ->. rewrite (R5 b w s eq_refl). by apply line_sum_same, written_same.
Qed.

Lemma DB_step_rows db db' : DB_step db db' -> forall k x, invoices db !! k = Some x ->
  exists y, invoices db' !! k = Some y /\ TenantID y = TenantID x.
Proof.
  intros Hd k x Hk. destruct (ds_rows _ _ Hd _ _ Hk) as (y & Hy & Ho). exists y. split; [done|].
  destruct Ho as [->|Hst]; [done|]. apply inv_step_fixed in Hst. tauto.
Qed.

Lemma whole_step db db' : whole db db' -> step emits tp db db'.
Proof. by intros []; econstructor. Qed.

Lemma whole_meanwhile db db' i :
  DB_wf db -> whole db db' -> is_Some (invoices db !! i) -> meanwhile i db db'.
Proof.
  intros Hwf Hw [cur Hi]. split; [apply DB_step_rows; by apply (inv_step_DB_step emits tp), Hwf; apply whole_step|].
  destruct Hw as [env a inp db [inv|e] db' Hrun|env a id t v db [inv|e] db' Hrun|h db]; [| | | |done].
  - apply Create_Ok in Hrun as (j & sub & tot & k & its & m' & ev' & h1 & h2 & _ & _ & _ & _ & _ & _ & _ & _ & _ & Hfresh &
      (Hold & Hnew & _) & _ & _ & _ & ->). cbn. intros k' it Hit. split; [apply Hold|]. intros Hk.
    destruct (items db !! k') as [y|] eqn:Hy; [by rewrite (Hold _ _ Hy) in Hk|].
    destruct (Hnew _ _ Hk Hy) as (_ & _ & Hn & _). cbn in Hn. congruence.
  - by apply Create_Err in Hrun as ->.
  - by apply TransitionInvoice_Ok in Hrun as (b & ev' & h1 & h2 & _ & _ & _ & _ & _ & _ & _ & _ & _ & ->).
  - by apply TransitionInvoice_Err in Hrun as ->.
Qed.

(** The sum that was read is that of the lines as the transaction will leave them. *)
Lemma read_sum_Ok e before w db s :
  DB_wf db -> relies db e (HasWritten before w) -> read_sum e before w db = Ok s ->
  s = line_sum (written w (items db)) (ed_invoice e).
Proof.
  intros Hwf [R1 R2 (cur & R3 & R3') R4 _] Hs. cbn in *. unfold read_sum in Hs.
  destruct (sum_lines _ _ _) as [r d1] eqn:He. cbn in Hs. subst r. apply sum_lines_Ok in He as (-> & _ & _).
  unfold line_sum. do 2 f_equal. rewrite R1. apply (lines_of_eq _ _ (TenantID before)); [done|done|].
  intros k it Hk Hi. specialize (R4 w eq_refl). rewrite <- R3'. destruct w as [x|x]; cbn in Hk.
  - apply lookup_insert_Some in Hk as [[<- <-]|[_ Hk]]; [rewrite R3'; by apply R4|by eapply item_tenant].
  - apply lookup_delete_Some in Hk as [_ Hk]. by eapply item_tenant.
Qed.

Lemma relies_summed db e before w s : relies db e (HasSummed before w s) -> relies db e (HasWritten before w).
Proof. by intros [R1 R2 R3 R4 R5]. Qed.

Lemma written_rows e before w db cur :
  DB_wf db -> relies db e (HasWritten before w) -> invoices db !! ed_invoice e = Some cur ->
  (forall k it, written w (items db) !! k = Some it -> item_ID it = k /\ item_check it = true /\
     (items db !! k = Some it \/ item_InvoiceID it = ed_invoice e /\ item_TenantID it = TenantID cur)) /\
  (forall k it, item_InvoiceID it <> ed_invoice e -> items db !! k = Some it <-> written w (items db) !! k = Some it).
Proof.
  intros Hwf [_ _ (cur' & R3 & R3') R4 _] Hcur. cbn in *. rewrite Hcur in R3. injection R3 as <-. specialize (R4 w eq_refl).
  assert (Hin : forall k it, items db !! k = Some it -> item_ID it = k /\ item_check it = true)
    by (intros k it Hk; by destruct (wf_item _ Hwf _ _ Hk) as (? & ? & _)).
  destruct w as [x|x]; cbn in *.
  - destruct R4 as (Hfresh & Hc & Hi & Ht). split.
    + intros k it. rewrite lookup_insert_Some. intros [[<- <-]|[_ Hk]]; [|by destruct (Hin _ _ Hk); auto].
      split_and!; [done|done|right; split; congruence].
    + intros k it Hne. rewrite lookup_insert_Some. naive_solver.
  - destruct R4 as (y & Hy & Hi). split.
    + intros k it. rewrite lookup_delete_Some. intros [_ Hk]. destruct (Hin _ _ Hk). auto.
    + intros k it Hne. rewrite lookup_delete_Some. naive_solver.
Qed.

Lemma finish_step e before w s db inv db' :
  DB_wf db -> relies db e (HasSummed before w s) -> finish e before w s db = (Ok inv, db') ->
  DB_step db db' /\ items db' = written w (items db).
Proof.
  intros Hwf Hre Hf. pose proof Hre as [R1 R2 (cur & R3 & R3') R4 R5]. cbn in *.
  assert (Hst : exists k action kind, store_totals (ed_env e) (ed_settings e) k before (ed_auth e) action kind s (own_view w db) = (Ok inv, db'))
    by (unfold finish in Hf; destruct (ed_op e); eauto).
  destruct Hst as (k & action & kind & Hst).
  apply store_totals_Ok in Hst as (cur' & tot & ev' & h' & _ & Hc & Hdraft & Hchk & _ & (actor & kd & _ & ->) & _ & ->).
  apply find_invoice_Some in Hc as (Hc & _ & Ht). rewrite R1 in Hc. cbn in Hc. rewrite R3 in Hc. injection Hc as <-.
  pose proof (proj1 (wf_invoice _ Hwf _ _ R3)) as Hid. split; [|done].
  destruct (written_rows e before w db cur Hwf) as [Hrows Hother]; [by eapply relies_summed|done|].
  refine (DB_step_row db cur _ (written w (items db)) _ h' Hwf _ (inv_edited _ _ _ _ Hdraft) eq_refl Hchk _ _ _ _ _).
  - by rewrite Hid.
  - intros k' it Hk. rewrite Hid. by apply Hrows.
  - done.
  - intros k' it. rewrite Hid. apply Hother.
  - intros i. rewrite Hid. intros Hi. symmetry. apply line_sum_same. intros k' it <-. by apply Hother.
  - cbn. rewrite Hid. by eapply R5.
Qed.

Lemma finish_meanwhile e before w s db inv db' i :
  DB_wf db -> relies db e (HasSummed before w s) -> finish e before w s db = (Ok inv, db') -> i <> ed_invoice e -> meanwhile i db db'.
Proof.
  intros Hwf Hre Hf Hi. destruct (finish_step _ _ _ _ _ _ _ Hwf Hre Hf) as [Hd Hitems].
  split; [by apply DB_step_rows|]. rewrite Hitems. destruct (re_row _ _ _ Hre) as (cur & Hcur & _).
  intros k it <-. by apply (written_rows e before w db cur Hwf (relies_summed _ _ _ _ _ Hre) Hcur).
Qed.

(** A phase reached by one session. *)
Lemma coherent_insert n e ph db o :
  coherent (mkSessions db o) -> relies db e ph ->
  (forall m x px, m <> n -> o !! m = Some (x, px) -> ed_invoice x <> ed_invoice e) ->
  (forall m x px it it', m <> n -> o !! m = Some (x, px) -> line_of px = Some (Put it) -> line_of ph = Some (Put it') ->
     item_ID it <> item_ID it') ->
  coherent (mkSessions db (<[n := (e, ph)]> o)).
Proof.
  intros [C1 C2 C3 C4] Hre Ha Hi. split; cbn in *; [done|..].
  - intros m x px. rewrite lookup_insert_Some. intros [[<- [= <- <-]]|[_ Hm]]; [done|by eapply C2].
  - intros m k x y px py. rewrite !lookup_insert_Some.
    intros [[<- [= <- <-]]|[Hm Hx]] [[<- [= <- <-]]|[Hk Hy]] He; [done|..].
    + by destruct (Ha k y py).
    + by destruct (Ha m x px).
    + by eapply C3.
  - intros m k x y px py it it'. rewrite !lookup_insert_Some.
    intros [[<- [= <- <-]]|[Hm Hx]] [[<- [= <- <-]]|[Hk Hy]] Hl Hl' He; [done|..].
    + by destruct (Hi k y py it' it).
    + by destruct (Hi m x px it it').
    + by eapply C4.
Qed.

Lemma coherent_delete n db o : coherent (mkSessions db o) -> coherent (mkSessions db (delete n o)).
Proof.
  intros [C1 C2 C3 C4]. split; cbn in *; [done|..].
  - intros m x px [_ Hm]%lookup_delete_Some. by eapply C2.
  - intros m k x y px py [_ Hm]%lookup_delete_Some [_ Hk]%lookup_delete_Some. by eapply C3.
  - intros m k x y px py it it' [_ Hm]%lookup_delete_Some [_ Hk]%lookup_delete_Some. by eapply C4.
Qed.

(** A commit, seen by the sessions that are open. *)
Lemma coherent_commit db db' o :
  coherent (mkSessions db o) -> DB_wf db' ->
  (forall n e ph, o !! n = Some (e, ph) -> meanwhile (ed_invoice e) db db' /\
     forall it, line_of ph = Some (Put it) -> items db' !! item_ID it = None) ->
  coherent (mkSessions db' o).
Proof.
  intros [C1 C2 C3 C4] Hwf Hm. split; [done| |done|done]. intros n e ph Hn. destruct (Hm n e ph Hn) as [Hme Hf].
  eapply relies_kept; [exact Hme|exact Hf|]. by eapply C2.
Qed.

Lemma session_coherent s s' : session_step true s s' -> coherent s -> coherent s'.
Proof.
  intros Hs Hc. pose proof (co_wf _ Hc) as Hwf. destruct Hs as [db db' o Hw Hfree|n e before db o Hn Had Hr Ha|
    n e before w db o Hn Hw Hfree|n e before w s db o Hn Hs|n e before w s inv db db' o Hn Hf|n db o]; cbn in Hwf.
  - apply (coherent_commit db); [done|by apply (inv_step_DB_step emits tp _ _ (whole_step _ _ Hw))|].
    intros n e ph Hn. destruct (co_open _ Hc _ _ _ Hn) as [_ _ (cur & Hcur & _) _ _]. split; [by eapply whole_meanwhile|].
    intros it Hl. by apply (Hfree n e ph (Put it) Hn Hl).
  - unfold read_draft in Hr. destruct (find_invoice _ _ _ _) as [b|] eqn:Hfind; [|done]. case_decide; [|done]. injection Hr as ->.
    apply find_invoice_Some in Hfind as (Hin & Hg & Ht). apply coherent_insert; [done| |intros m x px _ Hm; by apply (Ha eq_refl m x px)|done].
    split; cbn; [by apply (wf_invoice _ Hwf)|by rewrite Ht|by exists before|done|done].
  - pose proof (co_open _ Hc _ _ _ Hn) as Hre. cbn in Hre. apply coherent_insert; [done|..].
    + destruct Hre as [R1 R2 (cur & R3 & R3') R4 R5]. split; cbn in *; [done|done|by exists cur| |done]. intros w' [= <-].
      unfold write_line in Hw. destruct (ed_op e) as [i lt|item]; cbv zeta in Hw.
      * destruct (MaxInt32 <? _); [done|]. destruct (insert_item _ _ db) as [[[]|x] d1] eqn:Hi; [|done]. injection Hw as <-.
        apply insert_item_Ok in Hi as (Hck & Hfr & _). by cbn in *.
      * unfold delete_item in Hw. destruct (items db !! item) as [it|] eqn:Hit; [|done].
        destruct (_ && _) eqn:Hb; [|done]. destruct (items_guard _ _); [|done]. cbn in Hw. injection Hw as <-. to_prop. by exists it.
    + intros m x px Hne Hm He. apply Hne. by eapply (co_alone _ Hc).
    + intros m x px it it' Hne Hm Hl [= ->]. specialize (Hfree m x px _ Hm Hl) as [Hfr _]. cbn in Hfr.
      intros He. by rewrite <- He, lookup_insert_eq in Hfr.
  - pose proof (co_open _ Hc _ _ _ Hn) as Hre. cbn in Hre. pose proof (read_sum_Ok e before w db s Hwf Hre Hs) as ->. apply coherent_insert; [done|..].
    + destruct Hre as [R1 R2 R3 R4 R5]. split; cbn in *; [done|done|done|done|]. by intros b w' s' [= _ <- <-].
    + intros m x px Hne Hm He. apply Hne. by eapply (co_alone _ Hc).
    + intros m x px it it' Hne Hm Hl Hl' He. apply Hne. by eapply (co_ids _ Hc _ _ _ _ _ _ _ _ Hm Hn).
  - pose proof (co_open _ Hc _ _ _ Hn) as Hre. cbn in Hre. destruct (finish_step _ _ _ _ _ _ _ Hwf Hre Hf) as [Hd Hitems].
    apply (coherent_commit db); [by apply coherent_delete|by apply Hd|]. intros m x px [Hne Hm]%lookup_delete_Some. split.
    + eapply finish_meanwhile; [done|exact Hre|exact Hf|]. intros He. apply Hne. by eapply (co_alone _ Hc).
    + intros it Hl. rewrite Hitems. pose proof (re_line _ _ _ (co_open _ Hc _ _ _ Hm) _ Hl) as (Hfr & _). destruct w as [y|k]; cbn.
      * rewrite lookup_insert_ne; [done|]. intros He. apply Hne. by eapply (co_ids _ Hc _ _ _ _ _ _ y it Hn Hm).
      * by rewrite lookup_delete_None; right.
  - by apply coherent_delete.
Qed.

Lemma sessions_coherent s s' : rtc (session_step true) s s' -> coherent s -> coherent s'.
Proof. induction 1 as [|x y z Hxy _ IH]; [done|]. intros Hx. by apply IH, (session_coherent x). Qed.

Lemma coherent_empty : coherent (mkSessions empty_DB ∅).
Proof. split; cbn; [apply inv_empty_wf|..]; intros *; by rewrite lookup_empty. Qed.

(** C11: The statements of an edit of an invoice's lines may have anything other sessions commit between them: creations,
    issues, payments and voids of any invoice, and edits of other invoices, themselves open at the same time. As long as
    no two sessions edit the lines of one invoice at once, every stored invoice adds up: its subtotal is the sum of its
    lines, its total is the subtotal plus the tax, each line is its quantity times its unit price and belongs to the
    invoice's tenant, and the lifecycle timestamps fit the status. (Two edits of one invoice at once can break the
    subtotal, in this very model: lemma two_editors_break_subtotal.) *)
Theorem invoice_integrity db o i inv :
  rtc (session_step true) (mkSessions empty_DB ∅) (mkSessions db o) -> invoices db !! i = Some inv ->
  SubtotalMinor inv = line_sum (items db) i /\ TotalMinor inv = SubtotalMinor inv + TaxMinor inv /\
  timestamps_ok inv = true /\ known_status (Status inv) = true /\
  (forall it, it ∈ lines (items db) i ->
     LineTotalMinor it = UnitPriceMinor it * Quantity it /\ 0 < Quantity it /\ 0 <= LineTotalMinor it /\
     item_TenantID it = TenantID inv).
Proof.
  intros Hs Hi. pose proof (co_wf _ (sessions_coherent _ _ Hs coherent_empty)) as Hwf. by apply integrity_of_wf.
Qed.
End sessions.

(** ** Sessions at work *)

Module SessionsDemo.
Import InvoiceDemo.
#[local] Existing Instance DemoUnicode.
#[local] Existing Instance DemoUUID.lib.
#[local] Existing Instance demo_json.

Notation sstep := (session_step true "").

Definition ok_or {A} (d : A) (r : result err A) : A := match r with Ok x => x | Err _ => d end.

Definition extra : ItemInput := mkItemInput "Extra" 1 100.
Definition adding : Edit := mkEdit (at_ 5) owner 10000%N (Adding extra 100).
Definition removing : Edit := mkEdit (at_ 6) owner 10000%N (Removing 10002%N).

Definition draft : Invoice := ok_or no_inv (read_draft adding db1).
Definition line : Write := ok_or (Drop 0%N) (write_line adding draft db1).

Lemma free_one n e ph w m : line_of ph = Some w -> takes w m -> free {[n := (e, ph)]} m.
Proof. intros Hl Ht k x px v. rewrite lookup_singleton_Some. intros [<- [= <- <-]] Hv. congruence. Qed.

Lemma free_read n e b o m : free o m -> free (<[n := (e, HasRead b)]> o) m.
Proof. intros Hf k x px v. rewrite lookup_insert_Some. intros [[_ Hk]|[_ Hk]] Hl; [by inversion Hk; subst|by eapply Hf]. Qed.

(** The indexes, looked up. *)
Definition takesb (w : Write) (m : gmap uuid Item) : bool :=
  match w with
  | Put it => bool_decide (m !! item_ID it = None) &&
              forallb (fun x => negb (bool_decide (item_InvoiceID x = item_InvoiceID it)) || negb (Position x =? Position it)) (map_to_list m).*2
  | Drop k => bool_decide (is_Some (m !! k))
  end.

Lemma takesb_spec w m : takesb w m = true -> takes w m.
Proof.
  destruct w as [it|k]; cbn; [|by intros Hk%bool_decide_eq_true].
  intros [Hf%bool_decide_eq_true Ha]%andb_true_iff. rewrite forallb_forall in Ha. split; [done|].
  intros k x Hk Hi He. specialize (Ha x). rewrite bool_decide_true, He, Z.eqb_refl in Ha by done. cbn in Ha.
  assert (false = true); [|done]. apply Ha, list_elem_of_In, list_elem_of_fmap. exists (k, x). by rewrite elem_of_map_to_list.
Qed.

Lemma adding_admitted : admitted adding.
Proof. split; [reflexivity|]. split; [reflexivity|]. split; [by exists extra|reflexivity]. Qed.

(** An item is added while another invoice is created. *)
Definition billed : DB := (Create true "" (at_ 7) owner request db1).2.
Definition total : Z := ok_or 0 (read_sum adding draft line billed).
Definition after_add : DB := (finish adding draft line total billed).2.

Lemma steps_reached b s s' : rtc (step true "") s s' -> rtc (sstep b) (mkSessions s ∅) (mkSessions s' ∅).
Proof. induction 1 as [|x y z Hxy _ IH]; [done|]. etrans; [by apply step_sessions|exact IH]. Qed.

Lemma begun b : rtc (sstep b) (mkSessions empty_DB ∅) (mkSessions db1 {[0%nat := (adding, HasWritten draft line)]}).
Proof.
  etrans; [apply steps_reached, inv_run1|]. eapply rtc_l; [|apply rtc_once].
  - apply (se_read true "" b 0%nat adding draft); [reflexivity|exact adding_admitted|vm_compute; reflexivity|].
    intros _ k x ph Hk. by rewrite lookup_empty in Hk.
  - rewrite <- (insert_empty 0%nat (adding, HasWritten draft line)), <- (insert_insert_eq ∅ 0%nat (adding, HasWritten draft line) (adding, HasRead draft)).
    apply se_write with (before := draft); [reflexivity|vm_compute; reflexivity|].
    intros n e ph w Hn Hl. apply lookup_insert_Some in Hn as [[_ [= <- <-]]|[_ Hn]]; [done|by rewrite lookup_empty in Hn].
Qed.

Lemma commits b n e before w s db o :
  o !! n = Some (e, HasSummed before w s) -> is_ok (finish e before w s db).1 = true ->
  rtc (sstep b) (mkSessions db o) (mkSessions (finish e before w s db).2 (delete n o)).
Proof.
  intros Hn Hok. apply rtc_once. destruct (finish e before w s db) as [[inv|x] db'] eqn:Hf; [|done].
  by eapply se_commit; [exact Hn|exact Hf].
Qed.

Lemma sums b n e before w s db o :
  o !! n = Some (e, HasWritten before w) -> read_sum e before w db = Ok s ->
  rtc (sstep b) (mkSessions db o) (mkSessions db (<[n := (e, HasSummed before w s)]> o)).
Proof. intros. apply rtc_once. by apply se_sum with (before := before) (w := w) (s := s). Qed.

Lemma overlapped_run : exists o, rtc (sstep true) (mkSessions empty_DB ∅) (mkSessions after_add o).
Proof.
  eexists. etrans; [exact (begun true)|]. eapply rtc_l.
  - apply (se_whole true "" true db1 billed).
    + eapply whole_create, surjective_pairing.
    + apply (free_one _ _ _ line); [reflexivity|]. apply takesb_spec; vm_compute; reflexivity.
  - etrans; [apply (sums _ 0%nat adding draft line total); [reflexivity|vm_compute; reflexivity]|].
    apply commits; [by rewrite lookup_insert_eq|vm_compute; reflexivity].
Qed.

Lemma invoice_integrity_witness :
  SubtotalMinor (the_row after_add) = line_sum (items after_add) 10000%N /\
  (SubtotalMinor (the_row db1), SubtotalMinor (the_row after_add)) = (18900, 19000) /\ size (invoices after_add) = 2%nat.
Proof.
  split; [|split; vm_compute; reflexivity]. destruct overlapped_run as [o Hr].
  exact (proj1 (invoice_integrity true "" after_add o 10000%N (the_row after_add) Hr ltac:(vm_compute; reflexivity))).
Defined.

(** Two sessions edit one invoice: the first has read its sum when the second deletes a line and commits. Both
    commit, and the subtotal is not the sum of the lines. *)
Definition removal : Write := ok_or (Drop 0%N) (write_line removing draft db1).
Definition added_total : Z := ok_or 0 (read_sum adding draft line db1).
Definition left_total : Z := ok_or 0 (read_sum removing draft removal db1).
Definition removed : DB := (finish removing draft removal left_total db1).2.
Definition broken : DB := (finish adding draft line added_total removed).2.

Lemma two_editors_break_subtotal :
  (exists o, rtc (sstep false) (mkSessions empty_DB ∅) (mkSessions broken o)) /\
  SubtotalMinor (the_row broken) = 19000 /\ line_sum (items broken) 10000%N = 18100.
Proof.
  split; [|split; vm_compute; reflexivity]. eexists. etrans; [exact (begun false)|].
  etrans; [apply (sums _ 0%nat adding draft line added_total); [reflexivity|vm_compute; reflexivity]|].
  eapply rtc_l.
  { apply (se_read true "" false 1%nat removing draft); [reflexivity|by split_and!|vm_compute; reflexivity|done]. }
  eapply rtc_l.
  { apply se_write with (n := 1%nat) (e := removing) (before := draft) (w := removal); [reflexivity|vm_compute; reflexivity|].
    apply free_read. rewrite insert_singleton_eq. apply (free_one _ _ _ line); [reflexivity|].
    apply takesb_spec; vm_compute; reflexivity. }
  etrans; [apply (sums _ 1%nat removing draft removal left_total); [by rewrite lookup_insert_eq|vm_compute; reflexivity]|].
  etrans; [apply (commits _ 1%nat removing draft removal left_total); [by rewrite lookup_insert_eq|vm_compute; reflexivity]|].
  apply (commits _ 0%nat adding draft line added_total); [vm_compute; reflexivity|vm_compute; reflexivity].
Qed.
End SessionsDemo.
