(* ===== verification/Idempotency.v ===== *)
(** * Idempotency keys

    [internal/idempotency]: keys and fingerprints, the response capture, and the
    store over the table of migration 0006. [Begin] is several transactions, and
    other requests commit between them: the model runs it with an arbitrary change
    of the table before each of its transactions. JSON text of header values is
    taken to survive encoding; every timestamp is the database's. *)

From S2P Require Import Prelude Apperr Encoding Ids Db Authz Tenant.

(** ** Keys and fingerprints *)

Definition MaxKeyLength : Z := 255.
Definition DefaultRetention : Z := 24 * 3600 * 1000000000.
Definition DefaultLease : Z := 60 * 1000000000.
Definition maxStoredBody : Z := Z.shiftl 64 10.

Definition ValidateKey (key : string) : go_result unit :=
  if decide (trim_space key = "") then Err (Sentinel ErrKeyBlank)
  else if MaxKeyLength <? slen key
  then Err (Wrapf ("idempotency: key is " +:+ dec (slen key) +:+ " characters, the maximum is " +:+ dec MaxKeyLength +:+
                   ": idempotency: key exceeds the maximum length") (Sentinel ErrKeyTooLong))
  else Ok tt.

Definition nul : string := String (byte_to 0) "".

Section fingerprint.
Context `{Unicode}.

(** The bytes hashed. *)
Definition fingerprint_input (method path query body : string) : string :=
  to_upper method +:+ nul +:+ path +:+ nul +:+ query +:+ nul +:+ sha256 body.
Definition Fingerprint (method path query body : string) : string :=
  hex_encode (sha256 (fingerprint_input method path query body)).
End fingerprint.

(** [subtle.ConstantTimeCompare(a, b) == 1] *)
Definition FingerprintsMatch (a b : string) : bool := String.eqb a b.

(** ** Headers *)

(** [http.Header]: canonical names to values. *)
Notation Header := (gmap string (list string)).

(** [textproto.CanonicalMIMEHeaderKey] *)
Definition is_token_b (b : Z) : bool :=
  is_lower_b b || is_upper_b b || is_digit_b b ||
  bool_decide (b ∈ [33; 35; 36; 37; 38; 39; 42; 43; 45; 46; 94; 95; 96; 124; 126]).
Fixpoint canonical_from (upper : bool) (s : string) : string :=
  match s with
  | "" => ""
  | String c r =>
      let b := byte_of c in
      String (byte_to (if upper then upper_b b else lower_b b)) (canonical_from (b =? 45) r)
  end.
Definition CanonicalHeaderKey (s : string) : string :=
  if str_forall is_token_b s then canonical_from true s else s.

Definition Values (h : Header) (name : string) : list string := default [] (h !! CanonicalHeaderKey name).
Definition Header_Add (name v : string) (h : Header) : Header :=
  <[CanonicalHeaderKey name := Values h name ++ [v]]> h.
Definition Header_Set (name v : string) (h : Header) : Header := <[CanonicalHeaderKey name := [v]]> h.

Definition replayableHeaders : list string := ["Content-Type"; "Location"; "ETag"].

(** The JSON object of the column [response_headers]. *)
Notation Stored := (gmap string (list string)).

Definition encodeHeaders (h : Header) : option Stored :=
  if decide (size h = 0%nat) then None
  else
    let out := foldl (fun (out : Stored) name => match Values h name with
                                                 | [] => out
                                                 | vs => <[name := vs]> out
                                                 end) ∅ replayableHeaders in
    if decide (size out = 0%nat) then None else Some out.

Definition validHeaderName (name : string) : bool :=
  negb (bool_decide (name = "")) &&
  str_forall (fun b => is_lower_b b || is_upper_b b || is_digit_b b || (b =? 45) || (b =? 95)) name.
Definition validHeaderValue (v : string) : bool :=
  str_forall (fun b => negb ((b =? 13) || (b =? 10) || (b =? 0))) v.

Definition add_values (name : string) (h : Header) (values : list string) : Header :=
  foldl (fun h v => if negb (validHeaderValue v) then h else Header_Add name v h) h values.

Definition decodeHeaders (stored : Stored) : Header :=
  foldl (fun h '(name, values) =>
           if negb (validHeaderName name) then h else add_values name h values)
    ∅ (map_to_list stored).

(** ** Capturing a response *)

Record CapturedResponse := mkCaptured {
  c_Status : Z;
  c_Headers : Header;
  c_Body : string;
  c_Overflow : bool;
}.

Definition Replayable (r : CapturedResponse) : bool := negb (c_Overflow r).

(** The [http.ResponseWriter] of the server: the header map handlers change, the
    status and headers sent, and the body written. *)
Record Writer := mkWriter {
  w_Header : Header;
  w_Sent : option (Z * Header);
  w_Body : string;
}.
Definition new_writer (h : Header) : Writer := mkWriter h None "".

Definition w_WriteHeader (status : Z) (w : Writer) : Writer :=
  match w_Sent w with
  | None => mkWriter (w_Header w) (Some (status, w_Header w)) (w_Body w)
  | Some _ => w
  end.
Definition w_Write (b : string) (w : Writer) : Writer :=
  let w := w_WriteHeader 200 w in mkWriter (w_Header w) (w_Sent w) (w_Body w +:+ b).

Record Capture := mkCapture {
  under : Writer;
  cap_status : Z;
  wroteHeader : bool;
  cap_body : string;
  overflow : bool;
}.

Definition NewCapture (w : Writer) : Capture := mkCapture w 200 false "" false.

Definition WriteHeader (status : Z) (c : Capture) : Capture :=
  let c1 := if wroteHeader c then c else mkCapture (under c) status true (cap_body c) (overflow c) in
  mkCapture (w_WriteHeader status (under c1)) (cap_status c1) (wroteHeader c1) (cap_body c1) (overflow c1).

Definition Write (b : string) (c : Capture) : Capture :=
  let '(body, over) :=
    if overflow c then (cap_body c, true)
    else if maxStoredBody <? slen (cap_body c) + slen b then (cap_body c, true)
    else (cap_body c +:+ b, false) in
  mkCapture (w_Write b (under c)) (cap_status c) true body over.

Definition Captured (c : Capture) : CapturedResponse :=
  mkCaptured (cap_status c) (w_Header (under c)) (cap_body c) (overflow c).

(** What a handler does to the writer it is given; a handler written against the
    interface runs on the server's writer or on the capture. *)
Inductive wop :=
  | OpSet (name v : string)
  | OpAdd (name v : string)
  | OpWriteHeader (status : Z)
  | OpWrite (b : string).

Definition on_header (f : Header -> Header) (w : Writer) : Writer := mkWriter (f (w_Header w)) (w_Sent w) (w_Body w).
Definition w_op (w : Writer) (o : wop) : Writer :=
  match o with
  | OpSet n v => on_header (Header_Set n v) w
  | OpAdd n v => on_header (Header_Add n v) w
  | OpWriteHeader s => w_WriteHeader s w
  | OpWrite b => w_Write b w
  end.
Definition c_op (c : Capture) (o : wop) : Capture :=
  match o with
  | OpSet n v =>
      mkCapture (on_header (Header_Set n v) (under c)) (cap_status c) (wroteHeader c) (cap_body c) (overflow c)
  | OpAdd n v =>
      mkCapture (on_header (Header_Add n v) (under c)) (cap_status c) (wroteHeader c) (cap_body c) (overflow c)
  | OpWriteHeader s => WriteHeader s c
  | OpWrite b => Write b c
  end.

(** ** The table *)

Inductive State := StateInProgress | StateCompleted.
#[export] Instance State_eq_dec : EqDecision State.
Proof. solve_decision. Defined.
Definition state_text (s : State) : string :=
  match s with StateInProgress => "in_progress" | StateCompleted => "completed" end.

Record Row := mkRow {
  r_Fingerprint : string;
  r_State : State;
  r_StatusCode : option Z;
  r_Headers : option Stored;
  r_Body : string;
  r_Replayable : bool;
  r_ActorID : uuid;
  r_CreatedAt : gotime;
  r_CompletedAt : option gotime;
  r_ExpiresAt : gotime;
}.

(** Keyed by the primary key, [(tenant_id, key)]. *)
Notation Table := (gmap (uuid * string) Row).

Record Record_ := mkRecord {
  Key : string;
  rec_Fingerprint : string;
  rec_State : State;
  StatusCode : Z;
  rec_Headers : Header;
  rec_Body : string;
  rec_Replayable : bool;
  rec_CreatedAt : gotime;
  rec_CompletedAt : option gotime;
  LeaseExpired : bool;
}.

Inductive BeginResult := OutcomeProceed | OutcomeReplay (rec : Record_).

Definition row_check (key : string) (r : Row) : bool :=
  (1 <=? char_length key) && (char_length key <=? 255) && (char_length (r_Fingerprint r) =? 64) &&
  match r_StatusCode r with None => true | Some s => (100 <=? s) && (s <=? 599) end &&
  match r_State r, r_StatusCode r, r_CompletedAt r with
  | StateInProgress, None, None => true
  | StateCompleted, Some _, Some _ => true
  | _, _, _ => false
  end && (r_CreatedAt r <? r_ExpiresAt r).

Definition actorID (auth : Authorized) : uuid := if IsMachine auth then keyID auth else userID auth.

Section store.
Context (retention lease : Z).

(** The statements, each a transaction of its own. *)

(** INSERT ... ON CONFLICT DO NOTHING RETURNING; no row means the key exists. *)
Definition insert_key (auth : Authorized) (t : uuid) (key fp : string) (env : Env) : SE Table err unit :=
  WithIdentityTx (Identity_of auth) (fun g tb =>
    let row := mkRow fp StateInProgress None None "" true (actorID auth) (env_now env) None
                 (env_now env + retention) in
    if negb (tenant_is g t) then (Err rls_violation, tb)
    else if negb (row_check key row) then (Err (check_violation "idempotency_keys"), tb)
    else match tb !! (t, key) with
         | Some _ => (Err (Sentinel PgxErrNoRows), tb)
         | None => (Ok tt, <[(t, key) := row]> tb)
         end).

Definition clearExpired (auth : Authorized) (t : uuid) (key : string) (env : Env) : SE Table err bool :=
  or_fail
    (WithIdentityTx (Identity_of auth) (fun g tb =>
       match tb !! (t, key) with
       | Some r =>
           if tenant_is g t && bool_decide (r_State r = StateCompleted) && (r_ExpiresAt r <=? env_now env)
           then (Ok true, delete (t, key) tb)
           else (Ok false, tb)
       | None => (Ok false, tb)
       end))
    (fun e => Wrapf ("clear expired idempotency key: " +:+ error_text e) e).

Definition takeOver (auth : Authorized) (t : uuid) (key fp : string) (env : Env) : SE Table err bool :=
  or_fail
    (WithIdentityTx (Identity_of auth) (fun g tb =>
       match tb !! (t, key) with
       | Some r =>
           if tenant_is g t && bool_decide (r_State r = StateInProgress) && (r_CreatedAt r <? env_now env - lease) then
             let row := mkRow fp (r_State r) (r_StatusCode r) (r_Headers r) (r_Body r) (r_Replayable r) (actorID auth)
                          (env_now env) (r_CompletedAt r) (env_now env + retention) in
             if negb (row_check key row) then (Err (check_violation "idempotency_keys"), tb)
             else (Ok true, <[(t, key) := row]> tb)
           else (Ok false, tb)
       | None => (Ok false, tb)
       end))
    (fun e => Wrapf ("take over idempotency key: " +:+ error_text e) e).

Definition record_of (now : gotime) (key : string) (r : Row) : Record_ :=
  mkRecord key (r_Fingerprint r) (r_State r) (default 0 (r_StatusCode r))
    (match r_Headers r with Some h => decodeHeaders h | None => ∅ end) (r_Body r) (r_Replayable r) (r_CreatedAt r)
    (r_CompletedAt r) (bool_decide (r_State r = StateInProgress) && (r_CreatedAt r <? now - lease)).

Definition read (auth : Authorized) (t : uuid) (key : string) (env : Env) : SE Table err (option Record_) :=
  or_fail
    (WithIdentityTx (Identity_of auth) (fun g tb =>
       match tb !! (t, key) with
       | Some r => if tenant_is g t then (Ok (Some (record_of (env_now env) key r)), tb) else (Ok None, tb)
       | None => (Ok None, tb)
       end))
    (fun e => Wrapf ("read idempotency key: " +:+ error_text e) e).

Definition Complete `{Unicode} (auth : Authorized) (key : string) (res : CapturedResponse) (env : Env) : SE Table err unit :=
  if negb (Valid auth) then throw (Sentinel ErrNoScope)
  else
    let replayable := Replayable res in
    let body := if replayable then c_Body res else "" in
    let headers := encodeHeaders (c_Headers res) in
    let tid : uuid := scope auth in
    WithIdentityTx (Identity_of auth) (fun g tb =>
      let lost := (Err (Wrapf ("idempotency claim for key " +:+ fmt_q key +:+ " was taken over before it completed: " +:+
                               sentinel_text ErrInProgress) (Sentinel ErrInProgress)), tb) in
      match tb !! (tid, key) with
      | Some r =>
          if tenant_is g tid && bool_decide (r_State r = StateInProgress) then
            let row := mkRow (r_Fingerprint r) StateCompleted (Some (c_Status res)) headers body replayable
                         (r_ActorID r) (r_CreatedAt r) (Some (env_now env)) (r_ExpiresAt r) in
            if negb (row_check key row)
            then (Err (Wrapf "complete idempotency key: check violation" (check_violation "idempotency_keys")), tb)
            else (Ok tt, <[(tid, key) := row]> tb)
          else lost
      | None => lost
      end).

(** [Sweep] on the role [subject_to_rls] describes. *)
Definition lapsed (now : gotime) (r : Row) : bool :=
  (r_ExpiresAt r <=? now) || (bool_decide (r_State r = StateInProgress) && (r_CreatedAt r <? now - lease)).
Definition expiry_leb (a b : (uuid * string) * Row) : bool := r_ExpiresAt a.2 <=? r_ExpiresAt b.2.

Definition Sweep (subject_to_rls : bool) (limit : Z) (env : Env) : SE Table err Z := fun tb =>
  let limit := if limit <=? 0 then 1000 else limit in
  if subject_to_rls
  then (Err (Wrapf ("sweep: the connected role is subject to row-level security, so the delete would be " +:+
                    "silently filtered to zero rows. Run this with owner credentials (the same role that " +:+
                    "applies migrations). Refusing rather than reporting a false success: " +:+
                    sentinel_text ErrSweepNeedsPrivilegedRole) (Sentinel ErrSweepNeedsPrivilegedRole)), tb)
  else
    let expired := take (Z.to_nat limit)
                     (order_by expiry_leb (filter (fun kr => lapsed (env_now env) kr.2) (map_to_list tb))) in
    (Ok (Z.of_nat (length expired)), foldl (fun tb k => delete k tb) tb expired.*1).

(** ** Begin

    [env n] is what the call's [n]th transaction observes, and [others n] what other
    sessions committed just before it. *)
Section begin.
Context (env : nat -> Env) (others : nat -> Table -> Table).

Definition tx {A} (f : Env -> SE Table err A) : SE (nat * Table) err A := fun '(n, tb) =>
  match f (env n) (others n tb) with (r, tb') => (r, (S n, tb')) end.

(** One attempt of the loop of [tryClaim]; [None] is a conflict. *)
Definition claim_once (auth : Authorized) (t : uuid) (key fp : string) : SE (nat * Table) err bool := fun s =>
  match tx (insert_key auth t key fp) s with
  | (Ok _, s') => (Ok true, s')
  | (Err e, s') =>
      if Is e PgxErrNoRows then (Ok false, s')
      else (Err (Wrapf ("claim idempotency key: " +:+ error_text e) e), s')
  end.

Definition tryClaim (auth : Authorized) (t : uuid) (key fp : string) : SE (nat * Table) err bool :=
  claimed ← claim_once auth t key fp;
  if (claimed : bool) then mret true
  else
    cleared ← tx (clearExpired auth t key);
    if (cleared : bool) then claim_once auth t key fp else mret false.

Fixpoint begin_attempts (k : nat) (auth : Authorized) (key fp : string) : SE (nat * Table) err BeginResult :=
  match k with
  | O => throw (Sentinel ErrInProgress)
  | S k' =>
      claimed ← tryClaim auth (scope auth) key fp;
      if (claimed : bool) then mret OutcomeProceed
      else
        found ← tx (read auth (scope auth) key);
        match found with
        | None => begin_attempts k' auth key fp
        | Some rec =>
            if negb (FingerprintsMatch (rec_Fingerprint rec) fp)
            then throw (Wrapf ("idempotency: this key was already used for a different request (this key is in state " +:+
                               state_text (rec_State rec) +:+ ")") (Sentinel ErrFingerprintMismatch))
            else if decide (rec_State rec = StateCompleted) then
              if negb (rec_Replayable rec) then throw (Sentinel ErrNotReplayable)
              else mret (OutcomeReplay rec)
            else if LeaseExpired rec then
              took ← tx (takeOver auth (scope auth) key fp);
              if (took : bool) then mret OutcomeProceed else throw (Sentinel ErrInProgress)
            else throw (Sentinel ErrInProgress)
        end
  end.

Definition Begin (auth : Authorized) (key fp : string) : SE (nat * Table) err BeginResult :=
  if negb (Valid auth) then throw (Sentinel ErrNoScope)
  else match ValidateKey key with
       | Err e => throw (Wrapf ("validation failed: " +:+ error_text e) (Sentinel ErrValidation))
       | Ok _ => begin_attempts 2 auth key fp
       end.
End begin.
End store.

(** [NewStore]'s defaults. *)
Definition store_retention (retention : Z) : Z := if retention <=? 0 then DefaultRetention else retention.
Definition store_lease (lease : Z) : Z := if lease <=? 0 then DefaultLease else lease.
