(* ===== verification/IdempotencyHttp.v ===== *)
(** * The idempotency middleware

    [internal/httpx/idempotency.go]: the middleware around a handler, the bounded
    read of the body, and the mapping of the protocol's errors. The handler is a
    function of the path and the body it is given and of the application's state
    [W]; it may panic. *)

From S2P Require Import Prelude Apperr Encoding Ids Db Authz Tenant Idempotency.

Definition maxBodyBytes : Z := Z.shiftl 1 20.

(** The request body as a reader: absent, a stream that ends, or one that fails. *)
Inductive BodyReader := NoBody | Stream (b : string) | Broken.

Record Request := mkRequest {
  Method : string;
  KeyHeader : list string;      (* [r.Header.Values("Idempotency-Key")] *)
  Path : string;
  Pattern : string;             (* chi's matched pattern, empty when there is none *)
  RawQuery : string;
  Body : BodyReader;
}.

Definition idempotentMethod (m : string) : bool := bool_decide (m ∈ ["POST"; "PATCH"; "DELETE"; "PUT"]).
Definition routePattern (r : Request) : string := if decide (Pattern r = "") then Path r else Pattern r.

Inductive body_error := errBodyUnreadable | errBodyTooLarge.

(** The bytes read, and the reader put back for the handler. *)
Definition readBodyOnce (b : BodyReader) : result body_error string :=
  match b with
  | NoBody => Ok ""
  | Broken => Err errBodyUnreadable
  | Stream s => if maxBodyBytes <? slen s then Err errBodyTooLarge else Ok s
  end.

Definition restored (b : BodyReader) (bytes : string) : BodyReader :=
  match b with NoBody => NoBody | _ => Stream bytes end.

(** A problem response, with its [Retry-After] when it has one. *)
Record Refusal := mkRefusal { problem : Problem; retry_after : option string }.
Definition refuse (status : Z) (code msg : string) : Refusal := mkRefusal (mkProblem status code msg None) None.

Definition writeBodyError (e : body_error) : Refusal :=
  match e with
  | errBodyTooLarge => refuse 413 "payload_too_large" "the request body exceeds the maximum size"
  | errBodyUnreadable => refuse 400 "invalid_request" "the request body could not be read"
  end.

Definition writeIdempotencyError (e : err) : Refusal :=
  if Is e ErrKeyBlank || Is e ErrKeyTooLong then refuse 400 "invalid_idempotency_key" (error_text e)
  else if Is e ErrInProgress then
    mkRefusal (mkProblem 409 "request_in_progress"
      "an identical request with this idempotency key is already in progress; retry shortly" None) (Some "1")
  else if Is e ErrFingerprintMismatch then
    refuse 422 "idempotency_key_reused"
      "this idempotency key was already used for a different request; use a new key"
  else if Is e ErrNotReplayable then
    refuse 409 "idempotent_response_not_replayable"
      ("the original request with this key succeeded, but its response was too large to replay; " +:+ "use a new key")
  else mkRefusal (Map e) None.

(** [writeReplay] on the response under construction. *)
Definition writeReplay (rec : Record_) (w : Writer) : Writer :=
  let w := foldl (fun w '(name, values) => foldl (fun w v => w_op w (OpAdd name v)) w values) w
             (map_to_list (rec_Headers rec)) in
  let w := w_op w (OpSet "Idempotent-Replay" "true") in
  let status := if StatusCode rec =? 0 then 200 else StatusCode rec in
  let w := w_WriteHeader status w in
  if decide (rec_Body rec = "") then w else w_Write (rec_Body rec) w.

(** How a request ended: refused before the handler, answered from the record,
    answered by the handler, or with its handler panicking. *)
Inductive Outcome :=
  | Refused (r : Refusal)
  | Replayed (w : Writer)
  | Served (w : Writer)
  | Panicked (w : Writer).

Section middleware.
Context `{Unicode} {W : Type}.
Context (retention lease : Z).

(** A handler on a path and a body: what it writes, whether it then panics, and
    the state it leaves. *)
Definition Handler := string -> BodyReader -> W -> list wop * bool * W.

Definition serve (next : Handler) (path : string) (body : BodyReader) (w : Writer) (s : W) : Outcome * W :=
  let '(ops, panics, s') := next path body s in
  let w' := foldl w_op w ops in
  ((if panics then Panicked w' else Served w'), s').

(** The body of the returned [http.HandlerFunc]. [enabled] says a store was
    supplied; [w] is the response under construction; [env] and [others] are those
    of the store's transactions. *)
Definition Idempotency (enabled : bool) (env : nat -> Env) (others : nat -> Table -> Table) (next : Handler)
    (auth : option Authorized) (r : Request) (w : Writer) (tb : Table) (s : W) : Outcome * Table * W :=
  let pass := let '(o, s') := serve next (Path r) (Body r) w s in (o, tb, s') in
  if negb enabled then pass
  else if negb (idempotentMethod (Method r)) then pass
  else match KeyHeader r with
  | [] => pass
  | v :: _ =>
      let key := trim_space v in
      match ValidateKey key with
      | Err e => (Refused (writeIdempotencyError e), tb, s)
      | Ok _ =>
          match auth with
          | None => (Refused (refuse 500 "internal_error" "an internal error occurred"), tb, s)
          | Some a =>
              match readBodyOnce (Body r) with
              | Err e => (Refused (writeBodyError e), tb, s)
              | Ok body =>
                  let fp := Fingerprint (Method r) (routePattern r) (RawQuery r) body in
                  match Begin retention lease env others a key fp (0%nat, tb) with
                  | (Err e, (_, tb1)) => (Refused (writeIdempotencyError e), tb1, s)
                  | (Ok (OutcomeReplay rec), (_, tb1)) => (Replayed (writeReplay rec w), tb1, s)
                  | (Ok OutcomeProceed, (n, tb1)) =>
                      let '(ops, panics, s') := next (Path r) (restored (Body r) body) s in
                      let capture := foldl c_op (NewCapture w) ops in
                      if (panics : bool) then (Panicked (under capture), tb1, s')
                      else
                        match tx env others (Complete a key (Captured capture)) (n, tb1) with
                        | (_, (_, tb2)) => (Served (under capture), tb2, s')
                        end
                  end
              end
          end
      end
  end.
End middleware.
