(* ===== verification/IdempotencyProps.v ===== *)
(** * Properties of idempotency keys *)

From S2P Require Import Prelude Apperr Encoding Ids Db Authz Tenant Idempotency IdempotencyHttp.

(** ** The capture *)

(** What a capture knows of the writer under it. *)
Definition cap_ok (c : Capture) : Prop :=
  wroteHeader c = match w_Sent (under c) with Some _ => true | None => false end /\
  cap_status c = match w_Sent (under c) with Some (s, _) => s | None => 200 end /\
  overflow c = (maxStoredBody <? slen (w_Body (under c))) /\
  (overflow c = false -> cap_body c = w_Body (under c)).

Lemma NewCapture_ok h : cap_ok (NewCapture (new_writer h)).
Proof. done. Qed.

Lemma c_op_ok c o : cap_ok c -> cap_ok (c_op c o) /\ under (c_op c o) = w_op (under c) o.
Proof.
  intros (Hw & Hs & Ho & Hb). destruct o as [n v|n v|s|b]; cbn [c_op w_op].
  - split; [by split_and!|done].
  - split; [by split_and!|done].
  - unfold WriteHeader, cap_ok, w_WriteHeader. rewrite Hw. destruct (w_Sent (under c)) as [[s' h]|] eqn:E; cbn;
      rewrite ?E; (split; [split_and!; try done; by rewrite ?E in *|done]).
  - unfold Write, cap_ok, w_Write, w_WriteHeader.
    destruct (overflow c) eqn:Eo.
    + destruct (w_Sent (under c)) as [[s' h]|] eqn:E; cbn; rewrite ?E; (split; [|done]); split_and!; try done;
        symmetry; apply Z.ltb_lt; symmetry in Ho; apply Z.ltb_lt in Ho; rewrite slen_app; pose proof (slen_nonneg b); lia.
    + rewrite (Hb eq_refl). destruct (Z.ltb_spec maxStoredBody (slen (w_Body (under c)) + slen b));
        destruct (w_Sent (under c)) as [[s' h]|] eqn:E; cbn; rewrite ?E; (split; [|done]); split_and!; try done;
        rewrite slen_app; symmetry; (apply Z.ltb_lt || apply Z.ltb_ge); lia.
Qed.

Lemma c_ops_ok ops c : cap_ok c -> cap_ok (foldl c_op c ops) /\ under (foldl c_op c ops) = foldl w_op (under c) ops.
Proof.
  revert c. induction ops as [|o ops IH]; intros c Hc; [done|]. cbn.
  destruct (c_op_ok c o Hc) as [Hc' Hu]. destruct (IH _ Hc') as [? ->]. by rewrite Hu.
Qed.

Definition sent_status (w : Writer) : Z := match w_Sent w with Some (s, _) => s | None => 200 end.

(** The capture is transparent and its record is faithful: the client receives
    what it would have without it, the recorded status is the one sent, and the
    recorded body is the whole body or is marked as overflowed, which happens
    exactly past the cap, however the handler cuts its writes. *)
Theorem Capture_faithful h ops :
  let w := foldl w_op (new_writer h) ops in
  let c := foldl c_op (NewCapture (new_writer h)) ops in
  under c = w /\ c_Status (Captured c) = sent_status w /\ c_Headers (Captured c) = w_Header w /\
  (c_Overflow (Captured c) = true <-> maxStoredBody < slen (w_Body w)) /\
  (Replayable (Captured c) = true -> c_Body (Captured c) = w_Body w).
Proof.
  cbn zeta. destruct (c_ops_ok ops _ (NewCapture_ok h)) as [(Hw & Hs & Ho & Hb) Hu]. cbn [under NewCapture] in Hu.
  rewrite Hu in *. split_and!; [done|done|by cbn; rewrite Hu| |].
  - cbn. rewrite Ho. apply Z.ltb_lt.
  - cbn. unfold Replayable. cbn. intros Hr. apply Hb. by destruct (overflow _).
Qed.

(** ** Stored headers *)

(** The headers a stored response is replayed with. *)
Definition replayed_headers (h : Header) : Header :=
  match encodeHeaders h with Some s => decodeHeaders s | None => ∅ end.

Lemma Values_empty n : Values ∅ n = [].
Proof. reflexivity. Qed.

Lemma Values_Add name v h n :
  Values (Header_Add name v h) n =
  if decide (CanonicalHeaderKey name = CanonicalHeaderKey n) then Values h n ++ [v] else Values h n.
Proof.
  unfold Header_Add. case_decide as Hn.
  - unfold Values at 1. rewrite Hn, lookup_insert_eq. cbn. unfold Values. by rewrite Hn.
  - unfold Values. by rewrite lookup_insert_ne.
Qed.

Lemma Values_decode_one name vs h n :
  Values (add_values name h vs) n =
  Values h n ++ (if decide (CanonicalHeaderKey name = CanonicalHeaderKey n)
                 then filter (fun v => validHeaderValue v = true) vs else []).
Proof.
  revert h. induction vs as [|v vs IH]; intros h.
  - cbn. case_decide; by rewrite app_nil_r.
  - change (add_values name h (v :: vs))
      with (add_values name (if negb (validHeaderValue v) then h else Header_Add name v h) vs). rewrite IH. destruct (validHeaderValue v) eqn:Hv; cbn [negb].
    + rewrite Values_Add. case_decide; [|done]. rewrite filter_cons_True by done.
      by rewrite <- app_assoc.
    + case_decide; [|done]. rewrite filter_cons_False; [done|]. congruence.
Qed.

Definition replayed_names : list string := ["Content-Type"; "Location"; "Etag"].

(** Storing and replaying keeps exactly the whitelisted headers, in order, less
    the values that could split a response: no other header, a cookie or a request
    id in particular, ever comes back. *)
Theorem headers_roundtrip h n :
  Values (replayed_headers h) n =
  if decide (CanonicalHeaderKey n ∈ replayed_names) then filter (fun v => validHeaderValue v = true) (Values h n) else [].
Proof.
  unfold replayed_headers, encodeHeaders. case_decide as Hsz.
  { apply map_size_empty_inv in Hsz as ->. rewrite !Values_empty. by case_decide. }
  assert (forall m, CanonicalHeaderKey m = CanonicalHeaderKey n -> Values h m = Values h n) as Hcanon
    by (intros m Hm; unfold Values; by rewrite Hm).
  assert (CanonicalHeaderKey "Content-Type" = "Content-Type" /\ CanonicalHeaderKey "Location" = "Location" /\
          CanonicalHeaderKey "ETag" = "Etag") as (E1 & E2 & E3) by (split_and!; vm_compute; reflexivity).
  pose proof (Hcanon "Content-Type") as H1. pose proof (Hcanon "Location") as H2. pose proof (Hcanon "ETag") as H3.
  rewrite E1 in H1. rewrite E2 in H2. rewrite E3 in H3. clear Hcanon.
  cbn [foldl replayableHeaders].
  destruct (Values h "Content-Type") as [|a la] eqn:V1; destruct (Values h "Location") as [|b lb] eqn:V2;
    destruct (Values h "ETag") as [|c lc] eqn:V3;
    (case_decide as Hz; [vm_compute in Hz; try discriminate Hz|]);
    unfold decodeHeaders;
    repeat match goal with
    | |- context [map_to_list ?m] => let l := eval vm_compute in (map_to_list m) in
        replace (map_to_list m) with l by (vm_compute; reflexivity)
    end;
    cbn [foldl];
    repeat match goal with
    | |- context [validHeaderName ?s] => replace (validHeaderName s) with true by (vm_compute; reflexivity)
    end; cbn [negb];
    rewrite ?Values_decode_one, ?Values_empty, ?E1, ?E2, ?E3;
    clear Hz Hsz V1 V2 V3.
  all: destruct (decide (CanonicalHeaderKey n ∈ replayed_names)) as [Hin | Hnin].
  all: try (assert (CanonicalHeaderKey n = "Content-Type" \/ CanonicalHeaderKey n = "Location" \/
                    CanonicalHeaderKey n = "Etag") as [He | [He | He]] by (unfold replayed_names in Hin; set_solver);
    rewrite He in *; repeat case_decide; try discriminate; try done;
    rewrite ?app_nil_l, ?app_nil_r; first [rewrite <- H1 by done | rewrite <- H2 by done | rewrite <- H3 by done]; done).
  all: repeat case_decide; try done.
  all: exfalso; apply Hnin; unfold replayed_names; match goal with He : _ = CanonicalHeaderKey _ |- _ => rewrite <- He end; set_solver.
Qed.

(** ** The rows over time *)

Section store.
Context `{Unicode} (retention lease : Z).

(** Any session's transaction that observes the time [now]. *)
Inductive tstep (now : gotime) : Table -> Table -> Prop :=
  | ts_insert auth t key fp env tb res tb' :
      env_now env = now -> insert_key retention auth t key fp env tb = (res, tb') -> tstep now tb tb'
  | ts_clear auth t key env tb res tb' :
      env_now env = now -> clearExpired auth t key env tb = (res, tb') -> tstep now tb tb'
  | ts_take auth t key fp env tb res tb' :
      env_now env = now -> takeOver retention lease auth t key fp env tb = (res, tb') -> tstep now tb tb'
  | ts_complete auth key res env tb out tb' :
      env_now env = now -> Complete auth key res env tb = (out, tb') -> tstep now tb tb'
  | ts_sweep rls limit env tb res tb' :
      env_now env = now -> Sweep lease rls limit env tb = (res, tb') -> tstep now tb tb'.

(** What other sessions may have done by the time [T]. *)
Definition until (T : gotime) : Table -> Table -> Prop := rtc (fun x y => exists now, now <= T /\ tstep now x y).

Definition completed_of (r : Row) (r' : Row) : Prop :=
  r_State r = StateInProgress /\ r_State r' = StateCompleted /\ r_Fingerprint r' = r_Fingerprint r /\
  r_CreatedAt r' = r_CreatedAt r /\ r_ExpiresAt r' = r_ExpiresAt r.

Lemma foldl_delete_lookup {K A} `{Countable K} (l : list K) (m : gmap K A) k :
  foldl (fun m k => delete k m) m l !! k = if decide (k ∈ l) then None else m !! k.
Proof.
  revert m. induction l as [|x l IH]; intros m; cbn.
  - by rewrite decide_False by (by intros ?%elem_of_nil).
  - rewrite IH. destruct (decide (k ∈ l)).
    + by rewrite decide_True by (by right).
    + destruct (decide (k = x)) as [-> | Hne].
      * rewrite lookup_delete_eq, decide_True; [done|left].
      * rewrite lookup_delete_ne, decide_False; [done|by intros [? | ?]%elem_of_cons|done].
Qed.

(** A row is replaced only in four ways: kept, removed or taken over once it has
    lapsed, or completed. *)
Lemma tstep_row now tb tb' k r :
  tstep now tb tb' -> tb !! k = Some r ->
  tb' !! k = Some r \/ lapsed lease now r = true \/ exists r', tb' !! k = Some r' /\ completed_of r r'.
Proof.
  intros [auth t key fp env tb0 res tb1 <- Hrun|auth t key env tb0 res tb1 <- Hrun|auth t key fp env tb0 res tb1 <- Hrun|
          auth key res env tb0 out tb1 <- Hrun|rls limit env tb0 res tb1 <- Hrun] Hk.
  - destruct res as [[]|e]; [|unfold insert_key in Hrun; apply WithIdentityTx_Err in Hrun as ->; by left].
    apply WithIdentityTx_Ok in Hrun. cbv beta zeta in Hrun. destruct (negb _); [done|]. destruct (negb _); [done|].
    destruct (tb0 !! (t, key)) eqn:E; [done|]. injection Hrun as <-. left. rewrite lookup_insert_ne; [done|]. congruence.
  - destruct res as [b|e]; [|unfold clearExpired in Hrun; apply or_fail_Err in Hrun as (? & _ & Hrun);
      apply WithIdentityTx_Err in Hrun as ->; by left].
    apply or_fail_Ok, WithIdentityTx_Ok in Hrun. cbv beta in Hrun. destruct (tb0 !! (t, key)) as [r0|] eqn:E.
    + destruct (_ && _) eqn:Hb in Hrun; injection Hrun as <- <-; [|by left]. to_prop.
      destruct (decide (k = (t, key))) as [-> | Hne].
      * right; left. rewrite E in Hk. injection Hk as <-. unfold lapsed. apply orb_true_iff. left. by apply Z.leb_le.
      * left. by rewrite lookup_delete_ne.
    + injection Hrun as <- <-. by left.
  - destruct res as [b|e]; [|unfold takeOver in Hrun; apply or_fail_Err in Hrun as (? & _ & Hrun);
      apply WithIdentityTx_Err in Hrun as ->; by left].
    apply or_fail_Ok, WithIdentityTx_Ok in Hrun. cbv beta zeta in Hrun. destruct (tb0 !! (t, key)) as [r0|] eqn:E.
    + destruct (_ && _) eqn:Hb in Hrun; [|injection Hrun as <- <-; by left]. destruct (negb _); [done|].
      injection Hrun as <- <-. destruct (decide (k = (t, key))) as [-> | Hne].
      * right; left. rewrite E in Hk. injection Hk as <-. unfold lapsed. to_prop.
        rewrite (bool_decide_eq_true_2 (r_State r0 = StateInProgress)) by done. cbn. apply orb_true_iff. right.
        by apply Z.ltb_lt.
      * left. by rewrite lookup_insert_ne.
    + injection Hrun as <- <-. by left.
  - unfold Complete in Hrun. destruct (negb _); [injection Hrun as <- <-; by left|]. cbv zeta in Hrun.
    destruct out as [[]|e]; [|apply WithIdentityTx_Err in Hrun as ->; by left].
    apply WithIdentityTx_Ok in Hrun. cbv beta in Hrun. destruct (tb0 !! (scope auth : uuid, key)) as [r0|] eqn:E; [|done].
    destruct (_ && _) eqn:Hb in Hrun; [|done]. destruct (negb _); [done|]. injection Hrun as <-. to_prop.
    destruct (decide (k = (scope auth : uuid, key))) as [-> | Hne].
    + right; right. rewrite E in Hk. injection Hk as <-. eexists. rewrite lookup_insert_eq. split; [done|]. by split_and!.
    + left. by rewrite lookup_insert_ne.
  - unfold Sweep in Hrun. destruct rls; injection Hrun as <- <-; [by left|]. rewrite foldl_delete_lookup.
    case_decide as Hin; [|by left]. right; left. apply list_elem_of_fmap in Hin as ([k' r'] & -> & Hin).
    apply (subseteq_take _ _) in Hin. rewrite order_by_Permutation in Hin. apply list_elem_of_filter in Hin as [Hl Hin].
    apply elem_of_map_to_list in Hin. cbn in *. rewrite Hin in Hk. injection Hk as <-. by apply Is_true_true.
Qed.

(** A row no session can remove or take over by the time [T]. *)
Definition held (T : gotime) (r : Row) : Prop :=
  T < r_ExpiresAt r /\ (r_State r = StateInProgress -> T <= r_CreatedAt r + lease).

Lemma held_not_lapsed T now r : held T r -> now <= T -> lapsed lease now r = false.
Proof.
  intros [He Hl] Hn. unfold lapsed. destruct (Z.leb_spec (r_ExpiresAt r) now); [lia|]. cbn.
  destruct (bool_decide (r_State r = StateInProgress)) eqn:Hs; [|done]. to_prop. cbn. apply Z.ltb_ge. specialize (Hl Hs). lia.
Qed.

Lemma completed_held T r r' : held T r -> completed_of r r' -> held T r'.
Proof. intros [He Hl] (_ & Hs & _ & _ & Hx). split; [lia|]. rewrite Hs. done. Qed.

Lemma held_until T tb tb' k r :
  until T tb tb' -> tb !! k = Some r -> held T r ->
  exists r', tb' !! k = Some r' /\ held T r' /\ (r' = r \/ completed_of r r').
Proof.
  intros Hu. revert r. induction Hu as [|x y z (now & Hn & Hst) _ IH]; intros r Hk Hh; [eauto|].
  destruct (tstep_row _ _ _ _ _ Hst Hk) as [Hy | [Hl | (r1 & Hy & Hc)]].
  - by apply IH.
  - by rewrite (held_not_lapsed T) in Hl.
  - destruct (IH r1 Hy (completed_held _ _ _ Hh Hc)) as (r2 & Hz & Hh2 & Hor). exists r2. split_and!; [done|done|].
    right. destruct Hor as [-> | Hc2]; [done|]. destruct Hc as (_ & Hs & _), Hc2 as (Hs2 & _). congruence.
Qed.

Definition good_key (key fp : string) : Prop :=
  ValidateKey key = Ok tt /\ 1 <= char_length key /\ char_length fp = 64 /\ 0 < retention.

Lemma char_length_le s : char_length s <= slen s.
Proof. unfold char_length, slen. pose proof (length_filter (fun b => b < 128 \/ 192 <= b) (bytes_of s)). rewrite length_bytes_of in *. lia. Qed.

Definition fresh (auth : Authorized) (fp : string) (now : gotime) : Row :=
  mkRow fp StateInProgress None None "" true (actorID auth) now None (now + retention).

Lemma fresh_check auth key fp now : good_key key fp -> row_check key (fresh auth fp now) = true.
Proof.
  intros (Hv & Hk & Hf & Hr). unfold ValidateKey in Hv. case_decide; [done|].
  destruct (Z.ltb_spec MaxKeyLength (slen key)) as [|Hl]; [done|]. pose proof (char_length_le key). unfold MaxKeyLength in Hl.
  unfold row_check, fresh. cbn. rewrite Hf. cbn. rewrite !andb_true_r. repeat (apply andb_true_iff; split); lia.
Qed.

Lemma insert_key_run auth key fp env tb :
  Valid auth = true -> good_key key fp ->
  insert_key retention auth (scope auth) key fp env tb =
  match tb !! (scope auth : uuid, key) with
  | Some _ => (Err (Sentinel PgxErrNoRows), tb)
  | None => (Ok tt, <[(scope auth : uuid, key) := fresh auth fp (env_now env)]> tb)
  end.
Proof.
  intros Hv Hg. destruct (Valid_identity _ Hv) as [Hi Ht]. unfold insert_key. rewrite WithIdentityTx_run by done.
  fold (settings_of (Identity_of auth)). unfold BeginFunc, tenant_is. rewrite Ht, bool_decide_eq_true_2 by done.
  cbv zeta. fold (fresh auth fp (env_now env)). rewrite fresh_check by done. cbn [negb].
  change (scope auth, key) with (scope auth : uuid, key). by destruct (tb !! (scope auth : uuid, key)).
Qed.

Lemma clearExpired_run auth key env tb :
  Valid auth = true ->
  clearExpired auth (scope auth) key env tb =
  match tb !! (scope auth : uuid, key) with
  | Some r => if bool_decide (r_State r = StateCompleted) && (r_ExpiresAt r <=? env_now env)
              then (Ok true, delete (scope auth : uuid, key) tb) else (Ok false, tb)
  | None => (Ok false, tb)
  end.
Proof.
  intros Hv. destruct (Valid_identity _ Hv) as [Hi Ht]. unfold clearExpired, or_fail. rewrite WithIdentityTx_run by done.
  fold (settings_of (Identity_of auth)). unfold BeginFunc, tenant_is. rewrite Ht, bool_decide_eq_true_2 by done.
  cbn [andb]. change (scope auth, key) with (scope auth : uuid, key).
  destruct (tb !! (scope auth : uuid, key)) as [r|]; [|done]. by destruct (_ && _).
Qed.

Lemma read_run auth key env tb :
  Valid auth = true ->
  read lease auth (scope auth) key env tb = (Ok (record_of lease (env_now env) key <$> tb !! (scope auth : uuid, key)), tb).
Proof.
  intros Hv. destruct (Valid_identity _ Hv) as [Hi Ht]. unfold read, or_fail. rewrite WithIdentityTx_run by done.
  fold (settings_of (Identity_of auth)). unfold BeginFunc, tenant_is. rewrite Ht, bool_decide_eq_true_2 by done.
  change (scope auth, key) with (scope auth : uuid, key). by destruct (tb !! (scope auth : uuid, key)) as [r|].
Qed.

Lemma claim_once_run env others auth key fp n tb :
  Valid auth = true -> good_key key fp ->
  claim_once retention env others auth (scope auth) key fp (n, tb) =
  match others n tb !! (scope auth : uuid, key) with
  | Some _ => (Ok false, (S n, others n tb))
  | None => (Ok true, (S n, <[(scope auth : uuid, key) := fresh auth fp (env_now (env n))]> (others n tb)))
  end.
Proof.
  intros Hv Hg. unfold claim_once, tx. rewrite insert_key_run by done.
  by destruct (others n tb !! (scope auth : uuid, key)).
Qed.

Section begin.
Context (env : nat -> Env) (others : nat -> Table -> Table).
Context (T : gotime) (Henv : forall n, env_now (env n) <= T) (Hothers : forall n tb, until T tb (others n tb)).

Lemma tryClaim_held auth key fp n tb r :
  Valid auth = true -> good_key key fp -> tb !! (scope auth : uuid, key) = Some r -> held T r ->
  exists tb', tryClaim retention env others auth (scope auth) key fp (n, tb) = (Ok false, (S (S n), tb')) /\ until T tb tb'.
Proof.
  intros Hv Hg Hk Hh. exists (others (S n) (others n tb)).
  split; [|unfold until; etrans; apply Hothers].
  destruct (held_until _ _ _ _ _ (Hothers n tb) Hk Hh) as (r1 & Hk1 & Hh1 & _).
  destruct (held_until _ _ _ _ _ (Hothers (S n) (others n tb)) Hk1 Hh1) as (r2 & Hk2 & [Hx _] & _).
  unfold tryClaim, mbind, SE_bind. rewrite claim_once_run, Hk1 by done. unfold tx.
  rewrite clearExpired_run, Hk2 by done. specialize (Henv (S n)).
  destruct (Z.leb_spec (r_ExpiresAt r2) (env_now (env (S n)))); [lia|]. by rewrite andb_false_r.
Qed.

(** What [Begin] answers on a key that is held. *)
Definition held_answer (key fp : string) (r : Row) : go_result BeginResult :=
  if negb (FingerprintsMatch (r_Fingerprint r) fp)
  then Err (Wrapf ("idempotency: this key was already used for a different request (this key is in state " +:+
                   state_text (r_State r) +:+ ")") (Sentinel ErrFingerprintMismatch))
  else if decide (r_State r = StateCompleted) then
    if negb (r_Replayable r) then Err (Sentinel ErrNotReplayable)
    else Ok (OutcomeReplay (record_of lease 0 key r))
  else Err (Sentinel ErrInProgress).

Lemma record_of_completed now key r :
  r_State r = StateCompleted -> record_of lease now key r = record_of lease 0 key r.
Proof. intros Hs. unfold record_of. by rewrite Hs. Qed.

Lemma Begin_held auth key fp tb r :
  Valid auth = true -> good_key key fp -> tb !! (scope auth : uuid, key) = Some r -> held T r ->
  exists n tb' r', Begin retention lease env others auth key fp (0%nat, tb) = (held_answer key fp r', (n, tb')) /\
    until T tb tb' /\ tb' !! (scope auth : uuid, key) = Some r' /\ (r' = r \/ completed_of r r').
Proof.
  intros Hv Hg Hk Hh. pose proof Hg as (Hval & _). unfold Begin. rewrite Hv, Hval. cbn [negb].
  destruct (tryClaim_held auth key fp 0 tb r Hv Hg Hk Hh) as (tb1 & Ht & Hu). cbn [begin_attempts].
  unfold mbind, SE_bind at 1. rewrite Ht. unfold SE_bind, tx. rewrite read_run by done.
  assert (until T tb (others 2%nat tb1)) as Hu2 by (unfold until; etrans; [exact Hu|apply Hothers]).
  destruct (held_until _ _ _ _ _ Hu2 Hk Hh) as (r' & Hk' & Hh' & Hor).
  exists 3%nat, (others 2%nat tb1), r'. split; [|done]. rewrite Hk'. cbn [fmap option_fmap option_map].
  unfold held_answer. cbn [rec_Fingerprint rec_State rec_Replayable record_of].
  destruct (negb (FingerprintsMatch _ _)); [done|]. case_decide as Hs.
  - destruct (negb (r_Replayable r')); [done|]. cbn. unfold mret, SE_ret. by rewrite record_of_completed.
  - assert (LeaseExpired (record_of lease (env_now (env 2)) key r') = false) as ->; [|done].
    pose proof (held_not_lapsed _ _ _ Hh' (Henv 2)) as Hl. unfold lapsed in Hl. by apply orb_false_iff in Hl as [_ ?].
Qed.
End begin.

(** The row of a claim made at [now]. *)
Definition claimed_row (fp : string) (now : gotime) (r : Row) : Prop :=
  r_State r = StateInProgress /\ r_Fingerprint r = fp /\ r_CreatedAt r = now /\ r_ExpiresAt r = now + retention.

Section claims.
Context (env : nat -> Env) (others : nat -> Table -> Table).

Definition claimed_at (auth : Authorized) (key fp : string) (s : nat * Table) : Prop :=
  exists m r, s.1 = S m /\ s.2 !! (scope auth : uuid, key) = Some r /\ claimed_row fp (env_now (env m)) r.

Lemma claim_once_claims auth key fp s s' :
  claim_once retention env others auth (scope auth) key fp s = (Ok true, s') -> claimed_at auth key fp s'.
Proof.
  destruct s as [n tb]. unfold claim_once, tx. destruct (insert_key _ _ _ _ _ _ _) as [[[]|e] tb1] eqn:Hi;
    [|by destruct (Is e PgxErrNoRows)]. intros [= <-]. unfold insert_key in Hi. apply WithIdentityTx_Ok in Hi.
  cbv beta zeta in Hi. destruct (negb _); [done|]. destruct (negb _); [done|].
  destruct (others n tb !! _); [done|]. injection Hi as <-.
  exists n, (fresh auth fp (env_now (env n))). split_and!; [done|apply lookup_insert_eq|by split_and!].
Qed.

Lemma takeOver_claims auth key fp n tb s' :
  tx env others (takeOver retention lease auth (scope auth) key fp) (n, tb) = (Ok true, s') -> claimed_at auth key fp s'.
Proof.
  unfold tx. destruct (takeOver _ _ _ _ _ _ _ _) as [r tb1] eqn:Hi. intros [= -> <-].
  unfold takeOver in Hi. apply or_fail_Ok, WithIdentityTx_Ok in Hi. cbv beta zeta in Hi.
  destruct (others n tb !! _) as [r0|]; [|done]. destruct (_ && _) eqn:Hb in Hi; [|done].
  destruct (negb _); [done|]. injection Hi as <-. to_prop. eexists n, _. split_and!; [done|apply lookup_insert_eq|].
  by split_and!.
Qed.

Lemma tryClaim_claims auth key fp s s' :
  tryClaim retention env others auth (scope auth) key fp s = (Ok true, s') -> claimed_at auth key fp s'.
Proof.
  unfold tryClaim. intros Hrun. apply SE_bind_inv in Hrun as (b & s1 & Hc & Hrun). destruct b.
  - injection Hrun as <-. by eapply claim_once_claims.
  - apply SE_bind_inv in Hrun as (c & s2 & _ & Hrun). destruct c; [by eapply claim_once_claims|done].
Qed.

Lemma Begin_claims auth key fp s s' :
  Begin retention lease env others auth key fp s = (Ok OutcomeProceed, s') -> claimed_at auth key fp s'.
Proof.
  unfold Begin. destruct (negb _); [done|]. destruct (ValidateKey key); [|done].
  generalize 2%nat. intros k. revert s. induction k as [|k IH]; intros s; [done|]. cbn [begin_attempts]. intros Hrun.
  apply SE_bind_inv in Hrun as (b & s1 & Hc & Hrun). destruct b.
  - injection Hrun as <-. by eapply tryClaim_claims.
  - apply SE_bind_inv in Hrun as (rec & [n tb] & _ & Hrun). destruct rec as [rec|]; [|by apply IH in Hrun].
    destruct (negb _); [done|]. case_decide; [by destruct (negb _)|]. destruct (LeaseExpired rec); [|done].
    apply SE_bind_inv in Hrun as (took & s2 & Ht & Hrun). destruct took; [|done]. injection Hrun as <-.
    by eapply takeOver_claims.
Qed.
End claims.

(** C15: At most one request runs per key. Once [Begin] lets a request proceed, no
    other request of the tenant with that key proceeds before the lease (and the
    retention) of the claim ends, whatever the other sessions do in between or
    while it decides. *)
Theorem claim_exclusive env1 others1 a1 key fp1 s0 n tb1 T tb2 env2 others2 a2 fp2 :
  Begin retention lease env1 others1 a1 key fp1 s0 = (Ok OutcomeProceed, (S n, tb1)) ->
  T <= env_now (env1 n) + lease -> T < env_now (env1 n) + retention ->
  until T tb1 tb2 -> (forall m, env_now (env2 m) <= T) -> (forall m tb, until T tb (others2 m tb)) ->
  scope a2 = scope a1 -> Valid a2 = true -> good_key key fp2 ->
  (Begin retention lease env2 others2 a2 key fp2 (0%nat, tb2)).1 <> Ok OutcomeProceed.
Proof.
  intros Hb Hl Hr Hu He Ho Hsc Hv Hg. apply Begin_claims in Hb as (m & r & [= <-] & Hk & Hs & _ & Hc & Hx). cbn in Hk.
  assert (held T r) as Hh by (split; [lia|intros _; lia]).
  destruct (held_until _ _ _ _ _ Hu Hk Hh) as (r2 & Hk2 & Hh2 & _). rewrite <- Hsc in Hk2.
  destruct (Begin_held env2 others2 T He Ho a2 key fp2 tb2 r2 Hv Hg Hk2 Hh2) as (k & tb' & r' & -> & _).
  unfold held_answer. cbn. destruct (negb _); [done|]. case_decide; [|done]. by destruct (negb _).
Qed.

(** A completed key answers with its record until it expires: the same request
    gets the stored response, frozen; a different request is told the key was
    reused; an oversized response is never replayed. No handler runs. *)
Theorem completed_key_answers env others T auth key fp tb r :
  (forall m, env_now (env m) <= T) -> (forall m tb, until T tb (others m tb)) ->
  Valid auth = true -> good_key key fp ->
  tb !! (scope auth : uuid, key) = Some r -> r_State r = StateCompleted -> T < r_ExpiresAt r ->
  exists n tb', tb' !! (scope auth : uuid, key) = Some r /\
    if String.eqb (r_Fingerprint r) fp then
      if r_Replayable r then
        Begin retention lease env others auth key fp (0%nat, tb) = (Ok (OutcomeReplay (record_of lease 0 key r)), (n, tb'))
      else Begin retention lease env others auth key fp (0%nat, tb) = (Err (Sentinel ErrNotReplayable), (n, tb'))
    else exists m, Begin retention lease env others auth key fp (0%nat, tb) =
                   (Err (Wrapf m (Sentinel ErrFingerprintMismatch)), (n, tb')).
Proof.
  intros He Ho Hv Hg Hk Hs Hx. assert (held T r) as Hh by (split; [done|congruence]).
  destruct (Begin_held env others T He Ho auth key fp tb r Hv Hg Hk Hh) as (n & tb' & r' & Hb & _ & Hk' & Hor).
  assert (r' = r) as -> by (destruct Hor as [-> | (? & _)]; [done|congruence]).
  exists n, tb'. split; [done|]. unfold held_answer, FingerprintsMatch in Hb. rewrite Hs in Hb.
  destruct (String.eqb (r_Fingerprint r) fp); cbn [negb] in Hb; [|by eexists]. rewrite decide_True in Hb by done.
  by destruct (r_Replayable r).
Qed.


(** The key is free for a request at [now]: unused, expired, or left by a holder of
    the same request that outlived its lease. *)
Definition free (key fp : string) (now : gotime) (o : option Row) : Prop :=
  match o with
  | None => True
  | Some r =>
      (r_State r = StateCompleted /\ r_ExpiresAt r <= now) \/
      (r_State r = StateInProgress /\ r_CreatedAt r < now - lease /\ r_Fingerprint r = fp /\ row_check key r = true)
  end.

Lemma takeOver_run auth key fp env tb r :
  Valid auth = true -> good_key key fp -> tb !! (scope auth : uuid, key) = Some r -> free key fp (env_now env) (Some r) ->
  r_State r = StateInProgress ->
  exists tb', takeOver retention lease auth (scope auth) key fp env tb = (Ok true, tb').
Proof.
  intros Hv Hg Hk Hf Hs. destruct Hf as [[? _] | (_ & Hl & Hfp & Hc)]; [congruence|].
  destruct (Valid_identity _ Hv) as [Hi Ht]. unfold takeOver, or_fail. rewrite WithIdentityTx_run by done.
  fold (settings_of (Identity_of auth)). unfold BeginFunc, tenant_is. rewrite Ht, bool_decide_eq_true_2 by done.
  change (scope auth, key) with (scope auth : uuid, key). rewrite Hk, Hs, (bool_decide_eq_true_2 (_ = StateInProgress)) by done.
  destruct (Z.ltb_spec (r_CreatedAt r) (env_now env - lease)); [|lia]. cbn [andb]. cbv zeta.
  assert (row_check key (mkRow fp StateInProgress (r_StatusCode r) (r_Headers r) (r_Body r) (r_Replayable r) (actorID auth)
            (env_now env) (r_CompletedAt r) (env_now env + retention)) = true) as ->; [|by eexists].
  unfold row_check in Hc |- *. cbn. rewrite Hs in Hc. rewrite Hfp in Hc. to_prop.
  destruct Hg as (_ & _ & _ & Hr). repeat (apply andb_true_iff; split); try done; try (by apply Z.leb_le).
  - by apply Z.eqb_eq.
  - apply Z.ltb_lt. lia.
Qed.

(** A key that is free is never refused: with no competing session, the request
    proceeds. A crashed holder does not wedge a key, and an expired record does not
    block it. *)
Theorem Begin_proceeds e auth key fp tb :
  Valid auth = true -> good_key key fp -> free key fp (env_now e) (tb !! (scope auth : uuid, key)) ->
  exists n tb', Begin retention lease (fun _ => e) (fun _ tb => tb) auth key fp (0%nat, tb) = (Ok OutcomeProceed, (n, tb')).
Proof.
  intros Hv Hg Hf. pose proof Hg as (Hval & _). unfold Begin. rewrite Hv, Hval. cbn [negb begin_attempts].
  unfold tryClaim, mbind, SE_bind. rewrite claim_once_run by done.
  destruct (tb !! (scope auth : uuid, key)) as [r|] eqn:Hk; [|by eexists _, _].
  unfold tx at 1 2. rewrite clearExpired_run, Hk by done. pose proof Hf as Hf'.
  destruct Hf as [[Hs Hx] | (Hs & Hl & Hfp & Hc)].
  - rewrite Hs, bool_decide_eq_true_2 by done. destruct (Z.leb_spec (r_ExpiresAt r) (env_now e)); [|lia]. cbn [andb].
    rewrite claim_once_run, lookup_delete_eq by done. by eexists _, _.
  - rewrite Hs, bool_decide_eq_false_2 by done. cbn [andb]. unfold mret, SE_ret. unfold tx at 1.
    rewrite read_run, Hk by done. cbn [fmap option_fmap option_map].
    cbn [rec_Fingerprint rec_State record_of]. rewrite Hfp. unfold FingerprintsMatch. rewrite String.eqb_refl. cbn [negb].
    rewrite Hs, decide_False by done. unfold record_of. cbn [LeaseExpired]. rewrite Hs, bool_decide_eq_true_2 by done.
    destruct (Z.ltb_spec (r_CreatedAt r) (env_now e - lease)); [|lia]. cbn [andb]. unfold tx.
    destruct (takeOver_run auth key fp e tb r Hv Hg Hk Hf' Hs) as (tb' & ->). by eexists _, _.
Qed.

(** ** The whole protocol *)

Lemma Complete_Ok auth key res env tb tb' :
  Complete auth key res env tb = (Ok tt, tb') ->
  exists r, tb !! (scope auth : uuid, key) = Some r /\ r_State r = StateInProgress /\
    tb' = <[(scope auth : uuid, key) := mkRow (r_Fingerprint r) StateCompleted (Some (c_Status res))
             (encodeHeaders (c_Headers res)) (if Replayable res then c_Body res else "") (Replayable res)
             (r_ActorID r) (r_CreatedAt r) (Some (env_now env)) (r_ExpiresAt r)]> tb.
Proof.
  unfold Complete. destruct (negb (Valid auth)); [done|]. cbv zeta. intros Hrun. apply WithIdentityTx_Ok in Hrun.
  cbv beta in Hrun. destruct (tb !! _) as [r|]; [|done]. destruct (_ && _) eqn:Hb in Hrun; [|done].
  destruct (negb (row_check _ _)); [done|]. injection Hrun as <-. to_prop. by exists r.
Qed.

Section http.
Context {W : Type}.

(** C16: A retry gets the response of the original. When a request was let through, its
    handler ran to the end and its response was recorded, then any later request of
    the tenant with the same key, method, route, query and body, before the record
    expires, is answered with that status, that body and the whitelisted headers,
    and its handler is not run: the application's state does not change. *)
Theorem retry_replays env1 others1 (next1 : Handler (W := W)) a1 r1 h1 tb0 (s0 : W) v1 l1 body m tbp ops s1
    T1 tb1 T tb2 env2 others2 (next2 : Handler (W := W)) a2 r2 h2 v2 l2 :
  let fp := Fingerprint (Method r1) (routePattern r1) (RawQuery r1) body in
  let key := trim_space v1 in
  let capture := foldl c_op (NewCapture (new_writer h1)) ops in
  idempotentMethod (Method r1) = true -> KeyHeader r1 = v1 :: l1 -> readBodyOnce (Body r1) = Ok body ->
  good_key key fp -> Valid a1 = true ->
  Begin retention lease env1 others1 a1 key fp (0%nat, tb0) = (Ok OutcomeProceed, (S m, tbp)) ->
  next1 (Path r1) (restored (Body r1) body) s0 = (ops, false, s1) ->
  slen (w_Body (under capture)) <= maxStoredBody ->
  until T1 tbp (others1 (S m) tbp) -> T1 <= env_now (env1 m) + lease -> T1 < env_now (env1 m) + retention ->
  tx env1 others1 (Complete a1 key (Captured capture)) (S m, tbp) = (Ok tt, (S (S m), tb1)) ->
  Method r2 = Method r1 -> routePattern r2 = routePattern r1 -> RawQuery r2 = RawQuery r1 ->
  readBodyOnce (Body r2) = Ok body -> KeyHeader r2 = v2 :: l2 -> trim_space v2 = key ->
  scope a2 = scope a1 -> Valid a2 = true ->
  until T tb1 tb2 -> (forall k, env_now (env2 k) <= T) -> (forall k tb, until T tb (others2 k tb)) ->
  T < env_now (env1 m) + retention ->
  Idempotency retention lease true env1 others1 next1 (Some a1) r1 (new_writer h1) tb0 s0 = (Served (under capture), tb1, s1) /\
  forall s, exists rec tb3,
    Idempotency retention lease true env2 others2 next2 (Some a2) r2 (new_writer h2) tb2 s =
      (Replayed (writeReplay rec (new_writer h2)), tb3, s) /\
    StatusCode rec = sent_status (under capture) /\ rec_Body rec = w_Body (under capture) /\
    rec_Headers rec = replayed_headers (w_Header (under capture)).
Proof.
  intros fp key capture Hm Hkh Hbody Hg Hv1 Hbegin Hnext Hsize Ho1 Hl1 Hr1 Hcomplete Hm2 Hp2 Hq2 Hb2 Hkh2 Htrim Hsc Hv2 Hu He2 Ho2 HT.
  pose proof Hg as (Hval & _).
  assert (exists r, tb1 !! (scope a1 : uuid, key) = Some r /\ r_State r = StateCompleted /\ r_Fingerprint r = fp /\
            r_ExpiresAt r = env_now (env1 m) + retention /\ r_Replayable r = true /\ r_StatusCode r = Some (sent_status (under capture)) /\
            r_Body r = w_Body (under capture) /\ r_Headers r = encodeHeaders (w_Header (under capture)))
    as (r & Hk & Hs & Hfp & Hxr & Hrep & Hst & Hbd & Hhd).
  { destruct (Begin_claims _ _ _ _ _ _ _ Hbegin) as (m' & r0 & [= <-] & Hk0 & Hs0 & Hf0 & Hc0 & Hx0). cbn in Hk0.
    assert (held T1 r0) as Hh0 by (split; [lia|intros _; lia]).
    destruct (held_until _ _ _ _ _ Ho1 Hk0 Hh0) as (r' & Hk' & _ & Hor).
    unfold tx in Hcomplete. destruct (Complete _ _ _ _ _) as [out tbc] eqn:Hc. injection Hcomplete as -> ->.
    apply Complete_Ok in Hc as (rc & Hkc & Hsc' & ->). rewrite Hk' in Hkc. injection Hkc as ->.
    destruct Hor as [-> | (_ & Hbad & _)]; [|congruence].
    destruct (c_ops_ok ops _ (NewCapture_ok h1)) as [(_ & Hcs & Hco & Hcb) _]. fold capture in Hcs, Hco, Hcb.
    assert (overflow capture = false) as Hov by (rewrite Hco; by apply Z.ltb_ge).
    eexists. split; [apply lookup_insert_eq|]. cbn. unfold Replayable. cbn. rewrite Hov. cbn.
    split_and!; try done; [by rewrite Hcs|by apply Hcb]. }
  split.
  - unfold Idempotency. rewrite Hm, Hkh, Hbody. cbn [negb]. fold key. rewrite Hval. fold fp. rewrite Hbegin, Hnext.
    fold capture. by rewrite Hcomplete.
  - intros s. assert (held T r) as Hh by (split; [lia|congruence]).
    destruct (held_until _ _ _ _ _ Hu Hk Hh) as (r2' & Hk2 & Hh2 & [-> | (? & _)]); [|congruence].
    rewrite <- Hsc in Hk2. destruct (Begin_held env2 others2 T He2 Ho2 a2 key fp tb2 r Hv2 Hg Hk2 Hh2)
      as (k & tb3 & r3 & Hb3 & _ & _ & [-> | (? & _)]); [|congruence].
    exists (record_of lease 0 key r), tb3. split_and!.
    + unfold Idempotency. rewrite Hm2, Hm, Hkh2, Hb2, Hp2, Hq2. cbn [negb]. rewrite Htrim, Hval. fold fp. rewrite Hb3.
      unfold held_answer, FingerprintsMatch. rewrite Hfp, String.eqb_refl, Hs, Hrep. by rewrite decide_True.
    + cbn. by rewrite Hst.
    + done.
    + cbn. rewrite Hhd. done.
Qed.
End http.
End store.

(** ** Fingerprints *)

Definition no_nul (s : string) : Prop := has_byte (byte_to 0) s = false.

Lemma cut_nul a b a' b' : no_nul a -> no_nul a' -> a +:+ nul +:+ b = a' +:+ nul +:+ b' -> a = a' /\ b = b'.
Proof.
  intros Ha Ha' Heq. pose proof (cut_byte_app _ a b Ha) as H1. pose proof (cut_byte_app _ a' b' Ha') as H2.
  fold nul in H1, H2. rewrite Heq, H2 in H1. by injection H1.
Qed.

(** Equal fingerprints mean equal requests: methods up to case, paths, queries and
    bodies, unless two different inputs with the same SHA-256 have been found. The
    separators leave no way to move bytes from one component to the next. *)
Theorem Fingerprint_separates `{Unicode} m p q b m' p' q' b' :
  no_nul (to_upper m) -> no_nul p -> no_nul q -> no_nul (to_upper m') -> no_nul p' -> no_nul q' ->
  Fingerprint m p q b = Fingerprint m' p' q' b' ->
  (to_upper m = to_upper m' /\ p = p' /\ q = q' /\ b = b') \/ exists x y, x <> y /\ sha256 x = sha256 y.
Proof.
  intros Hm Hp Hq Hm' Hp' Hq' Hf. unfold Fingerprint in Hf.
  assert (sha256 (fingerprint_input m p q b) = sha256 (fingerprint_input m' p' q' b')) as Hs.
  { pose proof (hex_decode_encode (sha256 (fingerprint_input m p q b))) as H1. rewrite Hf, hex_decode_encode in H1.
    apply (inj Some) in H1. symmetry. exact H1. }
  destruct (decide (fingerprint_input m p q b = fingerprint_input m' p' q' b')) as [Hi | Hi]; [|right; eauto].
  unfold fingerprint_input in Hi. apply cut_nul in Hi as [Hi1 Hi]; [|done..]. apply cut_nul in Hi as [Hi2 Hi]; [|done..].
  apply cut_nul in Hi as [Hi3 Hi]; [|done..].
  destruct (decide (b = b')) as [-> | Hb]; [by left|right; eauto].
Qed.

(** ** Runs *)

Module IdempotencyDemo.
#[local] Existing Instance DemoUnicode.

Definition at_ (s : Z) : Env :=
  mkEnv (s * 1000000000) (s * 1000000000) (fun n => N.of_nat n) (fun n => N.of_nat n) (fun _ => 7) "req-1".
Definition owner : Authorized := mkAuthorized 5%N KindHuman 11%N RoleOwner 0%N.
Definition alone : nat -> Table -> Table := fun _ tb => tb.

(** A handler that settles the invoice its path names. *)
Definition pay : Handler (W := list string) := fun path _ s =>
  ([OpSet "Content-Type" "application/json"; OpSet "Set-Cookie" "session=1"; OpWriteHeader 201; OpWrite path],
   false, path :: s).
Definition request (path : string) : Request :=
  mkRequest "POST" ["key-1"] path "/v1/invoices/{invoiceID}/pay" "" (Stream "{}").
Definition call (s : Z) (path : string) (tb : Table) (w : list string) : Outcome * Table * list string :=
  Idempotency DefaultRetention DefaultLease true (fun _ => at_ s) alone pay (Some owner) (request path)
    (new_writer ∅) tb w.

Definition fp1 : string := Eval vm_compute in Fingerprint "POST" "/v1/invoices/{invoiceID}/pay" "" "{}".
Definition begun (s : Z) (tb : Table) := Begin DefaultRetention DefaultLease (fun _ => at_ s) alone owner "key-1" fp1 (0%nat, tb).

Lemma good : good_key DefaultRetention "key-1" fp1.
Proof. split_and!; vm_compute; (reflexivity || discriminate || (intros; discriminate)). Qed.

(** The fingerprint names the route, not the resource: one key sent to pay two
    invoices settles the first and answers the second request with the first's
    response; the second invoice is not settled and the client is told it was. *)
Theorem key_replays_across_resources :
  let '(o1, tb1, s1) := call 1 "/v1/invoices/A/pay" ∅ [] in
  let '(o2, tb2, s2) := call 2 "/v1/invoices/B/pay" tb1 s1 in
  s1 = ["/v1/invoices/A/pay"] /\ s2 = s1 /\
  match o2 with Replayed w => sent_status w = 201 /\ w_Body w = "/v1/invoices/A/pay" | _ => False end.
Proof. vm_compute. auto. Qed.

(** A claim taken over is not noticed: the late holder's completion is accepted
    while the new holder runs, and it is the new holder's that is refused. *)
Definition response (s : string) : CapturedResponse := mkCaptured 201 ∅ s false.
Definition tb1 : Table := (begun 0 ∅).2.2.
Definition tb2 : Table := (begun 61 tb1).2.2.
Definition tb3 : Table := (Complete owner "key-1" (response "first") (at_ 62) tb2).2.
Theorem takeover_is_not_fenced :
  begun 0 ∅ = (Ok OutcomeProceed, (1%nat, tb1)) /\ begun 61 tb1 = (Ok OutcomeProceed, (4%nat, tb2)) /\
  Complete owner "key-1" (response "first") (at_ 62) tb2 = (Ok tt, tb3) /\
  match Complete owner "key-1" (response "second") (at_ 63) tb3 with
  | (Err e, tb) => Is e ErrInProgress = true /\ tb = tb3
  | (Ok _, _) => False
  end.
Proof. split_and!; vm_compute; [reflexivity..|]. split; reflexivity. Qed.

Lemma begun_first : begun 0 ∅ = (Ok OutcomeProceed, (1%nat, tb1)).
Proof. vm_compute. reflexivity. Qed.
Lemma alone_until T : forall (m : nat) tb, until DefaultRetention DefaultLease T tb (alone m tb).
Proof. intros. apply rtc_refl. Qed.

Lemma claim_exclusive_witness : (begun 60 tb1).1 <> Ok OutcomeProceed.
Proof.
  apply (claim_exclusive DefaultRetention DefaultLease (fun _ => at_ 0) alone owner "key-1" fp1 (0%nat, ∅) 0 tb1
           (60 * 1000000000) tb1 (fun _ => at_ 60) alone owner fp1).
  - apply begun_first.
  - vm_compute. discriminate.
  - vm_compute. reflexivity.
  - apply rtc_refl.
  - intros _. vm_compute. discriminate.
  - apply alone_until.
  - reflexivity.
  - vm_compute. reflexivity.
  - apply good.
Defined.

Definition tb_done : Table := (Complete owner "key-1" (response "first") (at_ 1) tb1).2.
Definition no_row : Row := mkRow "" StateInProgress None None "" false 0%N 0 None 0.
Definition row_done : Row := default no_row (tb_done !! (5%N : uuid, "key-1")).

Lemma completed_key_answers_witness :
  exists n tb', begun 3600 tb_done = (Ok (OutcomeReplay (record_of DefaultLease 0 "key-1" row_done)), (n, tb')).
Proof.
  destruct (completed_key_answers DefaultRetention DefaultLease (fun _ => at_ 3600) alone (3600 * 1000000000) owner
    "key-1" fp1 tb_done row_done) as (n & tb' & _ & Hb).
  - intros _. vm_compute. discriminate.
  - apply alone_until.
  - vm_compute. reflexivity.
  - apply good.
  - vm_compute. reflexivity.
  - vm_compute. reflexivity.
  - vm_compute. reflexivity.
  - exists n, tb'. exact Hb.
Defined.

Lemma Begin_proceeds_witness : exists n tb', begun 61 tb1 = (Ok OutcomeProceed, (n, tb')).
Proof.
  apply (Begin_proceeds DefaultRetention DefaultLease (at_ 61) owner "key-1" fp1 tb1).
  - vm_compute. reflexivity.
  - apply good.
  - assert (tb1 !! (5%N : uuid, "key-1") = Some (default no_row (tb1 !! (5%N : uuid, "key-1")))) as Hx
      by (vm_compute; reflexivity).
    change (scope owner : uuid) with (5%N : uuid). rewrite Hx. right. split_and!; vm_compute; reflexivity.
Defined.

Definition served : Capture := foldl c_op (NewCapture (new_writer ∅)) (pay "/v1/invoices/A/pay" (Stream "{}") []).1.1.
Definition tb_served : Table :=
  (tx (fun _ => at_ 0) alone (Complete owner "key-1" (Captured served)) (1%nat, tb1)).2.2.

Lemma retry_replays_witness :
  exists rec tb3,
    call 100 "/v1/invoices/A/pay" tb_served [] = (Replayed (writeReplay rec (new_writer ∅)), tb3, []) /\
    StatusCode rec = sent_status (under served) /\ rec_Body rec = w_Body (under served).
Proof.
  destruct (retry_replays DefaultRetention DefaultLease (fun _ => at_ 0) alone pay owner (request "/v1/invoices/A/pay")
    ∅ ∅ [] "key-1" [] "{}" 0 tb1 (pay "/v1/invoices/A/pay" (Stream "{}") []).1.1 ["/v1/invoices/A/pay"] 0 tb_served
    (100 * 1000000000) tb_served (fun _ => at_ 100) alone pay owner (request "/v1/invoices/A/pay") ∅ "key-1" [])
    as [_ Hr].
  - vm_compute; reflexivity.
  - reflexivity.
  - vm_compute; reflexivity.
  - split_and!; vm_compute; (reflexivity || discriminate || (intros; discriminate)).
  - vm_compute; reflexivity.
  - vm_compute; reflexivity.
  - reflexivity.
  - vm_compute. discriminate.
  - apply rtc_refl.
  - vm_compute. discriminate.
  - vm_compute. reflexivity.
  - vm_compute. reflexivity.
  - reflexivity.
  - reflexivity.
  - reflexivity.
  - vm_compute; reflexivity.
  - reflexivity.
  - vm_compute; reflexivity.
  - reflexivity.
  - vm_compute; reflexivity.
  - apply rtc_refl.
  - intros _. vm_compute. discriminate.
  - apply alone_until.
  - vm_compute. reflexivity.
  - destruct (Hr []) as (rec & tb3' & Hx & Hs & Hb & _). exists rec, tb3'.
    split; [exact Hx|]. split; [exact Hs|exact Hb].
Defined.

Lemma Fingerprint_separates_witness :
  (to_upper "post" = to_upper "POST" /\ "/a" = "/a" /\ "" = "" /\ "{}" = "{}") \/
  exists x y, x <> y /\ sha256 x = sha256 y.
Proof.
  apply (Fingerprint_separates "post" "/a" "" "{}" "POST" "/a" "" "{}"); vm_compute; reflexivity.
Defined.
End IdempotencyDemo.
