(* ===== verification/Refresh.v ===== *)
(** * Refresh sessions

    [internal/authn/refresh.go] over the tables of migrations 0002 and 0003. A
    rotation is one transaction of several statements followed, on a replay, by
    another that revokes the family; the model lets other sessions commit between
    the reads and the claim, and between the two transactions. *)

From S2P Require Import Prelude Apperr Encoding Ids Db.

Definition Second : Z := 1000000000.
Definition DefaultRefreshTTL : Z := 30 * 24 * 3600 * Second.
Definition DefaultReuseGrace : Z := 10 * Second.

(** ** Tables *)

Record Family := mkFamily {
  f_ID : uuid;
  f_UserID : uuid;
  f_IssuedAt : gotime;
  f_Revoked : option (gotime * string);   (* revoked_at and revoked_reason, set together *)
}.

Record Token := mkToken {
  t_Hash : string;
  t_FamilyID : uuid;
  t_UserID : uuid;
  t_IssuedAt : gotime;
  t_ExpiresAt : gotime;
  t_ConsumedAt : option gotime;
  t_ReplacedBy : option string;
}.

Record DB := mkDB {
  families : gmap uuid Family;
  tokens : gmap string Token;
}.

Definition empty_DB : DB := mkDB ∅ ∅.
Definition set_families (f : gmap uuid Family) (db : DB) : DB := mkDB f (tokens db).
Definition set_tokens (t : gmap string Token) (db : DB) : DB := mkDB (families db) t.

Record TokenPair := mkTokenPair {
  RefreshToken : string;
  UserID : uuid;
  ExpiresAt : gotime;
}.

(** The policies: a family is its user's; a token is its user's or the presented
    one. *)
Definition family_visible (g : Settings) (f : Family) : bool := user_is g (f_UserID f).
Definition token_visible (g : Settings) (t : Token) : bool :=
  user_is g (t_UserID t) || bool_decide (SettingRefreshTokenHash g = Some (t_Hash t)).

Definition presented_hash (hash : string) : Settings := mkSettings None None (Some hash) None false.
(** [db.SetLocal] of the user, on top of the presented hash. *)
Definition with_user (u : uuid) (g : Settings) : Settings :=
  mkSettings (SettingTenantID g) (Some u) (SettingRefreshTokenHash g) (SettingAPIKeyHash g) (SettingWorker g).

Definition insert_family (env : Env) (g : Settings) (id user : uuid) : SE DB err unit := fun db =>
  let f := mkFamily id user (env_now env) None in
  if negb (family_visible g f) then (Err (PgErr "42501" "row-level security"), db)
  else match families db !! id with
       | Some _ => (Err (unique_violation "refresh_families_pkey"), db)
       | None => (Ok tt, set_families (<[id := f]> (families db)) db)
       end.

Definition insert_token (env : Env) (g : Settings) (hash : string) (family user : uuid) (expires : gotime)
    : SE DB err unit := fun db =>
  let t := mkToken hash family user (env_now env) expires None None in
  if negb (token_visible g t) then (Err (PgErr "42501" "row-level security"), db)
  else if negb ((char_length hash =? 64) && (env_now env <? expires)) then (Err (check_violation "refresh_tokens"), db)
  else match tokens db !! hash, families db !! family with
       | Some _, _ => (Err (unique_violation "refresh_tokens_pkey"), db)
       | None, None => (Err (fk_violation "refresh_tokens_family_id_fkey"), db)
       | None, Some _ => (Ok tt, set_tokens (<[hash := t]> (tokens db)) db)
       end.

(** ** Secrets *)

Definition HashRefreshToken (token : string) : string := hex_encode (sha256 token).

Definition newRefreshSecret (env : Env) : string * string :=
  let buf := of_bytes ((fun n => env_rand env n mod 256) <$> seq 0 32) in
  let plaintext := "rt_" +:+ b64_encode RawURLEncoding buf in
  (plaintext, HashRefreshToken plaintext).

(** ** Operations *)

Definition StartSession (env : Env) (userID : uuid) (ttl : Z) : SE DB err TokenPair :=
  if decide (userID = uuid_Nil) then throw (Sentinel ErrUnauthorized)
  else if ttl <=? 0
  then throw (Wrapf "authn: refresh TTL must be positive: validation failed" (Sentinel ErrValidation))
  else
    let '(plaintext, hash) := newRefreshSecret env in
    let familyID := env_id env 0 in
    let expiresAt := env_time env + ttl in
    _ ← WithIdentityTx (mkIdentity uuid_Nil userID) (fun g =>
          _ ← or_fail (insert_family env g familyID userID) (fun e => Wrapf ("create family: " +:+ error_text e) e);
          or_fail (insert_token env g hash familyID userID expiresAt)
            (fun e => Wrapf ("create refresh token: " +:+ error_text e) e));
    mret (mkTokenPair plaintext userID expiresAt).

(** UPDATE refresh_families ... WHERE p AND revoked_at IS NULL: the rows changed. *)
Definition revoke_where (env : Env) (g : Settings) (p : Family -> bool) (reason : string) (db : DB) : Z * DB :=
  let hit f := family_visible g f && p f && negb (bool_decide (is_Some (f_Revoked f))) in
  (Z.of_nat (length (filter (fun kf => hit kf.2) (map_to_list (families db)))),
   set_families ((fun f => if hit f then mkFamily (f_ID f) (f_UserID f) (f_IssuedAt f) (Some (env_now env, reason)) else f)
                   <$> families db) db).

Definition RevokeFamily (env : Env) (userID familyID : uuid) (reason : string) : SE DB err unit :=
  if decide (userID = uuid_Nil \/ familyID = uuid_Nil) then throw (Sentinel ErrUnauthorized)
  else WithIdentityTx (mkIdentity uuid_Nil userID) (fun g db =>
         (Ok tt, (revoke_where env g (fun f => bool_decide (f_ID f = familyID)) reason db).2)).

(** What the reads of a rotation find: an answer, a replay, or a token to claim. *)
Inductive Lookup :=
  | Fails (e : err)
  | Reused (u f : uuid)
  | Claimable (u f : uuid).

Section rotate.
Context (grace : Z).

Definition rotate_lookup (env : Env) (hash : string) (g : Settings) (db : DB) : Lookup :=
  match tokens db !! hash with
  | None => Fails (Sentinel ErrRefreshUnknown)
  | Some t =>
      if negb (token_visible g t) then Fails (Sentinel ErrRefreshUnknown)
      else
        let g' := with_user (t_UserID t) g in
        match families db !! t_FamilyID t with
        | None => Fails (Sentinel ErrRefreshUnknown)
        | Some f =>
            if negb (family_visible g' f) then Fails (Sentinel ErrRefreshUnknown)
            else match f_Revoked f with
            | Some _ => Fails (Sentinel ErrRefreshRevoked)
            | None =>
                if t_ExpiresAt t <=? env_time env then Fails (Sentinel ErrRefreshExpired)
                else match t_ConsumedAt t with
                | Some at_ =>
                    if env_now env - at_ <=? grace then Fails (Sentinel ErrRefreshRetryRace)
                    else Reused (t_UserID t) (t_FamilyID t)
                | None => Claimable (t_UserID t) (t_FamilyID t)
                end
            end
        end
  end.

(** UPDATE refresh_tokens SET ... on a visible row matching [p]. *)
Definition update_token (g : Settings) (hash : string) (p : Token -> bool) (f : Token -> Token) (db : DB) : option DB :=
  match tokens db !! hash with
  | Some t => if token_visible g t && p t then Some (set_tokens (<[hash := f t]> (tokens db)) db) else None
  | None => None
  end.

Definition consume (now : gotime) (t : Token) : Token :=
  mkToken (t_Hash t) (t_FamilyID t) (t_UserID t) (t_IssuedAt t) (t_ExpiresAt t) (Some now) (t_ReplacedBy t).
Definition link (h : string) (t : Token) : Token :=
  mkToken (t_Hash t) (t_FamilyID t) (t_UserID t) (t_IssuedAt t) (t_ExpiresAt t) (t_ConsumedAt t) (Some h).

(** The writes: claim, insert, link. [None] is a lost race. *)
Definition rotate_claim (env : Env) (hash : string) (g : Settings) (u f : uuid) (ttl : Z)
    : SE DB err (option TokenPair) := fun db =>
  let '(plaintext, newHash) := newRefreshSecret env in
  let newExpiry := env_time env + ttl in
  match update_token g hash (fun t => negb (bool_decide (is_Some (t_ConsumedAt t)))) (consume (env_now env)) db with
  | None => (Ok None, db)
  | Some db1 =>
      match or_fail (insert_token env g newHash f u newExpiry)
              (fun e => Wrapf ("insert successor: " +:+ error_text e) e) db1 with
      | (Err e, db2) => (Err e, db2)
      | (Ok _, db2) => (Ok (Some (mkTokenPair plaintext u newExpiry)),
                        default db2 (update_token g hash (fun _ => true) (link newHash) db2))
      end
  end.

(** [mid] is what other sessions commit between the reads and the claim, [between]
    what they commit before the revocation's transaction. *)
Definition Rotate (env : Env) (mid between : DB -> DB) (presented : string) (ttl : Z) : SE DB err TokenPair := fun db =>
  if decide (presented = "") then (Err (Sentinel ErrRefreshUnknown), db)
  else if ttl <=? 0
  then (Err (Wrapf "authn: refresh TTL must be positive: validation failed" (Sentinel ErrValidation)), db)
  else
    let hash := HashRefreshToken presented in
    let g := presented_hash hash in
    match rotate_lookup env hash g db with
    | Fails e => (Err e, db)
    | Reused u f =>
        match RevokeFamily env u f "refresh token reused outside grace window" (between db) with
        | (Ok _, db') => (Err (ReuseError u f), db')
        | (Err e, db') => (Err (ReuseErrorRevocationFailed u f e), db')
        end
    | Claimable u f =>
        match BeginFunc (rotate_claim env hash (with_user u g) u f ttl) (mid db) with
        | (Ok (Some out), db') => (Ok out, db')
        | (Ok None, db') => (Err (Sentinel ErrRefreshRetryRace), db')
        | (Err e, db') => (Err e, db')
        end
    end.
End rotate.

Definition RevokeByPresentedToken (env : Env) (presented reason : string) : SE DB err unit :=
  if decide (presented = "") then throw (Sentinel ErrRefreshUnknown)
  else
    let hash := HashRefreshToken presented in
    WithPresentedSecret presented_hash hash (fun g db =>
      match tokens db !! hash with
      | Some t =>
          if token_visible g t then
            (Ok tt, (revoke_where env (with_user (t_UserID t) g) (fun f => bool_decide (f_ID f = t_FamilyID t)) reason db).2)
          else (Err (Sentinel ErrRefreshUnknown), db)
      | None => (Err (Sentinel ErrRefreshUnknown), db)
      end).

Definition RevokeAllForUser (env : Env) (userID : uuid) (reason : string) : SE DB err Z :=
  if decide (userID = uuid_Nil) then throw (Sentinel ErrUnauthorized)
  else WithIdentityTx (mkIdentity uuid_Nil userID) (fun g db =>
         let '(n, db') := revoke_where env g (fun f => bool_decide (f_UserID f = userID)) reason db in (Ok n, db')).

Definition CountLiveSessions (userID : uuid) : SE DB err Z :=
  if decide (userID = uuid_Nil) then throw (Sentinel ErrUnauthorized)
  else WithIdentityTx (mkIdentity uuid_Nil userID) (fun g db =>
         (Ok (Z.of_nat (length (filter (fun f => family_visible g f /\ f_UserID f = userID /\ f_Revoked f = None)
                                   (map_to_list (families db)).*2))), db)).

(** [Service.Logout]: an unknown or revoked token is already logged out. *)
Definition Logout (env : Env) (presented : string) : SE DB err unit := fun db =>
  if decide (presented = "") then (Err (Sentinel ErrUnauthorized), db)
  else match RevokeByPresentedToken env presented "logout" db with
       | (Ok _, db') => (Ok tt, db')
       | (Err e, db') =>
           if Is e ErrRefreshUnknown || Is e ErrRefreshRevoked then (Ok tt, db')
           else (Err (Wrapf ("logout: " +:+ error_text e) e), db')
       end.

Definition LogoutAll (env : Env) (userID : uuid) (reason : string) : SE DB err Z :=
  if decide (userID = uuid_Nil) then throw (Sentinel ErrUnauthorized) else RevokeAllForUser env userID reason.
