(* ===== verification/RefreshProps.v ===== *)
(** * Properties of refresh sessions

    The transactions of the component as steps in any order; a rotation whose reads and whose claim have other
    sessions' commits between them. *)

From S2P Require Import Prelude Apperr Encoding Ids Db Refresh.

(** ** Transactions as steps

    Every write of the component, as the transaction that makes it. *)
Inductive step : DB -> DB -> Prop :=
  | step_start env u ttl db res db' : StartSession env u ttl db = (res, db') -> step db db'
  | step_claim env hash t ttl db res db' :
      tokens db !! hash = Some t ->
      BeginFunc (rotate_claim env hash (with_user (t_UserID t) (presented_hash hash)) (t_UserID t) (t_FamilyID t) ttl) db
        = (res, db') -> step db db'
  | step_revoke env u f reason db res db' : RevokeFamily env u f reason db = (res, db') -> step db db'
  | step_logout env p reason db res db' : RevokeByPresentedToken env p reason db = (res, db') -> step db db'
  | step_revoke_all env u reason db res db' : RevokeAllForUser env u reason db = (res, db') -> step db db'.

(** The tokens of the family [i], oldest first: each names the next one as its replacement, and the last one alone is
    unused. *)
Record chain (m : gmap string Token) (i : uuid) (l : list string) : Prop := {
  ch_nodup : NoDup l;
  ch_all : forall h, h ∈ l <-> exists t, m !! h = Some t /\ t_FamilyID t = i;
  ch_link : forall k h t, l !! k = Some h -> m !! h = Some t ->
    t_ReplacedBy t = l !! S k /\ (t_ConsumedAt t = None <-> S k = length l);
}.

Record DB_wf (db : DB) : Prop := {
  wf_family : forall i f, families db !! i = Some f -> f_ID f = i /\ f_UserID f <> uuid_Nil;
  wf_token : forall h t, tokens db !! h = Some t ->
    t_Hash t = h /\ exists f, families db !! t_FamilyID t = Some f /\ f_UserID f = t_UserID t;
  wf_line : forall i f, families db !! i = Some f -> exists l, l <> [] /\ chain (tokens db) i l;
}.

Definition token_le (t t' : Token) : Prop :=
  t_Hash t' = t_Hash t /\ t_FamilyID t' = t_FamilyID t /\ t_UserID t' = t_UserID t /\ t_ExpiresAt t' = t_ExpiresAt t /\
  (forall a, t_ConsumedAt t = Some a -> t_ConsumedAt t' = Some a).
Definition family_le (f f' : Family) : Prop :=
  f_ID f' = f_ID f /\ f_UserID f' = f_UserID f /\ (forall r, f_Revoked f = Some r -> f_Revoked f' = Some r).

Record DB_step (db db' : DB) : Prop := {
  ds_wf : DB_wf db';
  ds_tokens : forall h t, tokens db !! h = Some t -> exists t', tokens db' !! h = Some t' /\ token_le t t';
  ds_families : forall i f, families db !! i = Some f -> exists f', families db' !! i = Some f' /\ family_le f f';
  ds_chain : forall i l, l <> [] -> chain (tokens db) i l -> exists l', l `prefix_of` l' /\ chain (tokens db') i l';
}.

(** Tokens of other families do not matter to a chain. *)
Lemma chain_ext m m' i l :
  (forall h t, t_FamilyID t = i -> m !! h = Some t <-> m' !! h = Some t) -> chain m i l -> chain m' i l.
Proof.
  intros He [C1 C2 C3]. assert (Hall : forall h, h ∈ l <-> exists t, m' !! h = Some t /\ t_FamilyID t = i).
  { intros h. rewrite C2. split; intros (t & Ht & Hi); exists t; (split; [by apply He|done]). }
  split; [done|done|]. intros k h t Hk Ht. destruct (proj1 (Hall h)) as (t' & Ht' & Hi); [by eapply list_elem_of_lookup_2|].
  apply (C3 k h); [done|]. apply He; congruence.
Qed.

Lemma token_le_refl t : token_le t t.
Proof. by split_and!. Qed.
Lemma family_le_refl f : family_le f f.
Proof. by split_and!. Qed.

Lemma sess_DB_step_refl db : DB_wf db -> DB_step db db.
Proof. intros Hwf. split; [done|eauto using token_le_refl|eauto using family_le_refl|eauto]. Qed.

Lemma sess_empty_wf : DB_wf empty_DB.
Proof. split; cbn; intros *; by rewrite lookup_empty. Qed.

(** ** Revocation *)

Lemma revoke_where_lookup env g p reason db i :
  families (revoke_where env g p reason db).2 !! i =
  (fun f => if family_visible g f && p f && negb (bool_decide (is_Some (f_Revoked f)))
            then mkFamily (f_ID f) (f_UserID f) (f_IssuedAt f) (Some (env_now env, reason)) else f) <$> families db !! i.
Proof. cbn. by rewrite lookup_fmap. Qed.

Lemma revoke_where_step env g p reason db : DB_wf db -> DB_step db (revoke_where env g p reason db).2.
Proof.
  intros Hwf.
  assert (forall i f', families (revoke_where env g p reason db).2 !! i = Some f' ->
            exists f, families db !! i = Some f /\ f_ID f' = f_ID f /\ f_UserID f' = f_UserID f) as Hback.
  { intros i f' Hi. rewrite revoke_where_lookup in Hi. apply fmap_Some in Hi as (f & Hf & ->). exists f.
    by destruct (_ && _). }
  assert (forall i f, families db !! i = Some f ->
            exists f', families (revoke_where env g p reason db).2 !! i = Some f' /\ family_le f f') as Hfwd.
  { intros i f Hi. rewrite revoke_where_lookup, Hi. eexists. split; [done|].
    destruct (_ && _) eqn:Hb; [|apply family_le_refl]. to_prop. split_and!; [done|done|]. intros r Hr.
    match goal with Hn : ~ is_Some _ |- _ => by destruct Hn; rewrite Hr end. }
  split; [|eauto using token_le_refl|done|eauto].
  split; cbn.
  - intros i f' Hi. destruct (Hback _ _ Hi) as (f & Hf & -> & ->). by apply (wf_family _ Hwf).
  - intros h t Ht. destruct (wf_token _ Hwf _ _ Ht) as (? & f & Hf & Hu). split; [done|].
    destruct (Hfwd _ _ Hf) as (f' & Hf' & _ & Hu' & _). exists f'. split; [done|]. congruence.
  - intros i f' Hi. destruct (Hback _ _ Hi) as (f & Hf & _). by eapply (wf_line _ Hwf).
Qed.

(** ** Sessions and rotations *)

Lemma insert_family_Ok env g id u db db' :
  insert_family env g id u db = (Ok tt, db') ->
  families db !! id = None /\ db' = set_families (<[id := mkFamily id u (env_now env) None]> (families db)) db.
Proof. unfold insert_family. destruct (negb _); [done|]. destruct (families db !! id); [done|]. by intros [= <-]. Qed.

Lemma insert_token_Ok env g h f u x db db' :
  insert_token env g h f u x db = (Ok tt, db') ->
  tokens db !! h = None /\ is_Some (families db !! f) /\
  db' = set_tokens (<[h := mkToken h f u (env_now env) x None None]> (tokens db)) db.
Proof.
  unfold insert_token. destruct (negb _); [done|]. destruct (negb _); [done|].
  destruct (tokens db !! h); [done|]. destruct (families db !! f); [|done]. intros [= <-]. eauto.
Qed.

Lemma StartSession_cases env u ttl db res db' :
  StartSession env u ttl db = (res, db') ->
  match res with
  | Err _ => db' = db
  | Ok out =>
      let '(plaintext, hash) := newRefreshSecret env in
      let id := env_id env 0 in
      u <> uuid_Nil /\ out = mkTokenPair plaintext u (env_time env + ttl) /\
      families db !! id = None /\ tokens db !! hash = None /\
      db' = mkDB (<[id := mkFamily id u (env_now env) None]> (families db))
              (<[hash := mkToken hash id u (env_now env) (env_time env + ttl) None None]> (tokens db))
  end.
Proof.
  unfold StartSession. case_decide; [by intros [= <- <-]|]. destruct (ttl <=? 0); [by intros [= <- <-]|].
  destruct (newRefreshSecret env) as [plaintext hash]. intros Hrun. destruct res as [out|e].
  - apply SE_bind_inv in Hrun as ([] & d1 & Hrun & Hret). injection Hret as <- <-.
    apply WithIdentityTx_Ok in Hrun. apply SE_bind_inv in Hrun as ([] & d1' & Hf & Ht).
    apply or_fail_Ok, insert_family_Ok in Hf as (? & ->). apply or_fail_Ok, insert_token_Ok in Ht as (? & _ & ->). done.
  - unfold mbind, SE_bind at 1 in Hrun. destruct (WithIdentityTx _ _ db) as [[[]|e'] d] eqn:Hw; [done|].
    injection Hrun as _ <-. by apply WithIdentityTx_Err in Hw.
Qed.

(** The chain of a session that has just begun. *)
Lemma chain_first m h t i :
  m !! h = None -> (forall k x, m !! k = Some x -> t_FamilyID x <> i) -> t_FamilyID t = i -> t_ConsumedAt t = None ->
  t_ReplacedBy t = None -> chain (<[h := t]> m) i [h].
Proof.
  intros Hm Hne Hi Hc Hr. split; [apply NoDup_singleton|..].
  - intros k. rewrite list_elem_of_singleton. split; [intros ->; exists t; by rewrite lookup_insert_eq|].
    intros (x & [[-> _]|[_ Hx]]%lookup_insert_Some & Hxi); [done|]. by destruct (Hne _ _ Hx).
  - intros [|k] h' x [= <-]. rewrite lookup_insert_eq. by intros [= <-].
Qed.

Lemma StartSession_step env u ttl db res db' : StartSession env u ttl db = (res, db') -> DB_wf db -> DB_step db db'.
Proof.
  intros Hrun Hwf. apply StartSession_cases in Hrun. destruct res as [out|e]; [|subst; by apply sess_DB_step_refl].
  destruct (newRefreshSecret env) as [pt h]. cbv zeta in Hrun. destruct Hrun as (Hu & _ & Hfam & Htok & ->).
  assert (forall h' t, tokens db !! h' = Some t -> t_FamilyID t <> env_id env 0) as Hne.
  { intros h' t Ht. destruct (wf_token _ Hwf _ _ Ht) as (_ & f & Hf & _). congruence. }
  set (t0 := mkToken h (env_id env 0) u (env_now env) (env_time env + ttl) None None).
  assert (Hkeep : forall i l, i <> env_id env 0 -> chain (tokens db) i l -> chain (<[h := t0]> (tokens db)) i l).
  { intros i l Hi. apply chain_ext. intros k t Hk. destruct (decide (k = h)) as [->|]; [|by rewrite lookup_insert_ne].
    rewrite Htok, lookup_insert_eq. split; [done|]. intros [= <-]. by destruct Hi. }
  split; cbn.
  - split; cbn.
    + intros i f Hi. apply lookup_insert_Some in Hi as [[<- <-] | [_ Hi]]; [done|by apply (wf_family _ Hwf)].
    + intros h' t Ht. apply lookup_insert_Some in Ht as [[<- <-] | [_ Ht]].
      * split; [done|]. cbn. rewrite lookup_insert_eq. by eexists.
      * destruct (wf_token _ Hwf _ _ Ht) as (? & f & Hf & ?). split; [done|]. exists f.
        rewrite lookup_insert_ne; [done|]. intros Heq. by apply (Hne _ _ Ht).
    + intros i f Hi. apply lookup_insert_Some in Hi as [[<- <-] | [Hni Hi]].
      * exists [h]. split; [done|]. by apply chain_first.
      * destruct (wf_line _ Hwf _ _ Hi) as (l & Hl & Hc). exists l. split; [done|]. by apply Hkeep.
  - intros h' t Ht. exists t. rewrite lookup_insert_ne by congruence. split; [done|apply token_le_refl].
  - intros i f Hf. exists f. rewrite lookup_insert_ne by congruence. split; [done|apply family_le_refl].
  - intros i l Hl Hc. exists l. split; [done|]. apply Hkeep; [|done]. intros ->. destruct l as [|x l]; [done|].
    destruct (proj1 (ch_all _ _ _ Hc x)) as (t & Ht & Hi); [by left|]. by apply (Hne _ _ Ht).
Qed.

Lemma own_token_visible u g t : t_UserID t = u -> token_visible (with_user u g) t = true.
Proof. intros <-. unfold token_visible, user_is, with_user. cbn. by rewrite bool_decide_eq_true_2. Qed.

(** The tokens after a claim of [t] whose successor has hash [h']. *)
Definition claimed (env : Env) (hash h' : string) (t : Token) (ttl : Z) (m : gmap string Token) : gmap string Token :=
  <[hash := link h' (consume (env_now env) t)]>
    (<[h' := mkToken h' (t_FamilyID t) (t_UserID t) (env_now env) (env_time env + ttl) None None]>
       (<[hash := consume (env_now env) t]> m)).

Lemma rotate_claim_cases env hash t ttl db res db' :
  tokens db !! hash = Some t ->
  BeginFunc (rotate_claim env hash (with_user (t_UserID t) (presented_hash hash)) (t_UserID t) (t_FamilyID t) ttl) db
    = (res, db') ->
  match res with
  | Err _ => db' = db
  | Ok None => db' = db /\ t_ConsumedAt t <> None
  | Ok (Some out) =>
      let '(plaintext, h') := newRefreshSecret env in
      t_ConsumedAt t = None /\ h' <> hash /\ tokens db !! h' = None /\
      out = mkTokenPair plaintext (t_UserID t) (env_time env + ttl) /\
      db' = set_tokens (claimed env hash h' t ttl (tokens db)) db
  end.
Proof.
  intros Ht. destruct res as [o|e]; [|by intros ?%BeginFunc_Err]. rewrite BeginFunc_Ok. unfold rotate_claim.
  destruct (newRefreshSecret env) as [plaintext h']. unfold update_token at 1. rewrite Ht, own_token_visible by done.
  destruct (t_ConsumedAt t) as [c|] eqn:Hc; cbn [andb negb].
  - rewrite bool_decide_eq_true_2 by eauto. by intros [= <- <-].
  - rewrite bool_decide_eq_false_2 by (by intros [? ?]). cbn [negb]. unfold or_fail.
    destruct (insert_token _ _ _ _ _ _ _) as [[[]|e] d2] eqn:Hi; [|done]. intros [= <- <-].
    apply insert_token_Ok in Hi as (Hn & _ & ->). cbn in Hn. apply lookup_insert_None in Hn as [Hn Hne].
    split_and!; [done|done|done|done|]. unfold update_token. cbn.
    rewrite lookup_insert_ne, lookup_insert_eq by done. rewrite own_token_visible by done. done.
Qed.

Lemma claimed_lookup env hash h' t ttl m k :
  h' <> hash ->
  claimed env hash h' t ttl m !! k =
  if decide (k = hash) then Some (link h' (consume (env_now env) t))
  else if decide (k = h') then Some (mkToken h' (t_FamilyID t) (t_UserID t) (env_now env) (env_time env + ttl) None None)
  else m !! k.
Proof.
  intros Hne. unfold claimed. repeat case_decide; subst; rewrite ?lookup_insert_eq; try done.
  - by rewrite lookup_insert_ne, lookup_insert_eq by congruence.
  - by rewrite !lookup_insert_ne by congruence.
Qed.

(** A rotation lengthens the chain by the successor. *)
Lemma chain_extend env hash h' t ttl m l :
  m !! hash = Some t -> t_ConsumedAt t = None -> h' <> hash -> m !! h' = None -> chain m (t_FamilyID t) l ->
  chain (claimed env hash h' t ttl m) (t_FamilyID t) (l ++ [h']).
Proof.
  intros Ht Hun Hne Hfr [C1 C2 C3].
  assert (Hnew : h' ∉ l) by (intros (x & Hx & _)%C2; congruence).
  destruct (proj1 (list_elem_of_lookup l hash)) as [n Hn]; [by apply C2; exists t|].
  destruct (C3 n hash t Hn Ht) as [_ Hlast]. apply Hlast in Hun as Hlen.
  split; [apply NoDup_app; split_and!; [done|intros x Hx ->%list_elem_of_singleton; done|apply NoDup_singleton]|..].
  - intros h. rewrite elem_of_app, list_elem_of_singleton, C2, claimed_lookup by done. repeat case_decide; subst.
    + split; [intros _; by eexists|intros _; left; by exists t].
    + split; [intros _; by eexists|by right].
    + split; [intros [(x & ?)|?]; [by exists x|done]|by left].
  - intros k h x Hk. rewrite claimed_lookup by done. rewrite length_app. cbn [length].
    apply lookup_app_Some in Hk as [Hk|[Hk [Hz ->]%list_lookup_singleton_Some]].
    + pose proof (lookup_lt_Some _ _ _ Hk) as Hlt. repeat case_decide; subst.
      * assert (k = n) as -> by (by eapply NoDup_lookup). intros [= <-]. cbn. rewrite lookup_app_r by lia.
        replace (S n - length l)%nat with 0%nat by lia. split; [done|]. split; [done|lia].
      * exfalso. by apply Hnew, (list_elem_of_lookup_2 _ k).
      * intros Hx. destruct (C3 k h x Hk Hx) as [-> Hc]. assert (S k <> length l) as Hk1.
        { intros He. assert (k = n) as -> by lia. congruence. }
        rewrite lookup_app_l by lia. split; [done|]. rewrite Hc. lia.
    + repeat case_decide; subst; [done| |done]. intros [= <-]. cbn.
      rewrite lookup_ge_None_2 by (rewrite length_app; cbn; lia). split; [done|]. split; [lia|done].
Qed.

Lemma claim_step env hash t ttl db res db' :
  tokens db !! hash = Some t ->
  BeginFunc (rotate_claim env hash (with_user (t_UserID t) (presented_hash hash)) (t_UserID t) (t_FamilyID t) ttl) db
    = (res, db') -> DB_wf db -> DB_step db db'.
Proof.
  intros Ht Hrun Hwf. pose proof (rotate_claim_cases _ _ _ _ _ _ _ Ht Hrun) as Hc.
  destruct res as [[out|]|e]; [|destruct Hc as [-> _]; by apply sess_DB_step_refl|subst; by apply sess_DB_step_refl].
  destruct (newRefreshSecret env) as [pt h']. destruct Hc as (Hun & Hne & Hfr & _ & ->).
  destruct (wf_token _ Hwf _ _ Ht) as (Hh & fam & Hfam & Hu).
  assert (Hchain : forall i l, chain (tokens db) i l ->
            exists l', l `prefix_of` l' /\ chain (claimed env hash h' t ttl (tokens db)) i l').
  { intros i l Hc. destruct (decide (i = t_FamilyID t)) as [->|Hi].
    - exists (l ++ [h']). split; [by apply prefix_app_r|by apply chain_extend].
    - exists l. split; [done|]. revert Hc. apply chain_ext. intros k x Hk. rewrite claimed_lookup by done.
      repeat case_decide; subst; [rewrite Ht|rewrite Hfr|done]; (split; [|intros [= <-]; by destruct Hi]); [intros [= <-]; by destruct Hi|done]. }
  split; cbn.
  - split; cbn.
    + by apply (wf_family _ Hwf).
    + intros k x Hk. rewrite claimed_lookup in Hk by done. repeat case_decide; subst; [injection Hk as <-..|].
      * cbn. split; [done|]. by exists fam.
      * cbn. split; [done|]. by exists fam.
      * by apply (wf_token _ Hwf).
    + intros i f Hi. destruct (wf_line _ Hwf _ _ Hi) as (l & Hl & Hc). destruct (Hchain i l Hc) as (l' & Hp & Hc').
      exists l'. split; [|done]. intros ->. by apply prefix_nil_inv in Hp.
  - intros k x Hk. rewrite claimed_lookup by done. repeat case_decide; subst; [|congruence|eauto using token_le_refl].
    rewrite Ht in Hk. injection Hk as <-. eexists. split; [done|]. split_and!; try done. cbn. congruence.
  - eauto using family_le_refl.
  - intros i l _. apply Hchain.
Qed.

Lemma RevokeFamily_cases env u f reason db res db' :
  RevokeFamily env u f reason db = (res, db') ->
  match res with
  | Ok _ => u <> uuid_Nil /\ db' = (revoke_where env (mkSettings None (Some u) None None false)
                                      (fun x => bool_decide (f_ID x = f)) reason db).2
  | Err _ => db' = db
  end.
Proof.
  unfold RevokeFamily. case_decide as Hn; [by intros [= <- <-]|]. destruct res as [[]|e]; [|apply WithIdentityTx_Err].
  intros Hrun. apply WithIdentityTx_Ok in Hrun. cbv beta in Hrun. injection Hrun as <-. cbn.
  unfold set_unless_nil. rewrite (decide_True (P := uuid_Nil = uuid_Nil)) by done.
  rewrite (decide_False (P := u = uuid_Nil)) by tauto. split; [tauto|done].
Qed.

Lemma logout_cases env p reason db res db' :
  RevokeByPresentedToken env p reason db = (res, db') ->
  match res with
  | Ok _ => exists t, tokens db !! HashRefreshToken p = Some t /\
      db' = (revoke_where env (with_user (t_UserID t) (presented_hash (HashRefreshToken p)))
               (fun x => bool_decide (f_ID x = t_FamilyID t)) reason db).2
  | Err _ => db' = db
  end.
Proof.
  unfold RevokeByPresentedToken. case_decide; [by intros [= <- <-]|]. unfold WithPresentedSecret.
  destruct res as [[]|e]; [|apply WithSettings_Err]. intros Hrun. apply WithSettings_Ok in Hrun as [_ Hrun].
  cbv beta in Hrun. destruct (tokens db !! HashRefreshToken p) as [t|] eqn:Ht; [|done].
  destruct (token_visible _ t); [|done]. injection Hrun as <-. eauto.
Qed.

Lemma revoke_all_cases env u reason db res db' :
  RevokeAllForUser env u reason db = (res, db') ->
  match res with
  | Ok n => u <> uuid_Nil /\ (n, db') = revoke_where env (mkSettings None (Some u) None None false)
                                          (fun x => bool_decide (f_UserID x = u)) reason db
  | Err _ => db' = db
  end.
Proof.
  unfold RevokeAllForUser. case_decide as Hn; [by intros [= <- <-]|]. destruct res as [n|e]; [|apply WithIdentityTx_Err].
  intros Hrun. apply WithIdentityTx_Ok in Hrun. cbv beta in Hrun.
  unfold set_unless_nil, id_TenantID, id_UserID in Hrun. rewrite (decide_True (P := uuid_Nil = uuid_Nil)) in Hrun by done.
  rewrite (decide_False (P := u = uuid_Nil)) in Hrun by done. split; [done|].
  destruct (revoke_where _ _ _ _ db). by injection Hrun as <- <-.
Qed.

Lemma sess_step_DB_step db db' : step db db' -> DB_wf db -> DB_step db db'.
Proof.
  intros Hst Hwf. destruct Hst as [env u ttl db0 res db1 Hrun|env hash t ttl db0 res db1 Ht Hrun|env u f reason db0 res db1 Hrun|
    env p reason db0 res db1 Hrun|env u reason db0 res db1 Hrun].
  - by eapply StartSession_step.
  - by eapply claim_step.
  - apply RevokeFamily_cases in Hrun. destruct res; [destruct Hrun as [_ ->]; by apply revoke_where_step|subst; by apply sess_DB_step_refl].
  - apply logout_cases in Hrun. destruct res; [destruct Hrun as (t & _ & ->); by apply revoke_where_step|subst; by apply sess_DB_step_refl].
  - apply revoke_all_cases in Hrun. destruct res; [|subst; by apply sess_DB_step_refl].
    destruct Hrun as [_ Hrun]. apply (f_equal snd) in Hrun. cbn [snd] in Hrun. rewrite Hrun. by apply revoke_where_step.
Qed.

Lemma token_le_trans t1 t2 t3 : token_le t1 t2 -> token_le t2 t3 -> token_le t1 t3.
Proof. unfold token_le. intros (A1 & A2 & A3 & A4 & A5) (B1 & B2 & B3 & B4 & B5). split_and!; try congruence; auto. Qed.
Lemma family_le_trans f1 f2 f3 : family_le f1 f2 -> family_le f2 f3 -> family_le f1 f3.
Proof. unfold family_le. intros (A1 & A2 & A3) (B1 & B2 & B3). split_and!; try congruence; auto. Qed.

Lemma DB_step_trans db1 db2 db3 : DB_step db1 db2 -> DB_step db2 db3 -> DB_step db1 db3.
Proof.
  intros [W1 T1 F1 L1] [W2 T2 F2 L2]. split; [done|..].
  - intros h t Ht. destruct (T1 _ _ Ht) as (t' & Ht' & ?). destruct (T2 _ _ Ht') as (t'' & ? & ?).
    exists t''. split; [done|]. by eapply token_le_trans.
  - intros i f Hf. destruct (F1 _ _ Hf) as (f' & Hf' & ?). destruct (F2 _ _ Hf') as (f'' & ? & ?).
    exists f''. split; [done|]. by eapply family_le_trans.
  - intros i l Hl Hc. destruct (L1 _ _ Hl Hc) as (l1 & Hp1 & Hc1). destruct (L2 i l1) as (l2 & Hp2 & Hc2); [|done|].
    { intros ->. by apply prefix_nil_inv in Hp1. }
    exists l2. split; [by etrans|done].
Qed.

Lemma steps_DB_step db db' : rtc step db db' -> DB_wf db -> DB_step db db'.
Proof.
  induction 1 as [x|x y z Hxy _ IH]; intros Hwf; [by apply sess_DB_step_refl|].
  pose proof (sess_step_DB_step _ _ Hxy Hwf) as Hs. eapply DB_step_trans; [done|]. apply IH, Hs.
Qed.

Definition interferes (f : DB -> DB) : Prop := forall db, rtc step db (f db).

Lemma rotate_lookup_found grace env hash g db l :
  rotate_lookup grace env hash g db = l ->
  match l with
  | Fails _ => True
  | Reused u f | Claimable u f => exists t, tokens db !! hash = Some t /\ u = t_UserID t /\ f = t_FamilyID t
  end.
Proof.
  intros <-. unfold rotate_lookup. destruct (tokens db !! hash) as [t|]; [|done]. destruct (negb _); [done|]. cbv zeta.
  destruct (families db !! t_FamilyID t) as [f|]; [|done]. destruct (negb _); [done|].
  destruct (f_Revoked f); [done|]. destruct (_ <=? _); [done|].
  destruct (t_ConsumedAt t); [destruct (_ <=? _); [done|]|]; eauto.
Qed.

(** A rotation, whatever happens during it, is a sequence of the steps. *)
Lemma Rotate_steps grace env mid between p ttl db res db' :
  DB_wf db -> interferes mid -> interferes between ->
  Rotate grace env mid between p ttl db = (res, db') -> rtc step db db'.
Proof.
  intros Hwf Hm Hb. unfold Rotate. case_decide; [by intros [= _ <-]|]. destruct (ttl <=? 0); [by intros [= _ <-]|].
  cbv zeta. destruct (rotate_lookup _ _ _ _ _) as [e|u f|u f] eqn:Hl; [by intros [= _ <-]|..].
  - destruct (RevokeFamily _ _ _ _ _) as [r d] eqn:Hr. intros Hrun. assert (d = db') as <- by (destruct r; by injection Hrun).
    eapply rtc_r; [apply Hb|]. by eapply step_revoke.
  - destruct (BeginFunc _ _) as [r d] eqn:Hr. intros Hrun.
    assert (d = db') as <- by (destruct r as [[]|]; by injection Hrun).
    apply rotate_lookup_found in Hl as (t & Ht & -> & ->). eapply rtc_r; [apply Hm|].
    destruct (ds_tokens _ _ (steps_DB_step _ _ (Hm db) Hwf) _ _ Ht) as (t' & Ht' & _ & Hff & Huu & _).
    eapply step_claim; [exact Ht'|]. rewrite Huu, Hff. exact Hr.
Qed.

(** A rotation that succeeds consumed the presented token, which was unconsumed. *)
Lemma Rotate_Ok grace env mid between p ttl db out db' :
  DB_wf db -> interferes mid -> Rotate grace env mid between p ttl db = (Ok out, db') ->
  exists t, tokens (mid db) !! HashRefreshToken p = Some t /\ t_ConsumedAt t = None /\
    let '(plaintext, h') := newRefreshSecret env in
    h' <> HashRefreshToken p /\ tokens (mid db) !! h' = None /\
    out = mkTokenPair plaintext (t_UserID t) (env_time env + ttl) /\
    db' = set_tokens (claimed env (HashRefreshToken p) h' t ttl (tokens (mid db))) (mid db).
Proof.
  intros Hwf Hm. unfold Rotate. case_decide; [done|]. destruct (ttl <=? 0); [done|]. cbv zeta.
  destruct (rotate_lookup _ _ _ _ _) as [e|u f|u f] eqn:Hl; [done|by destruct (RevokeFamily _ _ _ _ _) as [[] ?]|].
  destruct (BeginFunc _ _) as [[[o|]|e] d] eqn:Hr; [|done|done]. intros [= -> ->].
  apply rotate_lookup_found in Hl as (t & Ht & -> & ->).
  destruct (ds_tokens _ _ (steps_DB_step _ _ (Hm db) Hwf) _ _ Ht) as (t' & Ht' & _ & Hff & Huu & _).
  rewrite <- Hff, <- Huu in Hr. apply (rotate_claim_cases _ _ _ _ _ _ _ Ht') in Hr. exists t'.
  destruct (newRefreshSecret env) as [pt h']. destruct Hr as (Hc & ? & ? & ? & ?). by split_and!.
Qed.

(** A hex digest counts as many characters as bytes. *)
Lemma hex_char_length s : char_length (hex_encode (sha256 s)) = 64.
Proof.
  rewrite char_length_ascii; [by rewrite hex_encode_length, sha256_length|].
  eapply str_forall_impl; [|apply hex_encode_chars]. intros b. unfold is_hex_lower_b, is_digit_b. lia.
Qed.

Lemma reachable_wf db : rtc step empty_DB db -> DB_wf db.
Proof. intros Hs. by apply (ds_wf _ _ (steps_DB_step _ _ Hs sess_empty_wf)). Qed.

(** ** The properties *)

(** The family of a token, and whether its session is over. *)
Definition revoked (db : DB) (p : string) : Prop :=
  exists t f, tokens db !! HashRefreshToken p = Some t /\ families db !! t_FamilyID t = Some f /\ f_Revoked f <> None.

(** C13: A session never forks: its tokens are one chain, a list without repetitions of exactly the tokens of the
    family, all of its user, in which each token's [replaced_by] is the next one of the list and the last one alone is
    unused and unreplaced. Whatever happens later, the chain only grows at its end. *)
Theorem session_is_a_chain db db' i f :
  rtc step empty_DB db -> rtc step db db' -> families db !! i = Some f ->
  exists l l', l <> [] /\ l `prefix_of` l' /\ chain (tokens db) i l /\ chain (tokens db') i l' /\
    forall h t, h ∈ l' -> tokens db' !! h = Some t -> t_Hash t = h /\ t_UserID t = f_UserID f.
Proof.
  intros Hs Hs' Hf. pose proof (reachable_wf _ Hs) as Hwf. destruct (wf_line _ Hwf _ _ Hf) as (l & Hl & Hc).
  destruct (steps_DB_step _ _ Hs' Hwf) as [Hwf' _ Hfam Hch]. destruct (Hch _ _ Hl Hc) as (l' & Hp & Hc').
  exists l, l'. split_and!; [done..|]. intros h t Hh Ht. destruct (proj1 (ch_all _ _ _ Hc' h) Hh) as (t' & Ht' & Hi).
  replace t' with t in * by congruence. destruct (wf_token _ Hwf' _ _ Ht) as (? & f1 & Hf1 & Hu1).
  destruct (Hfam _ _ Hf) as (f2 & Hf2 & _ & Hu2 & _). split; [done|]. congruence.
Qed.

(** C14: A refresh token is spent once. When a rotation of it has succeeded, no other rotation of it whose claim comes
    later succeeds, inside the grace window or out of it. The other rotation may have begun before the first one did and
    have read the token as unused: what counts is the order of the claims, and anything may be committed around them. *)
Theorem token_rotates_once grace1 grace2 env1 env2 mid1 mid2 between1 between2 p ttl1 ttl2 db1 out1 db1' db2 out2 db2' :
  rtc step empty_DB db1 -> interferes mid1 -> interferes between1 ->
  Rotate grace1 env1 mid1 between1 p ttl1 db1 = (Ok out1, db1') ->
  rtc step empty_DB db2 -> interferes mid2 -> rtc step db1' (mid2 db2) ->
  Rotate grace2 env2 mid2 between2 p ttl2 db2 <> (Ok out2, db2').
Proof.
  intros Hs Hm1 Hb1 H1 Hs2 Hm2 Hs3 H2. pose proof (reachable_wf _ Hs) as Hwf. pose proof (reachable_wf _ Hs2) as Hwf2.
  pose proof (ds_wf _ _ (steps_DB_step _ _ (Rotate_steps _ _ _ _ _ _ _ _ _ Hwf Hm1 Hb1 H1) Hwf)) as Hwf1.
  apply Rotate_Ok in H1 as (t1 & Ht1 & _ & H1); [|done..]. apply Rotate_Ok in H2 as (t2 & Ht2 & Hc2 & _); [|done..].
  destruct (newRefreshSecret env1) as [pt h']. destruct H1 as (Hne & _ & _ & ->).
  pose proof (ds_tokens _ _ (steps_DB_step _ _ Hs3 Hwf1) (HashRefreshToken p)) as Hk. cbn in Hk.
  rewrite claimed_lookup, decide_True in Hk by done. destruct (Hk _ eq_refl) as (t' & Ht' & _ & _ & _ & _ & Hc).
  rewrite Ht2 in Ht'. injection Ht' as <-. specialize (Hc _ eq_refl). congruence.
Qed.

(** A revoked session is over: whatever happens later, every token of it, used or
    not, is refused as revoked and nothing changes. *)
Theorem revoked_session_is_over db db' p grace env mid between ttl :
  rtc step empty_DB db -> revoked db p -> rtc step db db' -> p <> "" -> 0 < ttl ->
  Rotate grace env mid between p ttl db' = (Err (Sentinel ErrRefreshRevoked), db').
Proof.
  intros Hs (t & f & Ht & Hf & Hr) Hs2 Hp Httl. pose proof (reachable_wf _ Hs) as Hwf.
  destruct (steps_DB_step _ _ Hs2 Hwf) as [Hwf' Htk Hfm].
  destruct (Htk _ _ Ht) as (t' & Ht' & Hh & Hff & Huu & _). destruct (Hfm _ _ Hf) as (f' & Hf' & _ & Hfu & Hfr).
  unfold Rotate. rewrite decide_False by done. destruct (Z.leb_spec ttl 0); [lia|]. cbv zeta.
  unfold rotate_lookup. rewrite Ht'. destruct (wf_token _ Hwf' _ _ Ht') as (Hhash & f2 & Hf2 & Hu2).
  unfold token_visible, presented_hash. cbn [SettingRefreshTokenHash]. rewrite Hhash.
  rewrite (bool_decide_eq_true_2 (Some _ = Some _)), orb_true_r by done. cbn [negb].
  rewrite Hff, Hf'. rewrite Hff, Hf' in Hf2. injection Hf2 as <-.
  unfold family_visible, user_is, with_user. cbn. rewrite Hu2, bool_decide_eq_true_2 by done. cbn.
  destruct (f_Revoked f) as [r|] eqn:Er; [|done]. by rewrite (Hfr r eq_refl).
Qed.

(** A replay ends the session. A used token presented again after the grace window,
    while it has not expired and its session is live, is reported as reuse, and
    once that is reported the session is revoked, whatever else was committed in
    between; the sessions of other families are as those commits left them. *)
Theorem replay_ends_the_session grace env mid between p ttl db t f at_ :
  rtc step empty_DB db -> interferes between -> p <> "" -> 0 < ttl ->
  tokens db !! HashRefreshToken p = Some t -> families db !! t_FamilyID t = Some f -> f_Revoked f = None ->
  t_ConsumedAt t = Some at_ -> grace < env_now env - at_ -> env_time env < t_ExpiresAt t -> t_FamilyID t <> uuid_Nil ->
  exists db', Rotate grace env mid between p ttl db = (Err (ReuseError (t_UserID t) (t_FamilyID t)), db') /\
    revoked db' p /\
    (forall i, i <> t_FamilyID t -> families db' !! i = families (between db) !! i).
Proof.
  intros Hs Hb Hp Httl Ht Hf Hr Hc Hg Hx Hnil. pose proof (reachable_wf _ Hs) as Hwf.
  destruct (wf_token _ Hwf _ _ Ht) as (Hh & f2 & Hf2 & Hu). rewrite Hf in Hf2. injection Hf2 as <-.
  destruct (wf_family _ Hwf _ _ Hf) as (Hid & Hun). rewrite Hu in Hun.
  assert (rotate_lookup grace env (HashRefreshToken p) (presented_hash (HashRefreshToken p)) db
          = Reused (t_UserID t) (t_FamilyID t)) as Hl.
  { unfold rotate_lookup. rewrite Ht. unfold token_visible, presented_hash. cbn [SettingRefreshTokenHash]. rewrite Hh.
    rewrite (bool_decide_eq_true_2 (Some _ = Some _)), orb_true_r by done. cbn [negb]. rewrite Hf.
    unfold family_visible, user_is, with_user. cbn. rewrite Hu, bool_decide_eq_true_2 by done. cbn. rewrite Hr, Hc.
    destruct (Z.leb_spec (t_ExpiresAt t) (env_time env)); [lia|].
    by destruct (Z.leb_spec (env_now env - at_) grace); [lia|]. }
  destruct (RevokeFamily env (t_UserID t) (t_FamilyID t) "refresh token reused outside grace window" (between db))
    as [[[]|e] db'] eqn:Hrev.
  2: { unfold RevokeFamily, WithIdentityTx in Hrev. rewrite decide_False in Hrev by tauto.
       unfold Identity_Valid in Hrev. cbn in Hrev. rewrite (bool_decide_eq_true_2 (t_UserID t <> uuid_Nil)) in Hrev by done.
       cbn in Hrev. unfold WithSettings in Hrev. case_decide as Hns; [|done]. injection Hns as Hns.
       unfold set_unless_nil in Hns. by rewrite decide_False in Hns. }
  exists db'. split; [|split].
  - unfold Rotate. rewrite decide_False by done. destruct (Z.leb_spec ttl 0); [lia|]. cbv zeta. by rewrite Hl, Hrev.
  - apply RevokeFamily_cases in Hrev as [_ ->]. destruct (steps_DB_step _ _ (Hb db) Hwf) as [Hwf' Htk Hfm].
    destruct (Htk _ _ Ht) as (t' & Ht' & _ & Hff & _). destruct (Hfm _ _ Hf) as (f' & Hf' & Hid' & Hu' & _).
    exists t'. rewrite revoke_where_lookup, Hff, Hf'. eexists. split_and!; [exact Ht'|done|].
    unfold family_visible, user_is. cbn. rewrite Hu', Hu, (bool_decide_eq_true_2 (Some _ = Some _)) by done.
    rewrite (bool_decide_eq_true_2 (f_ID f' = _)) by congruence. cbn [andb].
    destruct (bool_decide (is_Some (f_Revoked f'))) eqn:E; [|done]. to_prop. intros Hn. cbn in Hn. rewrite Hn in E. by destruct E.
  - intros i Hi. apply RevokeFamily_cases in Hrev as [_ ->]. rewrite revoke_where_lookup.
    destruct (families (between db) !! i) as [x|] eqn:Hix; [|done]. cbn.
    destruct (wf_family _ (ds_wf _ _ (steps_DB_step _ _ (Hb db) Hwf)) _ _ Hix) as (Hxi & _).
    by rewrite (bool_decide_eq_false_2 (f_ID x = _)), andb_false_r by congruence.
Qed.

(** Logging out is final and never fails on a non-empty token: a token the service
    knows has its session revoked, one it does not know changes nothing. *)
Theorem Logout_ends_the_session env p db db' res :
  rtc step empty_DB db -> p <> "" -> Logout env p db = (res, db') ->
  res = Ok tt /\ match tokens db !! HashRefreshToken p with Some _ => revoked db' p | None => db' = db end.
Proof.
  intros Hs Hp. pose proof (reachable_wf _ Hs) as Hwf. unfold Logout. rewrite decide_False by done.
  unfold RevokeByPresentedToken, WithPresentedSecret, WithSettings. rewrite (decide_False (P := p = "")) by done.
  cbv zeta. rewrite (decide_False (P := presented_hash _ = no_settings)) by done. unfold BeginFunc.
  destruct (tokens db !! HashRefreshToken p) as [t|] eqn:Ht; [|by intros [= <- <-]].
  destruct (wf_token _ Hwf _ _ Ht) as (Hh & f & Hf & Hu).
  assert (token_visible (presented_hash (HashRefreshToken p)) t = true) as ->.
  { unfold token_visible. cbn. rewrite Hh, (bool_decide_eq_true_2 (Some _ = Some _)) by done. apply orb_true_r. }
  remember (revoke_where _ _ _ _ _).2 as d eqn:Hd. intros [= <- <-]. split; [done|]. exists t.
  rewrite Hd, revoke_where_lookup, Hf. eexists. split_and!; [exact Ht|done|].
  unfold family_visible, user_is, with_user. cbn. rewrite Hu, (bool_decide_eq_true_2 (Some _ = Some _)) by done.
  destruct (wf_family _ Hwf _ _ Hf) as (Hid & _). rewrite (bool_decide_eq_true_2 (f_ID f = _)) by done. cbn [andb].
  destruct (bool_decide (is_Some (f_Revoked f))) eqn:E; [|done]. to_prop. intros Hn. cbn in Hn. rewrite Hn in E. by destruct E.
Qed.

(** A live, unused token rotates: with no competing session it is exchanged for a
    successor in the same session, which is live in turn. *)
Theorem fresh_token_rotates grace env p ttl db t f :
  rtc step empty_DB db -> p <> "" -> tokens db !! HashRefreshToken p = Some t ->
  families db !! t_FamilyID t = Some f -> f_Revoked f = None -> t_ConsumedAt t = None ->
  env_time env < t_ExpiresAt t -> env_now env < env_time env + ttl -> 0 < ttl ->
  tokens db !! (newRefreshSecret env).2 = None ->
  exists out db' t', Rotate grace env id id p ttl db = (Ok out, db') /\ UserID out = t_UserID t /\
    tokens db' !! HashRefreshToken (RefreshToken out) = Some t' /\ t_FamilyID t' = t_FamilyID t /\
    t_ConsumedAt t' = None /\ t_ExpiresAt t' = ExpiresAt out /\ families db' = families db.
Proof.
  intros Hs Hp Ht Hf Hr Hc Hx Hnow Httl Hfresh. pose proof (reachable_wf _ Hs) as Hwf.
  destruct (wf_token _ Hwf _ _ Ht) as (Hh & f2 & Hf2 & Hu). rewrite Hf in Hf2. injection Hf2 as <-.
  destruct (newRefreshSecret env) as [pt h'] eqn:Hsec. cbn [snd] in Hfresh.
  assert (h' = HashRefreshToken pt) as Hpt by (unfold newRefreshSecret in Hsec; by injection Hsec as <- <-).
  assert (h' <> HashRefreshToken p) as Hne by congruence.
  set (g := with_user (t_UserID t) (presented_hash (HashRefreshToken p))).
  assert (rotate_lookup grace env (HashRefreshToken p) (presented_hash (HashRefreshToken p)) db
          = Claimable (t_UserID t) (t_FamilyID t)) as Hl.
  { unfold rotate_lookup. rewrite Ht. unfold token_visible, presented_hash. cbn [SettingRefreshTokenHash]. rewrite Hh.
    rewrite (bool_decide_eq_true_2 (Some _ = Some _)), orb_true_r by done. cbn [negb]. rewrite Hf.
    unfold family_visible, user_is, with_user. cbn. rewrite Hu, bool_decide_eq_true_2 by done. cbn. rewrite Hr, Hc.
    by destruct (Z.leb_spec (t_ExpiresAt t) (env_time env)); [lia|]. }
  assert (exists db', BeginFunc (rotate_claim env (HashRefreshToken p) g (t_UserID t) (t_FamilyID t) ttl) db
            = (Ok (Some (mkTokenPair pt (t_UserID t) (env_time env + ttl))), db')) as (db' & Hrun).
  { subst g. unfold BeginFunc, rotate_claim. rewrite Hsec. unfold update_token at 1. rewrite Ht, own_token_visible, Hc by done.
    rewrite (bool_decide_eq_false_2 (is_Some None)) by (by intros [? ?]). cbn [andb negb]. unfold or_fail, insert_token.
    rewrite own_token_visible by done. cbn [negb].
    assert (char_length h' = 64) as Hlen by (rewrite Hpt; apply hex_char_length).
    rewrite Hlen. destruct (Z.ltb_spec (env_now env) (env_time env + ttl)); [|lia]. cbn [Z.eqb Pos.eqb andb negb].
    cbn [tokens families set_tokens]. rewrite lookup_insert_ne, Hfresh, Hf by done. by eexists. }
  exists (mkTokenPair pt (t_UserID t) (env_time env + ttl)), db'.
  pose proof (rotate_claim_cases _ _ _ _ _ _ _ Ht Hrun) as Hcase. rewrite Hsec in Hcase.
  destruct Hcase as (_ & _ & _ & _ & ->). eexists. split_and!.
  - unfold Rotate. rewrite decide_False by done. destruct (Z.leb_spec ttl 0); [lia|]. cbv zeta. unfold id. rewrite Hl. fold g. by rewrite Hrun.
  - done.
  - cbn. rewrite <- Hpt, claimed_lookup, decide_False, decide_True by done. reflexivity.
  - done.
  - done.
  - done.
  - done.
Qed.

(** ** A run *)

Module RefreshDemo.
Definition at_ (s : Z) : Env :=
  mkEnv (s * Second) (s * Second) (fun n => (N.of_nat n + 100 * Z.to_N s + 1)%N) (fun n => N.of_nat n) (fun _ => s) "".
Definition user : uuid := 11%N.
Definition db0 : DB := (StartSession (at_ 1) user DefaultRefreshTTL empty_DB).2.
Definition token1 : string := Eval vm_compute in (newRefreshSecret (at_ 1)).1.
Definition db1 : DB := (Rotate DefaultReuseGrace (at_ 2) id id token1 DefaultRefreshTTL db0).2.
Definition pair2 : TokenPair := Eval vm_compute in
  match (Rotate DefaultReuseGrace (at_ 2) id id token1 DefaultRefreshTTL db0).1 with
  | Ok out => out | Err _ => mkTokenPair "" 0%N 0
  end.
Definition no_token : Token := mkToken "" 0%N 0%N 0 0 None None.
Definition no_family : Family := mkFamily 0%N 0%N 0 None.
Definition row (db : DB) (p : string) : Token := default no_token (tokens db !! HashRefreshToken p).
Definition fam (db : DB) (p : string) : Family := default no_family (families db !! t_FamilyID (row db p)).

Lemma quiet : interferes id.
Proof. intros db. apply rtc_refl. Qed.
Lemma run0 : rtc step empty_DB db0.
Proof. apply rtc_once. eapply (step_start (at_ 1) user DefaultRefreshTTL). apply surjective_pairing. Qed.
Lemma rotated : Rotate DefaultReuseGrace (at_ 2) id id token1 DefaultRefreshTTL db0 = (Ok pair2, db1).
Proof. vm_compute. reflexivity. Qed.
Lemma run01 : rtc step db0 db1.
Proof. eapply Rotate_steps; [apply reachable_wf, run0|apply quiet|apply quiet|apply rotated]. Qed.
Lemma sess_run1 : rtc step empty_DB db1.
Proof. etrans; [apply run0|apply run01]. Qed.
Lemma row0 : tokens db0 !! HashRefreshToken token1 = Some (row db0 token1).
Proof. vm_compute. reflexivity. Qed.
Lemma row1 : tokens db1 !! HashRefreshToken token1 = Some (row db1 token1).
Proof. vm_compute. reflexivity. Qed.
Lemma fam0 : families db0 !! t_FamilyID (row db0 token1) = Some (fam db0 token1).
Proof. vm_compute. reflexivity. Qed.
Lemma fam1 : families db1 !! t_FamilyID (row db1 token1) = Some (fam db1 token1).
Proof. vm_compute. reflexivity. Qed.

Lemma session_is_a_chain_witness :
  exists l l', l <> [] /\ l `prefix_of` l' /\ chain (tokens db0) 101%N l /\ chain (tokens db1) 101%N l' /\
    size (tokens db0) = 1%nat /\ size (tokens db1) = 2%nat.
Proof.
  destruct (session_is_a_chain db0 db1 101%N (fam db0 token1) run0 run01) as (l & l' & Hl & Hp & Hc & Hc' & _).
  - vm_compute. reflexivity.
  - exists l, l'. split; [exact Hl|]. split; [exact Hp|]. split; [exact Hc|]. split; [exact Hc'|]. split; vm_compute; reflexivity.
Defined.

(** A second rotation reads the token as unused; the first one runs from end to end before its claim. *)
Definition first_rotation (db : DB) : DB := (Rotate DefaultReuseGrace (at_ 2) id id token1 DefaultRefreshTTL db).2.

Lemma first_rotation_interferes : interferes first_rotation.
Proof.
  intros db. unfold first_rotation, Rotate, id. case_decide; [done|]. destruct (_ <=? 0); [done|]. cbv zeta.
  destruct (rotate_lookup _ _ _ _ _) as [e|u f|u f] eqn:Hl; [done|..].
  - destruct (RevokeFamily _ _ _ _ _) as [r d] eqn:Hr. destruct r; by apply rtc_once; eapply step_revoke.
  - apply rotate_lookup_found in Hl as (t & Ht & -> & ->).
    destruct (BeginFunc _ _) as [r d] eqn:Hr. destruct r as [[]|]; by apply rtc_once; eapply step_claim.
Qed.

Lemma token_rotates_once_witness :
  rotate_lookup DefaultReuseGrace (at_ 3) (HashRefreshToken token1) (presented_hash (HashRefreshToken token1)) db0
    = Claimable user 101%N /\
  forall out db', Rotate DefaultReuseGrace (at_ 3) first_rotation id token1 DefaultRefreshTTL db0 <> (Ok out, db').
Proof.
  split; [vm_compute; reflexivity|]. intros out db'.
  apply (token_rotates_once DefaultReuseGrace DefaultReuseGrace (at_ 2) (at_ 3) id first_rotation id id token1
           DefaultRefreshTTL DefaultRefreshTTL db0 pair2 db1 db0 out db').
  - apply run0.
  - apply quiet.
  - apply quiet.
  - apply rotated.
  - apply run0.
  - apply first_rotation_interferes.
  - apply rtc_refl.
Defined.

Lemma replay_ends_the_session_witness :
  exists db', Rotate DefaultReuseGrace (at_ 60) id id token1 DefaultRefreshTTL db1 =
    (Err (ReuseError (t_UserID (row db1 token1)) (t_FamilyID (row db1 token1))), db') /\ revoked db' token1.
Proof.
  destruct (replay_ends_the_session DefaultReuseGrace (at_ 60) id id token1 DefaultRefreshTTL db1 (row db1 token1)
    (fam db1 token1) (2 * Second)) as (db' & Hr & Hv & _).
  - apply sess_run1.
  - apply quiet.
  - apply String.eqb_neq. vm_compute. reflexivity.
  - vm_compute. reflexivity.
  - apply row1.
  - apply fam1.
  - vm_compute. reflexivity.
  - vm_compute. reflexivity.
  - vm_compute. reflexivity.
  - vm_compute. reflexivity.
  - vm_compute. discriminate.
  - exists db'. split; [exact Hr|exact Hv].
Defined.

Definition db_out : DB := (Logout (at_ 3) token1 db1).2.
Lemma out_eq : Logout (at_ 3) token1 db1 = (Ok tt, db_out).
Proof. vm_compute. reflexivity. Qed.

Lemma Logout_ends_the_session_witness :
  match tokens db1 !! HashRefreshToken token1 with Some _ => revoked db_out token1 | None => db_out = db1 end.
Proof.
  apply (Logout_ends_the_session (at_ 3) token1 db1 db_out (Ok tt)).
  - apply sess_run1.
  - apply String.eqb_neq. vm_compute. reflexivity.
  - apply out_eq.
Defined.

Lemma run_out : rtc step db1 db_out.
Proof.
  apply rtc_once. eapply (step_logout (at_ 3) token1 "logout" db1 (Ok tt)). vm_compute. reflexivity.
Qed.
Lemma out_revoked : revoked db_out token1.
Proof.
  exists (row db_out token1), (fam db_out token1). split_and!; [vm_compute; reflexivity..|]. vm_compute. discriminate.
Qed.

Lemma revoked_session_is_over_witness :
  Rotate DefaultReuseGrace (at_ 90) id id token1 DefaultRefreshTTL db_out = (Err (Sentinel ErrRefreshRevoked), db_out).
Proof.
  apply (revoked_session_is_over db_out db_out token1 DefaultReuseGrace (at_ 90) id id).
  - etrans; [apply sess_run1|apply run_out].
  - apply out_revoked.
  - apply rtc_refl.
  - apply String.eqb_neq. vm_compute. reflexivity.
  - vm_compute. reflexivity.
Defined.

Lemma fresh_token_rotates_witness :
  exists out db', Rotate DefaultReuseGrace (at_ 2) id id token1 DefaultRefreshTTL db0 = (Ok out, db') /\
    UserID out = t_UserID (row db0 token1).
Proof.
  destruct (fresh_token_rotates DefaultReuseGrace (at_ 2) token1 DefaultRefreshTTL db0 (row db0 token1) (fam db0 token1))
    as (out & db' & t' & Hr & Hu & _).
  - apply run0.
  - apply String.eqb_neq. vm_compute. reflexivity.
  - apply row0.
  - apply fam0.
  - vm_compute. reflexivity.
  - vm_compute. reflexivity.
  - vm_compute. reflexivity.
  - vm_compute. reflexivity.
  - vm_compute. reflexivity.
  - vm_compute. reflexivity.
  - exists out, db'. split; [exact Hr|exact Hu].
Defined.
End RefreshDemo.
