(* ===== verification/RateLimit.v ===== *)
(** * Rate limits

    [internal/ratelimit/ratelimit.go] and its use in [internal/httpx/ratelimit.go].
    The Lua script is modelled command by command over the sorted sets it uses; a
    sorted set is its members with their scores, in milliseconds. *)

From S2P Require Import Prelude Apperr Ids Db Authz Tenant.

Record Policy := mkPolicy {
  Name : string;
  Limit : Z;
  Window : Z;   (* nanoseconds, a [time.Duration] *)
}.

Record Decision := mkDecision {
  Allowed : bool;
  d_Limit : Z;
  Remaining : Z;
  ResetAfter : Z;
  Degraded : bool;
}.

Definition Millisecond : Z := 1000000.
Definition Second : Z := 1000000000.

(** ** The script *)

(** A key: its members with their scores, and the time it expires. *)
Record ZSet := mkZSet {
  entries : list (Z * string);
  expires : Z;
}.
Notation Redis := (gmap string ZSet).

(** The members of a key at [now]; an expired key is an absent one. *)
Definition live_entries (now : Z) (o : option ZSet) : list (Z * string) :=
  match o with
  | Some z => if expires z <? now then [] else entries z
  | None => []
  end.

(** ZREMRANGEBYSCORE key 0 upto *)
Definition evict (upto : Z) (l : list (Z * string)) : list (Z * string) :=
  filter (fun e => e.1 < 0 \/ upto < e.1) l.

(** The score of ZRANGE key 0 0 WITHSCORES. *)
Definition oldest (l : list (Z * string)) : option Z :=
  match l with
  | [] => None
  | e :: l' => Some (foldr (fun e m => Z.min e.1 m) e.1 l')
  end.

(** ZADD key score member *)
Definition zadd (score : Z) (member : string) (l : list (Z * string)) : list (Z * string) :=
  filter (fun e => e.2 <> member) l ++ [(score, member)].

Definition slidingWindow (key : string) (limit windowms : Z) (member : string) (now : Z) (db : Redis)
    : (Z * Z * Z) * Redis :=
  let l := evict (now - windowms) (live_entries now (db !! key)) in
  let count := Z.of_nat (length l) in
  let reset := match oldest l with
               | Some o => let r := windowms - (now - o) in if r <? 0 then 0 else r
               | None => windowms
               end in
  let kept := match l with
              | [] => delete key db     (* an emptied set is no longer a key *)
              | _ => <[key := mkZSet l (match db !! key with Some z => expires z | None => 0 end)]> db
              end in
  if count <? limit
  then ((1, limit - count - 1, reset), <[key := mkZSet (zadd now member l) (now + windowms)]> db)
  else ((0, 0, reset), kept).

(** ** The limiter *)

Definition keyFor (p : Policy) (bucket : string) : string := "rl:{" +:+ Name p +:+ "}:" +:+ bucket.

Definition degrade (p : Policy) : Decision := mkDecision true (Limit p) 0 (Window p) true.

(** [Allow] when redis is reachable or not; [now] is redis's clock in milliseconds,
    [member] the identifier drawn for the request. *)
Definition Allow (p : Policy) (reachable : bool) (now : Z) (member bucket : string) (db : Redis) : Decision * Redis :=
  if negb reachable then (degrade p, db)
  else
    let '((flag, rem, reset), db') :=
      slidingWindow (keyFor p bucket) (Limit p) (Window p / Millisecond) member now db in
    (mkDecision (flag =? 1) (Limit p) rem (reset * Millisecond) false, db').

(** ** The middleware *)

Definition PolicyLogin : Policy := mkPolicy "login" 10 (60 * Second).
Definition PolicyRegister : Policy := mkPolicy "register" 5 (3600 * Second).
Definition PolicyRefreshIP : Policy := mkPolicy "refresh_ip" 20 (60 * Second).
Definition PolicyAPI : Policy := mkPolicy "api" 600 (60 * Second).

(** The whole seconds advertised for a duration. *)
Definition ceil_seconds (d : Z) : Z := (d + Second - 1) / Second.

(** What [enforce] puts on the response: the limit, the remaining count, the reset,
    the degraded mark and [Retry-After]; then whether the handler runs. *)
Record Enforced := mkEnforced {
  X_RateLimit_Limit : Z;
  X_RateLimit_Remaining : option Z;
  X_RateLimit_Reset : option Z;
  X_RateLimit_Degraded : bool;
  Retry_After : option Z;
  proceeds : bool;
}.

Definition enforce (d : Decision) : Enforced :=
  let seconds := if 0 <? ResetAfter d then Some (ceil_seconds (ResetAfter d)) else None in
  mkEnforced (d_Limit d) (if Degraded d then None else Some (Remaining d)) (if Degraded d then None else seconds)
    (Degraded d) (if Allowed d then None else seconds) (Allowed d).

(** *** Buckets *)

Definition trimBrackets (s : string) : string :=
  match strip_prefix "[" s with
  | Some r => match strip_suffix "]" r with Some m => m | None => s end
  | None => s
  end.

(** The text before the last colon. *)
Fixpoint before_last_colon (s : string) : option string :=
  match s with
  | "" => None
  | String c r =>
      match before_last_colon r with
      | Some x => Some (String c x)
      | None => if decide (c = ":"%char) then Some "" else None
      end
  end.

Definition hostFromRemote (addr : string) : string :=
  match before_last_colon addr with
  | Some host =>
      if bool_decide (host <> "") && has_suffix "]" addr then trimBrackets addr else trimBrackets host
  | None => trimBrackets addr
  end.

(** [clientIP]: the resolver's answer when there is one, else the socket peer. *)
Definition clientIP (remoteAddr : string) (resolved : option string) : string :=
  "ip:" +:+ match resolved with Some ip => ip | None => hostFromRemote remoteAddr end.

(** The bucket of [limitByPrincipal]. *)
Definition principal_bucket `{UUIDLib} (auth : option Authorized) (p : option Principal) (ip : string) : string :=
  match auth, p with
  | Some a, _ => "tenant:" +:+ uuid_String (id_TenantID (Identity_of a))
  | None, Some p => "principal:" +:+ uuid_String (UserID p)
  | None, None => ip
  end.

(** ** Lemmas *)

Lemma strip_policy n n' b b' :
  has_byte "}"%char n = false -> has_byte "}"%char n' = false ->
  n +:+ "}:" +:+ b = n' +:+ "}:" +:+ b' -> n = n' /\ b = b'.
Proof.
  intros Hn Hn' Heq.
  pose proof (cut_byte_app _ n (":" +:+ b) Hn) as H1. pose proof (cut_byte_app _ n' (":" +:+ b') Hn') as H2.
  change (String "}" "" +:+ ":" +:+ b) with ("}:" +:+ b) in H1.
  change (String "}" "" +:+ ":" +:+ b') with ("}:" +:+ b') in H2.
  rewrite Heq, H2 in H1. injection H1 as -> H1. split; [done|]. congruence.
Qed.

(** Keys separate policies and buckets, whatever the bucket contains. *)
Lemma keyFor_inj p p' b b' :
  has_byte "}"%char (Name p) = false -> has_byte "}"%char (Name p') = false ->
  keyFor p b = keyFor p' b' -> Name p = Name p' /\ b = b'.
Proof.
  intros Hp Hp' Heq. unfold keyFor in Heq. apply str_app_inv_l in Heq. by apply strip_policy.
Qed.

(** ** Histories *)

Record Call := mkCall {
  c_policy : Policy;
  c_reachable : bool;
  c_now : Z;
  c_member : string;
  c_bucket : string;
}.

Fixpoint run (calls : list Call) (db : Redis) : list (Call * Decision) * Redis :=
  match calls with
  | [] => ([], db)
  | c :: rest =>
      let '(d, db1) := Allow (c_policy c) (c_reachable c) (c_now c) (c_member c) (c_bucket c) db in
      let '(tr, db2) := run rest db1 in ((c, d) :: tr, db2)
  end.

(** The counted admissions of a key, in order. *)
Definition admitted (key : string) (tr : list (Call * Decision)) : list (Z * string) :=
  (fun cd => (c_now cd.1, c_member cd.1)) <$>
    filter (fun cd => keyFor (c_policy cd.1) (c_bucket cd.1) = key /\ Allowed cd.2 = true /\ Degraded cd.2 = false) tr.

Definition windowms (p : Policy) : Z := Window p / Millisecond.
Definition in_window (t w : Z) (e : Z * string) : Prop := t < e.1 <= t + w.
#[export] Instance in_window_dec t w e : base.Decision (in_window t w e).
Proof. unfold in_window. apply _. Defined.

(** What the set of a key holds, against the admissions [A] it stands for. *)
Record Tracks (p : Policy) (key : string) (last : Z) (A : list (Z * string)) (db : Redis) : Prop := {
  tr_entries : forall now, last <= now ->
    evict (now - windowms p) (live_entries now (db !! key)) = filter (fun e => now - windowms p < e.1) A;
  tr_times : Forall (fun e => 0 <= e.1 <= last) A;
  tr_bound : forall t, Z.of_nat (length (filter (in_window t (windowms p)) A)) <= Z.max 0 (Limit p);
}.

Lemma filter_length_le {A} (P Q : A -> Prop) `{!forall x, base.Decision (P x)} `{!forall x, base.Decision (Q x)} (l : list A) :
  (forall x, x ∈ l -> P x -> Q x) -> (length (filter P l) <= length (filter Q l))%nat.
Proof.
  induction l as [|x l IH]; intros Hpq; [done|]. rewrite !filter_cons.
  pose proof (Hpq x ltac:(left)). assert (length (filter P l) <= length (filter Q l))%nat by (apply IH; intros; apply Hpq; [by right|done]).
  repeat case_decide; cbn; try lia. tauto.
Qed.

Lemma filter_none {A} (P : A -> Prop) `{!forall x, base.Decision (P x)} (l : list A) : Forall (fun x => ~ P x) l -> filter P l = [].
Proof. induction 1 as [|x l Hx _ IH]; [done|]. by rewrite filter_cons_False. Qed.

Lemma evict_later a b l : a <= b -> Forall (fun e => 0 <= e.1) l -> evict b (evict a l) = evict b l.
Proof.
  intros Hab Hl. unfold evict. rewrite list_filter_filter. induction Hl as [|e l He _ IH]; [done|].
  rewrite !filter_cons, IH. repeat case_decide; try done; lia.
Qed.

Lemma evict_filter a l : Forall (fun e => 0 <= e.1) l -> evict a l = filter (fun e => a < e.1) l.
Proof.
  intros Hl. unfold evict. induction Hl as [|e l He _ IH]; [done|]. rewrite !filter_cons, IH.
  repeat case_decide; try done; lia.
Qed.

Lemma zadd_fresh now m l : m ∉ l.*2 -> zadd now m l = l ++ [(now, m)].
Proof.
  intros Hm. unfold zadd. f_equal. induction l as [|e l IH]; [done|]. cbn in Hm.
  apply not_elem_of_cons in Hm as [He Hm]. rewrite filter_cons_True by congruence. by rewrite IH.
Qed.

Lemma Tracks_empty p key : Tracks p key 0 [] ∅.
Proof. split; [by intros|done|]. intros t. cbn. lia. Qed.

Lemma Tracks_later p key last last' A db : last <= last' -> Tracks p key last A db -> Tracks p key last' A db.
Proof.
  intros Hl [He Ht Hb]. split; [intros; apply He; lia| |done]. eapply Forall_impl; [exact Ht|]. cbn. lia.
Qed.

Lemma filter_mono_eq a b (A : list (Z * string)) : a <= b ->
  filter (fun e => b < e.1) (filter (fun e => a < e.1) A) = filter (fun e => b < e.1) A.
Proof.
  intros Hab. rewrite list_filter_filter. induction A as [|e A IH]; [done|].
  rewrite !filter_cons, IH. repeat case_decide; try done; lia.
Qed.

(** Admitting one more. *)
Lemma Tracks_admit p key last now m A db l :
  Tracks p key last A db -> last <= now -> 0 <= now -> m ∉ A.*2 -> 0 <= windowms p ->
  l = evict (now - windowms p) (live_entries now (db !! key)) -> Z.of_nat (length l) < Limit p ->
  Tracks p key now (A ++ [(now, m)]) (<[key := mkZSet (zadd now m l) (now + windowms p)]> db).
Proof.
  intros [He Ht Hb] Hl Hn Hm Hw -> Hlim. rewrite He in Hlim |- * by done.
  assert (m ∉ (filter (fun e => now - windowms p < e.1) A).*2) as Hm'.
  { intros Hin. apply Hm. apply list_elem_of_fmap in Hin as (e & -> & Hin). apply list_elem_of_filter in Hin as [_ Hin].
    by apply list_elem_of_fmap_2. }
  rewrite zadd_fresh by done. split.
  - intros now2 Hn2. rewrite lookup_insert_eq. cbn [live_entries expires entries].
    destruct (Z.ltb_spec (now + windowms p) now2) as [Hx|Hx].
    + symmetry. apply filter_none. apply Forall_app. split; [|constructor; [cbn; lia|constructor]].
      eapply Forall_impl; [exact Ht|]. cbn. lia.
    + rewrite evict_filter.
      * rewrite !filter_app. f_equal. apply filter_mono_eq. lia.
      * apply Forall_app. split; [|constructor; [done|constructor]].
        apply Forall_forall. intros e [_ Hin]%list_elem_of_filter. rewrite Forall_forall in Ht. apply Ht in Hin. lia.
  - apply Forall_app. split; [eapply Forall_impl; [exact Ht|]; cbn; lia|]. constructor; [cbn; lia|constructor].
  - intros t. rewrite filter_app. destruct (decide (in_window t (windowms p) (now, m))) as [Hin | Hout].
    + rewrite filter_cons_True by done. rewrite length_app. cbn.
      assert (length (filter (in_window t (windowms p)) A) <= length (filter (fun e => (now - windowms p < e.1)%Z) A))%nat.
      { apply filter_length_le. unfold in_window in *. cbn in Hin. intros x _ Hx. lia. }
      lia.
    + rewrite filter_cons_False by done. rewrite app_nil_r. apply Hb.
Qed.

(** Refusing one: the script leaves what is left of the window. *)
Lemma Tracks_refuse p key last now A db l :
  Tracks p key last A db -> last <= now -> 0 <= windowms p ->
  l = evict (now - windowms p) (live_entries now (db !! key)) ->
  Tracks p key now A (match l with
                      | [] => delete key db
                      | _ => <[key := mkZSet l (match db !! key with Some z => expires z | None => 0 end)]> db
                      end).
Proof.
  intros Htr Hl Hw Heq. pose proof Htr as [He Ht Hb]. split; [|eapply Forall_impl; [exact Ht|]; cbn; lia|done].
  intros now2 Hn2. rewrite (He now Hl) in Heq.
  assert (filter (fun e => now2 - windowms p < e.1) A = filter (fun e => now2 - windowms p < e.1) l) as Hfil
    by (rewrite Heq; symmetry; apply filter_mono_eq; lia).
  destruct l as [|e l'].
  - rewrite lookup_delete_eq, Hfil. done.
  - rewrite lookup_insert_eq. cbn [live_entries expires entries].
    pose proof (He now2 ltac:(lia)) as H2. pose proof (He now Hl) as H1.
    destruct (db !! key) as [z|] eqn:Hz; [|by rewrite <- Heq in H1].
    cbn [live_entries] in H1, H2. destruct (expires z <? now2); [exact H2|]. rewrite Hfil, evict_filter; [done|].
    rewrite Heq. apply Forall_forall. intros x [_ Hin]%list_elem_of_filter. rewrite Forall_forall in Ht. apply Ht in Hin. lia.
Qed.


(** *** The limiter against a log of admissions *)

Fixpoint monotone (last : Z) (calls : list Call) : Prop :=
  match calls with
  | [] => True
  | c :: rest => last <= c_now c /\ monotone (c_now c) rest
  end.

(** What the calls of a run rely on: redis's clock does not go back, members are
    fresh, and a policy is known by its name. *)
Record Sane (calls : list Call) : Prop := {
  sane_time : monotone 0 calls;
  sane_members : NoDup (c_member <$> calls);
  sane_names : Forall (fun c => has_byte "}"%char (Name (c_policy c)) = false /\ 0 <= Window (c_policy c)) calls;
  sane_policies : forall c c', c ∈ calls -> c' ∈ calls -> Name (c_policy c) = Name (c_policy c') -> c_policy c = c_policy c';
}.

(** The specification: the decision on a call from the admissions counted so far. *)
Definition recent (c : Call) (log : list (Z * string)) : list (Z * string) :=
  filter (fun e => c_now c - windowms (c_policy c) < e.1) log.

Definition spec_decision (c : Call) (log : list (Z * string)) : Decision :=
  if negb (c_reachable c) then degrade (c_policy c)
  else
    let l := recent c log in
    let count := Z.of_nat (length l) in
    let reset := match oldest l with
                 | Some o => windowms (c_policy c) - (c_now c - o)
                 | None => windowms (c_policy c)
                 end in
    mkDecision (count <? Limit (c_policy c)) (Limit (c_policy c))
      (if count <? Limit (c_policy c) then Limit (c_policy c) - count - 1 else 0) (reset * Millisecond) false.

Fixpoint spec_run (done : list (Call * Decision)) (calls : list Call) : list (Call * Decision) :=
  match calls with
  | [] => []
  | c :: rest =>
      let d := spec_decision c (admitted (keyFor (c_policy c) (c_bucket c)) done) in
      (c, d) :: spec_run (done ++ [(c, d)]) rest
  end.

Lemma oldest_recent c log o : oldest (recent c log) = Some o -> c_now c - windowms (c_policy c) < o.
Proof.
  unfold recent. assert (forall l, Forall (fun e => c_now c - windowms (c_policy c) < e.1) l ->
    oldest l = Some o -> c_now c - windowms (c_policy c) < o) as Hgen.
  { intros [|e l] Hl [= <-]. apply Forall_cons in Hl as [He Hl]. induction Hl; cbn; lia. }
  apply Hgen, Forall_forall. by intros e [He _]%list_elem_of_filter.
Qed.

Lemma oldest_mem l o : oldest l = Some o -> exists e, e ∈ l /\ e.1 = o.
Proof.
  destruct l as [|e l]; [done|]. intros [= <-]. induction l as [|e' l IH]; [exists e; split; [left|done]|].
  cbn. destruct (Z.min_spec e'.1 (foldr (fun e m => Z.min e.1 m) e.1 l)) as [[_ ->]|[_ ->]].
  - exists e'. split; [right; left|done].
  - destruct IH as (x & Hx & <-). exists x. split; [|done]. apply elem_of_cons in Hx as [->|Hx]; [left|by right; right].
Qed.

Lemma admitted_app key tr tr' : admitted key (tr ++ tr') = admitted key tr ++ admitted key tr'.
Proof. unfold admitted. by rewrite filter_app, fmap_app. Qed.

Lemma windowms_nonneg p : 0 <= Window p -> 0 <= windowms p.
Proof. intros. unfold windowms, Millisecond. apply Z.div_pos; lia. Qed.

(** The decision of [Allow] on a tracked key is the specification's. *)
Lemma Allow_spec c key last A db :
  key = keyFor (c_policy c) (c_bucket c) -> Tracks (c_policy c) key last A db -> last <= c_now c ->
  (Allow (c_policy c) (c_reachable c) (c_now c) (c_member c) (c_bucket c) db).1 = spec_decision c A.
Proof.
  intros -> [He _ _] Hl. unfold Allow, spec_decision. destruct (c_reachable c); [cbn [negb]|done].
  unfold slidingWindow. change (Window (c_policy c) / Millisecond) with (windowms (c_policy c)).
  rewrite He by done. fold (recent c A).
  destruct (oldest (recent c A)) as [o|] eqn:Ho.
  - pose proof (oldest_recent _ _ _ Ho). assert (windowms (c_policy c) - (c_now c - o) <? 0 = false) as -> by (apply Z.ltb_ge; lia).
    by destruct (_ <? Limit _).
  - by destruct (_ <? Limit _).
Qed.

(** What a call does to the set of a key, its own or another's. *)
Lemma Allow_tracks c p key last A db :
  (keyFor (c_policy c) (c_bucket c) = key -> c_policy c = p) -> 0 <= windowms p ->
  Tracks p key last A db -> last <= c_now c -> 0 <= c_now c -> c_member c ∉ A.*2 ->
  let r := Allow (c_policy c) (c_reachable c) (c_now c) (c_member c) (c_bucket c) db in
  Tracks p key (c_now c) (A ++ admitted key [(c, r.1)]) r.2.
Proof.
  intros Hp Hw Htr Hl Hn Hm r. unfold r, Allow. destruct (c_reachable c); cbn [negb].
  2:{ replace (admitted key _) with (@nil (Z * string)); [rewrite app_nil_r; eapply Tracks_later; [|exact Htr]; lia|].
      unfold admitted. rewrite filter_cons_False; [done|]. cbn. by intros (_ & _ & ?). }
  destruct (decide (keyFor (c_policy c) (c_bucket c) = key)) as [Hk | Hk].
  - rewrite Hk. specialize (Hp Hk). rewrite Hp in *. unfold slidingWindow.
    change (Window p / Millisecond) with (windowms p).
    destruct (Z.ltb_spec (Z.of_nat (length (evict (c_now c - windowms p) (live_entries (c_now c) (db !! key))))) (Limit p)) as [Hlt|Hge].
    + cbn [fst snd]. replace (admitted key _) with [(c_now c, c_member c)].
      * by eapply Tracks_admit.
      * unfold admitted. rewrite filter_cons_True; [done|]. cbn [fst snd]. by rewrite Hp.
    + cbn [fst snd]. replace (admitted key _) with (@nil (Z * string)).
      * rewrite app_nil_r. by eapply Tracks_refuse.
      * unfold admitted. rewrite filter_cons_False; [done|]. cbn. by intros (_ & ? & _).
  - replace (admitted key _) with (@nil (Z * string)).
    2:{ unfold admitted. rewrite filter_cons_False; [done|]. cbn. by intros (? & _ & _). }
    rewrite app_nil_r. apply (Tracks_later _ _ last); [done|]. destruct Htr as [He Ht Hb].
    assert (Heq : forall k z, k <> key -> <[k := z]> db !! key = db !! key) by (intros; by rewrite lookup_insert_ne).
    split; [|done|done]. intros now2 Hn2. rewrite <- (He now2 Hn2). do 2 f_equal. unfold slidingWindow.
    destruct (_ <? Limit _); cbn [snd]; [by apply Heq|].
    destruct (evict _ _); [by rewrite lookup_delete_ne|by apply Heq].
Qed.

(** A run, from a store that tracks the key. *)
Lemma run_tracks p key calls : forall last A db,
  (forall c, c ∈ calls -> keyFor (c_policy c) (c_bucket c) = key -> c_policy c = p) -> 0 <= windowms p ->
  Tracks p key last A db -> 0 <= last -> monotone last calls -> NoDup (c_member <$> calls) ->
  (forall c, c ∈ calls -> c_member c ∉ A.*2) ->
  exists last', last <= last' /\ Forall (fun c => c_now c <= last') calls /\
    (last' = last \/ exists c, c ∈ calls /\ c_now c = last') /\
    Tracks p key last' (A ++ admitted key (run calls db).1) (run calls db).2.
Proof.
  induction calls as [|c calls IH]; intros last A db Hp Hw Htr Hl Hm Hnd Hfresh.
  { exists last. rewrite app_nil_r. split_and!; [lia|done|by left|done]. }
  destruct Hm as [Hc Hm]. cbn in Hnd. apply NoDup_cons in Hnd as [Hnew Hnd].
  pose proof (Allow_tracks c p key last A db ltac:(apply Hp; left) Hw Htr Hc ltac:(lia) ltac:(apply Hfresh; left)) as Hstep.
  cbn [run]. destruct (Allow _ _ _ _ _ _) as [d db1]. cbn [fst snd] in Hstep.
  destruct (IH (c_now c) (A ++ admitted key [(c, d)]) db1) as (last' & H1 & H2 & H3 & H4); try done; [|lia| |].
  { intros; apply Hp; [by right|done]. }
  { intros c' Hc'. rewrite fmap_app. apply not_elem_of_app. split; [apply Hfresh; by right|].
    unfold admitted. rewrite filter_cons. case_decide; [|by intros ?%elem_of_nil].
    cbn. intros Heq%list_elem_of_singleton. apply Hnew. rewrite <- Heq. by apply list_elem_of_fmap_2. }
  destruct (run calls db1) as [tr db2]. cbn [fst snd] in *. exists last'. split_and!; [lia|by constructor| |].
  - destruct H3 as [->|(c' & Hc' & He)]; right; [exists c; split; [left|done]|exists c'; split; [by right|done]].
  - rewrite <- app_assoc in H4. by rewrite <- (admitted_app key [(c, d)] tr) in H4.
Qed.

Lemma run_app a b db :
  run (a ++ b) db = ((run a db).1 ++ (run b (run a db).2).1, (run b (run a db).2).2).
Proof.
  revert db. induction a as [|c a IH]; intros db; cbn [run app]; [cbn; by destruct (run b db)|].
  destruct (Allow _ _ _ _ _ _) as [d db1]. rewrite IH. by destruct (run a db1).
Qed.

Lemma spec_run_app a b done : spec_run done (a ++ b) = spec_run done a ++ spec_run (done ++ spec_run done a) b.
Proof.
  revert done. induction a as [|c a IH]; intros done; cbn [spec_run app]; [by rewrite app_nil_r|].
  rewrite IH. by rewrite <- app_assoc.
Qed.

Lemma monotone_app last a b : monotone last (a ++ b) -> monotone last a.
Proof. revert last. induction a as [|c a IH]; intros last; [done|]. intros [? ?]; split; [done|by apply IH]. Qed.

Lemma monotone_snoc last a c : monotone last (a ++ [c]) -> Forall (fun c' => c_now c' <= c_now c) a /\ last <= c_now c.
Proof.
  revert last. induction a as [|c' a IH]; intros last; cbn; [intros [? _]; done|].
  intros [H1 [H2 H3]%IH]. split; [by constructor|lia].
Qed.

Lemma Sane_app a b : Sane (a ++ b) -> Sane a.
Proof.
  intros [H1 H2 H3 H4]. split; [by eapply monotone_app| | |].
  - rewrite fmap_app in H2. by apply NoDup_app in H2 as [? _].
  - by apply Forall_app in H3 as [? _].
  - intros c c' Hc Hc'. apply H4; apply elem_of_app; by left.
Qed.

(** In a sane sequence of calls, those of a key are those of one policy. *)
Lemma Sane_key calls c c' : Sane calls -> c ∈ calls -> c' ∈ calls ->
  keyFor (c_policy c) (c_bucket c) = keyFor (c_policy c') (c_bucket c') -> c_policy c = c_policy c'.
Proof.
  intros [_ _ H3 H4] Hc Hc' Hk. rewrite Forall_forall in H3.
  apply H4; [done|done|]. apply (keyFor_inj _ _ _ _ (proj1 (H3 c Hc)) (proj1 (H3 c' Hc')) Hk).
Qed.

(** What a sane run leaves for a key of one of its calls. *)
Lemma Sane_tracks calls c : Sane (calls ++ [c]) ->
  Tracks (c_policy c) (keyFor (c_policy c) (c_bucket c)) (c_now c)
    (admitted (keyFor (c_policy c) (c_bucket c)) (run calls ∅).1) (run calls ∅).2.
Proof.
  intros Hs. pose proof (monotone_snoc _ _ _ (sane_time _ Hs)) as [Hle H0].
  destruct (run_tracks (c_policy c) (keyFor (c_policy c) (c_bucket c)) calls 0 [] ∅) as (last & _ & _ & Hlast & Htr).
  - intros c' Hc' Hk. apply (Sane_key _ _ _ Hs); [apply elem_of_app; by left|apply elem_of_app; right; left|done].
  - apply windowms_nonneg. pose proof (sane_names _ Hs) as Hn. by apply Forall_app in Hn as [_ [[_ ?] _]%Forall_cons].
  - apply Tracks_empty.
  - lia.
  - eapply monotone_app, (sane_time _ Hs).
  - pose proof (sane_members _ Hs) as Hnd. rewrite fmap_app in Hnd. by apply NoDup_app in Hnd as [? _].
  - intros c' _. apply not_elem_of_nil.
  - eapply Tracks_later; [|exact Htr]. destruct Hlast as [->|(c' & Hc' & <-)]; [lia|]. rewrite Forall_forall in Hle. by apply Hle.
Qed.

Lemma run_spec calls : Sane calls -> (run calls ∅).1 = spec_run [] calls.
Proof.
  induction calls as [|c calls IH] using rev_ind; intros Hs; [done|].
  rewrite run_app, spec_run_app. cbn [fst]. rewrite <- IH by (by eapply Sane_app). f_equal.
  pose proof (Allow_spec c _ _ _ _ eq_refl (Sane_tracks _ _ Hs) ltac:(done)) as Hd.
  cbn [run spec_run]. destruct (Allow _ _ _ _ _ _) as [d db]. cbn [fst] in *. by rewrite Hd.
Qed.


(** ** Properties *)

(** C32: the limiter refines a log of admissions. On any sequence of calls with redis's
    clock not going back, fresh members and policies known by their names, whatever the
    keys it interleaves, the script decides each call as the log does: admitted exactly
    when fewer than [Limit] calls were admitted on its key in the window that ends now,
    with the remaining count and the time until the oldest of them leaves; and a call made
    while redis is unreachable is admitted, marked degraded, and never counted. *)
Theorem limiter_refines_log calls : Sane calls -> (run calls ∅).1 = spec_run [] calls.
Proof. apply run_spec. Qed.

(** in every interval as long as the window, aligned or not, a key is admitted at
    most [Limit] times. *)
Theorem sliding_window calls c t :
  Sane calls -> c ∈ calls ->
  let key := keyFor (c_policy c) (c_bucket c) in
  Z.of_nat (length (filter (in_window t (windowms (c_policy c))) (admitted key (run calls ∅).1)))
    <= Z.max 0 (Limit (c_policy c)).
Proof.
  intros Hs Hc key.
  destruct (run_tracks (c_policy c) key calls 0 [] ∅) as (last & _ & _ & _ & [_ _ Hb]).
  - intros c' Hc' Hk. by apply (Sane_key _ _ _ Hs).
  - apply windowms_nonneg. pose proof (sane_names _ Hs) as Hn. rewrite Forall_forall in Hn. by apply Hn.
  - apply Tracks_empty.
  - lia.
  - apply (sane_time _ Hs).
  - apply (sane_members _ Hs).
  - intros c' _. apply not_elem_of_nil.
  - apply Hb.
Qed.

Lemma ceil_seconds_spec d : 0 <= d -> d <= ceil_seconds d * Second < d + Second.
Proof. intros. unfold ceil_seconds, Second. pose proof (Z.div_mod (d + 1000000000 - 1) 1000000000 ltac:(lia)).
  pose proof (Z.mod_pos_bound (d + 1000000000 - 1) 1000000000 ltac:(lia)). lia. Qed.

Lemma Sane_trace calls c : Sane (calls ++ [c]) ->
  (run (calls ++ [c]) ∅).1 =
    (run calls ∅).1 ++ [(c, spec_decision c (admitted (keyFor (c_policy c) (c_bucket c)) (run calls ∅).1))].
Proof. intros Hs. rewrite !run_spec by (done || by eapply Sane_app). by rewrite spec_run_app. Qed.

(** The recent admissions of the key a sane run would decide next are at most [Limit]. *)
Lemma recent_bound calls c : Sane (calls ++ [c]) ->
  Z.of_nat (length (recent c (admitted (keyFor (c_policy c) (c_bucket c)) (run calls ∅).1)))
    <= Z.max 0 (Limit (c_policy c)).
Proof.
  intros Hs. destruct (Sane_tracks _ _ Hs) as [_ Ht Hb].
  etrans; [|apply (Hb (c_now c - windowms (c_policy c)))]. apply inj_le, filter_length_le.
  intros x Hx Hr. rewrite Forall_forall in Ht. apply Ht in Hx. unfold in_window. lia.
Qed.

(** [Retry-After] is honest. A refused request carries a whole number of seconds, at
    least one, and the caller's next request on the key, made no sooner than that, is
    admitted. *)
Theorem retry_after_suffices calls c c2 tr d d2 :
  Sane (calls ++ [c; c2]) -> (run (calls ++ [c; c2]) ∅).1 = tr ++ [(c, d); (c2, d2)] ->
  c_policy c2 = c_policy c -> c_bucket c2 = c_bucket c -> 0 < Limit (c_policy c) -> Allowed d = false ->
  exists s, Retry_After (enforce d) = Some s /\ 1 <= s /\ (c_now c + s * 1000 <= c_now c2 -> Allowed d2 = true).
Proof.
  intros Hs Hrun Hp Hb Hlim Hd.
  change [c; c2] with ([c] ++ [c2]) in Hs, Hrun. rewrite (app_assoc calls) in Hs, Hrun.
  pose proof (Sane_app _ _ Hs) as Hs1. rewrite Sane_trace, Sane_trace in Hrun by done.
  change [(c, d); (c2, d2)] with ([(c, d)] ++ [(c2, d2)]) in Hrun. rewrite (app_assoc tr) in Hrun.
  apply app_inj_2 in Hrun as [Hrun Hd2]; [|done]. apply app_inj_2 in Hrun as [Htr Hd1]; [|done].
  assert (d = spec_decision c (admitted (keyFor (c_policy c) (c_bucket c)) (run calls ∅).1)) as Hdc by congruence.
  assert (d2 = spec_decision c2 (admitted (keyFor (c_policy c2) (c_bucket c2)) (tr ++ [(c, d)]))) as Hdc2 by congruence.
  clear Hd1 Hd2. rewrite Hp, Hb, admitted_app in Hdc2. pose proof (recent_bound _ _ Hs1) as Hbound.
  rewrite Htr in Hdc, Hbound. set (A := admitted (keyFor (c_policy c) (c_bucket c)) tr) in *.
  replace (admitted _ [(c, d)]) with (@nil (Z * string)) in Hdc2
    by (unfold admitted; rewrite filter_cons_False; [done|intros (_ & ? & _); cbn in *; congruence]).
  rewrite app_nil_r in Hdc2. rewrite Hdc in Hd |- *. unfold spec_decision in Hd |- *.
  destruct (c_reachable c); [cbn [negb Allowed] in Hd |- *|done]. apply Z.ltb_ge in Hd.
  destruct (oldest (recent c A)) as [o|] eqn:Ho.
  2:{ destruct (recent c A); [|done]. cbn in Hd. lia. }
  pose proof (oldest_recent _ _ _ Ho) as Hnew. set (reset := windowms (c_policy c) - (c_now c - o)) in *.
  pose proof (ceil_seconds_spec (reset * Millisecond) ltac:(unfold Millisecond; lia)) as Hceil.
  rewrite (proj2 (Z.ltb_ge _ _) Hd). unfold enforce. cbn [Allowed ResetAfter Retry_After].
  assert (0 <? reset * Millisecond = true) as -> by (apply Z.ltb_lt; unfold Millisecond; lia).
  eexists. split; [done|]. unfold Second, Millisecond in Hceil |- *. split; [lia|]. intros Hwait.
  rewrite Hdc2. unfold spec_decision. destruct (c_reachable c2); [cbn [negb Allowed]|done].
  apply Z.ltb_lt. rewrite Hp. apply oldest_mem in Ho as (e & He & <-).
  enough (length (recent c2 A) < length (recent c A))%nat by lia.
  unfold recent. rewrite Hp. rewrite <- (filter_mono_eq (c_now c - windowms (c_policy c)) (c_now c2 - windowms (c_policy c)) A) by lia.
  apply (length_filter_lt _ _ e); [exact He|]. lia.
Qed.

(** ** Witnesses *)

Module RateLimitDemo.

Definition demo : Policy := mkPolicy "demo" 2 Second.
Definition call (now : Z) (member bucket : string) : Call := mkCall demo true now member bucket.
Definition calls : list Call :=
[call 1000 "m1" "ip:1"; call 1400 "m2" "ip:1"; call 1500 "m3" "ip:2"; mkCall demo false 1600 "m4" "ip:1"].

Lemma demo_sane (l : list Call) : monotone 0 l -> bool_decide (NoDup (c_member <$> l)) = true ->
Forall (fun c => c_policy c = demo) l -> Sane l.
Proof.
intros Hm Hn Hp. rewrite Forall_forall in Hp. split; [done|by eapply bool_decide_eq_true| |].
- apply Forall_forall. intros c ->%Hp. split; [reflexivity|]. vm_compute. discriminate.
- intros c c' ->%Hp ->%Hp. done.
Qed.

Ltac demo_run := apply demo_sane; [cbn; lia|vm_compute; reflexivity|repeat constructor].

Lemma limiter_refines_log_witness :
(run (calls ++ [call 1700 "m5" "ip:1"]) ∅).1 = spec_run [] (calls ++ [call 1700 "m5" "ip:1"]).
Proof. apply limiter_refines_log. demo_run. Defined.

Lemma sliding_window_witness :
let key := keyFor demo "ip:1" in
Z.of_nat (length (filter (in_window 900 1000) (admitted key (run calls ∅).1))) <= 2.
Proof. apply (sliding_window calls (call 1000 "m1" "ip:1") 900); [demo_run|left]. Defined.

Lemma retry_after_suffices_witness :
exists s, Retry_After (enforce (mkDecision false 2 0 300000000 false)) = Some s /\ 1 <= s /\
  (1700 + s * 1000 <= 2700 -> Allowed (mkDecision true 2 1 1000000000 false) = true).
Proof.
apply (retry_after_suffices calls (call 1700 "m5" "ip:1") (call 2700 "m6" "ip:1") (run calls ∅).1);
  [demo_run|vm_compute; reflexivity|reflexivity|reflexivity|reflexivity|reflexivity].
Defined.

End RateLimitDemo.
