(* ===== verification/ApiKey.v ===== *)
(** * API keys

    [internal/authn/apikey.go] over the table of migration 0002, the principal a
    presented key becomes ([internal/authn/service.go]) and the middleware that reads
    the Authorization header ([internal/authn/middleware.go]). *)

From S2P Require Import Prelude Apperr Encoding Ids Db Authz Tenant.
From S2P Require AuditLog.

Definition apiKeyPrefixLen : Z := 8.
Definition maxAPIKeyNameLen : Z := 100.

(** ** Tables *)

Record APIKey := mkAPIKey {
  k_ID : uuid;
  k_TenantID : uuid;
  k_CreatedBy : uuid;
  k_Name : string;
  k_Prefix : string;
  k_Scopes : list Perm;
  k_CreatedAt : gotime;
  k_LastUsedAt : option gotime;
  k_ExpiresAt : option gotime;
  k_RevokedAt : option gotime;
}.

Record MintedAPIKey := mkMinted { m_Key : APIKey; m_Secret : string }.

(** A row of [api_keys]: the key and the hash of its secret. *)
Record KeyRow := mkKeyRow { row_key : APIKey; row_hash : string }.

Record DB := mkDB {
  api_keys : gmap uuid KeyRow;
  accounts : Tenant.DB;
  audit_log : AuditLog.Table;
}.
Definition empty_DB : DB := mkDB ∅ Tenant.empty_DB [].

Definition set_keys (k : gmap uuid KeyRow) (db : DB) : DB := mkDB k (accounts db) (audit_log db).
Definition set_audit (a : AuditLog.Table) (db : DB) : DB := mkDB (api_keys db) (accounts db) a.

(** The policy [api_keys_tenant_or_own_hash]. *)
Definition key_visible (g : Settings) (r : KeyRow) : bool :=
  tenant_is g (k_TenantID (row_key r)) || bool_decide (SettingAPIKeyHash g = Some (row_hash r)).

Definition presented_key (hash : string) : Settings := mkSettings None None None (Some hash) false.

Definition has_hash (db : DB) (hash : string) : bool :=
  existsb (fun kr => bool_decide (row_hash kr.2 = hash)) (map_to_list (api_keys db)).

Definition key_check (now : gotime) (r : KeyRow) : bool :=
  let k := row_key r in
  (1 <=? char_length (k_Name k)) && (char_length (k_Name k) <=? 100) &&
  (4 <=? char_length (k_Prefix k)) && (char_length (k_Prefix k) <=? 16) &&
  (char_length (row_hash r) =? 64) &&
  match k_ExpiresAt k with Some t => now <? t | None => true end.

(** INSERT INTO api_keys; [created_at] defaults to now(). *)
Definition insert_key (env : Env) (g : Settings) (r : KeyRow) : SE DB err unit := fun db =>
  if negb (key_visible g r) then (Err rls_violation, db)
  else if negb (key_check (env_now env) r) then (Err (check_violation "api_keys"), db)
  else if bool_decide (is_Some (api_keys db !! k_ID (row_key r))) || has_hash db (row_hash r)
  then (Err (unique_violation "api_keys"), db)
  else if negb (bool_decide (is_Some (tenants (accounts db) !! k_TenantID (row_key r))) &&
                bool_decide (is_Some (users (accounts db) !! k_CreatedBy (row_key r))))
  then (Err (fk_violation "api_keys"), db)
  else (Ok tt, set_keys (<[k_ID (row_key r) := r]> (api_keys db)) db).

(** ** Secrets *)

Definition HashAPIKey (key : string) : string := hex_encode (sha256 key).

Definition newAPIKeySecret (rand : nat -> Z) : string * string * string :=
  let buf := of_bytes ((fun n => rand n mod 256) <$> seq 0 32) in
  let encoded := b64_encode RawURLEncoding buf in
  let prefix := String.substring 0 (Z.to_nat apiKeyPrefixLen) encoded in
  let secret := "ak_" +:+ encoded in
  (secret, prefix, HashAPIKey secret).

Section store.
Context `{Unicode} `{TimeJSON} (env : Env).

(** ** Operations *)

Definition apiKeyAuditImage (k : APIKey) : json :=
  JObj [("name", JStr (k_Name k)); ("prefix", JStr (k_Prefix k)); ("scopes", JList (JStr <$> k_Scopes k));
        ("expires_at", json_opt_time (k_ExpiresAt k)); ("revoked_at", json_opt_time (k_RevokedAt k))].

Definition write_audit (g : Settings) (id : uuid) (e : AuditLog.Entry) : SE DB err unit :=
  zoom audit_log set_audit (AuditLog.Write env g id e).

Definition key_entry (actor : uuid) (action : string) (t : uuid) (key : uuid) (before after : option json) : AuditLog.Entry :=
  AuditLog.mkEntry t (Some actor) AuditLog.ActorUser action "api_key" (Some key) before after (env_reqid env).

Definition new_key (tenantID createdBy : uuid) (name prefix : string) (scopes : list Perm) (expiresAt : option gotime) : APIKey :=
  mkAPIKey (env_id env 0) tenantID createdBy name prefix scopes (env_time env) None expiresAt None.

(** The row as stored: [created_at] is the database's clock. *)
Definition stored (k : APIKey) : APIKey :=
  mkAPIKey (k_ID k) (k_TenantID k) (k_CreatedBy k) (k_Name k) (k_Prefix k) (k_Scopes k) (env_now env)
    (k_LastUsedAt k) (k_ExpiresAt k) (k_RevokedAt k).

Definition Mint (tenantID createdBy : uuid) (name : string) (scopes : list Perm) (expiresAt : option gotime)
    : SE DB err MintedAPIKey :=
  if decide (tenantID = uuid_Nil \/ createdBy = uuid_Nil) then throw (Sentinel ErrNoScope)
  else if bool_decide (name = "") || (maxAPIKeyNameLen <? slen name)
  then throw (Wrapf "authn: key name must be 1..100 characters: validation failed" (Sentinel ErrValidation))
  else match ValidateKeyScopes scopes with
  | Err e => throw (Wrapf ("authn: validation failed: " +:+ error_text e) (Sentinel ErrValidation))
  | Ok _ =>
      if match expiresAt with Some t => t <=? env_time env | None => false end
      then throw (Wrapf "authn: key expiry must be in the future: validation failed" (Sentinel ErrValidation))
      else
        let '(secret, prefix, hash) := newAPIKeySecret (env_rand env) in
        let key := new_key tenantID createdBy name prefix scopes expiresAt in
        _ ← WithIdentityTx (mkIdentity tenantID createdBy) (fun g =>
              _ ← or_fail (insert_key env g (mkKeyRow (stored key) hash))
                    (fun e => if IsUniqueViolation e then Wrapf "insert api key: conflict" (Sentinel ErrConflict)
                              else Wrapf ("insert api key: " +:+ error_text e) e);
              write_audit g (env_id env 1)
                (key_entry createdBy AuditLog.ActionAPIKeyCreate tenantID (k_ID key) None (Some (apiKeyAuditImage key))));
        mret (mkMinted key secret)
  end.

(** SELECT ... WHERE key_hash = $1, under the policy. *)
Definition find_by_hash (g : Settings) (hash : string) (db : DB) : option KeyRow :=
  match filter (fun kr => row_hash kr.2 = hash /\ key_visible g kr.2 = true) (map_to_list (api_keys db)) with
  | kr :: _ => Some kr.2
  | [] => None
  end.

Definition touch (now : gotime) (r : KeyRow) : KeyRow :=
  let k := row_key r in
  mkKeyRow (mkAPIKey (k_ID k) (k_TenantID k) (k_CreatedBy k) (k_Name k) (k_Prefix k) (k_Scopes k) (k_CreatedAt k)
              (Some now) (k_ExpiresAt k) (k_RevokedAt k)) (row_hash r).

(** UPDATE api_keys SET last_used_at = now() WHERE id = $1 RETURNING last_used_at *)
Definition touch_key (g : Settings) (id : uuid) : SE DB err gotime := fun db =>
  match api_keys db !! id with
  | Some r => if key_visible g r
              then (Ok (env_now env), set_keys (<[id := touch (env_now env) r]> (api_keys db)) db)
              else (Err (Sentinel PgxErrNoRows), db)
  | None => (Err (Sentinel PgxErrNoRows), db)
  end.

(** [mid] is what other sessions commit between the read and the update. *)
Definition Authenticate (mid : DB -> DB) (presented : string) : SE DB err APIKey := fun db =>
  if decide (presented = "") then (Err (Sentinel ErrAPIKeyUnknown), db)
  else
    let hash := HashAPIKey presented in
    let g := presented_key hash in
    match find_by_hash g hash db with
    | None => (Err (Sentinel ErrAPIKeyUnknown), db)
    | Some r =>
        let k := row_key r in
        if bool_decide (is_Some (k_RevokedAt k)) then (Err (Sentinel ErrAPIKeyRevoked), db)
        else if match k_ExpiresAt k with Some t => t <=? env_time env | None => false end
        then (Err (Sentinel ErrAPIKeyExpired), db)
        else match BeginFunc (touch_key g (k_ID k)) (mid db) with
             | (Err e, db') => (Err (Wrapf ("touch api key: " +:+ error_text e) e), db')
             | (Ok at_, db') => (Ok (row_key (touch at_ r)), db')
             end
    end.

(** The order of rows with equal [created_at] is not determined; the model keeps the
    enumeration's. *)
Definition List_ (tenantID actorID : uuid) : SE DB err (list APIKey) :=
  if decide (tenantID = uuid_Nil) then throw (Sentinel ErrNoScope)
  else or_fail
    (WithIdentityTx (mkIdentity tenantID actorID) (fun g db =>
       (Ok (order_by (fun x y => k_CreatedAt y <=? k_CreatedAt x)
              (row_key <$> filter (fun r => key_visible g r = true /\ k_TenantID (row_key r) = tenantID)
                             (map_to_list (api_keys db)).*2)), db)))
    (fun e => Wrapf ("list api keys: " +:+ error_text e) e).

Definition revoke (now : gotime) (r : KeyRow) : KeyRow :=
  let k := row_key r in
  mkKeyRow (mkAPIKey (k_ID k) (k_TenantID k) (k_CreatedBy k) (k_Name k) (k_Prefix k) (k_Scopes k) (k_CreatedAt k)
              (k_LastUsedAt k) (k_ExpiresAt k) (Some now)) (row_hash r).

Definition unrevoked (k : APIKey) : APIKey :=
  mkAPIKey (k_ID k) (k_TenantID k) (k_CreatedBy k) (k_Name k) (k_Prefix k) (k_Scopes k) (k_CreatedAt k)
    (k_LastUsedAt k) (k_ExpiresAt k) None.

(** The row a statement with [WHERE id = $1 AND tenant_id = $2] sees. *)
Definition find_key (g : Settings) (t id : uuid) (db : DB) : option KeyRow :=
  r ← api_keys db !! id;
  if key_visible g r && bool_decide (k_TenantID (row_key r) = t) then Some r else None.

Definition loadKey (g : Settings) (t id : uuid) : SE DB err APIKey := fun db =>
  match find_key g t id db with
  | Some r => (Ok (row_key r), db)
  | None => (Err (Sentinel PgxErrNoRows), db)
  end.

Definition Revoke (tenantID actorID keyID : uuid) : SE DB err unit :=
  if decide (tenantID = uuid_Nil \/ actorID = uuid_Nil \/ keyID = uuid_Nil) then throw (Sentinel ErrNoScope)
  else WithIdentityTx (mkIdentity tenantID actorID) (fun g db =>
    match find_key g tenantID keyID db with
    | None => (Err (Wrapf "revoke api key: not found" (Sentinel ErrNotFound)), db)
    | Some r =>
        match k_RevokedAt (row_key r) with
        | Some _ => (Ok tt, db)                 (* already revoked: the update matched no row *)
        | None =>
            (after ← or_fail (loadKey g tenantID keyID)
                       (fun e => Wrapf ("read api key after revoke: " +:+ error_text e) e);
             write_audit g (env_id env 0)
               (key_entry actorID AuditLog.ActionAPIKeyRevoke tenantID keyID
                  (Some (apiKeyAuditImage (unrevoked after))) (Some (apiKeyAuditImage after))))
            (set_keys (<[keyID := revoke (env_now env) r]> (api_keys db)) db)
        end
    end).

(** [Service.PrincipalForAPIKey] *)
Definition PrincipalForAPIKey (mid : DB -> DB) (raw : string) : SE DB err Principal :=
  key ← Authenticate mid raw;
  mret (mkPrincipal uuid_Nil (k_TenantID key) "" (k_Scopes key) MethodAPIKey (k_ID key)).
End store.

(** ** The Authorization header *)

Definition schemeBearer : string := "bearer".
Definition schemeAPIKey : string := "apikey".

Definition parseAuthorization `{Unicode} (header : string) : option (string * string) :=
  if decide (header = "") then None
  else match cut_str " " (trim_space header) with   (* SplitN(..., " ", 2) *)
       | None => None
       | Some (s, c) =>
           let scheme := to_lower (trim_space s) in
           let credential := trim_space c in
           if decide (credential = "") then None
           else if decide (scheme = schemeBearer \/ scheme = schemeAPIKey) then Some (scheme, credential)
           else None
       end.

Definition classifyAuthError (e : err) : string :=
  if Is e ErrTokenInvalid then "access_token_invalid"
  else if Is e ErrRefreshUnknown || Is e ErrAPIKeyUnknown then "credential_unknown"
  else if Is e ErrRefreshRevoked || Is e ErrAPIKeyRevoked then "credential_revoked"
  else if Is e ErrRefreshExpired || Is e ErrAPIKeyExpired then "credential_expired"
  else if Is e ErrRefreshReused then "refresh_reused"
  else "internal_error".

(** [Service.PrincipalForAccessToken]; [parse] is the subject [TokenIssuer.Parse] finds. *)
Definition PrincipalForAccessToken (parse : string -> go_result uuid) (raw : string) : go_result Principal :=
  u ← parse raw;
  Ok (mkPrincipal u uuid_Nil "" [] MethodJWT uuid_Nil).

(** [Authenticator.Middleware]: a 401, or the principal put on the context, if any. *)
Definition Middleware `{Unicode} `{TimeJSON} (env : Env) (parse : string -> go_result uuid) (mid : DB -> DB)
    (header : string) : SE DB Problem (option Principal) := fun db =>
  match parseAuthorization header with
  | None => (Ok None, db)
  | Some (scheme, credential) =>
      let '(res, db') := if decide (scheme = schemeBearer) then (PrincipalForAccessToken parse credential, db)
                         else PrincipalForAPIKey env mid credential db in
      match res with
      | Err _ => (Err (mkProblem 401 "unauthorized" "invalid credentials" None), db')
      | Ok p => (Ok (Some p), db')
      end
  end.

Definition RequireAuthentication {A} (principal : option Principal) (next : A) : result Problem A :=
  match principal with
  | None => Err (mkProblem 401 "unauthorized" "authentication required" None)
  | Some _ => Ok next
  end.
