(* ===== verification/ApiKeyProps.v ===== *)
(** * API keys: invariants, histories and the requests they carry

    Reachability is over every interleaving of mints, revocations, uses and changes of
    accounts, in committed transactions. *)

From S2P Require Import Prelude Apperr Encoding Ids Db Authz Tenant ApiKey.
From S2P Require AuditLog RateLimit.

Section machine.
Context `{Unicode} `{UUIDLib} `{TimeJSON}.

Inductive step : DB -> DB -> Prop :=
  | step_mint env t u name scopes exp db res db' : Mint env t u name scopes exp db = (res, db') -> step db db'
  | step_revoke env t u id db res db' : Revoke env t u id db = (res, db') -> step db db'
  | step_touch env hash id db res db' : BeginFunc (touch_key env (presented_key hash) id) db = (res, db') -> step db db'
  | step_account db b : Tenant.step (accounts db) b -> step db (mkDB (api_keys db) b (audit_log db)).

(** The entries of the trail with an action on a key. *)
Definition entries_on (action : string) (id : uuid) (l : list AuditLog.Row) : list AuditLog.Row :=
  filter (fun r => AuditLog.r_Action r = action /\ AuditLog.r_ResourceID r = Some id) l.

Definition revoked_of (db : DB) (id : uuid) : bool :=
  match api_keys db !! id with
  | Some r => bool_decide (is_Some (k_RevokedAt (row_key r)))
  | None => false
  end.

Record DB_wf (db : DB) : Prop := {
  wf_key : forall i r, api_keys db !! i = Some r ->
    k_ID (row_key r) = i /\ ValidateKeyScopes (k_Scopes (row_key r)) = Ok tt /\
    k_TenantID (row_key r) <> uuid_Nil /\
    is_Some (tenants (accounts db) !! k_TenantID (row_key r)) /\
    is_Some (users (accounts db) !! k_CreatedBy (row_key r));
  wf_hash : forall i j r r', api_keys db !! i = Some r -> api_keys db !! j = Some r' -> row_hash r = row_hash r' -> i = j;
  wf_accounts : Tenant.DB_wf (accounts db);
  wf_created : forall i, length (entries_on AuditLog.ActionAPIKeyCreate i (audit_log db)) =
    if bool_decide (is_Some (api_keys db !! i)) then 1%nat else 0%nat;
  wf_revoked : forall i, length (entries_on AuditLog.ActionAPIKeyRevoke i (audit_log db)) =
    if revoked_of db i then 1%nat else 0%nat;
}.

(** What never changes of a key, and its revocation, which is final. *)
Definition frozen (r : KeyRow) :=
  let k := row_key r in
  (k_ID k, k_TenantID k, k_CreatedBy k, k_Name k, k_Prefix k, k_Scopes k, k_CreatedAt k, k_ExpiresAt k, row_hash r).
Definition key_le (r r' : KeyRow) : Prop :=
  frozen r' = frozen r /\ (forall a, k_RevokedAt (row_key r) = Some a -> k_RevokedAt (row_key r') = Some a).

#[export] Instance key_le_preorder : PreOrder key_le.
Proof. split; [by split|]. intros a b c [H2 H3] [H4 H5]. split; [congruence|auto]. Qed.

Record DB_step (db db' : DB) : Prop := {
  ds_wf : DB_wf db';
  ds_keys : forall i r, api_keys db !! i = Some r -> exists r', api_keys db' !! i = Some r' /\ key_le r r';
  ds_audit : exists l, audit_log db' = audit_log db ++ l;
}.

Lemma key_DB_step_refl db : DB_wf db -> DB_step db db.
Proof. intros Hwf. split; [done|intros i r Hr; by exists r|exists []; by rewrite app_nil_r]. Qed.

Lemma key_empty_wf : DB_wf empty_DB.
Proof. split; try (intros *; by rewrite ?lookup_empty). Qed.

Lemma entries_on_app action i l l' : entries_on action i (l ++ l') = entries_on action i l ++ entries_on action i l'.
Proof. apply filter_app. Qed.

Lemma entries_on_one env id e action i :
  length (entries_on action i [AuditLog.row_of env id e]) =
    if decide (AuditLog.e_Action e = action /\ AuditLog.e_ResourceID e = Some i) then 1%nat else 0%nat.
Proof. unfold entries_on. rewrite filter_cons. by repeat case_decide. Qed.

Lemma write_audit_cases env g id e db res db' :
  write_audit env g id e db = (res, db') -> res = Ok tt ->
  db' = set_audit (audit_log db ++ [AuditLog.row_of env id e]) db.
Proof.
  intros Hw ->. apply zoom_Ok in Hw as (u & Hw & ->). apply AuditLog.Write_Ok in Hw as (_ & _ & -> & _). done.
Qed.

Lemma insert_key_Ok env g r db db' : insert_key env g r db = (Ok tt, db') ->
  key_visible g r = true /\ api_keys db !! k_ID (row_key r) = None /\
  (forall i r', api_keys db !! i = Some r' -> row_hash r' <> row_hash r) /\
  is_Some (tenants (accounts db) !! k_TenantID (row_key r)) /\
  is_Some (users (accounts db) !! k_CreatedBy (row_key r)) /\
  db' = set_keys (<[k_ID (row_key r) := r]> (api_keys db)) db.
Proof.
  unfold insert_key. destruct (key_visible g r) eqn:Hv; cbn [negb]; [|done].
  destruct (key_check _ _); cbn [negb]; [|done]. destruct (_ || _) eqn:Hu; [done|].
  destruct (negb _) eqn:Hf; [done|]. intros [= <-]. apply orb_false_iff in Hu as [Hu1 Hu2].
  apply bool_decide_eq_false in Hu1. apply negb_false_iff, andb_true_iff in Hf as [Hf1 Hf2].
  apply bool_decide_eq_true in Hf1, Hf2. split_and!; try done; [by apply eq_None_not_Some|].
  intros i r' Hr' He. unfold has_hash in Hu2. rewrite existsb_false_forall in Hu2.
  specialize (Hu2 (i, r') (proj2 (elem_of_map_to_list _ _ _) Hr')). cbn in Hu2. by apply bool_decide_eq_false in Hu2.
Qed.

(** What a successful mint stored. *)
Lemma Mint_Ok env t u name scopes exp db m db' :
  Mint env t u name scopes exp db = (Ok m, db') ->
  t <> uuid_Nil /\ u <> uuid_Nil /\ ValidateKeyScopes scopes = Ok tt /\
  match exp with Some x => env_time env < x | None => True end /\
  exists secret prefix hash, newAPIKeySecret (env_rand env) = (secret, prefix, hash) /\
    let k := new_key env t u name prefix scopes exp in
    let r := mkKeyRow (stored env k) hash in
    m = mkMinted k secret /\ api_keys db !! k_ID k = None /\
    (forall i r', api_keys db !! i = Some r' -> row_hash r' <> hash) /\
    is_Some (tenants (accounts db) !! t) /\ is_Some (users (accounts db) !! u) /\
    db' = set_audit (audit_log db ++ [AuditLog.row_of env (env_id env 1)
            (key_entry env u AuditLog.ActionAPIKeyCreate t (k_ID k) None (Some (apiKeyAuditImage k)))])
            (set_keys (<[k_ID k := r]> (api_keys db)) db).
Proof.
  unfold Mint. case_decide as Hn; [done|]. destruct (_ || _); [done|].
  destruct (ValidateKeyScopes scopes) as [[]|e] eqn:Hs; [|done].
  destruct (match exp with Some _ => _ | None => _ end) eqn:He; [done|].
  destruct (newAPIKeySecret (env_rand env)) as [[secret prefix] hash] eqn:Hsec. intros Hrun.
  apply SE_bind_inv in Hrun as ([] & s1 & H2 & Hret). injection Hret as <- <-.
  apply WithIdentityTx_Ok, SE_bind_inv in H2 as ([] & s2 & H2 & H3). apply or_fail_Ok in H2.
  apply insert_key_Ok in H2 as (_ & H4 & H5 & H6 & H7 & ->). eapply write_audit_cases in H3; [|done]. subst.
  split_and!; [tauto|tauto|done|destruct exp; [by apply Z.leb_gt|done]|].
  exists secret, prefix, hash. by split_and!.
Qed.

Lemma Mint_Err env t u name scopes exp db e db' : Mint env t u name scopes exp db = (Err e, db') -> db' = db.
Proof.
  unfold Mint. case_decide; [by intros [= _ <-]|]. destruct (_ || _); [by intros [= _ <-]|].
  destruct (ValidateKeyScopes scopes); [|by intros [= _ <-]].
  destruct (match exp with Some _ => _ | None => _ end); [by intros [= _ <-]|].
  destruct (newAPIKeySecret _) as [[secret prefix] hash]. unfold mbind, SE_bind.
  destruct (WithIdentityTx _ _ _) as [[[]|x] s] eqn:Hw; [done|]. intros [= _ <-]. by apply WithIdentityTx_Err in Hw.
Qed.

(** Replacing a key's row by a later one, with what is recorded of it. *)
Lemma replace_row db i r r' l :
  DB_wf db -> api_keys db !! i = Some r -> key_le r r' ->
  (forall j, entries_on AuditLog.ActionAPIKeyCreate j l = []) ->
  (forall j, length (entries_on AuditLog.ActionAPIKeyRevoke j l) =
     if decide (j = i /\ k_RevokedAt (row_key r) = None /\ k_RevokedAt (row_key r') <> None) then 1%nat else 0%nat) ->
  DB_step db (set_audit (audit_log db ++ l) (set_keys (<[i := r']> (api_keys db)) db)).
Proof.
  intros Hwf Hi [Hfr Hrev] Hc Hr. assert (frozen r = frozen r') as Hf by done. unfold frozen in Hf.
  injection Hf as E1 E2 E3 E4 E5 E6 E7 E8 E9.
  assert (forall j x, <[i:=r']> (api_keys db) !! j = Some x -> exists x0, api_keys db !! j = Some x0 /\ frozen x0 = frozen x) as Hold.
  { intros j x [[<- <-]|[_ Hx]]%lookup_insert_Some; [by exists r|by exists x]. }
  split.
  - split; cbn -[entries_on].
    + intros j x Hx. destruct (Hold _ _ Hx) as (x0 & Hx0 & Hfx). apply (wf_key _ Hwf) in Hx0.
      unfold frozen in Hfx. injection Hfx as ? ? ? ? ? ? ? ? ?. by simplify_eq/=; intuition congruence.
    + intros j j' x x' Hx Hx' Heq. destruct (Hold _ _ Hx) as (x0 & Hx0 & Hfx), (Hold _ _ Hx') as (x1 & Hx1 & Hfx').
      apply (wf_hash _ Hwf _ _ _ _ Hx0 Hx1). unfold frozen in *. congruence.
    + apply (wf_accounts _ Hwf).
    + intros j. rewrite entries_on_app, Hc, app_nil_r, (wf_created _ Hwf). destruct (decide (j = i)) as [->|Hne].
      * by rewrite Hi, lookup_insert_eq.
      * by rewrite lookup_insert_ne by congruence.
    + intros j. rewrite entries_on_app, length_app, Hr, (wf_revoked _ Hwf). unfold revoked_of. cbn.
      destruct (decide (j = i)) as [->|Hne].
      * rewrite Hi, lookup_insert_eq. destruct (k_RevokedAt (row_key r)) as [a|] eqn:Ha.
        -- rewrite (Hrev a) by done. cbn. by rewrite decide_False by naive_solver.
        -- destruct (k_RevokedAt (row_key r')); case_decide; naive_solver.
      * rewrite lookup_insert_ne by congruence. case_decide; [tauto|]. lia.
  - intros j x Hx. cbn. destruct (decide (j = i)) as [->|Hne].
    + rewrite lookup_insert_eq. exists r'. split; [done|]. rewrite Hi in Hx. injection Hx as <-. by split.
    + exists x. rewrite lookup_insert_ne by congruence. by split.
  - by eexists.
Qed.

Lemma set_same_audit db : set_audit (audit_log db ++ []) db = db.
Proof. destruct db. unfold set_audit. cbn. by rewrite app_nil_r. Qed.

Lemma touch_step env hash id db res db' :
  DB_wf db -> BeginFunc (touch_key env (presented_key hash) id) db = (res, db') -> DB_step db db'.
Proof.
  intros Hwf Hrun. destruct res as [at_|e]; [|apply BeginFunc_Err in Hrun as ->; by apply key_DB_step_refl].
  rewrite BeginFunc_Ok in Hrun. unfold touch_key in Hrun. destruct (api_keys db !! id) as [r|] eqn:Hr; [|done].
  destruct (key_visible _ r); [|done]. injection Hrun as _ <-.
  rewrite <- (set_same_audit (set_keys _ db)). cbn [audit_log set_keys].
  apply (replace_row db id r (touch (env_now env) r) []); [done|done|split; [reflexivity|intros a Ha; exact Ha]|intros j; reflexivity|].
  intros j. cbn. case_decide; [|done]. by destruct (k_RevokedAt (row_key r)); naive_solver.
Qed.

Lemma Mint_step env t u name scopes exp db res db' :
  DB_wf db -> Mint env t u name scopes exp db = (res, db') -> DB_step db db'.
Proof.
  intros Hwf Hrun. destruct res as [m|e]; [|apply Mint_Err in Hrun as ->; by apply key_DB_step_refl].
  apply Mint_Ok in Hrun as (Ht & Hu & Hs & _ & secret & prefix & hash & _ & _ & Hnone & Hh & Hten & Husr & ->).
  set (k := new_key env t u name prefix scopes exp) in *.
  assert (k_TenantID k = t /\ k_CreatedBy k = u /\ k_Scopes k = scopes /\ k_RevokedAt k = None) as (Kt & Ku & Ks & Kr) by done.
  clearbody k. subst t u scopes.
  split.
  - split; cbn -[entries_on].
    + intros j x [[<- <-]|[_ Hx]]%lookup_insert_Some; [by split_and!|by apply (wf_key _ Hwf)].
    + intros j j' x x' [[<- <-]|[_ Hx]]%lookup_insert_Some [[<- <-]|[_ Hx']]%lookup_insert_Some Heq; try done.
      * by destruct (Hh _ _ Hx').
      * by destruct (Hh _ _ Hx).
      * by apply (wf_hash _ Hwf _ _ _ _ Hx Hx').
    + apply (wf_accounts _ Hwf).
    + intros j. rewrite entries_on_app, length_app, (wf_created _ Hwf), entries_on_one. cbn -[entries_on].
      destruct (decide (j = k_ID k)) as [->|Hne].
      * rewrite lookup_insert_eq, Hnone. by rewrite decide_True by done.
      * rewrite lookup_insert_ne by congruence. rewrite decide_False by naive_solver. lia.
    + intros j. rewrite entries_on_app, length_app, (wf_revoked _ Hwf), entries_on_one. cbn -[entries_on].
      rewrite decide_False by naive_solver. unfold revoked_of. cbn -[entries_on].
      destruct (decide (j = k_ID k)) as [->|Hne]; [by rewrite lookup_insert_eq, Hnone; cbn; rewrite Kr|].
      rewrite lookup_insert_ne by congruence. lia.
  - intros j x Hx. exists x. cbn -[entries_on]. rewrite lookup_insert_ne by congruence. by split.
  - by eexists.
Qed.


Lemma find_key_Some g t id db r : find_key g t id db = Some r ->
  api_keys db !! id = Some r /\ key_visible g r = true /\ k_TenantID (row_key r) = t.
Proof.
  unfold find_key. destruct (api_keys db !! id) as [r'|]; [cbn|done].
  destruct (key_visible g r' && _) eqn:Hv; [|done]. intros [= ->].
  apply andb_true_iff in Hv as [? ?%bool_decide_eq_true]. done.
Qed.

Lemma find_key_own g t id db r :
  SettingTenantID g = Some t -> api_keys db !! id = Some r -> k_TenantID (row_key r) = t -> find_key g t id db = Some r.
Proof.
  intros Hg Hr Ht. unfold find_key. rewrite Hr. cbn. unfold key_visible, tenant_is.
  rewrite Ht, (bool_decide_eq_true_2 _ Hg). cbn. by rewrite bool_decide_eq_true_2.
Qed.

Definition revoke_entry (env : Env) (u : uuid) (r : KeyRow) : AuditLog.Row :=
  let k := row_key (revoke (env_now env) r) in
  AuditLog.row_of env (env_id env 0)
    (key_entry env u AuditLog.ActionAPIKeyRevoke (k_TenantID k) (k_ID k)
       (Some (apiKeyAuditImage (unrevoked k))) (Some (apiKeyAuditImage k))).

Lemma Revoke_cases env t u id db res db' :
  DB_wf db -> Revoke env t u id db = (res, db') ->
  (exists e, res = Err e /\ db' = db) \/
  (res = Ok tt /\ exists r, api_keys db !! id = Some r /\ k_TenantID (row_key r) = t /\
     ((is_Some (k_RevokedAt (row_key r)) /\ db' = db) \/
      (k_RevokedAt (row_key r) = None /\
       db' = set_audit (audit_log db ++ [revoke_entry env u r])
               (set_keys (<[id := revoke (env_now env) r]> (api_keys db)) db)))).
Proof.
  intros Hwf Hrun. destruct res as [[]|e].
  2:{ left. exists e. split; [done|]. unfold Revoke in Hrun. case_decide; [by injection Hrun as _ <-|].
      by apply WithIdentityTx_Err in Hrun. }
  right. split; [done|]. unfold Revoke in Hrun. case_decide as Hn; [done|]. apply WithIdentityTx_Ok in Hrun.
  destruct (find_key _ _ _ db) as [r|] eqn:Hf; [|done]. apply find_key_Some in Hf as (Hr & Hv & Ht).
  exists r. split_and!; [done|done|]. destruct (k_RevokedAt (row_key r)) as [a|] eqn:Ha.
  { left. injection Hrun as <-. by split. }
  right. split; [done|]. apply SE_bind_inv in Hrun as (after & s1 & H2 & H3).
  apply or_fail_Ok in H2. unfold loadKey in H2.
  rewrite (find_key_own _ _ _ _ (revoke (env_now env) r)) in H2; [|cbn; unfold set_unless_nil; rewrite decide_False by tauto; done
    |cbn; by rewrite lookup_insert_eq|done].
  injection H2 as <- <-. eapply write_audit_cases in H3; [|done]. subst db'. cbn. unfold revoke_entry. cbn.
  apply (wf_key _ Hwf) in Hr as (Hid & _). by rewrite Hid, Ht.
Qed.

Lemma Revoke_step env t u id db res db' : DB_wf db -> Revoke env t u id db = (res, db') -> DB_step db db'.
Proof.
  intros Hwf Hrun. destruct (Revoke_cases _ _ _ _ _ _ _ Hwf Hrun) as [(e & _ & ->)|(_ & r & Hr & Ht & [[_ ->]|[Ha ->]])];
    [by apply key_DB_step_refl|by apply key_DB_step_refl|].
  pose proof (wf_key _ Hwf _ _ Hr) as (Hid & _).
  apply (replace_row db id r); [done|done|split; [done|intros a; by rewrite Ha]|..].
  - intros j. unfold entries_on. rewrite filter_cons_False; [done|]. intros [? _]. done.
  - intros j. unfold revoke_entry. rewrite entries_on_one. cbn. rewrite Hid, Ha. repeat case_decide; naive_solver.
Qed.

Lemma account_step db b : DB_wf db -> Tenant.step (accounts db) b -> DB_step db (mkDB (api_keys db) b (audit_log db)).
Proof.
  intros [K1 K2 K3 K4 K5] Hst. destruct (Tenant.step_wf _ _ Hst K3) as (Hb & Ht & Hu & _).
  split; [split|intros i r Hr; by exists r|exists []; by rewrite app_nil_r]; try done.
  intros i r Hr. destruct (K1 _ _ Hr) as (? & ? & ? & [? ?] & [? ?]).
  split_and!; try done; eexists; by eapply lookup_weaken.
Qed.

Lemma key_step_DB_step db db' : step db db' -> DB_wf db -> DB_step db db'.
Proof.
  destruct 1; intros Hwf; [by eapply Mint_step|by eapply Revoke_step|by eapply touch_step|by apply account_step].
Qed.

Lemma key_DB_step_trans a b c : DB_step a b -> DB_step b c -> DB_step a c.
Proof.
  intros [H2 H3 [l H4]] [H5 H6 [l' H7]]. split; [done| |exists (l ++ l'); by rewrite H7, H4, app_assoc].
  intros i r Hr. destruct (H3 _ _ Hr) as (r' & Hr' & Hle). destruct (H6 _ _ Hr') as (r'' & Hr'' & Hle').
  exists r''. split; [done|]. by etrans.
Qed.

Lemma key_steps_DB_step db db' : rtc step db db' -> DB_wf db -> DB_step db db'.
Proof.
  induction 1 as [|a b c Hab _ IH]; intros Hwf; [by apply key_DB_step_refl|].
  pose proof (key_step_DB_step _ _ Hab Hwf) as Hd. eapply key_DB_step_trans; [exact Hd|]. apply IH, (ds_wf _ _ Hd).
Qed.

Lemma key_reachable_wf db : rtc step empty_DB db -> DB_wf db.
Proof. intros Hr. apply (ds_wf _ _ (key_steps_DB_step _ _ Hr key_empty_wf)). Qed.

(** The row of a hash. *)
Lemma find_by_hash_spec hash db :
  DB_wf db ->
  (forall r, find_by_hash (presented_key hash) hash db = Some r <->
     (exists i, api_keys db !! i = Some r /\ row_hash r = hash)).
Proof.
  intros Hwf r. unfold find_by_hash.
  assert (forall kr, kr ∈ filter (fun kr : uuid * KeyRow => row_hash kr.2 = hash /\ key_visible (presented_key hash) kr.2 = true)
            (map_to_list (api_keys db)) <-> api_keys db !! kr.1 = Some kr.2 /\ row_hash kr.2 = hash) as Hin.
  { intros [i x]. rewrite list_elem_of_filter, elem_of_map_to_list. cbn. split; [tauto|]. intros [? <-].
    split_and!; try done. unfold key_visible. cbn. by rewrite bool_decide_eq_true_2, orb_true_r. }
  destruct (filter _ _) as [|kr l] eqn:Hf.
  - split; [done|]. intros (i & Hi & Hh). destruct (not_elem_of_nil (i, r)). by apply Hin.
  - destruct (proj1 (Hin kr) ltac:(left)) as [H2 H3]. split.
    + intros [= <-]. by exists kr.1.
    + intros (i & Hi & Hh). assert (i = kr.1) as -> by (apply (wf_hash _ Hwf _ _ _ _ Hi H2); congruence). congruence.
Qed.


(** ** Properties *)

Definition alive (now : gotime) (r : KeyRow) : Prop :=
  match k_ExpiresAt (row_key r) with Some t => now < t | None => True end.

Lemma alive_test now r :
  match k_ExpiresAt (row_key r) with Some t => t <=? now | None => false end = false <-> alive now r.
Proof. unfold alive. destruct (k_ExpiresAt _); [|done]. rewrite Z.leb_gt. lia. Qed.

(** What a presented key finds, and what its use leaves. *)
Lemma Authenticate_row env mid p db i r :
  DB_wf db -> DB_step db (mid db) -> p <> "" -> api_keys db !! i = Some r -> row_hash r = HashAPIKey p ->
  Authenticate env mid p db =
    if bool_decide (is_Some (k_RevokedAt (row_key r))) then (Err (Sentinel ErrAPIKeyRevoked), db)
    else if match k_ExpiresAt (row_key r) with Some t => t <=? env_time env | None => false end
    then (Err (Sentinel ErrAPIKeyExpired), db)
    else (Ok (row_key (touch (env_now env) r)),
          match api_keys (mid db) !! i with
          | Some r' => set_keys (<[i := touch (env_now env) r']> (api_keys (mid db))) (mid db)
          | None => mid db
          end).
Proof.
  intros Hwf Hd Hp Hi Hh. unfold Authenticate. rewrite decide_False by done.
  assert (find_by_hash (presented_key (HashAPIKey p)) (HashAPIKey p) db = Some r) as Hf
    by (apply find_by_hash_spec; [done|by exists i]).
  rewrite Hf. destruct (bool_decide _); [done|].
  destruct (match k_ExpiresAt _ with Some _ => _ | None => _ end); [done|].
  pose proof (wf_key _ Hwf _ _ Hi) as (-> & _). destruct (ds_keys _ _ Hd _ _ Hi) as (r' & Hr' & Hfr & _).
  unfold BeginFunc, touch_key. rewrite Hr'.
  assert (key_visible (presented_key (HashAPIKey p)) r' = true) as ->; [|done].
  unfold key_visible. cbn. rewrite (bool_decide_eq_true_2 (Some _ = Some _)); [by rewrite orb_true_r|].
  unfold frozen in Hfr. congruence.
Qed.

Lemma Authenticate_none env mid p db :
  DB_wf db -> p <> "" -> (forall i r, api_keys db !! i = Some r -> row_hash r <> HashAPIKey p) ->
  Authenticate env mid p db = (Err (Sentinel ErrAPIKeyUnknown), db).
Proof.
  intros Hwf Hp Hn. unfold Authenticate. rewrite decide_False by done.
  destruct (find_by_hash _ _ db) as [r|] eqn:Hf; [|done].
  apply find_by_hash_spec in Hf as (i & Hi & Hh); [|done]. by destruct (Hn _ _ Hi).
Qed.

(** The tables, searched by hash. *)
Lemma hash_row hash db :
  (exists i r, api_keys db !! i = Some r /\ row_hash r = hash) \/
  (forall i r, api_keys db !! i = Some r -> row_hash r <> hash).
Proof.
  destruct (decide (Exists (fun kr => row_hash kr.2 = hash) (map_to_list (api_keys db)))) as [He|He].
  - left. apply Exists_exists in He as ([i r] & Hin%elem_of_map_to_list & Hh). by exists i, r.
  - right. intros i r Hi Hh. apply He, Exists_exists. exists (i, r). by rewrite elem_of_map_to_list.
Qed.

(** Authenticating with a key, whatever else is committed meanwhile, succeeds exactly
    when a key with that secret's hash is stored, not revoked and not expired; the caller
    becomes that key, with the tenant and the scopes it was minted with; every failure
    says why, and to the log only. *)
Theorem key_authenticates_exactly env mid presented db :
  rtc step empty_DB db -> rtc step db (mid db) -> presented <> "" ->
  match (Authenticate env mid presented db).1 with
  | Ok k => exists r, api_keys db !! k_ID k = Some r /\ row_hash r = HashAPIKey presented /\
              k_RevokedAt (row_key r) = None /\ alive (env_time env) r /\ k = row_key (touch (env_now env) r)
  | Err e =>
      (e = Sentinel ErrAPIKeyUnknown /\ forall i r, api_keys db !! i = Some r -> row_hash r <> HashAPIKey presented) \/
      exists i r, api_keys db !! i = Some r /\ row_hash r = HashAPIKey presented /\
        ((e = Sentinel ErrAPIKeyRevoked /\ is_Some (k_RevokedAt (row_key r))) \/
         (e = Sentinel ErrAPIKeyExpired /\ k_RevokedAt (row_key r) = None /\ ~ alive (env_time env) r))
  end.
Proof.
  intros Hr Hmid Hp. pose proof (key_reachable_wf _ Hr) as Hwf. pose proof (key_steps_DB_step _ _ Hmid Hwf) as Hd.
  destruct (hash_row (HashAPIKey presented) db) as [(i & r & Hi & Hh)|Hn].
  2:{ rewrite Authenticate_none by done. left. by split. }
  rewrite (Authenticate_row _ _ _ _ i r) by done. case_bool_decide as Hrev; cbn.
  { right. exists i, r. split_and!; [done|done|]. by left. }
  apply eq_None_not_Some in Hrev.
  destruct (match k_ExpiresAt _ with Some _ => _ | None => _ end) eqn:He; cbn.
  - right. exists i, r. split_and!; [done|done|]. right. split_and!; [done|done|]. rewrite <- alive_test. congruence.
  - exists r. apply alive_test in He. pose proof (wf_key _ Hwf _ _ Hi) as (-> & _). by split_and!.
Qed.

(** C18: A revoked key is dead: once [Revoke] has succeeded, its secret is refused as
    revoked at every later time, and nothing changes. *)
Theorem revoked_key_is_dead env t u id db db1 db2 r env2 mid presented :
  rtc step empty_DB db -> Revoke env t u id db = (Ok tt, db1) -> rtc step db1 db2 -> rtc step db2 (mid db2) ->
  api_keys db !! id = Some r -> row_hash r = HashAPIKey presented -> presented <> "" ->
  Authenticate env2 mid presented db2 = (Err (Sentinel ErrAPIKeyRevoked), db2).
Proof.
  intros Hr Hrev Hl Hmid Hi Hh Hp. pose proof (key_reachable_wf _ Hr) as Hwf.
  pose proof (Revoke_step _ _ _ _ _ _ _ Hwf Hrev) as Hd1.
  pose proof (key_steps_DB_step _ _ Hl (ds_wf _ _ Hd1)) as Hd2.
  pose proof (key_steps_DB_step _ _ Hmid (ds_wf _ _ Hd2)) as Hd3.
  assert (exists r1, api_keys db1 !! id = Some r1 /\ row_hash r1 = row_hash r /\ is_Some (k_RevokedAt (row_key r1)))
    as (r1 & Hr1 & Hh1 & [a Ha]).
  { destruct (Revoke_cases _ _ _ _ _ _ _ Hwf Hrev) as [(e & ? & _)|(_ & r' & Hr' & _ & [[Hs ->]|[_ ->]])]; [done|..].
    - exists r. split_and!; [done|done|]. congruence.
    - exists (revoke (env_now env) r'). cbn. rewrite lookup_insert_eq. split_and!; [done|cbn; congruence|by eexists]. }
  destruct (ds_keys _ _ Hd2 _ _ Hr1) as (r2 & Hr2 & Hf2 & Hrv2).
  rewrite (Authenticate_row _ _ _ _ id r2); [|apply (ds_wf _ _ Hd2)|done|done|done|unfold frozen in Hf2; congruence].
  by rewrite (Hrv2 _ Ha).
Qed.


(** The secret a mint returns is the key: whatever happens later, as long as the key is
    neither revoked nor expired, presenting it makes the caller a machine of that tenant
    with exactly the scopes asked for. *)
Theorem minted_key_works env t u name scopes exp db m db1 db2 env2 mid :
  rtc step empty_DB db -> Mint env t u name scopes exp db = (Ok m, db1) ->
  rtc step db1 db2 -> rtc step db2 (mid db2) ->
  (forall r, api_keys db2 !! k_ID (m_Key m) = Some r -> k_RevokedAt (row_key r) = None) ->
  match exp with Some x => env_time env2 < x | None => True end ->
  exists db3, PrincipalForAPIKey env2 mid (m_Secret m) db2
    = (Ok (mkPrincipal uuid_Nil t "" scopes MethodAPIKey (k_ID (m_Key m))), db3).
Proof.
  intros Hr Hmint Hl Hmid Hlive Hexp. pose proof (key_reachable_wf _ Hr) as Hwf.
  pose proof (Mint_step _ _ _ _ _ _ _ _ _ Hwf Hmint) as Hd1.
  pose proof (key_steps_DB_step _ _ Hl (ds_wf _ _ Hd1)) as Hd2.
  pose proof (key_steps_DB_step _ _ Hmid (ds_wf _ _ Hd2)) as Hd3.
  apply Mint_Ok in Hmint as (_ & _ & _ & _ & secret & prefix & hash & Hsec & -> & _ & _ & _ & _ & ->).
  cbn [m_Key m_Secret k_ID new_key] in *.
  destruct (ds_keys _ _ Hd2 (env_id env 0) (mkKeyRow (stored env (new_key env t u name prefix scopes exp)) hash))
    as (r & Hi & Hf & _); [cbn; by rewrite lookup_insert_eq|].
  unfold frozen in Hf. cbn in Hf. injection Hf as E1 E2 E3 E4 E5 E6 E7 E8 E9.
  unfold newAPIKeySecret in Hsec. injection Hsec as Hs1 _ Hs3.
  assert (secret <> "") as Hne by (by rewrite <- Hs1).
  unfold PrincipalForAPIKey, mbind, SE_bind.
  rewrite (Authenticate_row _ _ _ _ (env_id env 0) r); [|apply (ds_wf _ _ Hd2)|done|done|done|congruence].
  rewrite (Hlive _ Hi), E8. cbn [bool_decide]. rewrite bool_decide_eq_false_2 by (by intros []).
  assert (match exp with Some x => x <=? env_time env2 | None => false end = false) as ->
    by (destruct exp; [by apply Z.leb_gt|done]).
  cbn. rewrite E1, E2, E6. by eexists.
Qed.

(** C6: A key's request stays inside the key. A request that reaches a tenant's handler with
    an ApiKey header carries a secret whose hash is stored, for a key that was neither
    revoked nor expired when it was presented; the path names that key's tenant, which
    exists; and the route's permission is one of the key's scopes, never one a key may
    not hold. *)
Theorem key_request_confined env parse mid header db p db1 perm path tables a s :
  rtc step empty_DB db -> rtc step db (mid db) ->
  Middleware env parse mid header db = (Ok (Some p), db1) -> Method p = MethodAPIKey ->
  guarded_route perm (Some p) path tables = (Ok a, s) ->
  exists credential r,
    parseAuthorization header = Some (schemeAPIKey, credential) /\
    api_keys db !! keyID a = Some r /\ row_hash r = HashAPIKey credential /\
    k_RevokedAt (row_key r) = None /\ alive (env_time env) r /\
    uuid_Parse path = Some (scope a) /\ (scope a : uuid) = k_TenantID (row_key r) /\
    is_Some (tenants (accounts db) !! (scope a : uuid)) /\
    perm ∈ k_Scopes (row_key r) /\ KeyForbiddenReason perm = None.
Proof.
  intros Hr Hmid Hmw Hm Hroute. pose proof (key_reachable_wf _ Hr) as Hwf.
  pose proof (key_steps_DB_step _ _ Hmid Hwf) as Hd.
  unfold Middleware in Hmw. destruct (parseAuthorization header) as [[scheme credential]|] eqn:Hpa; [|done].
  assert (credential <> "" /\ (scheme = schemeBearer \/ scheme = schemeAPIKey)) as [Hc Hsch].
  { unfold parseAuthorization in Hpa. repeat case_match; simplify_eq; intuition. }
  case_decide as Hb.
  { unfold PrincipalForAccessToken, mbind, result_bind in Hmw. destruct (parse credential); [|done].
    injection Hmw as <- _. done. }
  unfold PrincipalForAPIKey, mbind, SE_bind in Hmw.
  destruct (hash_row (HashAPIKey credential) db) as [(i & r & Hi & Hh)|Hn].
  2:{ by rewrite Authenticate_none in Hmw. }
  rewrite (Authenticate_row _ _ _ _ i r) in Hmw by done. case_bool_decide as Hrev; [done|].
  destruct (match k_ExpiresAt _ with Some _ => _ | None => _ end) eqn:He; [done|].
  cbn in Hmw. injection Hmw as <- _. apply alive_test in He. apply eq_None_not_Some in Hrev.
  pose proof (wf_key _ Hwf _ _ Hi) as (Hid & Hsc & Hnil & Hten & _).
  unfold guarded_route in Hroute. apply SE_bind_inv in Hroute as ([a' p'] & s1 & H2 & H3).
  apply lift_Ok in H3 as [H3 ->]. cbn in H3. unfold Require_ in H3.
  destruct (Allows p' perm) eqn:Hal; cbn [negb] in H3; [|done]. apply Ok_inj in H3 as ->.
  unfold ResolveTenant in H2. destruct (uuid_Parse path) as [tid|]; [|done].
  rewrite decide_True in H2 by done. cbn in H2. case_decide as Ht; [|done].
  unfold NewScope in H2. case_decide as Hz; [done|]. unfold NewMachineAuthorized in H2.
  destruct (negb _); [done|]. case_decide as Hk; [done|]. injection H2 as <- <- _. cbn.
  apply (Allows_key _ _ Hm) in Hal. cbn in Hal. apply ValidateKeyScopes_Ok in Hsc as (_ & _ & Hg).
  exists credential, r. rewrite Hid, <- Ht. split_and!; try done.
  - destruct Hsch as [->| ->]; [done|congruence].
  - by apply Hg, list_elem_of_filter in Hal as [? _].
Qed.

(** C17: The life of a key: once minted it is never lost; its tenant, author, name, scopes,
    expiry and secret never change; its revocation is final; and the trail holds exactly
    one entry for its creation and one for its revocation, never more and never fewer. *)
Theorem key_history db db' :
  rtc step empty_DB db -> rtc step db db' ->
  (forall i r, api_keys db !! i = Some r ->
     exists r', api_keys db' !! i = Some r' /\ frozen r' = frozen r /\
       (forall x, k_RevokedAt (row_key r) = Some x -> k_RevokedAt (row_key r') = Some x)) /\
  (forall i, length (entries_on AuditLog.ActionAPIKeyCreate i (audit_log db')) =
       if bool_decide (is_Some (api_keys db' !! i)) then 1%nat else 0%nat) /\
  (forall i, length (entries_on AuditLog.ActionAPIKeyRevoke i (audit_log db')) =
       if revoked_of db' i then 1%nat else 0%nat).
Proof.
  intros Hr Hl. pose proof (key_steps_DB_step _ _ Hl (key_reachable_wf _ Hr)) as [Hwf Hk _].
  split_and!; [exact Hk|apply (wf_created _ Hwf)|apply (wf_revoked _ Hwf)].
Qed.

(** Revoking: a key of the caller's tenant is revoked with one entry of the trail, and
    again with none; a key of another tenant, or no key, is not found; every failure
    changes nothing. *)
Theorem Revoke_effect env t u id db res db' :
  rtc step empty_DB db -> Revoke env t u id db = (res, db') ->
  match res with
  | Ok _ => exists r, api_keys db !! id = Some r /\ k_TenantID (row_key r) = t /\
      ((is_Some (k_RevokedAt (row_key r)) /\ db' = db) \/
       (k_RevokedAt (row_key r) = None /\
        db' = set_audit (audit_log db ++ [revoke_entry env u r])
                (set_keys (<[id := revoke (env_now env) r]> (api_keys db)) db)))
  | Err e => db' = db
  end /\
  (t <> uuid_Nil -> u <> uuid_Nil -> id <> uuid_Nil ->
   (forall r, api_keys db !! id = Some r -> k_TenantID (row_key r) <> t) ->
   res = Err (Wrapf "revoke api key: not found" (Sentinel ErrNotFound))).
Proof.
  intros Hr Hrun. pose proof (key_reachable_wf _ Hr) as Hwf. split.
  - destruct (Revoke_cases _ _ _ _ _ _ _ Hwf Hrun) as [(e & -> & ->)|(-> & r & Hi & Ht & Hc)]; [done|].
    exists r. by split_and!.
  - intros Ht Hu Hid Hn. unfold Revoke in Hrun. rewrite decide_False in Hrun by tauto.
    rewrite WithIdentityTx_run in Hrun by (unfold Identity_Valid; cbn; by rewrite bool_decide_eq_true_2).
    unfold BeginFunc in Hrun. destruct (find_key _ _ _ db) as [r|] eqn:Hf; [|by injection Hrun as <- _].
    apply find_key_Some in Hf as (Hi & _ & Hten). by destruct (Hn _ Hi).
Qed.


(** On the routes before a tenant is chosen ([/v1/me], [/v1/tenants]) every key of every
    tenant is charged to one bucket: a key's principal names no user, so the limiter
    keys it by the nil identifier. *)
Theorem keys_share_a_bucket env mid raw db p db1 env' mid' raw' db' p' db1' ip ip' :
  PrincipalForAPIKey env mid raw db = (Ok p, db1) -> PrincipalForAPIKey env' mid' raw' db' = (Ok p', db1') ->
  RateLimit.principal_bucket None (Some p) ip = RateLimit.principal_bucket None (Some p') ip'.
Proof.
  assert (forall e m r d q d', PrincipalForAPIKey e m r d = (Ok q, d') -> Authz.UserID q = uuid_Nil) as Hnil.
  { intros e m r d q d' Hq. unfold PrincipalForAPIKey in Hq. apply SE_bind_inv in Hq as (k & s & _ & Hq).
    by injection Hq as <- _. }
  intros Hp%Hnil Hp'%Hnil. unfold RateLimit.principal_bucket. by rewrite Hp, Hp'.
Qed.

End machine.

(** ** Witnesses *)

Module ApiKeyDemo.
#[local] Existing Instance DemoUnicode.
#[local] Existing Instance DemoUUID.lib.
#[local] Instance demo_time : TimeJSON := {| time_json t := JNum t |}.

Definition env_at (t : Z) (n : nat) : Env :=
  mkEnv t t (fun i => N.of_nat (n + i)) (fun i => N.of_nat (500 + n + i)) (fun i => Z.of_nat (i + n)) "req-1".
Definition quiet (db : DB) : DB := db.

Definition acme : Tenant.Tenant := mkTenant 5%N "acme" "Acme" 0.
Definition ada : User := mkUser 11%N "Ada@Example.com" "argon2id-hash" 0.
Definition db0 : DB := mkDB ∅ (CreateTenantWithOwner (env_at 100 50) acme ada RoleOwner Tenant.empty_DB).2 [].
Definition scopes : list Perm := [PermInvoiceRead; PermProjectWrite].
Definition mint := Mint (env_at 200 60) 5%N 11%N "ci" scopes (Some 900) db0.
Definition db1 : DB := Eval vm_compute in mint.2.
Definition minted : MintedAPIKey := Eval vm_compute in
  match mint.1 with Ok m => m | Err _ => mkMinted (mkAPIKey 0%N 0%N 0%N "" "" [] 0 None None None) "" end.
Definition db2 : DB := Eval vm_compute in (Revoke (env_at 300 70) 5%N 11%N 60%N db1).2.
Definition the_row : KeyRow := Eval vm_compute in default (mkKeyRow (m_Key minted) "") (api_keys db1 !! 60%N).

Lemma key_run0 : rtc step empty_DB db0.
Proof.
  apply rtc_once. apply (step_account empty_DB).
  apply (step_register (env_at 100 50) acme ada RoleOwner (Ok tt)). vm_compute. reflexivity.
Qed.
Lemma minted_ok : Mint (env_at 200 60) 5%N 11%N "ci" scopes (Some 900) db0 = (Ok minted, db1).
Proof. vm_compute. reflexivity. Qed.
Lemma key_run1 : rtc step empty_DB db1.
Proof. etrans; [apply key_run0|]. apply rtc_once. eapply step_mint, minted_ok. Qed.
Lemma revoked_ok : Revoke (env_at 300 70) 5%N 11%N 60%N db1 = (Ok tt, db2).
Proof. vm_compute. reflexivity. Qed.
Lemma key_row1 : api_keys db1 !! 60%N = Some the_row.
Proof. vm_compute. reflexivity. Qed.
Lemma key_hash1 : row_hash the_row = HashAPIKey (m_Secret minted).
Proof. vm_compute. reflexivity. Qed.

Lemma key_authenticates_exactly_witness :
  match (Authenticate (env_at 400 80) quiet (m_Secret minted) db1).1 with
  | Ok k => exists r, api_keys db1 !! k_ID k = Some r /\ row_hash r = HashAPIKey (m_Secret minted) /\
              k_RevokedAt (row_key r) = None /\ alive 400 r /\ k = row_key (touch 400 r)
  | Err e =>
      (e = Sentinel ErrAPIKeyUnknown /\ forall i r, api_keys db1 !! i = Some r -> row_hash r <> HashAPIKey (m_Secret minted)) \/
      exists i r, api_keys db1 !! i = Some r /\ row_hash r = HashAPIKey (m_Secret minted) /\
        ((e = Sentinel ErrAPIKeyRevoked /\ is_Some (k_RevokedAt (row_key r))) \/
         (e = Sentinel ErrAPIKeyExpired /\ k_RevokedAt (row_key r) = None /\ ~ alive 400 r))
  end.
Proof.
  apply (key_authenticates_exactly (env_at 400 80) quiet); [apply key_run1|apply rtc_refl|].
  by apply String.eqb_neq.
Defined.

Lemma revoked_key_is_dead_witness :
  Authenticate (env_at 400 80) quiet (m_Secret minted) db2 = (Err (Sentinel ErrAPIKeyRevoked), db2).
Proof.
  apply (revoked_key_is_dead (env_at 300 70) 5%N 11%N 60%N db1 db2 db2 the_row);
    [apply key_run1|apply revoked_ok|apply rtc_refl|apply rtc_refl|apply key_row1|apply key_hash1|by apply String.eqb_neq].
Defined.

Lemma minted_key_works_witness :
  exists db3, PrincipalForAPIKey (env_at 400 80) quiet (m_Secret minted) db1
    = (Ok (mkPrincipal uuid_Nil 5%N "" scopes MethodAPIKey 60%N), db3).
Proof.
  apply (minted_key_works (env_at 200 60) 5%N 11%N "ci" scopes (Some 900) db0 minted db1 db1 (env_at 400 80) quiet);
    [apply key_run0|apply minted_ok|apply rtc_refl|apply rtc_refl| |reflexivity].
  intros r Hr. assert (Some the_row = Some r) as Heq by (by rewrite <- key_row1).
  by apply (inj Some) in Heq as <-.
Defined.

Definition header : string := "ApiKey " +:+ m_Secret minted.
Definition used : Principal := mkPrincipal uuid_Nil 5%N "" scopes MethodAPIKey 60%N.
Definition key_auth : Authorized := mkAuthorized 5%N KindMachine 0%N "" 60%N.

Lemma key_request_confined_witness :
  exists credential r,
    parseAuthorization header = Some (schemeAPIKey, credential) /\
    api_keys db1 !! 60%N = Some r /\ row_hash r = HashAPIKey credential /\
    k_RevokedAt (row_key r) = None /\ alive 400 r /\
    uuid_Parse "5" = Some 5%N /\ 5%N = k_TenantID (row_key r) /\
    is_Some (tenants (accounts db1) !! 5%N) /\
    PermInvoiceRead ∈ k_Scopes (row_key r) /\ KeyForbiddenReason PermInvoiceRead = None.
Proof.
  apply (key_request_confined (env_at 400 80) (fun _ => Err (Sentinel ErrTokenInvalid)) quiet header db1 used
    (Middleware (env_at 400 80) (fun _ => Err (Sentinel ErrTokenInvalid)) quiet header db1).2
    PermInvoiceRead "5" (accounts db1) key_auth (accounts db1));
    [apply key_run1|apply rtc_refl|vm_compute; reflexivity|reflexivity|vm_compute; reflexivity].
Defined.

Lemma key_history_witness :
  length (entries_on AuditLog.ActionAPIKeyRevoke 60%N (audit_log db2)) = if revoked_of db2 60%N then 1%nat else 0%nat.
Proof.
  apply (key_history db1 db2); [apply key_run1|]. apply rtc_once. eapply step_revoke, revoked_ok.
Defined.

Lemma Revoke_effect_witness :
  fst (Revoke (env_at 300 70) 6%N 11%N 60%N db1) = Err (Wrapf "revoke api key: not found" (Sentinel ErrNotFound)).
Proof.
  apply (Revoke_effect (env_at 300 70) 6%N 11%N 60%N db1 _ (Revoke (env_at 300 70) 6%N 11%N 60%N db1).2
    key_run1 ltac:(apply surjective_pairing)); try done.
  intros r Hr. assert (Some the_row = Some r) as Heq by (by rewrite <- key_row1).
  apply (inj Some) in Heq as <-. by vm_compute.
Defined.

End ApiKeyDemo.
