(* ===== verification/Password.v ===== *)
(** * Passwords

    [internal/authn/password.go]. The key derivation is golang.org/x/crypto/argon2, a
    parameter; [fmt.Sscanf] is modelled as far as the two formats use it. *)

From S2P Require Import Prelude Apperr Encoding.

(** [argon2.IDKey(password, salt, time, memory, threads, keyLen)]. *)
Class Argon2 := { IDKey : string -> string -> Z -> Z -> Z -> Z -> string }.
(** Documented: the derived key has the length asked for. *)
Class Argon2Laws `{Argon2} := {
  IDKey_length : forall pw salt t m p n, 0 <= n -> slen (IDKey pw salt t m p n) = n;
}.
Definition argon2_Version : Z := 0x13.

Record Argon2Params := mkParams {
  Memory : Z;
  Iterations : Z;
  Parallelism : Z;
  SaltLength : Z;
  KeyLength : Z;
}.

Definition Params : Argon2Params := mkParams (64 * 1024) 1 4 16 32.

(** ** [fmt.Sscanf]

    A scanner is the input that is left; [None] is an error. *)

(** [ss.SkipSpace]: a newline in the input is an error. *)
Fixpoint skip_space (fuel : nat) (s : string) : option string :=
  match fuel with
  | O => Some s
  | S f =>
      match strip_prefix (String (chr 10) "") s with
      | Some _ => None
      | None => match first_rest space_runes s with Some r => skip_space f r | None => Some s end
      end
  end.

(** The leading decimal digits, and the rest. *)
Fixpoint take_digits (s : string) : string * string :=
  match s with
  | "" => ("", "")
  | String c r => if is_digit_b (byte_of c) then let '(d, rest) := take_digits r in (String c d, rest) else ("", s)
  end.

(** [ss.scanUint] for [%d] into [bits] bits: spaces, then digits that fit. *)
Definition scan_uint (bits : Z) (s : string) : option (Z * string) :=
  s ← skip_space (S (String.length s)) s;
  let '(digits, rest) := take_digits s in
  if decide (digits = "") then None
  else n ← parse_udec digits;
       if Z.of_N n <? 2 ^ bits then Some (Z.of_N n, rest) else None.

(** [ss.scanInt] for [%d] into an [int]: spaces, a sign, then digits that fit. *)
Definition scan_int (s : string) : option (Z * string) :=
  s ← skip_space (S (String.length s)) s;
  let '(neg, s) := match strip_prefix "-" s with
                   | Some r => (true, r)
                   | None => (false, default s (strip_prefix "+" s))
                   end in
  let '(digits, rest) := take_digits s in
  if decide (digits = "") then None
  else n ← parse_udec digits;
       let z := if neg : bool then - Z.of_N n else Z.of_N n in
       if in_int64b z then Some (z, rest) else None.

(** [Sscanf(s, "v=%d", &version)]; what follows the number is not read. *)
Definition sscanf_version (s : string) : option Z :=
  s ← strip_prefix "v=" s;
  '(v, _) ← scan_int s;
  Some v.

(** [Sscanf(s, "m=%d,t=%d,p=%d", &p.Memory, &p.Iterations, &p.Parallelism)] *)
Definition sscanf_params (s : string) : option (Z * Z * Z) :=
  s ← strip_prefix "m=" s;
  '(m, s) ← scan_uint 32 s;
  s ← strip_prefix ",t=" s;
  '(t, s) ← scan_uint 32 s;
  s ← strip_prefix ",p=" s;
  '(p, _) ← scan_uint 8 s;
  Some (m, t, p).

(** ** Hashing and verifying *)

Definition encode_hash (salt key : string) : string :=
  "$argon2id$v=" +:+ dec argon2_Version +:+ "$m=" +:+ dec (Memory Params) +:+ ",t=" +:+ dec (Iterations Params) +:+
  ",p=" +:+ dec (Parallelism Params) +:+ "$" +:+ b64_encode RawStdEncoding salt +:+ "$" +:+ b64_encode RawStdEncoding key.

Definition HashPassword `{Argon2} (rand : nat -> Z) (password : string) : string :=
  let salt := of_bytes ((fun n => rand n mod 256) <$> seq 0 (Z.to_nat (SaltLength Params))) in
  let key := IDKey password salt (Iterations Params) (Memory Params) (Parallelism Params) (KeyLength Params) in
  encode_hash salt key.

Definition decodeHash (encodedHash : string) : go_result (Argon2Params * string * string) :=
  let invalid := Err (Sentinel ErrInvalidHash) in
  match split_on "$"%char encodedHash with
  | [p0; p1; p2; p3; p4; p5] =>
      if negb (bool_decide (p0 = "") && bool_decide (p1 = "argon2id")) then invalid
      else match sscanf_version p2 with
      | None => invalid
      | Some version =>
          if negb (version =? argon2_Version) then invalid
          else match sscanf_params p3 with
          | None => invalid
          | Some (m, t, p) =>
              if (m =? 0) || (t =? 0) || (p =? 0) then invalid
              else match b64_decode RawStdEncoding p4 with
              | None => invalid
              | Some salt =>
                  if decide (salt = "") then invalid
                  else match b64_decode RawStdEncoding p5 with
                  | None => invalid
                  | Some key =>
                      if decide (key = "") then invalid
                      else Ok (mkParams m t p (slen salt mod 2 ^ 32) (slen key mod 2 ^ 32), salt, key)
                  end
              end
          end
      end
  | _ => invalid
  end.

(** [subtle.ConstantTimeCompare] is equality. *)
Definition VerifyPassword `{Argon2} (encodedHash password : string) : go_result bool :=
  match decodeHash encodedHash with
  | Err e => Err e
  | Ok (params, salt, want) =>
      let got := IDKey password salt (Iterations params) (Memory params) (Parallelism params) (slen want mod 2 ^ 32) in
      Ok (String.eqb got want)
  end.

(** ** Lemmas *)

Lemma b64_no_dollar s : has_byte "$"%char (b64_encode RawStdEncoding s) = false.
Proof.
  apply (has_byte_forall _ (fun b => negb (b =? 36))); [done|]. apply b64_encode_forall.
  intros d Hd. unfold b64_digit. repeat case_match; to_prop; apply negb_true_iff, Z.eqb_neq; lia.
Qed.

(** The encoded form is six fields, the last two of them base64. *)
Lemma split_encode_hash salt key :
  split_on "$"%char (encode_hash salt key) =
    [""; "argon2id"; "v=19"; "m=65536,t=1,p=4"; b64_encode RawStdEncoding salt; b64_encode RawStdEncoding key].
Proof.
  change (encode_hash salt key) with
    ("" +:+ "$" +:+ "argon2id" +:+ "$" +:+ "v=19" +:+ "$" +:+ "m=65536,t=1,p=4" +:+ "$" +:+
     b64_encode RawStdEncoding salt +:+ "$" +:+ b64_encode RawStdEncoding key).
  do 4 (rewrite split_on_app by done). rewrite split_on_app by apply b64_no_dollar.
  by rewrite split_on_none by apply b64_no_dollar.
Qed.

Lemma decodeHash_encode salt key :
  salt <> "" -> key <> "" ->
  decodeHash (encode_hash salt key) =
    Ok (mkParams (Memory Params) (Iterations Params) (Parallelism Params)
          (slen salt mod 2 ^ 32) (slen key mod 2 ^ 32), salt, key).
Proof.
  intros Hs Hk. unfold decodeHash. rewrite split_encode_hash.
  change (sscanf_version "v=19") with (Some argon2_Version).
  change (sscanf_params "m=65536,t=1,p=4") with (Some (Memory Params, Iterations Params, Parallelism Params)).
  cbn -[b64_encode b64_decode slen Z.pow]. by rewrite !b64_decode_encode, !decide_False by done.
Qed.

(** What a decoded hash can be: a supported version, positive costs, and a
    salt and a key that are not empty. *)
Lemma decodeHash_Ok h p salt key :
  decodeHash h = Ok (p, salt, key) ->
  salt <> "" /\ key <> "" /\ Memory p <> 0 /\ Iterations p <> 0 /\ Parallelism p <> 0.
Proof. unfold decodeHash. intros H. repeat (case_match; try done); to_prop; by simplify_eq/=. Qed.

(** The salt [HashPassword] draws and the key it derives from a password. *)
Definition fresh_salt (rand : nat -> Z) : string :=
  of_bytes ((fun n => rand n mod 256) <$> seq 0 (Z.to_nat (SaltLength Params))).
Definition derive `{Argon2} (salt password : string) : string :=
  IDKey password salt (Iterations Params) (Memory Params) (Parallelism Params) (KeyLength Params).

Lemma fresh_salt_length rand : slen (fresh_salt rand) = SaltLength Params.
Proof. unfold slen, fresh_salt. by rewrite length_of_bytes, length_fmap, length_seq. Qed.

Lemma slen_pos_nonempty s : 0 < slen s -> s <> "".
Proof. by intros H ->. Qed.

Lemma VerifyPassword_encode `{Argon2Laws} salt pw q :
  salt <> "" -> VerifyPassword (encode_hash salt (derive salt pw)) q = Ok (String.eqb (derive salt q) (derive salt pw)).
Proof.
  intros Hs. assert (slen (derive salt pw) = KeyLength Params) as Hl by (by apply IDKey_length).
  unfold VerifyPassword. rewrite decodeHash_encode; [|done|by apply slen_pos_nonempty; rewrite Hl].
  cbn [Iterations Memory Parallelism]. by rewrite Hl.
Qed.

Lemma VerifyPassword_hashed `{Argon2Laws} rand pw q :
  VerifyPassword (HashPassword rand pw) q = Ok (String.eqb (derive (fresh_salt rand) q) (derive (fresh_salt rand) pw)).
Proof.
  apply (VerifyPassword_encode (fresh_salt rand)), slen_pos_nonempty. by rewrite fresh_salt_length.
Qed.

(** A stored hash verifies a password exactly when the password derives the same
    key under the hash's own salt and the configured costs; so the password that
    was hashed verifies, whatever salt was drawn; and verifying any other stored
    text never answers yes unless it decodes to a salt, a key and positive costs. *)
Theorem VerifyPassword_HashPassword `{Argon2Laws} rand pw q h :
  VerifyPassword (HashPassword rand pw) q = Ok (String.eqb (derive (fresh_salt rand) q) (derive (fresh_salt rand) pw)) /\
  VerifyPassword (HashPassword rand pw) pw = Ok true /\
  (VerifyPassword h q = Ok true -> exists p salt key, decodeHash h = Ok (p, salt, key) /\ salt <> "" /\ key <> "" /\
     Memory p <> 0 /\ Iterations p <> 0 /\ Parallelism p <> 0 /\
     key = IDKey q salt (Iterations p) (Memory p) (Parallelism p) (slen key mod 2 ^ 32)).
Proof.
  split_and!; [apply VerifyPassword_hashed|by rewrite VerifyPassword_hashed, String.eqb_refl|].
  unfold VerifyPassword. destruct (decodeHash h) as [[[p salt] key]|e] eqn:Hd; [|done].
  intros Hk. apply Ok_inj, String.eqb_eq in Hk. apply decodeHash_Ok in Hd as (? & ? & ? & ? & ?). by exists p, salt, key.
Qed.

(** A derivation of the length asked for: the password padded or cut. For the
    witness only. *)
Module PasswordDemo.
Definition pad (n : Z) (s : string) : string :=
  of_bytes (take (Z.to_nat n) (bytes_of s ++ replicate (Z.to_nat n) 0)).
#[export] Instance argon2 : Argon2 := {| IDKey pw salt _ _ _ n := pad n pw |}.
#[export] Instance argon2_laws : Argon2Laws.
Proof.
  constructor. intros pw salt t m p n Hn. cbn. unfold pad, slen.
  rewrite length_of_bytes, length_take, length_app, length_replicate. lia.
Qed.

Lemma VerifyPassword_HashPassword_witness :
  VerifyPassword (HashPassword (fun n => Z.of_nat n) "correct horse") "correct horse" = Ok true.
Proof. apply (VerifyPassword_HashPassword (fun n => Z.of_nat n) "correct horse" "wrong" ""). Defined.
End PasswordDemo.
