(* ===== verification/Token.v ===== *)
(** * Access tokens

    [internal/authn/token.go]. The JWT implementation (github.com/golang-jwt/jwt/v5)
    is a parameter; [JWTLaws] states what its documentation says of signing and of
    the registered claims it validates. *)

From S2P Require Import Prelude Apperr Encoding Ids Db.

Definition DefaultIssuer : string := "tenant-api-platform".
Definition DefaultAudience : string := "tenant-api-platform".
Definition DefaultAccessTTL : Z := 10 * 60 * 1000000000.
Definition DefaultLeeway : Z := 30 * 1000000000.

(** ** The JWT library *)

(** The [jwt.MapClaims] the issuer signs; the times are Unix seconds. *)
Record MapClaims := mkClaims {
  iss : string;
  aud : string;
  sub : string;
  jti : string;
  iat : Z;
  nbf : Z;
  exp : Z;
}.

(** The options of [jwt.Parse]: accepted algorithms, issuer, audience, leeway,
    whether an expiry is required, and the time of the clock. *)
Record ParserOptions := mkOptions {
  ValidMethods : list string;
  Issuer : string;
  Audience : string;
  Leeway : Z;
  ExpirationRequired : bool;
  TimeFunc : gotime;
}.

(** What the issuer reads off a verified token. [GetSubject] is [None] when the
    claim has another type; the times are [None] when they are absent or have
    another type; [RawJTI] is the string under ["jti"], if it is one. *)
Record Verified := mkVerified {
  GetSubject : option string;
  GetExpirationTime : option gotime;
  GetIssuedAt : option gotime;
  RawJTI : option string;
}.

(** [SignedString alg claims secret], and [jwt.Parse raw keyfunc options] under the
    secret the key function returns; its error is a text. *)
Class JWT := {
  SignedString : string -> MapClaims -> string -> string;
  jwt_Parse : ParserOptions -> string -> string -> result string Verified;
}.

(** The registered claims under the parser's options: not expired, already
    valid, the expected issuer and audience, allowing for the leeway. *)
Definition claims_valid (o : ParserOptions) (c : MapClaims) : bool :=
  (TimeFunc o <? exp c * 1000000000 + Leeway o) && (nbf c * 1000000000 - Leeway o <=? TimeFunc o) &&
  String.eqb (iss c) (Issuer o) && String.eqb (aud c) (Audience o).

Class JWTLaws `{JWT} := {
  Parse_SignedString : forall alg c secret o,
    bool_decide (alg ∈ ValidMethods o) = true -> claims_valid o c = true ->
    jwt_Parse o (SignedString alg c secret) secret =
      Ok (mkVerified (Some (sub c)) (Some (exp c * 1000000000)) (Some (iat c * 1000000000)) (Some (jti c)));
  Parse_invalid : forall alg c secret o,
    bool_decide (alg ∈ ValidMethods o) && claims_valid o c = false ->
    is_ok (jwt_Parse o (SignedString alg c secret) secret) = false;
  SignedString_nonempty : forall alg c secret, SignedString alg c secret <> "";
  SignedString_visible : forall alg c secret,   (* base64url and dots *)
    str_forall visible_b (SignedString alg c secret) = true;
}.

Definition SigningMethodHS256 : string := "HS256".

(** ** The issuer *)

Record AccessClaims := mkAccessClaims {
  UserID : uuid;
  TokenID : string;
  IssuedAt : option gotime;
  ExpiresAt : option gotime;
}.

(** [now] is the process clock of the call. *)
Record TokenIssuer := mkIssuer {
  secret : string;
  issuer : string;
  audience : string;
  ttl : Z;
  leeway : Z;
}.

Definition NewTokenIssuer (secret issuer audience : string) (ttl : Z) : go_result TokenIssuer :=
  if slen secret <? 32
  then Err (Plain ("authn: signing secret must be at least 32 bytes, got " +:+ dec (slen secret)))
  else if ttl <=? 0 then Err (Plain "authn: access token TTL must be positive")
  else if bool_decide (issuer = "") || bool_decide (audience = "")
  then Err (Plain "authn: issuer and audience must be set")
  else Ok (mkIssuer secret issuer audience ttl DefaultLeeway).

Definition SetLeeway (d : Z) (i : TokenIssuer) : TokenIssuer :=
  mkIssuer (secret i) (issuer i) (audience i) (ttl i) d.

Definition TTL (i : TokenIssuer) : Z := ttl i.

Section ops.
Context `{UUIDLib} `{JWT}.

Definition Mint (i : TokenIssuer) (env : Env) (userID : uuid) : go_result (string * AccessClaims) :=
  if decide (userID = uuid_Nil)
  then Err (Wrapf "authn: mint token for nil user: authn: invalid access token" (Sentinel ErrTokenInvalid))
  else
    let now := env_time env in
    let claims := mkAccessClaims userID (uuid_String (env_id env 0)) (Some now) (Some (now + ttl i)) in
    let signed := SignedString SigningMethodHS256
      (mkClaims (issuer i) (audience i) (uuid_String userID) (TokenID claims)
         (Unix now) (Unix now) (Unix (now + ttl i))) (secret i) in
    Ok (signed, claims).

Definition parser_options (i : TokenIssuer) (now : gotime) : ParserOptions :=
  mkOptions [SigningMethodHS256] (issuer i) (audience i) (leeway i) true now.

Definition Parse (i : TokenIssuer) (now : gotime) (raw : string) : go_result AccessClaims :=
  if decide (raw = "") then Err (Sentinel ErrTokenInvalid)
  else match jwt_Parse (parser_options i now) raw (secret i) with
  | Err text => Err (Wrapf ("authn: invalid access token: " +:+ text) (Sentinel ErrTokenInvalid))
  | Ok v =>
      match GetSubject v with
      | None => Err (Sentinel ErrTokenInvalid)
      | Some s =>
          if decide (s = "") then Err (Sentinel ErrTokenInvalid)
          else match uuid_Parse s with
          | None => Err (Sentinel ErrTokenInvalid)
          | Some u =>
              if decide (u = uuid_Nil) then Err (Sentinel ErrTokenInvalid)
              else Ok (mkAccessClaims u (default "" (RawJTI v)) (GetIssuedAt v) (GetExpirationTime v))
          end
      end
  end.
End ops.

(** ** Lemmas *)

Section lemmas.
Context `{UUIDLaws} `{JWTLaws}.

(** One error for every rejection, and never the nil user. *)
Lemma Parse_uniform i now raw :
  match Parse i now raw with
  | Ok c => UserID c <> uuid_Nil
  | Err e => Is e ErrTokenInvalid = true
  end.
Proof. unfold Parse. repeat case_match; try done; by simplify_eq/=. Qed.

Lemma token_Mint_Ok i env u raw c :
  Mint i env u = Ok (raw, c) ->
  u <> uuid_Nil /\ UserID c = u /\ TokenID c = uuid_String (env_id env 0) /\
  raw = SignedString SigningMethodHS256
          (mkClaims (issuer i) (audience i) (uuid_String u) (uuid_String (env_id env 0))
             (Unix (env_time env)) (Unix (env_time env)) (Unix (env_time env + ttl i))) (secret i).
Proof. unfold Mint. case_decide; [done|]. intros [= <- <-]. done. Qed.

Lemma Mint_live i env u : u <> uuid_Nil -> exists raw c, Mint i env u = Ok (raw, c).
Proof. intros Hu. unfold Mint. rewrite decide_False by done. eauto. Qed.

(** When a verifier with the same secret takes a token at [now]. *)
Definition accepts (i j : TokenIssuer) (minted now : gotime) : bool :=
  (now <? Unix (minted + ttl i) * 1000000000 + leeway j) && (Unix minted * 1000000000 - leeway j <=? now) &&
  String.eqb (issuer i) (issuer j) && String.eqb (audience i) (audience j).

Lemma Parse_minted i j env u raw c now :
  secret j = secret i -> Mint i env u = Ok (raw, c) ->
  if accepts i j (env_time env) now
  then Parse j now raw = Ok (mkAccessClaims u (TokenID c) (Some (Unix (env_time env) * 1000000000))
                               (Some (Unix (env_time env + ttl i) * 1000000000)))
  else exists e, Parse j now raw = Err e /\ Is e ErrTokenInvalid = true.
Proof.
  intros Hs (Hu & _ & Hid & ->)%token_Mint_Ok. rewrite Hid.
  set (m := mkClaims _ _ _ _ _ _ _). assert (claims_valid (parser_options j now) m = accepts i j (env_time env) now) as Hv by done.
  destruct (accepts _ _ _ _); unfold Parse; rewrite decide_False by apply SignedString_nonempty; rewrite Hs.
  - rewrite Parse_SignedString by done. cbn.
    by rewrite decide_False, uuid_Parse_String, decide_False by (done || apply uuid_String_nonempty).
  - pose proof (Parse_invalid SigningMethodHS256 m (secret i) (parser_options j now)) as Hp.
    rewrite Hv in Hp. specialize (Hp (andb_false_r _)).
    destruct (jwt_Parse _ _ _) as [v|text]; [done|]. eauto.
Qed.
End lemmas.

(** C28: The life of an access token. A token minted at [t] by one instance of the
    service is accepted by any instance that holds the same secret from
    [t - leeway] until [t + ttl + leeway], with [t] and the expiry cut to whole
    seconds, and names the user it was minted for; outside that window, or under
    another issuer or audience, it is refused with the one uniform error. *)
Theorem access_token_window `{UUIDLaws} `{JWTLaws} i j env u raw c now :
  secret j = secret i -> Mint i env u = Ok (raw, c) ->
  in_int64 (env_time env / 1000000000) -> in_int64 ((env_time env + ttl i) / 1000000000) ->
  let issued := env_time env / 1000000000 * 1000000000 in
  let expires := (env_time env + ttl i) / 1000000000 * 1000000000 in
  (issued - leeway j <= now < expires + leeway j /\ issuer j = issuer i /\ audience j = audience i ->
     Parse j now raw = Ok (mkAccessClaims u (TokenID c) (Some issued) (Some expires))) /\
  (~ (issued - leeway j <= now < expires + leeway j /\ issuer j = issuer i /\ audience j = audience i) ->
     exists e, Parse j now raw = Err e /\ Is e ErrTokenInvalid = true).
Proof.
  intros Hs Hm Hi He issued expires. pose proof (Parse_minted i j env u raw c now Hs Hm) as Hp.
  unfold accepts in Hp. unfold Unix in Hp. rewrite !wrap64_id in Hp by done. fold issued expires in Hp.
  split.
  - intros ([H3 H4] & E1 & E2).
    by rewrite (proj2 (Z.ltb_lt _ _) H4), (proj2 (Z.leb_le _ _) H3), E1, E2, !String.eqb_refl in Hp.
  - intros Hno. destruct (_ && _) eqn:E in Hp; [|done]. exfalso. apply Hno.
    rewrite !andb_true_iff, !String.eqb_eq, Z.ltb_lt, Z.leb_le in E. naive_solver.
Qed.

(** A token as the number that encodes its algorithm, claims and key, for the
    witnesses only. *)
Module TokenDemo.
Definition token_text (alg : string) (c : MapClaims) (key : string) : string :=
  udec (Npos (encode (alg, iss c, aud c, sub c, jti c, (iat c, nbf c, exp c), key))).

Definition read (o : ParserOptions) (raw key : string) : result string Verified :=
  match parse_udec raw with
  | Some (Npos n) =>
      match decode n with
      | Some (alg, i, d, s, j, (t, b, e), k) =>
          if bool_decide (alg ∈ ValidMethods o) && claims_valid o (mkClaims i d s j t b e) && String.eqb k key
          then Ok (mkVerified (Some s) (Some (e * 1000000000)) (Some (t * 1000000000)) (Some j))
          else Err "token is invalid"
      | None => Err "token is malformed"
      end
  | _ => Err "token is malformed"
  end.

#[export] Instance jwt : JWT := {| SignedString := token_text; jwt_Parse := read |}.

Lemma read_token_text alg c secret o :
  read o (token_text alg c secret) secret =
    if bool_decide (alg ∈ ValidMethods o) && claims_valid o c
    then Ok (mkVerified (Some (sub c)) (Some (exp c * 1000000000)) (Some (iat c * 1000000000)) (Some (jti c)))
    else Err "token is invalid".
Proof.
  unfold read, token_text. rewrite parse_udec_udec, decode_encode, String.eqb_refl, andb_true_r. by destruct c.
Qed.

#[export] Instance jwt_laws : JWTLaws.
Proof.
  split.
  - intros alg c secret o Ha Hv. cbn. by rewrite read_token_text, Ha, Hv.
  - intros alg c secret o Hv. cbn. by rewrite read_token_text, Hv.
  - intros. apply udec_nonempty.
  - intros. eapply str_forall_impl; [|apply udec_digits]. intros b _ Hb. unfold is_digit_b, visible_b in *. lia.
Qed.

Definition demo_issuer : TokenIssuer :=
  mkIssuer "0123456789abcdef0123456789abcdef" DefaultIssuer DefaultAudience DefaultAccessTTL DefaultLeeway.
Definition demo_env : Env := mkEnv 5000000000 5000000000 (fun _ => 77%N) (fun _ => 88%N) (fun _ => 1) "r".
End TokenDemo.

Module TokenWitness.
Import DemoUUID TokenDemo.
Lemma access_token_window_witness :
  exists raw, Parse demo_issuer 605999999999 raw =
    Ok (mkAccessClaims 7%N (uuid_String 77%N) (Some 5000000000) (Some 605000000000)) /\
  (exists e, Parse demo_issuer 635000000000 raw = Err e /\ Is e ErrTokenInvalid = true).
Proof.
  destruct (Mint demo_issuer demo_env 7%N) as [[raw c]|e] eqn:Hm; [|done].
  pose proof (token_Mint_Ok _ _ _ _ _ Hm) as (_ & _ & Hid & _). exists raw.
  pose proof (fun now => access_token_window demo_issuer demo_issuer demo_env 7%N raw c now eq_refl Hm) as Hw.
  split.
  - change (TokenID c = uuid_String 77%N) in Hid. rewrite <- Hid. apply Hw; [by vm_compute; split|by vm_compute; split|]. repeat split; vm_compute; congruence.
  - apply Hw; [by vm_compute; split|by vm_compute; split|]. intros ([_ Hlt] & _). by vm_compute in Hlt.
Defined.
End TokenWitness.
