(* ===== verification/Render.v ===== *)
(** * Request parameters and rendering

    [internal/httpx]: reading a JSON body, query and path parameters
    ([render.go], [params.go], [uuid.go]) and rendering permissions and times
    ([support.go]). The bytes of a body are decoded by [encoding/json], whose
    outcome is an argument. *)

From S2P Require Import Prelude Apperr Ids Authz.

(** ** Bodies *)

(** What [json.Decoder.Decode] reports, as far as the handlers tell it apart. *)
Inductive DecodeError :=
  | EOF
  | MaxBytesError
  | SyntaxError (Offset : Z)
  | UnmarshalTypeError (Field Type_ : string)
  | DecodeErrorOther (text : string).

Definition maxBodyBytes : Z := Z.shiftl 1 20.

Definition decode_problem (e : DecodeError) : err :=
  match e with
  | EOF => Invalid "body" "a JSON body is required"
  | MaxBytesError => Invalid "body" ("the request body exceeds " +:+ dec maxBodyBytes +:+ " bytes")
  | SyntaxError off => Invalid "body" ("the body is not valid JSON (at byte " +:+ dec off +:+ ")")
  | UnmarshalTypeError field ty =>
      Invalid (if decide (field = "") then "body" else field) ("expected a " +:+ ty)
  | DecodeErrorOther text =>
      match strip_prefix "json: unknown field " text with
      | Some name => Invalid (trim_both [dquote] name) "unknown field"
      | None => Invalid "body" "the body could not be decoded"
      end
  end.

(** [first] is the outcome of decoding the value, [second] that of decoding what
    follows it. *)
Definition decodeJSON {A} (first : result DecodeError A) (second : result DecodeError unit) : go_result A :=
  match first with
  | Err e => Err (decode_problem e)
  | Ok a =>
      match second with
      | Err EOF => Ok a
      | _ => Err (Invalid "body" "the body must contain exactly one JSON object")
      end
  end.

(** ** Parameters *)

Definition pageParams (raw_limit raw_cursor : string) : go_result (Z * string) :=
  if decide (raw_limit = "") then Ok (0, raw_cursor)
  else match parse_int64 raw_limit with
       | None => Err (Invalid "limit" "must be an integer")
       | Some n => Ok (n, raw_cursor)
       end.

(** [strconv.ParseBool] *)
Definition ParseBool (s : string) : option bool :=
  if decide (s ∈ ["1"; "t"; "T"; "TRUE"; "true"; "True"]) then Some true
  else if decide (s ∈ ["0"; "f"; "F"; "FALSE"; "false"; "False"]) then Some false
  else None.

Definition boolParam (name raw : string) : go_result bool :=
  if decide (raw = "") then Ok false
  else match ParseBool raw with
       | None => Err (Invalid name "must be true or false")
       | Some v => Ok v
       end.

Definition pathUUID `{UUIDLib} (raw : string) : go_result uuid :=
  match uuid_Parse raw with
  | None => Err (Sentinel ErrNotFound)
  | Some id => Ok id
  end.

(** ** Permissions *)

Definition permStrings (perms : list Perm) : list string := (fun p => p) <$> perms.
Definition rolePermStrings (r : Role) : list string := permStrings (Perms r).

Definition permissionInfo (p : Principal) : list string :=
  if decide (Method p = MethodJWT) then rolePermStrings (p_Role p)
  else if decide (Method p = MethodAPIKey) then permStrings (Scopes p)
  else [].

(** ** Times

    RFC 3339 in UTC: the proleptic Gregorian date of a day number, counted in
    eras of 400 years that start in March. *)

Record Date := mkDate { Year : Z; Month : Z; Day : Z }.

Definition civil_from_days (days : Z) : Date :=
  let z := days + 719468 in
  let era := z / 146097 in
  let doe := z mod 146097 in
  let yoe := (doe - doe / 1460 + doe / 36524 - doe / 146096) / 365 in
  let doy := doe - (365 * yoe + yoe / 4 - yoe / 100) in
  let mp := (5 * doy + 2) / 153 in
  let d := doy - (153 * mp + 2) / 5 + 1 in
  let m := if mp <? 10 then mp + 3 else mp - 9 in
  mkDate (yoe + era * 400 + (if m <=? 2 then 1 else 0)) m d.

(** [appendInt(b, n, width)] *)
Definition pad_int (width : nat) (n : Z) : string :=
  let digits := udec (Z.to_N (Z.abs n)) in
  (if n <? 0 then "-" else "") +:+ of_bytes (replicate (width - String.length digits) 48) +:+ digits.

Definition timestamp (t : gotime) : string :=
  let secs := t / 1000000000 in
  let date := civil_from_days (secs / 86400) in
  let s := secs mod 86400 in
  pad_int 4 (Year date) +:+ "-" +:+ pad_int 2 (Month date) +:+ "-" +:+ pad_int 2 (Day date) +:+ "T" +:+
  pad_int 2 (s / 3600) +:+ ":" +:+ pad_int 2 (s mod 3600 / 60) +:+ ":" +:+ pad_int 2 (s mod 60) +:+ "Z".

Definition timestampPtr (t : option gotime) : option string := timestamp <$> t.

Example timestamp_epoch : timestamp 0 = "1970-01-01T00:00:00Z".
Proof. reflexivity. Qed.
Example timestamp_leap : timestamp 1709209845000000001 = "2024-02-29T12:30:45Z".
Proof. reflexivity. Qed.

(** ** Lemmas *)

(** Every decoding failure is the client's: a 400 that names a field. *)
Lemma decodeJSON_client {A} first second :
  match @decodeJSON A first second with
  | Ok a => first = Ok a /\ second = Err EOF
  | Err e => Status (Map e) = 400
  end.
Proof.
  unfold decodeJSON. destruct first as [a|[]]; cbn; try done; repeat case_match; try done; by simplify_eq.
Qed.

Lemma permStrings_id l : permStrings l = l.
Proof. apply list_fmap_id. Qed.
