(* ===== verification/Account.v ===== *)
(** * Accounts and sessions

    [internal/authn/users.go], the use cases of [internal/authn/service.go] and the
    handlers of [internal/httpx/handlers_auth.go] that register, log in, refresh,
    log out and describe the caller. Users live in the tables of [Tenant], session
    families in those of [Refresh]; a login reads the first and writes the second. *)

From S2P Require Import Prelude Apperr Encoding Ids Db Authz Slug Password Token Refresh Render Tenant.

Record AuthDB := mkAuthDB {
  accounts : DB;
  sessions : Refresh.DB;
}.
Definition set_accounts (a : DB) (s : AuthDB) : AuthDB := mkAuthDB a (sessions s).
Definition set_sessions (r : Refresh.DB) (s : AuthDB) : AuthDB := mkAuthDB (accounts s) r.

(** ** Users *)

Definition NormalizeEmail `{Unicode} (raw : string) : go_result string :=
  let email := to_lower (trim_space raw) in
  if (slen email <? 3) || (320 <? slen email) then Err (ErrVal "authn: email length out of range")
  else
    let at_ := last_index "@"%char email in
    if (at_ <=? 0) || (at_ =? slen email - 1)
    then Err (ErrVal "authn: email must have a local part and a domain")
    else if negb (has_byte "."%char (str_from (at_ + 1) email))
    then Err (ErrVal "authn: email domain must be fully qualified")
    else Ok email.

Definition ValidatePasswordStrength (password : string) : go_result unit :=
  if slen password <? 12 then Err (ErrVal "authn: password must be at least 12 characters")
  else if 1024 <? slen password then Err (ErrVal "authn: password must be at most 1024 characters")
  else Ok tt.

(** The failure of the users insert in [Create] and [Insert]. *)
Definition user_fail (op : string) (e : err) : err :=
  if IsUniqueViolation e then Wrapf (op +:+ ": conflict") (Sentinel ErrConflict)
  else Wrapf (op +:+ ": " +:+ error_text e) e.

Section users.
Context `{Unicode} `{Argon2}.

(** The salt is drawn from [env_rand]. *)
Definition Create (env : Env) (email password : string) : SE DB err User :=
  normalized ← lift (NormalizeEmail email);
  _ ← lift (ValidatePasswordStrength password);
  let u := mkUser (env_id env 0) normalized (HashPassword (env_rand env) password) 0 in
  _ ← or_fail (insert_user env (u_ID u) (u_Email u) (u_PWHash u)) (user_fail "create user");
  mret u.

Definition Insert (env : Env) (u : User) : SE DB err unit :=
  normalized ← lift (NormalizeEmail (u_Email u));
  if decide (u_ID u = uuid_Nil) then throw (ErrVal "insert user: nil id")
  else or_fail (insert_user env (u_ID u) normalized (u_PWHash u)) (user_fail "insert user").

(** [scanOne]: the first row of the query, which has no tenant or user policy. *)
Definition scanOne (p : User -> bool) : SE DB err User := fun db =>
  match filter (fun u => p u = true) (map_to_list (users db)).*2 with
  | u :: _ => (Ok u, db)
  | [] => (Err (Sentinel ErrNotFound), db)
  end.

Definition ByEmail (email : string) : SE DB err User :=
  match NormalizeEmail email with
  | Err _ => throw (Sentinel ErrNotFound)
  | Ok normalized => scanOne (fun u => bool_decide (u_Email u = normalized))
  end.

Definition ByID (id : uuid) : SE DB err User :=
  if decide (id = uuid_Nil) then throw (Sentinel ErrNotFound)
  else scanOne (fun u => bool_decide (u_ID u = id)).
End users.

(** ** The service *)

Record TenantSummary := mkTenantSummary {
  ts_TenantID : uuid;
  ts_Slug : string;
  ts_Name : string;
  ts_Role : Role;
}.

(** [MembershipLister.ListForUser], over the tenant store. *)
Definition Lister_ListForUser `{Collation} (u : uuid) : SE DB err (list TenantSummary) :=
  ms ← ListForUser u;
  mret ((fun m => mkTenantSummary (m_TenantID m) (m_TenantSlug m) (m_TenantName m) (m_Role m)) <$> ms).

(** [memberships] tells whether a lister is wired. *)
Record Service := mkService {
  tokens : TokenIssuer;
  memberships_wired : bool;
  dummyHash : string;
}.

Definition NewService `{Argon2} (stores : bool) (tokens : TokenIssuer) (lister : bool) (rand : nat -> Z) : go_result Service :=
  if negb stores
  then Err (Plain "authn: NewService requires users, tokens, refresh, and keys stores")
  else Ok (mkService tokens lister
             (HashPassword rand "no account has this password; this digest exists only to burn CPU")).

Record Session := mkSession {
  AccessToken : string;
  s_RefreshToken : string;
  s_UserID : uuid;
  ExpiresIn : Z;
  Tenants : list TenantSummary;
}.

Section service.
Context `{Unicode} `{UUIDLib} `{Collation} `{Argon2} `{JWT} (s : Service).

Definition tenantsFor (u : uuid) : SE AuthDB err (list TenantSummary) :=
  if memberships_wired s then zoom accounts set_accounts (Lister_ListForUser u) else mret [].

(** [env] is what minting the token observes, [env'] what starting the family does. *)
Definition issueSession (env env' : Env) (u : uuid) : SE AuthDB err Session :=
  access ← or_fail (lift (Mint (tokens s) env u)) (fun e => Wrapf ("issue session: " +:+ error_text e) e);
  refresh ← or_fail (zoom sessions set_sessions (StartSession env' u DefaultRefreshTTL))
              (fun e => Wrapf ("issue session: " +:+ error_text e) e);
  tenants ← tenantsFor u;
  mret (mkSession access.1 (RefreshToken refresh) u (TTL (tokens s)) tenants).

Definition Login (env env' : Env) (email password : string) : SE AuthDB err Session := fun db =>
  match zoom accounts set_accounts (ByEmail email) db with
  | (Err e, db') =>
      if Is e ErrNotFound
      then let _ := VerifyPassword (dummyHash s) password in (Err (Sentinel ErrUnauthorized), db')
      else (Err (Wrapf ("login: " +:+ error_text e) e), db')
  | (Ok user, db') =>
      match VerifyPassword (u_PWHash user) password with
      | Err _ => (Err (Sentinel ErrUnauthorized), db')
      | Ok false => (Err (Sentinel ErrUnauthorized), db')
      | Ok true => issueSession env env' (u_ID user) db'
      end
  end.

(** [Refresh]; a rotation that fails for any reason is an unauthorized request. *)
Definition Refresh_ (grace : Z) (env env' : Env) (mid between : Refresh.DB -> Refresh.DB) (presented : string)
    : SE AuthDB err Session :=
  rotated ← or_fail (zoom sessions set_sessions (Rotate grace env mid between presented DefaultRefreshTTL))
              (fun _ => Sentinel ErrUnauthorized);
  access ← or_fail (lift (Mint (tokens s) env' (Refresh.UserID rotated)))
             (fun e => Wrapf ("refresh: mint access token: " +:+ error_text e) e);
  tenants ← tenantsFor (Refresh.UserID rotated);
  mret (mkSession access.1 (RefreshToken rotated) (Refresh.UserID rotated) (TTL (tokens s)) tenants).
End service.

(** ** The handlers

    A handler's request is the outcome of [decodeJSON]; its failure is rendered by
    [httperr.Fail]. *)

Record registerRequest := mkRegister {
  reg_Email : string;
  reg_Password : string;
  reg_TenantName : string;
  reg_TenantSlug : string;
}.
Record loginRequest := mkLogin { login_Email : string; login_Password : string }.
Record refreshRequest := mkRefresh { req_RefreshToken : string }.
Record createTenantRequest := mkCreateTenant { ct_Name : string; ct_Slug : string }.

Record tenantSummary := mkSummary {
  js_TenantID : string;
  js_Slug : string;
  js_Name : string;
  js_Role : string;
  js_Permissions : list string;
}.

Record sessionResponse := mkSessionResponse {
  js_AccessToken : string;
  js_RefreshToken : string;
  js_TokenType : string;
  js_ExpiresIn : Z;
  js_UserID : string;
  js_Tenants : list tenantSummary;
}.

Definition sessionResponseFrom `{UUIDLib} (s : Session) (ttlSeconds : Z) : sessionResponse :=
  mkSessionResponse (AccessToken s) (s_RefreshToken s) "Bearer" ttlSeconds (uuid_String (s_UserID s))
    ((fun t => mkSummary (uuid_String (ts_TenantID t)) (ts_Slug t) (ts_Name t) (ts_Role t) (rolePermStrings (ts_Role t)))
       <$> Tenants s).

Definition tenantSummaryFrom `{UUIDLib} (t : Tenant) (r : Role) : tenantSummary :=
  mkSummary (uuid_String (t_ID t)) (t_Slug t) (t_Name t) r [].

Inductive RegisterResponse :=
  | RegisteredSession (r : sessionResponse)
  | RegisteredOnly (user_id : string) (tenant : tenantSummary) (note : string).

(** The name of a first tenant: the one asked for, or one made from the address. *)
Definition registerTenantName (req : registerRequest) : string :=
  let tenantName := trim_space (reg_TenantName req) in
  if decide (tenantName = "") then
    let local := match cut_str "@" (reg_Email req) with
                 | Some (l, _) => if decide (l = "") then reg_Email req else l
                 | None => reg_Email req
                 end in
    local +:+ "'s workspace"
  else tenantName.

Section handlers.
Context `{Unicode} `{UUIDLib} `{Collation} `{Argon2} `{JWT} (s : Service) (AccessTokenTTL : Z).

(** The last step of a registration: its failure does not fail the request. *)
Definition first_login (env env' : Env) (req : registerRequest) (user : User) (newTenant : Tenant)
    : SE AuthDB Problem RegisterResponse := fun db =>
  match Login s env env' (reg_Email req) (reg_Password req) db with
  | (Err _, db') =>
      (Ok (RegisteredOnly (uuid_String (u_ID user)) (tenantSummaryFrom newTenant RoleOwner)
             "account created; obtain a session from POST /v1/auth/login"), db')
  | (Ok session, db') => (Ok (RegisteredSession (sessionResponseFrom session AccessTokenTTL)), db')
  end.

(** [calls n] is what the n-th step observes: the user's insert, the two attempts
    at a tenant, the suffix, the token, the family. *)
Definition handleRegister (calls : nat -> Env) (body : go_result registerRequest)
    : SE AuthDB Problem RegisterResponse :=
  req ← failing (lift body);
  user ← failing (zoom accounts set_accounts (Create (calls 0%nat) (reg_Email req) (reg_Password req)));
  newTenant ← failing (zoom accounts set_accounts
                (createTenantWithUniqueSlug (calls 1%nat) (calls 2%nat) (env_rand (calls 2%nat)) (env_rand (calls 3%nat))
                   (registerTenantName req) (reg_TenantSlug req) (u_ID user)));
  first_login (calls 4%nat) (calls 5%nat) req user newTenant.

Definition handleLogin (env env' : Env) (body : go_result loginRequest) : SE AuthDB Problem sessionResponse :=
  req ← failing (lift body);
  session ← failing (Login s env env' (login_Email req) (login_Password req));
  mret (sessionResponseFrom session AccessTokenTTL).

Definition handleRefresh (grace : Z) (env env' : Env) (mid between : Refresh.DB -> Refresh.DB)
    (body : go_result refreshRequest) : SE AuthDB Problem sessionResponse :=
  req ← failing (lift body);
  session ← failing (Refresh_ s grace env env' mid between (req_RefreshToken req));
  mret (sessionResponseFrom session AccessTokenTTL).

(** The answer is 204, no content. *)
Definition handleLogout (env : Env) (body : go_result refreshRequest) : SE AuthDB Problem unit :=
  req ← failing (lift body);
  failing (zoom sessions set_sessions (Logout env (req_RefreshToken req))).
End handlers.

(** ** Describing the caller *)

Definition unauthenticated : Problem := mkProblem 401 "unauthorized" "authentication required" None.

(** The members of the payload map; [None] is a member that is not set. *)
Record MePayload := mkMe {
  auth_method : string;
  me_tenant_id : option string;
  me_permissions : option (list string);
  me_user_id : option string;
  me_tenants : option (list tenantSummary);
}.

Section me.
Context `{Unicode} `{UUIDLib} `{Collation}.

Definition handleMe (principal : option Principal) : SE DB Problem MePayload :=
  match principal with
  | None => throw unauthenticated
  | Some p =>
      if decide (Method p = MethodAPIKey) then
        mret (mkMe (Method p) (Some (uuid_String (TenantID p))) (Some (permissionInfo p)) None None)
      else if decide (Method p = MethodJWT) then
        ms ← failing (ListForUser (Authz.UserID p));
        mret (mkMe (Method p) None None (Some (uuid_String (Authz.UserID p)))
          (Some ((fun m => mkSummary (uuid_String (m_TenantID m)) (m_TenantSlug m) (m_TenantName m) (m_Role m)
                             (rolePermStrings (m_Role m))) <$> ms)))
      else mret (mkMe (Method p) None None None None)
  end.

Definition handleListMyTenants (principal : option Principal) : SE DB Problem (list tenantSummary) :=
  match principal with
  | None => throw unauthenticated
  | Some p =>
      if decide (Authz.UserID p = uuid_Nil) then mret [mkSummary (uuid_String (TenantID p)) "" "" "" []]
      else
        ms ← failing (ListForUser (Authz.UserID p));
        mret ((fun m => mkSummary (uuid_String (m_TenantID m)) (m_TenantSlug m) (m_TenantName m) (m_Role m) []) <$> ms)
  end.

Definition handleCreateTenant (env env2 : Env) (rand2 rand3 : nat -> Z) (principal : option Principal)
    (body : go_result createTenantRequest) : SE DB Problem tenantSummary :=
  match principal with
  | None => throw unauthenticated
  | Some p =>
      if decide (Authz.UserID p = uuid_Nil)
      then throw (mkProblem 403 "forbidden" "an API key cannot create tenants" None)
      else
        req ← failing (lift body);
        let name := trim_space (ct_Name req) in
        if decide (name = "") then throw (Map (Invalid "name" "is required"))
        else
          t ← failing (createTenantWithUniqueSlug env env2 rand2 rand3 name (ct_Slug req) (Authz.UserID p));
          mret (tenantSummaryFrom t RoleOwner)
  end.

(** [authorizedFrom] panics on an invalid authorization: [None]. *)
Definition authorizedFrom (a : option Authorized) : option Authorized :=
  a ← a; if Valid a then Some a else None.

Record tenantBody := mkTenantBody {
  tb_tenant_id : string;
  tb_slug : string;
  tb_name : string;
  tb_role : string;
  tb_created_at : string;
}.

Definition handleGetTenant (a : Authorized) : SE DB Problem tenantBody :=
  t ← failing (Get a);
  mret (mkTenantBody (uuid_String (t_ID t)) (t_Slug t) (t_Name t) (role a) (timestamp (t_CreatedAt t))).

Record memberBody := mkMemberBody {
  mm_user_id : string;
  mm_email : string;
  mm_role : string;
  mm_created_at : string;
}.

Definition handleListMembers (a : Authorized) : SE DB Problem (list memberBody) :=
  ms ← failing (ListMembers a);
  mret ((fun m => mkMemberBody (uuid_String (mb_UserID m)) (mb_Email m) (mb_Role m) (timestamp (mb_CreatedAt m))) <$> ms).
End me.
