(* ===== verification/AccountProps.v ===== *)
(** * Accounts and sessions: properties

    What a login accepts and what it answers, what a registration leaves behind,
    and what the bearer of an access token can reach. *)

From S2P Require Import Prelude Apperr Encoding Ids Db Authz Slug Password Token Refresh RefreshProps Render Tenant Account.

(** ** Looking up a user *)

Lemma elem_of_values {K} `{Countable K} {A} (m : gmap K A) x : x ∈ (map_to_list m).*2 <-> exists k, m !! k = Some x.
Proof.
  rewrite list_elem_of_fmap. split.
  - intros ([k y] & -> & Hin). exists k. by apply elem_of_map_to_list.
  - intros [k Hk]. exists (k, x). by rewrite elem_of_map_to_list.
Qed.

Lemma scanOne_cases p db :
  (exists u i, scanOne p db = (Ok u, db) /\ users db !! i = Some u /\ p u = true) \/
  (scanOne p db = (Err (Sentinel ErrNotFound), db) /\ forall i u, users db !! i = Some u -> p u = false).
Proof.
  unfold scanOne. destruct (filter _ _) as [|u l] eqn:Hf.
  - right. split; [done|]. intros i u Hi. apply not_true_iff_false. intros Hp.
    assert (u ∈ @nil User) as Hin; [|by apply not_elem_of_nil in Hin].
    rewrite <- Hf, list_elem_of_filter, elem_of_values. eauto.
  - left. assert (u ∈ u :: l) as Hin by left. rewrite <- Hf, list_elem_of_filter, elem_of_values in Hin.
    destruct Hin as (Hp & i & Hi). eauto.
Qed.

Section props.
Context `{Unicode} `{Argon2}.

(** The account a pair of an address and a password opens. *)
Definition opens (db : DB) (email password : string) (u : User) : Prop :=
  (exists i, users db !! i = Some u) /\ NormalizeEmail email = Ok (u_Email u) /\
  VerifyPassword (u_PWHash u) password = Ok true.

Lemma ByEmail_cases db email :
  DB_wf db ->
  (exists u i, ByEmail email db = (Ok u, db) /\ users db !! i = Some u /\ NormalizeEmail email = Ok (u_Email u)) \/
  (ByEmail email db = (Err (Sentinel ErrNotFound), db) /\
   forall i u, users db !! i = Some u -> NormalizeEmail email <> Ok (u_Email u)).
Proof.
  intros Hwf. unfold ByEmail. destruct (NormalizeEmail email) as [n|e] eqn:Hn; [|by right].
  destruct (scanOne_cases (fun u => bool_decide (u_Email u = n)) db) as [(u & i & -> & Hi & Hp)|[-> Hno]].
  - left. exists u, i. apply bool_decide_eq_true in Hp as ->. done.
  - right. split; [done|]. intros i u Hi [= ->]. specialize (Hno i u Hi).
    by rewrite bool_decide_eq_true_2 in Hno.
Qed.

Lemma ByEmail_row db email i u :
  DB_wf db -> users db !! i = Some u -> NormalizeEmail email = Ok (u_Email u) -> ByEmail email db = (Ok u, db).
Proof.
  intros Hwf Hi Hn. destruct (ByEmail_cases db email Hwf) as [(v & j & -> & Hj & Hv)|[_ Hno]]; [|by destruct (Hno i u)].
  rewrite Hn in Hv. injection Hv as Hv. assert (i = j) as -> by (by eapply (wf_email _ Hwf)). congruence.
Qed.

Lemma user_Create_Ok env email pw db u db' :
  Create env email pw db = (Ok u, db') ->
  NormalizeEmail email = Ok (u_Email u) /\ ValidatePasswordStrength pw = Ok tt /\
  u = mkUser (env_id env 0) (u_Email u) (HashPassword (env_rand env) pw) 0 /\
  users db !! u_ID u = None /\ has_email db (u_Email u) = false /\
  db' = mkDB (tenants db) (<[u_ID u := mkUser (u_ID u) (u_Email u) (u_PWHash u) (env_now env)]> (users db)) (memberships db).
Proof.
  unfold Create. intros Hrun. apply SE_bind_inv in Hrun as (n & s1 & Hn & Hrun). apply lift_Ok in Hn as [Hn ->].
  apply SE_bind_inv in Hrun as ([] & s1 & Hv & Hrun). apply lift_Ok in Hv as [Hv ->].
  apply SE_bind_inv in Hrun as ([] & s1 & Hi & Hr). injection Hr as <- <-.
  apply or_fail_Ok, insert_user_Ok in Hi as (H1 & H2 & ->). done.
Qed.

Lemma user_Create_Err env email pw db e db' : Create env email pw db = (Err e, db') -> db' = db.
Proof.
  unfold Create, mbind, SE_bind, lift. destruct (NormalizeEmail email); [|by intros [= _ <-]].
  destruct (ValidatePasswordStrength pw); [|by intros [= _ <-]]. unfold or_fail, insert_user.
  repeat case_match; intros; simplify_eq; done.
Qed.

Lemma user_Create_wf env email pw db res db' :
  Create env email pw db = (res, db') -> DB_wf db -> DB_wf db' /\ DB_grows db db'.
Proof.
  destruct res as [u|e]; intros Hrun Hwf; [|by apply user_Create_Err in Hrun as ->].
  apply user_Create_Ok in Hrun as (_ & _ & _ & Hfree & Hmail & ->). destruct db as [T U M].
  split; [by apply wf_insert_user|]. split_and!; [done| |done]. by apply insert_subseteq.
Qed.
End props.

(** ** The gate, for a person *)

(** What the gate answers a session: whether the membership's role grants the
    permission. *)
Lemma guarded_route_human `{Unicode} `{UUIDLib} perm p path tid db :
  Method p = MethodJWT -> Authz.UserID p <> uuid_Nil -> uuid_Parse path = Some tid -> tid <> uuid_Nil -> DB_wf db ->
  is_ok (guarded_route perm (Some p) path db).1 =
    match memberships db !! (tid, Authz.UserID p) with Some (r, _) => Can r perm | None => false end.
Proof.
  intros Hm Hu Hp Ht Hwf. unfold guarded_route, ResolveTenant, mbind, SE_bind. rewrite Hp, Hm, decide_False by done.
  unfold Resolve, NewScope, mbind, SE_bind. rewrite !decide_False by done.
  unfold Authorize, Scope_Valid. rewrite bool_decide_eq_true_2 by done. cbn [negb]. rewrite decide_False by done.
  unfold or_fail. rewrite WithIdentityTx_run by (unfold Identity_Valid; cbn; by rewrite bool_decide_eq_true_2).
  unfold BeginFunc, select_role. destruct (memberships db !! _) as [[r at_]|] eqn:Hmem; [|done].
  assert (memberships_select (mkSettings (set_unless_nil tid) (set_unless_nil (Authz.UserID p)) None None false) tid (Authz.UserID p) = true) as Hs.
  { unfold memberships_select, tenant_is, set_unless_nil. cbn. rewrite (decide_False (P := tid = uuid_Nil)) by done.
    by rewrite bool_decide_eq_true_2. }
  cbn [id_TenantID id_UserID]. rewrite Hs. cbn.
  destruct (wf_member _ Hwf _ _ _ _ Hmem) as (Hr & _). unfold newAuthorized, lift, Scope_Valid.
  rewrite bool_decide_eq_true_2, Hr by done. cbn [negb]. rewrite decide_False by done. cbn.
  unfold Require_, WithResolvedTenant. rewrite Hm, (decide_False (P := MethodJWT = MethodAPIKey)) by done.
  unfold Allows. cbn [Method p_Role]. rewrite decide_True by done. by destruct (Can r perm).
Qed.

Lemma ListForUser_run `{Unicode} `{Collation} u db :
  u <> uuid_Nil -> DB_wf db ->
  exists ms, ListForUser u db = (Ok ms, db) /\
    forall m, m ∈ ms <-> exists row, tenants db !! m_TenantID m = Some row /\ m_TenantSlug m = t_Slug row /\
      m_TenantName m = t_Name row /\ memberships db !! (m_TenantID m, u) = Some (m_Role m, m_CreatedAt m).
Proof.
  intros Hu Hwf. unfold ListForUser. rewrite decide_False by done. unfold or_fail.
  rewrite WithIdentityTx_run by (unfold Identity_Valid; cbn; by rewrite (bool_decide_eq_true_2 (u <> uuid_Nil)), orb_true_r).
  unfold BeginFunc. eexists. split; [reflexivity|]. intros m. rewrite (elem_of_Permutation_proper m _ _ (order_by_Permutation _ _)), list_elem_of_omap. split.
  - intros ([[t v] [r at_]] & Hin & Hf). apply elem_of_map_to_list in Hin.
    destruct (tenants db !! t) as [row|] eqn:Ht; [|done]. cbn in Hf. case_decide as Hv; [|done]. subst v.
    destruct (_ && _); [|done]. injection Hf as <-. cbn. eauto.
  - intros (row & Ht & Hs & Hn & Hm). exists ((m_TenantID m, u), (m_Role m, m_CreatedAt m)).
    split; [by apply elem_of_map_to_list|]. rewrite Ht. cbn. rewrite decide_True by done.
    unfold memberships_select, tenants_select, user_is, set_unless_nil. cbn. rewrite (decide_False (P := u = uuid_Nil)) by done.
    rewrite Hm, !bool_decide_eq_true_2 by eauto. cbn. rewrite orb_true_r. cbn. rewrite <- Hs, <- Hn. by destruct m.
Qed.

(** A user created by [Create] has no membership yet. *)
Lemma fresh_user_no_members db u t : DB_wf db -> users db !! u = None -> memberships db !! (t, u) = None.
Proof.
  intros Hwf Hu. destruct (memberships db !! (t, u)) as [[r at_]|] eqn:Hm; [|done].
  destruct (wf_member _ Hwf _ _ _ _ Hm) as (_ & _ & [x Hx]). congruence.
Qed.

Lemma createTenant_cases `{Unicode} env env2 rand2 rand3 name slug u db res db' :
  createTenantWithUniqueSlug env env2 rand2 rand3 name slug u db = (res, db') ->
  match res with
  | Ok t => exists at_, tenants db !! t_ID t = None /\ t_Name t = name /\ slugPattern (t_Slug t) = true /\
      (slug <> "" -> t_Slug t = slug) /\ is_Some (users db !! u) /\
      db' = mkDB (<[t_ID t := mkTenant (t_ID t) (t_Slug t) name at_]> (tenants db)) (users db)
                 (<[(t_ID t, u) := (RoleOwner, at_)]> (memberships db))
  | Err _ => db' = db
  end.
Proof.
  unfold createTenantWithUniqueSlug. destruct (CreateForUser env _ u RoleOwner db) as [[[]|e] d] eqn:E1.
  - intros [= <- <-]. apply CreateForUser_Ok in E1 as (_ & Hs & Hid & _ & Hu & _ & ->). cbn in *.
    exists (env_now env). split_and!; try done. intros Hne. by rewrite bool_decide_eq_false_2.
  - apply CreateForUser_Err in E1 as ->. destruct (negb _ || negb _) eqn:Hd; [by intros [= <- <-]|].
    apply orb_false_iff in Hd as [Hd _]. apply negb_false_iff, bool_decide_eq_true in Hd.
    match goal with |- context [CreateForUser env2 ?t u RoleOwner db] => set (t2 := t) end.
    assert (t_Name t2 = name) as Hn by reflexivity. clearbody t2. cbv zeta.
    destruct (CreateForUser env2 t2 u RoleOwner db) as [[[]|e2] d2] eqn:E2; intros [= <- <-].
    + apply CreateForUser_Ok in E2 as (_ & Hs & Hid & _ & Hu & _ & ->). rewrite Hn. exists (env_now env2). split_and!; done.
    + by apply CreateForUser_Err in E2.
Qed.

(** ** Logging in *)

Section login.
Context `{Unicode} `{UUIDLib} `{Collation} `{Argon2} `{JWT} (s : Service).

Lemma set_accounts_same db : set_accounts (accounts db) db = db.
Proof. by destruct db. Qed.

Lemma Login_cases env env' email pw db :
  DB_wf (accounts db) ->
  (exists u, opens (accounts db) email pw u /\ Login s env env' email pw db = issueSession s env env' (u_ID u) db) \/
  ((forall u, ~ opens (accounts db) email pw u) /\ Login s env env' email pw db = (Err (Sentinel ErrUnauthorized), db)).
Proof.
  intros Hwf. unfold Login, zoom. destruct (ByEmail_cases (accounts db) email Hwf) as [(u & i & -> & Hi & Hn)|[-> Hno]].
  - assert (forall v, opens (accounts db) email pw v -> v = u) as Huniq.
    { intros v ([j Hj] & Hv & _). rewrite Hn in Hv. injection Hv as Hv. assert (i = j) as -> by (by eapply (wf_email _ Hwf)).
      congruence. }
    destruct (VerifyPassword (u_PWHash u) pw) as [[]|e] eqn:Hpw; rewrite set_accounts_same;
      [left; exists u; unfold opens; by eauto|right..]; (split; [|done]); intros v Hv; pose proof (Huniq v Hv) as ->;
      destruct Hv as (_ & _ & Hv); congruence.
  - right. rewrite set_accounts_same. split; [|done]. intros u ([i Hi] & Hn & _). by apply (Hno i u).
Qed.

Lemma opens_unique db email pw u v : DB_wf db -> opens db email pw u -> opens db email pw v -> u = v.
Proof.
  intros Hwf ([i Hi] & Hu & _) ([j Hj] & Hv & _). rewrite Hu in Hv. injection Hv as Hv.
  assert (i = j) as -> by (by eapply (wf_email _ Hwf)). congruence.
Qed.

Lemma Login_opens env env' email pw db u :
  DB_wf (accounts db) -> opens (accounts db) email pw u ->
  Login s env env' email pw db = issueSession s env env' (u_ID u) db.
Proof.
  intros Hwf Hu. destruct (Login_cases env env' email pw db Hwf) as [(v & Hv & ->)|[Hno _]]; [|by destruct (Hno u)].
  by rewrite (opens_unique _ _ _ _ _ Hwf Hv Hu).
Qed.

Lemma issueSession_Ok env env' u db sess db' :
  DB_wf (accounts db) -> issueSession s env env' u db = (Ok sess, db') ->
  exists raw c pair, Mint (tokens s) env u = Ok (raw, c) /\
    StartSession env' u DefaultRefreshTTL (sessions db) = (Ok pair, sessions db') /\
    accounts db' = accounts db /\ AccessToken sess = raw /\ s_RefreshToken sess = RefreshToken pair /\
    s_UserID sess = u /\ ExpiresIn sess = ttl (tokens s) /\
    (memberships_wired s = true -> forall t, t ∈ Tenants sess <-> exists row at_,
       tenants (accounts db) !! ts_TenantID t = Some row /\ ts_Slug t = t_Slug row /\ ts_Name t = t_Name row /\
       memberships (accounts db) !! (ts_TenantID t, u) = Some (ts_Role t, at_)).
Proof.
  intros Hwf Hrun. unfold issueSession in Hrun.
  apply SE_bind_inv in Hrun as ([raw c] & s1 & E1 & Hrun). apply or_fail_Ok, lift_Ok in E1 as [Hm ->].
  apply SE_bind_inv in Hrun as (pair & s1 & E1 & Hrun). apply or_fail_Ok, zoom_Ok in E1 as (r & Hst & ->).
  apply SE_bind_inv in Hrun as (ts & s1 & E1 & Hrun). injection Hrun as <- <-.
  assert (u <> uuid_Nil) as Hu by (by apply token_Mint_Ok in Hm as [? _]).
  exists raw, c, pair. unfold tenantsFor in E1. destruct (memberships_wired s).
  - apply zoom_Ok in E1 as (a & Hl & ->). cbn in Hl. unfold Lister_ListForUser in Hl.
    destruct (ListForUser_run u (accounts db) Hu Hwf) as (ms & Hms & Hin).
    unfold mbind, SE_bind in Hl. rewrite Hms in Hl. injection Hl as <- <-. cbn. split_and!; try done.
    intros _ t. rewrite list_elem_of_fmap. split.
    + intros (m & -> & Hm'). apply Hin in Hm' as (row & ? & ? & ? & ?). cbn. eauto 6.
    + intros (row & at_ & ? & ? & ? & ?). exists (mkMembership (ts_TenantID t) (ts_Slug t) (ts_Name t) (ts_Role t) at_).
      cbn. split; [by destruct t|]. apply Hin. cbn. eauto.
  - injection E1 as <- <-. cbn. by split_and!.
Qed.

(** A login writes no account. *)
Lemma tenantsFor_accounts u db res db' : tenantsFor s u db = (res, db') -> db' = db.
Proof.
  unfold tenantsFor. destruct (memberships_wired s); [|by intros [= _ <-]].
  unfold zoom, Lister_ListForUser, mbind, SE_bind. destruct (ListForUser u (accounts db)) as [[ms|e] a] eqn:Hl.
  - unfold ListForUser in Hl. case_decide; [done|]. apply or_fail_Ok, WithIdentityTx_Ok in Hl. injection Hl as _ <-.
    intros [= _ <-]. apply set_accounts_same.
  - assert (a = accounts db) as -> by (unfold ListForUser in Hl; case_decide; [by injection Hl|by apply or_fail_Err in Hl as (x & _ & Hl%WithIdentityTx_Err)]).
    intros [= _ <-]. apply set_accounts_same.
Qed.

Lemma issueSession_accounts env env' u db res db' : issueSession s env env' u db = (res, db') -> accounts db' = accounts db.
Proof.
  unfold issueSession, mbind, SE_bind, or_fail, lift, zoom. destruct (Mint _ _ _) as [[raw c]|e]; [|by intros [= _ <-]].
  destruct (StartSession _ _ _ _) as [[pair|e] r]; [|by intros [= _ <-]].
  destruct (tenantsFor s u _) as [[ts|e] d] eqn:Ht; apply tenantsFor_accounts in Ht as ->; by intros [= _ <-].
Qed.

Lemma Login_accounts env env' email pw db res db' :
  DB_wf (accounts db) -> Login s env env' email pw db = (res, db') -> accounts db' = accounts db.
Proof.
  intros Hwf. destruct (Login_cases env env' email pw db Hwf) as [(u & _ & ->)|[_ ->]]; [apply issueSession_accounts|].
  by intros [= _ <-].
Qed.
End login.

(** C25: A login is decided by the account alone. When some stored user has the
    normalised address and a hash the password verifies against, the login is
    exactly the issue of a session to that user; when none has (no such
    address, a malformed one, a wrong password, a corrupt hash), the answer is one and
    the same 401 and nothing is written. *)
Theorem login_decided_by_account `{Unicode} `{UUIDLib} `{Collation} `{Argon2} `{JWT} s ttl env env' email pw db :
  DB_wf (accounts db) ->
  (forall u, opens (accounts db) email pw u -> Login s env env' email pw db = issueSession s env env' (u_ID u) db) /\
  ((forall u, ~ opens (accounts db) email pw u) ->
     handleLogin s ttl env env' (Ok (mkLogin email pw)) db = (Err unauthenticated, db)).
Proof.
  intros Hwf. split; [intros u; by apply Login_opens|]. intros Hno.
  destruct (Login_cases s env env' email pw db Hwf) as [(u & Hu & _)|[_ HL]]; [by destruct (Hno u)|].
  unfold handleLogin, failing, lift, mbind, SE_bind. cbn [login_Email login_Password]. by rewrite HL.
Qed.

(** What a successful login leaves: a new session family of the authenticated user,
    live, holding one unconsumed token, the one whose plaintext the client got;
    no account changes; and the tenants it lists are the user's memberships, with
    their roles. *)
Theorem login_session `{Unicode} `{UUIDLib} `{Collation} `{Argon2} `{JWT} s env env' email pw db sess db' :
  DB_wf (accounts db) -> Login s env env' email pw db = (Ok sess, db') ->
  exists u f, opens (accounts db) email pw u /\ s_UserID sess = u_ID u /\ accounts db' = accounts db /\
    families (sessions db) !! f = None /\
    sessions db' = Refresh.mkDB
      (<[f := mkFamily f (u_ID u) (env_now env') None]> (families (sessions db)))
      (<[HashRefreshToken (s_RefreshToken sess) :=
           mkToken (HashRefreshToken (s_RefreshToken sess)) f (u_ID u) (env_now env')
             (env_time env' + DefaultRefreshTTL) None None]> (Refresh.tokens (sessions db))) /\
    (memberships_wired s = true -> forall t, t ∈ Tenants sess <-> exists row at_,
       tenants (accounts db) !! ts_TenantID t = Some row /\ ts_Slug t = t_Slug row /\ ts_Name t = t_Name row /\
       memberships (accounts db) !! (ts_TenantID t, u_ID u) = Some (ts_Role t, at_)).
Proof.
  intros Hwf Hrun. destruct (Login_cases s env env' email pw db Hwf) as [(u & Hu & HL)|[_ HL]]; [|congruence].
  rewrite HL in Hrun. apply issueSession_Ok in Hrun as (raw & c & pair & _ & Hst & Ha & _ & Hrt & Hid & _ & Hten); [|done].
  apply StartSession_cases in Hst. cbn in Hst. destruct Hst as (_ & -> & Hf & _ & Hdb). rewrite Hrt. cbn.
  exists u, (env_id env' 0). by split_and!.
Qed.

(** ** Registering *)

Section register.
Context `{Unicode} `{Argon2Laws}.

(** A row [Create] wrote opens with any spelling of its address and any password
    that derives the same key, and stays that way as the tables grow. *)
Lemma created_row env email pw db u db1 db2 :
  Create env email pw db = (Ok u, db1) -> users db1 ⊆ users db2 ->
  exists row, users db2 !! u_ID u = Some row /\ u_ID row = u_ID u /\ NormalizeEmail email = Ok (u_Email row) /\
    u_PWHash row = HashPassword (env_rand env) pw.
Proof.
  intros Hc Hsub. apply user_Create_Ok in Hc as (He & _ & Hu & _ & _ & ->). eexists. split_and!.
  - eapply lookup_weaken, Hsub. cbn. by rewrite lookup_insert_eq.
  - done.
  - done.
  - cbn. by rewrite Hu.
Qed.

Lemma created_opens env email pw db u db1 db2 :
  Create env email pw db = (Ok u, db1) -> users db1 ⊆ users db2 ->
  exists row, u_ID row = u_ID u /\ opens db2 email pw row.
Proof.
  intros Hc Hsub. destruct (created_row _ _ _ _ _ _ _ Hc Hsub) as (row & Hr & Hid & Hn & Hp).
  exists row. split; [done|]. split_and!; [eauto|done|]. by rewrite Hp, VerifyPassword_hashed, String.eqb_refl.
Qed.
End register.

(** C26: An account answers to its password and nothing else. After [Create], whatever
    requests follow, a login under any spelling of the address that normalises alike
    issues a session to the new user when the password derives the stored key (as
    the registered one does), and is refused otherwise. *)
Theorem registered_user_logs_in `{Unicode} `{UUIDLib} `{Collation} `{Argon2Laws} `{JWT}
    s env env1 env2 email pw email' q db u db1 db2 :
  DB_wf db -> Create env email pw db = (Ok u, db1) -> rtc Tenant.step db1 (accounts db2) ->
  NormalizeEmail email' = NormalizeEmail email ->
  let salt := fresh_salt (env_rand env) in
  Login s env1 env2 email' q db2 =
    (if String.eqb (derive salt q) (derive salt pw) then issueSession s env1 env2 (u_ID u) db2
     else (Err (Sentinel ErrUnauthorized), db2)) /\
  Login s env1 env2 email' pw db2 = issueSession s env1 env2 (u_ID u) db2.
Proof.
  intros Hwf Hc Hsteps Hn salt.
  pose proof (user_Create_wf _ _ _ _ _ _ Hc Hwf) as [Hwf1 _].
  pose proof (tenant_steps_wf _ _ Hsteps Hwf1) as [Hwf2 (_ & Hsub & _)].
  assert (forall q, Login s env1 env2 email' q db2 =
    if String.eqb (derive salt q) (derive salt pw) then issueSession s env1 env2 (u_ID u) db2
    else (Err (Sentinel ErrUnauthorized), db2)) as HL; [|split; [done|by rewrite HL, String.eqb_refl]].
  clear q. intros q. destruct (created_row _ _ _ _ _ _ _ Hc Hsub) as (row & Hr & Hid & He & Hp).
  rewrite <- Hn in He. unfold Login, zoom. rewrite (ByEmail_row _ _ _ _ Hwf2 Hr He), Hp, VerifyPassword_hashed.
  fold salt. rewrite set_accounts_same, Hid. by destruct (String.eqb _ _).
Qed.

(** What a registration leaves behind. When it is answered 201 the tables hold exactly
    one new user, one new tenant and one membership that makes the user its owner, with
    or without a session. When it fails, either nothing was written, or the user alone
    was: it has no tenant, no session was started, and it can log in. *)
Theorem handleRegister_effect `{Unicode} `{UUIDLib} `{Collation} `{Argon2Laws} `{JWT} s ttl calls req db res db' :
  DB_wf (accounts db) -> handleRegister s ttl calls (Ok req) db = (res, db') ->
  match res with
  | Ok _ => exists u t at_, opens (accounts db') (reg_Email req) (reg_Password req) u /\
      users (accounts db) !! u_ID u = None /\ tenants (accounts db) !! t_ID t = None /\
      t_Name t = registerTenantName req /\ (reg_TenantSlug req <> "" -> t_Slug t = reg_TenantSlug req) /\
      accounts db' = mkDB (<[t_ID t := mkTenant (t_ID t) (t_Slug t) (t_Name t) at_]> (tenants (accounts db)))
        (<[u_ID u := u]> (users (accounts db))) (<[(t_ID t, u_ID u) := (RoleOwner, at_)]> (memberships (accounts db)))
  | Err _ => sessions db' = sessions db /\
      (accounts db' = accounts db \/
       exists u, opens (accounts db') (reg_Email req) (reg_Password req) u /\ users (accounts db) !! u_ID u = None /\
         (forall t, memberships (accounts db') !! (t, u_ID u) = None) /\
         accounts db' = mkDB (tenants (accounts db)) (<[u_ID u := u]> (users (accounts db))) (memberships (accounts db)))
  end.
Proof.
  intros Hwf Hrun. unfold handleRegister, mbind, SE_bind, failing at 1, lift in Hrun.
  unfold failing at 1, zoom at 1 in Hrun.
  destruct (Create _ _ _ _) as [[u|e] a1] eqn:Hc in Hrun.
  2:{ apply user_Create_Err in Hc as ->. injection Hrun as <- <-. rewrite set_accounts_same. auto. }
  destruct (user_Create_wf _ _ _ _ _ _ Hc Hwf) as [Hwf1 _].
  pose proof (user_Create_Ok _ _ _ _ _ _ Hc) as (_ & _ & _ & Hfree & _ & Ha1).
  set (row := mkUser (u_ID u) (u_Email u) (u_PWHash u) (env_now (calls 0%nat))) in *.
  assert (forall a, users a1 ⊆ users a -> DB_wf a -> opens a (reg_Email req) (reg_Password req) row) as Hopen.
  { intros a Hsub Hwfa. destruct (created_row _ _ _ _ _ _ _ Hc Hsub) as (v & Hv & _ & Hn & Hp).
    assert (v = row) as ->.
    { assert (users a !! u_ID u = Some row) by (eapply lookup_weaken, Hsub; rewrite Ha1; cbn; by rewrite lookup_insert_eq).
      congruence. }
    split_and!; [eauto|done|]. by rewrite Hp, VerifyPassword_hashed, String.eqb_refl. }
  unfold failing, zoom in Hrun. change (accounts (set_accounts a1 db)) with a1 in Hrun.
  destruct (createTenantWithUniqueSlug _ _ _ _ _ _ _ a1) as [[t|e] a2] eqn:Ht in Hrun;
    destruct (step_wf _ _ (step_create _ _ _ _ _ _ _ _ _ _ Ht) Hwf1) as [Hwf2 (_ & Hsub2 & _)]; apply createTenant_cases in Ht.
  - destruct Ht as (at_ & Htid & Htn & Hts & Hslug & _ & Ha2).
    unfold first_login in Hrun.
    assert (exists r, res = Ok r /\ accounts db' = a2) as (r & -> & Hacc).
    { destruct (Login s _ _ _ _ _) as [[sess|e] d] eqn:HL in Hrun; apply Login_accounts in HL; try done;
        injection Hrun as <- <-; eauto. }
    rewrite Hacc. exists row, t, at_. split_and!; [by apply Hopen|done|by rewrite Ha1 in Htid|done|done|].
    rewrite Ha2, Ha1, Htn. done.
  - injection Hrun as <- <-. split; [done|]. right. exists row. subst a2.
    split_and!; [by apply Hopen|done| |done]. intros t. rewrite Ha1. by apply ( fresh_user_no_members (accounts db)).
Qed.

(** ** What a session may do *)

Lemma elem_of_sort_perms p l : p ∈ sort_perms l <-> p ∈ l.
Proof.
  assert (forall q l, p ∈ insert_perm q l <-> p = q \/ p ∈ l) as Hins.
  { intros q k. induction k as [|r k IH]; cbn; [set_solver|].
    case_match; rewrite !elem_of_cons; [done|]. rewrite IH. tauto. }
  induction l as [|q l IH]; cbn; [done|]. by rewrite Hins, IH, elem_of_cons.
Qed.

Lemma elem_of_Perms p r : p ∈ Perms r <-> Can r p = true.
Proof.
  unfold Perms, Can. destruct (rolePerms !! r) as [ps|]; [|by rewrite elem_of_nil].
  by rewrite elem_of_sort_perms, elem_of_elements, bool_decide_eq_true.
Qed.

Lemma uuid_String_inj `{UUIDLaws} (a b : uuid) : uuid_String a = uuid_String b -> a = b.
Proof. intros He. apply (f_equal uuid_Parse) in He. rewrite !uuid_Parse_String in He. by injection He. Qed.

Lemma guarded_route_key `{Unicode} `{UUIDLib} perm p path tid db :
  Method p = MethodAPIKey -> Authz.TenantID p <> uuid_Nil -> CredentialID p <> uuid_Nil -> uuid_Parse path = Some tid ->
  is_ok (guarded_route perm (Some p) path db).1 = true <-> tid = Authz.TenantID p /\ perm ∈ Scopes p.
Proof.
  intros Hm Ht Hc Hp. unfold guarded_route, ResolveTenant, mbind, SE_bind. rewrite Hp, decide_True by done.
  case_decide as Heq; [|cbn; split; [done|intros [-> _]; done]]. rewrite Heq in Ht.
  unfold NewScope, NewMachineAuthorized, Scope_Valid. rewrite decide_False, bool_decide_eq_true_2 by done.
  cbn [negb]. rewrite decide_False by done. cbn. unfold lift, Require_. rewrite <- (Allows_key p perm Hm).
  destruct (Allows p perm); cbn; split; intuition.
Qed.

(** A request of the principal gets through the gate of the tenant and its permission check. *)
Definition passes `{Unicode} `{UUIDLib} (p : Principal) (tid : uuid) (perm : Perm) (db : DB) : Prop :=
  is_ok (guarded_route perm (Some p) (uuid_String tid) db).1 = true.

(** C27: What [/v1/me] reports is what the gate enforces. For a session, the permissions
    listed under a tenant are exactly those with which the session's requests pass
    the gate of that tenant, and a tenant that is not listed admits none; for an API
    key, exactly the reported permissions pass, at the reported tenant only. *)
Theorem me_reports_the_gate `{Unicode} `{UUIDLaws} `{Collation} p db tid perm :
  DB_wf db -> tid <> uuid_Nil ->
  (Method p = MethodJWT -> Authz.UserID p <> uuid_Nil ->
     exists me rows, handleMe (Some p) db = (Ok me, db) /\ me_tenants me = Some rows /\
       (passes p tid perm db <-> exists row, row ∈ rows /\ js_TenantID row = uuid_String tid /\ perm ∈ js_Permissions row)) /\
  (Method p = MethodAPIKey -> Authz.TenantID p <> uuid_Nil -> CredentialID p <> uuid_Nil ->
     exists me perms, handleMe (Some p) db = (Ok me, db) /\ me_permissions me = Some perms /\
       (passes p tid perm db <-> me_tenant_id me = Some (uuid_String tid) /\ perm ∈ perms)).
Proof.
  intros Hwf Ht. unfold passes, handleMe. split.
  - intros Hm Hu. rewrite Hm, decide_False, decide_True by done.
    destruct (ListForUser_run (Authz.UserID p) db Hu Hwf) as (ms & Hms & Hin).
    unfold mbind, SE_bind, failing. rewrite Hms. do 2 eexists. split_and!; [reflexivity..|].
    rewrite (guarded_route_human perm p _ tid) by (done || apply uuid_Parse_String). split.
    + intros Hc. destruct (memberships db !! _) as [[r at_]|] eqn:Hmem; [|done].
      destruct (wf_member _ Hwf _ _ _ _ Hmem) as (_ & [row Hrow] & _).
      eexists. rewrite list_elem_of_fmap. split_and!.
      * exists (mkMembership tid (t_Slug row) (t_Name row) r at_). split; [reflexivity|]. apply Hin. cbn. eauto.
      * done.
      * cbn. unfold rolePermStrings. rewrite permStrings_id. by apply elem_of_Perms.
    + intros (row & Hr & Hid & Hp). apply list_elem_of_fmap in Hr as (m & -> & Hm').
      cbn in Hid, Hp. apply uuid_String_inj in Hid. apply Hin in Hm' as (_ & _ & _ & _ & Hmem). rewrite Hid in Hmem.
      rewrite Hmem. unfold rolePermStrings in Hp. rewrite permStrings_id in Hp. by apply elem_of_Perms.
  - intros Hm Hten Hc. rewrite decide_True by done. do 2 eexists. split_and!; [reflexivity..|]. cbn.
    rewrite (guarded_route_key perm p _ tid) by (done || apply uuid_Parse_String).
    unfold permissionInfo. rewrite Hm, decide_False, decide_True by done. rewrite permStrings_id.
    split; [by intros [-> ?]|]. intros [[= He%uuid_String_inj] ?]. done.
Qed.

(** ** Witnesses *)

Module AccountDemo.
#[local] Existing Instance DemoUnicode.
#[local] Existing Instance DemoUUID.lib.
#[local] Existing Instance DemoUUID.laws.
#[local] Existing Instance PasswordDemo.argon2.
#[local] Existing Instance PasswordDemo.argon2_laws.
#[local] Existing Instance TokenDemo.jwt.
#[local] Instance by_bytes : Collation := {| text_leb := String.leb |}.

Definition service : Service := mkService TokenDemo.demo_issuer true "".
Definition call (n : nat) : Env :=
  mkEnv (1000 + Z.of_nat n) (1000 + Z.of_nat n) (fun k => N.of_nat (100 * S n + k)) (fun k => N.of_nat (9000 + k)) (fun k => Z.of_nat (n + k)) "req".
Definition db0 : AuthDB := mkAuthDB Tenant.empty_DB Refresh.empty_DB.
Definition req : registerRequest := mkRegister "  Ada@Example.com " "correct horse battery" "" "".
Definition registered := handleRegister service 600 call (Ok req) db0.

Lemma handleRegister_effect_witness :
  exists u, opens (accounts registered.2) "  Ada@Example.com " "correct horse battery" u.
Proof.
  pose proof (handleRegister_effect service 600 call req db0 registered.1 registered.2
    tenant_empty_wf (surjective_pairing registered)) as He.
  assert (is_ok registered.1 = true) as Hok by (vm_compute; reflexivity).
  destruct registered.1 as [r|e]; [|done]. destruct He as (u & t & at_ & Hu & _). by exists u.
Defined.

Definition created := Create (call 0) "Ada@Example.com" "correct horse battery" Tenant.empty_DB.
Definition ada : User := mkUser 100%N "ada@example.com" (HashPassword (fun k => Z.of_nat k) "correct horse battery") 0.
Definition db1 : AuthDB := mkAuthDB created.2 Refresh.empty_DB.

Lemma created_ok : created = (Ok ada, created.2).
Proof. vm_compute. reflexivity. Qed.

Lemma db1_wf : DB_wf (accounts db1).
Proof. exact (proj1 (user_Create_wf _ _ _ _ _ _ created_ok tenant_empty_wf)). Qed.

Lemma registered_user_logs_in_witness :
  Login service (call 7) (call 8) " ADA@example.com" "wrong horse battery" db1 = (Err (Sentinel ErrUnauthorized), db1) /\
  Login service (call 7) (call 8) " ADA@example.com" "correct horse battery" db1 =
    issueSession service (call 7) (call 8) 100%N db1.
Proof.
  pose proof (registered_user_logs_in service (call 0) (call 7) (call 8) "Ada@Example.com" "correct horse battery"
    " ADA@example.com" "wrong horse battery" Tenant.empty_DB ada created.2 db1 tenant_empty_wf created_ok
    (rtc_refl _ _) ltac:(vm_compute; reflexivity)) as [H1 H2].
  split; [rewrite H1; vm_compute; reflexivity|exact H2].
Defined.

Lemma login_decided_by_account_witness :
  handleLogin service 600 (call 7) (call 8) (Ok (mkLogin "bob" "correct horse battery")) db1 = (Err unauthenticated, db1).
Proof.
  apply (proj2 (login_decided_by_account service 600 (call 7) (call 8) "bob" "correct horse battery" db1 db1_wf)).
  intros u (_ & Hn & _). by vm_compute in Hn.
Defined.

Definition logged_in := Login service (call 7) (call 8) "ada@example.com" "correct horse battery" db1.

Lemma login_session_witness :
  exists u f, opens (accounts db1) "ada@example.com" "correct horse battery" u /\
    families (sessions logged_in.2) !! f = Some (mkFamily f (u_ID u) 1008 None).
Proof.
  assert (is_ok logged_in.1 = true) as Hok by (vm_compute; reflexivity).
  destruct logged_in as [[sess|e] d] eqn:E; [|done].
  destruct (login_session service (call 7) (call 8) "ada@example.com" "correct horse battery" db1 sess d db1_wf E)
    as (u & f & Hu & _ & _ & _ & Hs & _).
  exists u, f. split; [exact Hu|]. cbn [snd]. rewrite Hs. cbn [families]. by rewrite lookup_insert_eq.
Defined.

Lemma demo_wf : DB_wf TenantDemo.db1.
Proof.
  apply (tenant_steps_wf Tenant.empty_DB); [|apply tenant_empty_wf]. apply rtc_once.
  apply (step_register TenantDemo.env0 TenantDemo.acme TenantDemo.ada RoleOwner (Ok tt)). vm_compute. reflexivity.
Qed.

Lemma me_reports_the_gate_witness :
  exists me rows, handleMe (Some TenantDemo.ada_jwt) TenantDemo.db1 = (Ok me, TenantDemo.db1) /\ me_tenants me = Some rows /\
    (is_ok (guarded_route PermTenantManage (Some TenantDemo.ada_jwt) "5" TenantDemo.db1).1 = true <->
     exists row, row ∈ rows /\ js_TenantID row = "5" /\ PermTenantManage ∈ js_Permissions row).
Proof.
  by apply (proj1 (me_reports_the_gate TenantDemo.ada_jwt TenantDemo.db1 5%N PermTenantManage demo_wf ltac:(done))).
Defined.
(** A first tenant named after a long address breaks the limit on names: the request
    fails, the account stays, and asking again reports a conflict. *)
Definition long_address : string := of_bytes (replicate 200 97) +:+ "@x.io".
Definition long_req : registerRequest := mkRegister long_address "correct horse battery" "" "".
Example long_address_keeps_no_tenant :
  let first := handleRegister service 600 call (Ok long_req) db0 in
  let second := handleRegister service 600 (fun n => call (n + 10)) (Ok long_req) first.2 in
  first.1 = Err (mkProblem 400 "validation_failed" "tenant: name must be 1..200 characters" None) /\
  is_Some (users (accounts first.2) !! 100%N) /\ tenants (accounts first.2) = ∅ /\
  Status <$> (match second.1 with Err p => Some p | Ok _ => None end) = Some 409.
Proof. vm_compute. split_and!; eauto. Qed.
End AccountDemo.
