(* ===== verification/Bearer.v ===== *)
(** * A session's request

    From the token a login mints to the tenant's handler: the Authorization header,
    the middleware ([ApiKey.Middleware] with [Token.Parse]) and the gate
    ([Tenant.guarded_route]). *)

From S2P Require Import Prelude Apperr Encoding Ids Db Authz Password Token Refresh Render Tenant ApiKey Account AccountProps.

(** [TokenIssuer.Parse] as the middleware uses it: the subject. *)
Definition subject `{UUIDLib} `{JWT} (i : TokenIssuer) (now : gotime) (raw : string) : go_result uuid :=
  c ← Parse i now raw; Ok (Token.UserID c).

Definition session_principal (u : uuid) : Principal := mkPrincipal u uuid_Nil "" [] MethodJWT uuid_Nil.

(** The header a client sends parses to the token it was given. *)
Lemma parseAuthorization_Bearer `{Unicode} raw :
  str_forall visible_b raw = true -> raw <> "" ->
  parseAuthorization ("Bearer " +:+ raw) = Some (schemeBearer, raw).
Proof.
  intros Hv Hne. unfold parseAuthorization. rewrite decide_False by done.
  change ("Bearer " +:+ raw) with ("Bearer" +:+ " " +:+ raw). rewrite trim_space_words by done.
  change (cut_str " " ("Bearer" +:+ " " +:+ raw)) with (Some ("Bearer", raw)).
  cbv iota beta. rewrite (trim_space_visible raw), decide_False by done.
  change (to_lower (trim_space "Bearer")) with schemeBearer. by rewrite decide_True by (by left).
Qed.

(** C7: A session's request, end to end. A token minted for a user and sent back within
    its window reaches a tenant's handler exactly when, in the tables as they are when
    the request is served, the user has a membership there whose role grants the
    route's permission: nothing the token carries decides it. The same header outside
    the window is a 401. *)
Theorem session_request_decided_by_membership `{Unicode} `{UUIDLaws} `{JWTLaws} `{TimeJSON}
    i j env envm u raw c now mid kdb :
  secret j = secret i -> issuer j = issuer i -> audience j = audience i ->
  Token.Mint i env u = Ok (raw, c) ->
  in_int64 (env_time env / 1000000000) -> in_int64 ((env_time env + ttl i) / 1000000000) ->
  let live := env_time env / 1000000000 * 1000000000 - leeway j <= now <
                (env_time env + ttl i) / 1000000000 * 1000000000 + leeway j in
  let served := Middleware envm (subject j now) mid ("Bearer " +:+ raw) kdb in
  (live -> served = (Ok (Some (session_principal u)), kdb) /\
     forall tables tid perm, Tenant.DB_wf tables -> tid <> uuid_Nil ->
       is_ok (guarded_route perm (Some (session_principal u)) (uuid_String tid) tables).1 =
         match memberships tables !! (tid, u) with Some (r, _) => Can r perm | None => false end) /\
  (~ live -> served = (Err (mkProblem 401 "unauthorized" "invalid credentials" None), kdb)).
Proof.
  intros Hs Hi Ha Hm Ht He live served. pose proof (Parse_minted i j env u raw c now Hs Hm) as Hp.
  unfold accepts, Unix in Hp. rewrite Hi, Ha, !String.eqb_refl, !andb_true_r, !wrap64_id in Hp by done.
  apply Token.token_Mint_Ok in Hm as (Hu & _ & _ & ->).
  unfold served, Middleware.
  rewrite parseAuthorization_Bearer by (apply SignedString_visible || apply SignedString_nonempty).
  rewrite decide_True by done. unfold PrincipalForAccessToken, subject, mbind, result_bind.
  destruct (_ && _) eqn:E in Hp.
  - apply andb_true_iff in E as [E1%Z.ltb_lt E2%Z.leb_le]. split; [intros _|intros Hn; by destruct Hn].
    rewrite Hp. cbn. split; [done|]. intros tables tid perm Hwf Hz.
    apply guarded_route_human; try done. apply uuid_Parse_String.
  - destruct Hp as (e & -> & _). split; [|done]. intros [L1 L2]. exfalso.
    apply andb_false_iff in E as [E%Z.ltb_ge|E%Z.leb_gt]; lia.
Qed.

Module BearerDemo.
#[local] Existing Instance DemoUnicode.
#[local] Existing Instance DemoUUID.lib.
#[local] Existing Instance DemoUUID.laws.
#[local] Existing Instance TokenDemo.jwt.
#[local] Existing Instance TokenDemo.jwt_laws.
#[local] Instance demo_time : TimeJSON := {| time_json t := JNum t |}.

Definition minted := Token.Mint TokenDemo.demo_issuer TokenDemo.demo_env 11%N.

Lemma session_request_decided_by_membership_witness :
  exists raw,
    Middleware TokenDemo.demo_env (subject TokenDemo.demo_issuer 605999999999) id ("Bearer " +:+ raw) ApiKey.empty_DB
      = (Ok (Some (session_principal 11%N)), ApiKey.empty_DB) /\
    is_ok (guarded_route PermInvoiceSettle (Some (session_principal 11%N)) "5" TenantDemo.db1).1 = true.
Proof.
  destruct minted as [[raw c]|e] eqn:Hm; [|done]. exists raw.
  pose proof (session_request_decided_by_membership TokenDemo.demo_issuer TokenDemo.demo_issuer TokenDemo.demo_env
    TokenDemo.demo_env 11%N raw c 605999999999 id ApiKey.empty_DB eq_refl eq_refl eq_refl Hm
    ltac:(by vm_compute; split) ltac:(by vm_compute; split)) as [Hlive _].
  destruct (Hlive ltac:(split; vm_compute; congruence)) as [Hs Hg]. split; [exact Hs|].
  etrans; [exact (Hg TenantDemo.db1 5%N PermInvoiceSettle AccountDemo.demo_wf ltac:(done))|vm_compute; reflexivity].
Defined.
End BearerDemo.
