(* ===== verification/Project.v ===== *)
(** * Projects

    [internal/project] over the table of migrations 0004 and 0005. An update and an archive read the row before
    they write it; under READ COMMITTED other sessions can commit in between, which is
    the argument [mid]. Foreign keys to tenants, users and keys are taken as satisfied:
    the caller is authorized. *)

From S2P Require Import Prelude Apperr Ids Cursor Db Authz Slug Tenant Paging Render.
From S2P Require AuditLog.

Definition DefaultPageSize : Z := 20.
Definition MaxPageSize : Z := 100.
Definition MaxInt32 : Z := 2147483647.

Record Project := mkProject {
  ID : uuid;
  TenantID : uuid;
  Name : string;
  p_Slug : string;
  Description : string;
  Version : Z;
  CreatedBy : option uuid;
  CreatedByKey : option uuid;
  CreatedAt : gotime;
  UpdatedAt : gotime;
  ArchivedAt : option gotime;
}.

Definition Archived (p : Project) : bool := bool_decide (is_Some (ArchivedAt p)).

(** [Project{}] *)
Definition zero_time : gotime := -62135596800 * 1000000000.
Definition zero_project : Project :=
  mkProject uuid_Nil uuid_Nil "" "" "" 0 None None zero_time zero_time None.

Record CreateInput := mkCreateInput { in_Name : string; in_Description : string; in_Slug : string }.
Record UpdateInput := mkUpdateInput {
  up_Name : option string;
  up_Description : option string;
  ExpectedVersion : Z;
}.
Record ListFilter := mkListFilter { IncludeArchived : bool }.

Definition bindingFilter (f : ListFilter) : string := "archived=" +:+ (if IncludeArchived f then "true" else "false").

Definition NormalizePageSize (requested : Z) : Z :=
  if requested <=? 0 then DefaultPageSize else if MaxPageSize <? requested then MaxPageSize else requested.

Definition validateName (raw : string) : go_result string :=
  let name := trim_space raw in
  if bool_decide (name = "") || (200 <? slen name) then Err (Invalid "name" "must be between 1 and 200 characters")
  else Ok name.

Definition validateDescription (d : string) : go_result unit :=
  if 2000 <? slen d then Err (Invalid "description" "must be at most 2000 characters") else Ok tt.

(** [rand] is what a derived slug draws. *)
Definition validateCreate `{Unicode} (rand : nat -> Z) (i : CreateInput) : go_result CreateInput :=
  name ← validateName (in_Name i);
  _ ← validateDescription (in_Description i);
  let slug := if decide (in_Slug i = "") then Slugify rand name else in_Slug i in
  if negb (slugPattern slug)
  then Err (Invalid "slug"
         "must be 2-63 characters of lowercase letters, digits, and single hyphens, and must not start with a hyphen")
  else Ok (mkCreateInput name (in_Description i) slug).

(** ** Tables *)

Record DB := mkDB {
  projects : gmap uuid Project;
  audit_log : AuditLog.Table;
}.
Definition empty_DB : DB := mkDB ∅ [].
Definition set_projects (x : gmap uuid Project) (db : DB) : DB := mkDB x (audit_log db).
Definition set_audit (x : AuditLog.Table) (db : DB) : DB := mkDB (projects db) x.

(** The CHECK constraints of migrations 0004 and 0005. *)
Definition project_check (p : Project) : bool :=
  (1 <=? char_length (Name p)) && (char_length (Name p) <=? 200) && slugPattern (p_Slug p) &&
  (char_length (Description p) <=? 2000) && (0 <? Version p) &&
  xorb (bool_decide (is_Some (CreatedBy p))) (bool_decide (is_Some (CreatedByKey p))).

(** [projects_tenant_slug_live_idx] *)
Definition live_slug (t : uuid) (slug : string) (db : DB) : bool :=
  existsb (fun p => bool_decide (TenantID p = t /\ p_Slug p = slug) && negb (Archived p)) (map_to_list (projects db)).*2.

Definition insert_project (g : Settings) (p : Project) : SE DB err Project := fun db =>
  if negb (tenant_is g (TenantID p)) then (Err rls_violation, db)
  else if negb (project_check p) then (Err (check_violation "projects"), db)
  else if bool_decide (is_Some (projects db !! ID p)) || live_slug (TenantID p) (p_Slug p) db
  then (Err (unique_violation "projects"), db)
  else (Ok p, set_projects (<[ID p := p]> (projects db)) db).

(** SELECT ... WHERE id = $1 AND tenant_id = $2, under the policy. *)
Definition find_project (g : Settings) (t : uuid) (id : uuid) (db : DB) : option Project :=
  match projects db !! id with
  | Some p => if tenant_is g (TenantID p) && bool_decide (TenantID p = t) then Some p else None
  | None => None
  end.

(** UPDATE ... RETURNING on the row [find_project] sees, when it also satisfies
    [cond]; [Ok None] is zero rows. *)
Definition update_project (g : Settings) (t id : uuid) (cond : Project -> bool) (f : Project -> Project)
    : SE DB err (option Project) := fun db =>
  match find_project g t id db with
  | Some p =>
      if negb (cond p) then (Ok None, db)
      else if MaxInt32 <? Version (f p) then (Err numeric_out_of_range, db)
      else if negb (project_check (f p)) then (Err (check_violation "projects"), db)
      else (Ok (Some (f p)), set_projects (<[id := f p]> (projects db)) db)
  | None => (Ok None, db)
  end.

Section store.
Context `{Unicode} `{UUIDLib} `{TimeJSON} (env : Env).

Definition auditImage (p : Project) : json :=
  JObj [("id", JStr (uuid_String (ID p))); ("name", JStr (Name p)); ("slug", JStr (p_Slug p));
        ("description", JStr (Description p)); ("version", JNum (Version p)); ("archived_at", json_opt_time (ArchivedAt p))].

(** [id] is the entry's identifier. *)
Definition auditProject (g : Settings) (id : uuid) (a : Authorized) (action : string) (p : Project)
    (before after : option json) : SE DB err unit :=
  actor ← lift (AuditLog.ActorFromAuthorized a);
  zoom audit_log set_audit
    (AuditLog.Write env g id
       (AuditLog.mkEntry (TenantID p) actor.1 actor.2 action "project" (Some (ID p)) before after (env_reqid env))).

(** The failure of a create; the message quotes the slug of the project scanned from
    the insert, which is empty when the insert is what failed. *)
Definition create_fail (slug : string) (e : err) : err :=
  if IsUniqueViolation e
  then Wrapf ("a project with the slug " +:+ fmt_q slug +:+ " already exists in this tenant: conflict") (Sentinel ErrConflict)
  else Wrapf ("create project: " +:+ error_text e) e.

Definition new_project (a : Authorized) (i : CreateInput) : Project :=
  mkProject (env_id env 0) (scope a) (in_Name i) (in_Slug i) (in_Description i) 1
    (if IsMachine a then None else Some (userID a)) (if IsMachine a then Some (keyID a) else None)
    (env_now env) (env_now env) None.

Definition Create (a : Authorized) (i : CreateInput) : SE DB err Project :=
  if negb (Valid a) then throw (Sentinel ErrNoScope)
  else
    validated ← lift (validateCreate (env_rand env) i);
    WithIdentityTx (Identity_of a) (fun g =>
      p ← or_fail (insert_project g (new_project a validated)) (create_fail "");
      _ ← or_fail (auditProject g (env_id env 1) a AuditLog.ActionProjectCreate p None (Some (auditImage p)))
            (create_fail (p_Slug p));
      mret p).

Definition Get (a : Authorized) (id : uuid) : SE DB err Project :=
  if negb (Valid a) then throw (Sentinel ErrNoScope)
  else if decide (id = uuid_Nil) then throw (Sentinel ErrNotFound)
  else or_fail
    (WithIdentityTx (Identity_of a) (fun g db =>
       (match find_project g (scope a) id db with Some p => Ok p | None => Err (Sentinel PgxErrNoRows) end, db)))
    (fun e => if Is e PgxErrNoRows then Sentinel ErrNotFound else Wrapf ("get project: " +:+ error_text e) e).

(** The transaction after the first read, over the tables as they are then. *)
Definition edited (name desc : option string) (p : Project) : Project :=
  mkProject (ID p) (TenantID p) (default (Name p) name) (p_Slug p) (default (Description p) desc) (Version p + 1)
    (CreatedBy p) (CreatedByKey p) (CreatedAt p) (env_now env) (ArchivedAt p).

Definition retired (p : Project) : Project :=
  mkProject (ID p) (TenantID p) (Name p) (p_Slug p) (Description p) (Version p + 1)
    (CreatedBy p) (CreatedByKey p) (CreatedAt p) (env_now env) (Some (env_now env)).

(** [before] is the row the first read returned. *)
Definition write_project (g : Settings) (a : Authorized) (id : uuid) (verb action : string) (before : Project)
    (cond : Project -> bool) (f : Project -> Project) : SE DB err (option Project) :=
  updated ← or_fail (update_project g (scope a) id cond f) (fun e => Wrapf (verb +:+ " project: " +:+ error_text e) e);
  match updated with
  | None => mret None
  | Some p =>
      _ ← auditProject g (env_id env 0) a action p (Some (auditImage before)) (Some (auditImage p));
      mret (Some p)
  end.

(** Why an update matched no row. *)
Definition classify (g : Settings) (a : Authorized) (id : uuid) (expected : Z) (db : DB) : err :=
  match find_project g (scope a) id db with
  | None => Sentinel ErrNotFound
  | Some p =>
      if Archived p then Sentinel ErrNotFound
      else Wrapf ("this project was modified by someone else (expected version " +:+ dec expected +:+
                  ", current version " +:+ dec (Version p) +:+ "); re-read it and retry: version conflict")
             (Sentinel ErrVersionConflict)
  end.

(** [mid] is what other sessions commit between the first read and the UPDATE,
    [mid2] between an UPDATE of no row and the read that explains it. *)
Definition Update (mid mid2 : DB -> DB) (a : Authorized) (id : uuid) (i : UpdateInput) : SE DB err Project := fun db =>
  if negb (Valid a) then (Err (Sentinel ErrNoScope), db)
  else if decide (id = uuid_Nil) then (Err (Sentinel ErrNotFound), db)
  else if ExpectedVersion i <=? 0 then (Err (Invalid "expected_version" "must be a positive integer"), db)
  else match (match up_Name i with None => Ok None | Some n => name ← validateName n; Ok (Some name) end) with
  | Err e => (Err e, db)
  | Ok name =>
      match (match up_Description i with None => Ok tt | Some d => validateDescription d end) with
      | Err e => (Err e, db)
      | Ok _ =>
          let g := settings_of (Identity_of a) in
          let before := default zero_project (find_project g (scope a) id db) in
          let cond p := (Version p =? ExpectedVersion i) && negb (Archived p) in
          if MaxInt32 <? ExpectedVersion i
          then (Err (Wrapf "update project: integer out of range" numeric_out_of_range), mid db)
          else match BeginFunc (write_project g a id "update" AuditLog.ActionProjectUpdate before cond
                             (edited name (up_Description i))) (mid db) with
          | (Err e, db') => (Err e, db')
          | (Ok (Some p), db') => (Ok p, db')
          | (Ok None, db') => let db'' := mid2 db' in (Err (classify g a id (ExpectedVersion i) db''), db'')
          end
      end
  end.

Definition Archive (mid mid2 : DB -> DB) (a : Authorized) (id : uuid) : SE DB err unit := fun db =>
  if negb (Valid a) then (Err (Sentinel ErrNoScope), db)
  else if decide (id = uuid_Nil) then (Err (Sentinel ErrNotFound), db)
  else
    let g := settings_of (Identity_of a) in
    let before := default zero_project (find_project g (scope a) id db) in
    match BeginFunc (write_project g a id "archive" AuditLog.ActionProjectArchive before
                       (fun p => negb (Archived p)) retired) (mid db) with
    | (Err e, db') => (Err e, db')
    | (Ok (Some _), db') => (Ok tt, db')
    | (Ok None, db') =>
        let db'' := mid2 db' in
        match find_project g (scope a) id db'' with
        | None => (Err (Sentinel ErrNotFound), db'')
        | Some p => if Archived p then (Ok tt, db'') else (Err (Sentinel ErrNotFound), db'')
        end
    end.

Definition project_key (p : Project) : Key := (CreatedAt p, ID p).

(** The rows a listing of the tenant covers. *)
Definition listed_rows (g : Settings) (t : uuid) (f : ListFilter) (db : DB) : list Project :=
  filter (fun p => tenant_is g (TenantID p) /\ TenantID p = t /\ (IncludeArchived f = true \/ ArchivedAt p = None))
    (map_to_list (projects db)).*2.

Definition List_ (a : Authorized) (f : ListFilter) (after : option Position) (limit : Z)
    : SE DB err (list Project * option Position) :=
  if negb (Valid a) then throw (Sentinel ErrNoScope)
  else
    let limit := NormalizePageSize limit in
    out ← or_fail
      (WithIdentityTx (Identity_of a) (fun g db =>
         (Ok (keyset_query project_key (listed_rows g (scope a) f db) after limit), db)))
      (fun e => Wrapf ("list projects: " +:+ error_text e) e);
    mret (cut_page project_key out limit).

Definition Binding_of (a : Authorized) (f : ListFilter) : Binding := mkBinding (scope a) "projects" (bindingFilter f).
End store.
