(* ===== verification/ProjectProps.v ===== *)
(** * Projects: invariants, histories and conflicts *)

From S2P Require Import Prelude Apperr Ids Cursor Db Authz Slug Tenant Paging Render Project.
From S2P Require AuditLog.

Section machine.
Context `{Unicode} `{UUIDLib} `{TimeJSON}.

(** The transactions a request commits. The row an update or an archive read before it
    wrote is any row: it only reaches the trail. *)
Inductive step : DB -> DB -> Prop :=
  | step_create env a i res db db' : Create env a i db = (res, db') -> step db db'
  | step_edit env a id before expected name desc res db db' :
      (forall n, name = Some n -> exists raw, validateName raw = Ok n) ->
      BeginFunc (write_project env (settings_of (Identity_of a)) a id "update" AuditLog.ActionProjectUpdate before
        (fun p => (Version p =? expected) && negb (Archived p)) (edited env name desc)) db = (res, db') -> step db db'
  | step_retire env a id before res db db' :
      BeginFunc (write_project env (settings_of (Identity_of a)) a id "archive" AuditLog.ActionProjectArchive before
        (fun p => negb (Archived p)) (retired env)) db = (res, db') -> step db db'.

(** Other sessions commit steps. *)
Definition interferes (mid : DB -> DB) : Prop := forall db, rtc step db (mid db).

(** The entries of the trail about a project. *)
Definition trail (id : uuid) (l : list AuditLog.Row) : list AuditLog.Row :=
  filter (fun r => AuditLog.r_Resource r = "project" /\ AuditLog.r_ResourceID r = Some id) l.

Record DB_wf (db : DB) : Prop := {
  wf_row : forall i p, projects db !! i = Some p -> ID p = i /\ project_check p = true;
  wf_slug : forall i j p q, projects db !! i = Some p -> projects db !! j = Some q ->
    ArchivedAt p = None -> ArchivedAt q = None -> TenantID p = TenantID q -> p_Slug p = p_Slug q -> i = j;
  wf_trail : forall i, Z.of_nat (length (trail i (audit_log db))) =
    match projects db !! i with Some p => Version p | None => 0 end;
}.

(** What never changes of a project. *)
Definition frozen (p : Project) := (ID p, TenantID p, p_Slug p, CreatedBy p, CreatedByKey p, CreatedAt p).

(** A later state of the same row: every change spends a version, and an archived
    project changes no more. *)
Definition project_le (p p' : Project) : Prop :=
  frozen p' = frozen p /\ Version p <= Version p' /\ (Version p = Version p' -> p' = p) /\ (Archived p = true -> p' = p).

#[export] Instance project_le_preorder : PreOrder project_le.
Proof.
  split; [by intros p; split_and!|]. intros a b c (F1 & V1 & S1 & A1) (F2 & V2 & S2 & A2).
  split_and!; [congruence|lia| |].
  - intros He. assert (b = a) as -> by (apply S1; lia). apply S2. lia.
  - intros Ha. pose proof (A1 Ha) as ->. by apply A2.
Qed.

Record DB_step (db db' : DB) : Prop := {
  ds_wf : DB_wf db';
  ds_rows : forall i p, projects db !! i = Some p -> exists p', projects db' !! i = Some p' /\ project_le p p';
  ds_audit : exists l, audit_log db' = audit_log db ++ l;
}.

Lemma project_DB_step_refl db : DB_wf db -> DB_step db db.
Proof. intros Hwf. split; [done|intros i p Hp; by exists p|exists []; by rewrite app_nil_r]. Qed.

Lemma project_DB_step_trans a b c : DB_step a b -> DB_step b c -> DB_step a c.
Proof.
  intros [W1 R1 [l1 A1]] [W2 R2 [l2 A2]]. split; [done| |].
  - intros i p Hp. destruct (R1 i p Hp) as (q & Hq & L1). destruct (R2 i q Hq) as (r & Hr & L2).
    exists r. split; [done|by etrans].
  - exists (l1 ++ l2). by rewrite A2, A1, app_assoc.
Qed.

Lemma project_empty_wf : DB_wf empty_DB.
Proof. split; try (intros *; by rewrite ?lookup_empty). Qed.

(** ** The writes *)

Lemma find_project_Some g t id db p :
  find_project g t id db = Some p <->
  projects db !! id = Some p /\ TenantID p = t /\ SettingTenantID g = Some t.
Proof.
  unfold find_project, tenant_is. destruct (projects db !! id) as [q|]; [|naive_solver].
  repeat case_bool_decide; cbn; naive_solver.
Qed.

Lemma audit_cases env g id a action p before after db res db' :
  auditProject env g id a action p before after db = (res, db') ->
  match res with
  | Ok _ => exists r, db' = set_audit (audit_log db ++ [r]) db /\
      AuditLog.r_Resource r = "project" /\ AuditLog.r_ResourceID r = Some (ID p) /\ AuditLog.r_Action r = action /\
      AuditLog.r_TenantID r = TenantID p /\ AuditLog.r_Before r = before /\ AuditLog.r_After r = after
  | Err _ => True
  end.
Proof.
  destruct res as [[]|e]; [|done]. unfold auditProject. intros Hrun.
  apply SE_bind_inv in Hrun as (actor & s1 & Ha & Hw). apply lift_Ok in Ha as [_ ->].
  apply zoom_Ok in Hw as (u & Hw & ->). apply AuditLog.Write_Ok in Hw as (_ & _ & -> & _). by eexists.
Qed.

Lemma update_project_cases g t id cond f db res db' :
  update_project g t id cond f db = (res, db') ->
  match res with
  | Ok (Some q) => exists p, find_project g t id db = Some p /\ cond p = true /\ q = f p /\
      project_check q = true /\ Version q <= MaxInt32 /\ db' = set_projects (<[id := q]> (projects db)) db
  | Ok None => db' = db /\ (forall p, find_project g t id db = Some p -> cond p = false)
  | Err _ => db' = db
  end.
Proof.
  unfold update_project. destruct (find_project g t id db) as [p|] eqn:Hf; [|by intros [= <- <-]].
  destruct (cond p) eqn:Hc; cbn [negb].
  2:{ intros [= <- <-]. split; [done|]. by intros q [= ->]. }
  destruct (MaxInt32 <? _) eqn:Hm; [by intros [= <- <-]|]. destruct (project_check (f p)) eqn:Hp; cbn [negb]; [|by intros [= <- <-]].
  intros [= <- <-]. exists p. apply Z.ltb_ge in Hm. done.
Qed.

(** A write of a project, whichever it is. *)
Lemma write_project_cases env g a id verb action before cond f db res db' :
  (forall p, ID (f p) = ID p) ->
  DB_wf db -> BeginFunc (write_project env g a id verb action before cond f) db = (res, db') ->
  match res with
  | Ok (Some q) => exists p r, find_project g (scope a) id db = Some p /\ cond p = true /\ q = f p /\
      project_check q = true /\
      db' = mkDB (<[id := q]> (projects db)) (audit_log db ++ [r]) /\
      AuditLog.r_Resource r = "project" /\ AuditLog.r_ResourceID r = Some id /\ AuditLog.r_Action r = action /\
      AuditLog.r_Before r = Some (auditImage before) /\ AuditLog.r_After r = Some (auditImage q)
  | Ok None => db' = db /\ (forall p, find_project g (scope a) id db = Some p -> cond p = false)
  | Err _ => db' = db
  end.
Proof.
  intros Hid Hwf Hrun. destruct res as [[q|]|e]; [| |by apply BeginFunc_Err in Hrun].
  - rewrite BeginFunc_Ok in Hrun. unfold write_project in Hrun.
    apply SE_bind_inv in Hrun as (u & s1 & Hu & Hrun). apply or_fail_Ok, update_project_cases in Hu.
    destruct u as [q'|]; [|by injection Hrun]. destruct Hu as (p & Hf & Hc & Hq & Hchk & _ & ->).
    apply SE_bind_inv in Hrun as ([] & s2 & Ha & Hret). injection Hret as -> ->.
    apply audit_cases in Ha as (r & -> & Hr1 & Hr2 & Hr3 & _ & Hr4 & Hr5).
    exists p, r. pose proof Hf as (Hp & _)%find_project_Some. rewrite Hq, Hid, (proj1 (wf_row _ Hwf _ _ Hp)) in Hr2.
    by split_and!.
  - rewrite BeginFunc_Ok in Hrun. unfold write_project in Hrun.
    apply SE_bind_inv in Hrun as (u & s1 & Hu & Hrun). apply or_fail_Ok, update_project_cases in Hu.
    destruct u as [q'|]; [|injection Hrun as <-; exact Hu].
    apply SE_bind_inv in Hrun as ([] & s2 & _ & Hret). done.
Qed.

Lemma insert_project_Ok g p db q db' :
  insert_project g p db = (Ok q, db') ->
  q = p /\ SettingTenantID g = Some (TenantID p) /\ project_check p = true /\ projects db !! ID p = None /\
  (forall j x, projects db !! j = Some x -> ArchivedAt x = None -> TenantID x = TenantID p -> p_Slug x <> p_Slug p) /\
  db' = set_projects (<[ID p := p]> (projects db)) db.
Proof.
  unfold insert_project, tenant_is. case_bool_decide; cbn [negb]; [|done]. destruct (project_check p) eqn:Hc; cbn [negb]; [|done].
  destruct (_ || _) eqn:Hu; [done|]. intros [= <- <-]. apply orb_false_iff in Hu as [Hu1 Hu2].
  apply bool_decide_eq_false, eq_None_not_Some in Hu1. split_and!; try done. intros j x Hx Ha Ht Hs.
  unfold live_slug in Hu2. rewrite existsb_false_forall in Hu2. specialize (Hu2 x).
  rewrite (bool_decide_eq_true_2 (_ /\ _)) in Hu2 by done. unfold Archived in Hu2. rewrite Ha in Hu2. cbn in Hu2.
  specialize (Hu2 ltac:(apply list_elem_of_fmap; exists (j, x); by rewrite elem_of_map_to_list)). done.
Qed.

Lemma Create_cases env a i db res db' :
  Create env a i db = (res, db') ->
  match res with
  | Ok p => exists v r, validateCreate (env_rand env) i = Ok v /\ p = new_project env a v /\ project_check p = true /\
      Valid a = true /\ projects db !! ID p = None /\
      (forall j x, projects db !! j = Some x -> ArchivedAt x = None -> TenantID x = TenantID p -> p_Slug x <> p_Slug p) /\
      db' = mkDB (<[ID p := p]> (projects db)) (audit_log db ++ [r]) /\
      AuditLog.r_Resource r = "project" /\ AuditLog.r_ResourceID r = Some (ID p) /\
      AuditLog.r_Action r = AuditLog.ActionProjectCreate /\
      AuditLog.r_Before r = None /\ AuditLog.r_After r = Some (auditImage p)
  | Err _ => db' = db
  end.
Proof.
  unfold Create. destruct (Valid a) eqn:Hv; cbn [negb]; [|by intros [= <- <-]]. intros Hrun. destruct res as [p|e].
  - apply SE_bind_inv in Hrun as (v & s1 & Hval & Hrun). apply lift_Ok in Hval as [Hval ->].
    apply WithIdentityTx_Ok in Hrun. apply SE_bind_inv in Hrun as (q & s1 & Hi & Hrun).
    apply or_fail_Ok, insert_project_Ok in Hi as (-> & _ & Hc & Hnew & Hslug & ->).
    apply SE_bind_inv in Hrun as ([] & s2 & Ha & Hret). injection Hret as <- <-.
    apply or_fail_Ok, audit_cases in Ha as (r & -> & Hr). exists v, r. destruct Hr as (? & ? & ? & _ & ? & ?). by split_and!.
  - unfold mbind, SE_bind at 1, lift in Hrun. destruct (validateCreate _ i); [|by injection Hrun].
    by apply WithIdentityTx_Err in Hrun.
Qed.

(** ** Each step *)

Lemma trail_app i l l' : trail i (l ++ l') = trail i l ++ trail i l'.
Proof. apply filter_app. Qed.

Lemma trail_one i j r : AuditLog.r_Resource r = "project" -> AuditLog.r_ResourceID r = Some j ->
  Z.of_nat (length (trail i [r])) = if decide (i = j) then 1 else 0.
Proof. intros Hr Hj. unfold trail. rewrite filter_cons, Hr, Hj. repeat case_decide; cbn; naive_solver. Qed.

(** Storing a row and its entry keeps the tables well formed. *)
Lemma stored_wf db i q r :
  DB_wf db -> ID q = i -> project_check q = true ->
  (ArchivedAt q = None -> forall j x, j <> i -> projects db !! j = Some x -> ArchivedAt x = None ->
     TenantID x = TenantID q -> p_Slug x <> p_Slug q) ->
  Version q = match projects db !! i with Some p => Version p | None => 0 end + 1 ->
  AuditLog.r_Resource r = "project" -> AuditLog.r_ResourceID r = Some i ->
  DB_wf (mkDB (<[i := q]> (projects db)) (audit_log db ++ [r])).
Proof.
  intros Hwf Hid Hchk Hslug Hver Hr1 Hr2. split; cbn -[trail].
  - intros j x [[<- <-]|[_ Hx]]%lookup_insert_Some; [done|by apply (wf_row _ Hwf)].
  - intros j k x y [[<- <-]|[Hj Hx]]%lookup_insert_Some [[<- <-]|[Hk Hy]]%lookup_insert_Some Ax Ay Ht Hs; [done|..].
    + by destruct (Hslug Ax k y).
    + by destruct (Hslug Ay j x).
    + by apply (wf_slug _ Hwf _ _ x y).
  - intros j. rewrite trail_app, length_app, Nat2Z.inj_add, (trail_one _ i) by done. rewrite (wf_trail _ Hwf j).
    case_decide as Hj; [subst j; rewrite lookup_insert_eq; lia|]. rewrite lookup_insert_ne by done. lia.
Qed.

Lemma written_step db i p q r :
  DB_wf db -> projects db !! i = Some p -> Archived p = false -> frozen q = frozen p -> Version q = Version p + 1 ->
  project_check q = true -> AuditLog.r_Resource r = "project" -> AuditLog.r_ResourceID r = Some i ->
  DB_step db (mkDB (<[i := q]> (projects db)) (audit_log db ++ [r])).
Proof.
  intros Hwf Hp Ha Hfr Hv Hc Hr1 Hr2. pose proof (wf_row _ Hwf _ _ Hp) as [Hid _].
  pose proof Hfr as Hfr'. injection Hfr' as F1 F2 F3 _ _ _. assert (ArchivedAt p = None) as Han.
  { unfold Archived in Ha. apply bool_decide_eq_false in Ha. by apply eq_None_not_Some. }
  split; cbn; [|intros j x Hx|by eexists].
  - apply stored_wf; try done; [congruence| |by rewrite Hp].
    intros _ j x Hj Hx Ax Ht Hs. apply Hj. apply (wf_slug _ Hwf _ _ x p); congruence.
  - destruct (decide (j = i)) as [->|Hj]; [|exists x; by rewrite lookup_insert_ne].
    rewrite lookup_insert_eq. exists q. assert (x = p) as -> by congruence. split; [done|].
    split_and!; [done|lia|lia|congruence].
Qed.

Lemma edited_frozen env name desc p : frozen (edited env name desc p) = frozen p.
Proof. done. Qed.
Lemma retired_frozen env p : frozen (retired env p) = frozen p.
Proof. done. Qed.

Lemma project_step_DB_step db db' : step db db' -> DB_wf db -> DB_step db db'.
Proof.
  intros [env a i res ? ? Hrun|env a id before expected name desc res ? ? _ Hrun|env a id before res ? ? Hrun] Hwf.
  - apply Create_cases in Hrun. destruct res as [p|e]; [|subst; by apply project_DB_step_refl].
    destruct Hrun as (v & r & _ & Hp & Hc & _ & Hnew & Hslug & -> & Hr1 & Hr2 & _).
    split; cbn; [|intros j x Hx|by eexists].
    + apply stored_wf; try done; [|by rewrite Hnew, Hp]. intros Ha j x _. apply Hslug.
    + exists x. split; [|done]. rewrite lookup_insert_ne; [done|congruence].
  - apply write_project_cases in Hrun; [|done|done]. destruct res as [[q|]|e]; [|destruct Hrun as [-> _]|subst]; try by apply project_DB_step_refl.
    destruct Hrun as (p & r & Hf & Hc & -> & Hchk & -> & Hr1 & Hr2 & _). apply find_project_Some in Hf as (Hp & _).
    apply andb_true_iff in Hc as [_ Ha]. apply negb_true_iff in Ha. by eapply written_step.
  - apply write_project_cases in Hrun; [|done|done]. destruct res as [[q|]|e]; [|destruct Hrun as [-> _]|subst]; try by apply project_DB_step_refl.
    destruct Hrun as (p & r & Hf & Hc & -> & Hchk & -> & Hr1 & Hr2 & _). apply find_project_Some in Hf as (Hp & _).
    apply negb_true_iff in Hc. by eapply written_step.
Qed.

Lemma project_steps_DB_step db db' : rtc step db db' -> DB_wf db -> DB_step db db'.
Proof.
  induction 1 as [x|x y z Hs _ IH]; intros Hwf; [by apply project_DB_step_refl|].
  pose proof (project_step_DB_step _ _ Hs Hwf) as H1'. eapply project_DB_step_trans, IH; [done|apply H1'].
Qed.

Lemma project_reachable_wf db : rtc step empty_DB db -> DB_wf db.
Proof. intros Hr. apply (project_steps_DB_step _ _ Hr), project_empty_wf. Qed.
End machine.

(** ** Properties *)

Section properties.
Context `{Unicode} `{UUIDLib} `{TimeJSON}.

(** The name and the description an update would store are in range. *)
Definition update_name (i : UpdateInput) : go_result (option string) :=
  match up_Name i with None => Ok None | Some n => name ← validateName n; Ok (Some name) end.

Lemma Update_cases env mid mid2 a id i db res db' :
  (forall d, DB_wf d -> DB_wf (mid d)) -> DB_wf db -> Update env mid mid2 a id i db = (res, db') ->
  match res with
  | Ok q => exists p r name, update_name i = Ok name /\ 0 < ExpectedVersion i /\ Valid a = true /\
      projects (mid db) !! id = Some p /\ TenantID p = scope a /\ Version p = ExpectedVersion i /\ ArchivedAt p = None /\
      q = edited env name (up_Description i) p /\ project_check q = true /\
      db' = mkDB (<[id := q]> (projects (mid db))) (audit_log (mid db) ++ [r]) /\
      AuditLog.r_Resource r = "project" /\ AuditLog.r_ResourceID r = Some id /\
      AuditLog.r_Action r = AuditLog.ActionProjectUpdate /\ AuditLog.r_After r = Some (auditImage q) /\
      AuditLog.r_Before r = Some (auditImage (default zero_project (find_project (settings_of (Identity_of a)) (scope a) id db)))
  | Err e => db' = db \/ db' = mid db \/
      (db' = mid2 (mid db) /\ e = classify (settings_of (Identity_of a)) a id (ExpectedVersion i) db' /\
       forall p, projects (mid db) !! id = Some p -> TenantID p = scope a ->
         Version p <> ExpectedVersion i \/ Archived p = true)
  end.
Proof.
  intros Hmid Hwf. unfold Update. destruct (Valid a) eqn:Hv; cbn [negb]; [|intros [= <- <-]; by left].
  case_decide; [intros [= <- <-]; by left|]. destruct (Z.leb_spec (ExpectedVersion i) 0) as [|Hpos]; [intros [= <- <-]; by left|].
  fold (update_name i). destruct (update_name i) as [name|e] eqn:Hn; [|intros [= <- <-]; by left].
  destruct (match up_Description i with None => _ | Some _ => _ end); [|intros [= <- <-]; by left]. cbv zeta.
  destruct (MaxInt32 <? ExpectedVersion i); [intros [= <- <-]; auto|].
  destruct (BeginFunc _ (mid db)) as [[[q|]|e] d] eqn:Hw; apply write_project_cases in Hw; auto; intros [= <- <-].
  - destruct Hw as (p & r & Hf & Hc & Hq & Hchk & Hd & Hr1 & Hr2 & Hr3 & Hr4 & Hr5).
    apply find_project_Some in Hf as (Hp & Ht & _). apply andb_true_iff in Hc as [Hver%Z.eqb_eq Ha].
    apply negb_true_iff, bool_decide_eq_false, eq_None_not_Some in Ha. exists p, r, name. by split_and!.
  - destruct Hw as [-> Hno]. right; right. split_and!; [done|done|]. intros p Hp Ht.
    assert (find_project (settings_of (Identity_of a)) (scope a) id (mid db) = Some p) as Hf.
    { apply find_project_Some. split_and!; [done..|]. by apply Valid_identity in Hv as [_ ?]. }
    specialize (Hno p Hf). apply andb_false_iff in Hno as [E%Z.eqb_neq|E%negb_false_iff]; auto.
  - subst. auto.
Qed.

Lemma interferes_wf mid : interferes mid -> forall d, DB_wf d -> DB_wf (mid d).
Proof. intros Hm d Hwf. apply (project_steps_DB_step _ _ (Hm d) Hwf). Qed.

(** An update is a sequence of steps. *)
Lemma Update_steps env mid mid2 a id i db res db' :
  interferes mid -> interferes mid2 -> Update env mid mid2 a id i db = (res, db') -> rtc step db db'.
Proof.
  intros Hm Hm2. unfold Update. repeat (case_match; [intros [= <- <-]; apply rtc_refl|]). fold (update_name i).
  destruct (update_name i) as [name|e] eqn:Hn; [|intros [= <- <-]; apply rtc_refl].
  destruct (match up_Description i with None => _ | Some _ => _ end); [|intros [= <- <-]; apply rtc_refl]. cbv zeta.
  destruct (MaxInt32 <? ExpectedVersion i); [intros [= <- <-]; apply Hm|].
  destruct (BeginFunc _ (mid db)) as [[[q|]|e] d] eqn:Hw; intros [= <- <-];
    assert (rtc step db d) as Hd by (eapply rtc_r; [apply Hm|eapply step_edit, Hw];
      intros nm ->; unfold update_name in Hn; destruct (up_Name i) as [raw|]; [|done]; exists raw;
      destruct (validateName raw); cbn in Hn; congruence); try done.
  etrans; [exact Hd|apply Hm2].
Qed.

(** C19: A project's life, over every interleaving of creations, updates and archives: it is
    never lost; its tenant, slug, creator and creation time never change; every change
    spends exactly one version and appends exactly one entry to the trail, so the
    trail of a project is as long as its version; an archived project never changes
    again; and no two live projects of a tenant share a slug. *)
Theorem project_history db db' :
  rtc step empty_DB db -> rtc step db db' ->
  (forall i p, projects db !! i = Some p -> exists p', projects db' !! i = Some p' /\ frozen p' = frozen p /\
     Version p <= Version p' /\ (Version p = Version p' -> p' = p) /\ (Archived p = true -> p' = p)) /\
  (forall i, Z.of_nat (length (trail i (audit_log db'))) =
     match projects db' !! i with Some p => Version p | None => 0 end) /\
  (forall i j p q, projects db' !! i = Some p -> projects db' !! j = Some q -> ArchivedAt p = None -> ArchivedAt q = None ->
     TenantID p = TenantID q -> p_Slug p = p_Slug q -> i = j) /\
  (exists l, audit_log db' = audit_log db ++ l).
Proof.
  intros Hr Hs. pose proof (project_steps_DB_step _ _ Hs (project_reachable_wf _ Hr)) as [Hwf Hrows Haud].
  split_and!; [|apply Hwf|apply Hwf|done]. intros i p Hp. destruct (Hrows i p Hp) as (p' & Hp' & Hle). by exists p'.
Qed.

(** C20: No lost update: an update that succeeds was applied to the very version it expected,
    whatever other sessions committed around it, and two updates that expect the same
    version never both succeed. *)
Theorem update_spends_version env1 env2 mid1 mid1' mid2 mid2' a1 a2 id i1 i2 db q1 db1 db2 q2 db2' :
  rtc step empty_DB db -> interferes mid1 -> interferes mid2 -> interferes mid1' ->
  Update env1 mid1 mid1' a1 id i1 db = (Ok q1, db1) -> rtc step db1 db2 ->
  Update env2 mid2 mid2' a2 id i2 db2 = (Ok q2, db2') ->
  (exists p, projects (mid1 db) !! id = Some p /\ Version p = ExpectedVersion i1 /\
     Version q1 = ExpectedVersion i1 + 1 /\ p_Slug q1 = p_Slug p) /\
  ExpectedVersion i1 < ExpectedVersion i2.
Proof.
  intros Hr Hm1 Hm2 Hm1' H1' Hs H2'. pose proof (project_reachable_wf _ Hr) as Hwf.
  pose proof (project_steps_DB_step _ _ (Update_steps _ _ _ _ _ _ _ _ _ Hm1 Hm1' H1') Hwf) as [Hwf1 _ _].
  apply Update_cases in H1' as (p & r & name & _ & _ & _ & Hp & _ & Hv & _ & -> & _ & Hdb & _); [|by apply interferes_wf|done].
  split; [exists p; cbn; by rewrite Hv|].
  pose proof (project_steps_DB_step _ _ Hs Hwf1) as [Hwf2 Hrows2 _].
  apply Update_cases in H2' as (p2 & r2 & name2 & _ & _ & _ & Hp2 & _ & Hv2 & _); [|by apply interferes_wf|done].
  destruct (Hrows2 id (edited env1 name (up_Description i1) p)) as (x & Hx & _ & Lx & _).
  { rewrite Hdb. cbn. by rewrite lookup_insert_eq. }
  pose proof (project_steps_DB_step _ _ (Hm2 db2) Hwf2) as [_ Hrows3 _].
  destruct (Hrows3 id x Hx) as (y & Hy & _ & Ly & _). assert (y = p2) as -> by congruence. cbn in Lx. lia.
Qed.

Lemma Archive_cases env mid mid2 a id db res db' :
  (forall d, DB_wf d -> DB_wf (mid d)) -> DB_wf db -> Archive env mid mid2 a id db = (res, db') ->
  match res with
  | Ok _ => Valid a = true /\ exists p, projects db' !! id = Some p /\ TenantID p = scope a /\ Archived p = true /\
      ((exists p0 r, projects (mid db) !! id = Some p0 /\ Archived p0 = false /\ p = retired env p0 /\
          db' = mkDB (<[id := p]> (projects (mid db))) (audit_log (mid db) ++ [r]) /\
          AuditLog.r_Resource r = "project" /\ AuditLog.r_ResourceID r = Some id /\
          AuditLog.r_Action r = AuditLog.ActionProjectArchive) \/
       db' = mid2 (mid db))
  | Err e => db' = db \/ db' = mid db \/ (db' = mid2 (mid db) /\ e = Sentinel ErrNotFound)
  end.
Proof.
  intros Hmid Hwf. unfold Archive. destruct (Valid a) eqn:Hv; cbn [negb]; [|intros [= <- <-]; by left].
  case_decide; [intros [= <- <-]; by left|]. cbv zeta.
  destruct (BeginFunc _ (mid db)) as [[[q|]|e] d] eqn:Hw; apply write_project_cases in Hw; auto.
  - intros [= <- <-]. destruct Hw as (p & r & Hf & Hc & -> & Hchk & -> & Hr1 & Hr2 & Hr3 & _). split; [done|].
    apply find_project_Some in Hf as (Hp & Ht & _). apply negb_true_iff in Hc.
    exists (retired env p). cbn. rewrite lookup_insert_eq. split_and!; [done..|]. left. exists p, r. by split_and!.
  - destruct Hw as [-> _]. destruct (find_project _ _ _ (mid2 (mid db))) as [p|] eqn:Hf; [|intros [= <- <-]; auto].
    destruct (Archived p) eqn:Ha; intros [= <- <-]; [|auto]. apply find_project_Some in Hf as (Hp & Ht & _). split; [done|].
    exists p. split_and!; [done..|by right].
  - intros [= <- <-]. subst. auto.
Qed.

Lemma Archive_steps env mid mid2 a id db res db' :
  interferes mid -> interferes mid2 -> Archive env mid mid2 a id db = (res, db') -> rtc step db db'.
Proof.
  intros Hm Hm2. unfold Archive. repeat (case_match; [intros [= <- <-]; apply rtc_refl|]). cbv zeta.
  destruct (BeginFunc _ (mid db)) as [[[q|]|e] d] eqn:Hw;
    assert (rtc step db d) as Hd by (eapply rtc_r; [apply Hm|eapply step_retire, Hw]); try (intros [= <- <-]; done).
  repeat case_match; intros [= <- <-]; (etrans; [exact Hd|apply Hm2]).
Qed.

(** Archiving is final and idempotent. When it succeeds the project is archived, and
    whatever is committed afterwards the row stays exactly as it is: archiving again
    succeeds and changes nothing, no update of it succeeds, and a listing without
    archived projects no longer shows it. *)
Theorem archive_is_final env mid mid2 a id db db1 db2 :
  rtc step empty_DB db -> interferes mid -> interferes mid2 ->
  Archive env mid mid2 a id db = (Ok tt, db1) -> rtc step db1 db2 ->
  exists p, projects db1 !! id = Some p /\ projects db2 !! id = Some p /\ TenantID p = scope a /\ is_Some (ArchivedAt p) /\
    (forall env', id <> uuid_Nil -> Archive env' (fun d => d) (fun d => d) a id db2 = (Ok tt, db2)) /\
    (forall env' i q d, Update env' (fun d => d) (fun d => d) a id i db2 <> (Ok q, d)) /\
    (forall f, IncludeArchived f = false -> p ∉ listed_rows (settings_of (Identity_of a)) (scope a) f db2).
Proof.
  intros Hr Hm Hm2 Ha Hs. pose proof (project_reachable_wf _ Hr) as Hwf.
  pose proof (project_steps_DB_step _ _ (Archive_steps _ _ _ _ _ _ _ _ Hm Hm2 Ha) Hwf) as [Hwf1 _ _].
  apply Archive_cases in Ha as (Hv & p & Hp & Ht & Harch & _); [|by apply interferes_wf|done].
  pose proof (project_steps_DB_step _ _ Hs Hwf1) as [Hwf2 Hrows _].
  destruct (Hrows id p Hp) as (p' & Hp' & _ & _ & _ & Hsame). rewrite (Hsame Harch) in Hp'. clear p' Hsame.
  exists p. pose proof Harch as Hat. apply bool_decide_eq_true in Hat. split_and!; try done.
  - intros env' Hid. assert (find_project (settings_of (Identity_of a)) (scope a) id db2 = Some p) as Hf.
    { apply find_project_Some. split_and!; [done..|]. by apply Valid_identity in Hv as [_ ?]. }
    unfold Archive. rewrite Hv. cbn [negb]. rewrite decide_False by done. cbv zeta.
    unfold BeginFunc, write_project, mbind, SE_bind, or_fail, update_project. rewrite Hf, Harch. cbn. by rewrite Hf, Harch.
  - intros env' i q d Hu. apply Update_cases in Hu as (x & r & name & _ & _ & _ & Hx & _ & _ & Hn & _); [|done|done].
    assert (x = p) as -> by congruence. rewrite Hn in Hat. by destruct Hat.
  - intros f Hf (_ & _ & [Hf'|Hn])%list_elem_of_filter%proj1; [congruence|]. rewrite Hn in Hat. by destruct Hat.
Qed.
End properties.

(** ** Witnesses *)

Module ProjectDemo.
#[local] Existing Instance DemoUnicode.
#[local] Existing Instance DemoUUID.lib.
#[local] Instance demo_time : TimeJSON := {| time_json t := JNum t |}.

Definition at_ (n : nat) : Env :=
  mkEnv (Z.of_nat n * 1000) (Z.of_nat n * 1000) (fun k => N.of_nat (100 * n + k)) (fun k => N.of_nat (9000 + k)) (fun k => Z.of_nat k) "req".
Definition owner : Authorized := mkAuthorized 5%N KindHuman 11%N RoleOwner 0%N.
Definition quiet (db : DB) : DB := db.
Lemma quiet_interferes : interferes quiet.
Proof. intros db. apply rtc_refl. Qed.

Definition db1 : DB := (Create (at_ 1) owner (mkCreateInput "Apollo" "moon" "") empty_DB).2.
Definition rename (name : string) (v : Z) : UpdateInput := mkUpdateInput (Some name) None v.
Definition upd1 := Update (at_ 2) quiet quiet owner 100%N (rename "Apollo 11" 1) db1.
Definition upd2 := Update (at_ 3) quiet quiet owner 100%N (rename "Apollo 13" 2) upd1.2.
Definition gone := Archive (at_ 4) quiet quiet owner 100%N upd2.2.

Lemma created_db1 : rtc step empty_DB db1.
Proof. apply rtc_once. eapply step_create, surjective_pairing. Qed.
Lemma upd1_ok : exists q, upd1 = (Ok q, upd1.2).
Proof. eexists. vm_compute. reflexivity. Qed.
Lemma upd2_ok : exists q, upd2 = (Ok q, upd2.2).
Proof. eexists. vm_compute. reflexivity. Qed.
Lemma gone_ok : gone = (Ok tt, gone.2).
Proof. vm_compute. reflexivity. Qed.
Lemma upd1_steps : rtc step db1 upd1.2.
Proof. eapply Update_steps; [apply quiet_interferes..|apply surjective_pairing]. Qed.
Lemma upd2_steps : rtc step upd1.2 upd2.2.
Proof. eapply Update_steps; [apply quiet_interferes..|apply surjective_pairing]. Qed.
Lemma both_steps : rtc step db1 upd2.2.
Proof. etrans; [exact upd1_steps|exact upd2_steps]. Qed.
Lemma reached_upd2 : rtc step empty_DB upd2.2.
Proof. etrans; [exact created_db1|exact both_steps]. Qed.

Lemma project_history_witness :
  Z.of_nat (length (trail 100%N (audit_log upd2.2))) = 3.
Proof.
  destruct (project_history db1 upd2.2 created_db1 both_steps) as (_ & Ht & _).
  rewrite (Ht 100%N). vm_compute. reflexivity.
Defined.

Lemma update_spends_version_witness : 1 < 2.
Proof.
  destruct upd1_ok as [q1 E1], upd2_ok as [q2 E2].
  exact (proj2 (update_spends_version (at_ 2) (at_ 3) quiet quiet quiet quiet owner owner 100%N (rename "Apollo 11" 1)
    (rename "Apollo 13" 2) db1 q1 upd1.2 upd1.2 q2 upd2.2 created_db1 quiet_interferes quiet_interferes quiet_interferes
    E1 (rtc_refl _ _) E2)).
Defined.

Lemma archive_is_final_witness :
  exists p, projects gone.2 !! 100%N = Some p /\ is_Some (ArchivedAt p) /\
    Archive (at_ 9) quiet quiet owner 100%N gone.2 = (Ok tt, gone.2).
Proof.
  destruct (archive_is_final (at_ 4) quiet quiet owner 100%N upd2.2 gone.2 gone.2
    reached_upd2 quiet_interferes quiet_interferes gone_ok
    (rtc_refl _ _)) as (p & Hp & _ & _ & Ha & Hagain & _).
  exists p. split; [exact Hp|]. split; [exact Ha|]. exact (Hagain (at_ 9) ltac:(done)).
Defined.

(** A conflict quotes the empty slug: the project the message is made from was
    overwritten by the failed scan. *)
Example conflict_names_no_slug :
  (Create (at_ 5) owner (mkCreateInput "Another" "" "apollo") db1).1 =
    Err (create_fail "" (unique_violation "projects")).
Proof. vm_compute. reflexivity. Qed.

(** The image recorded as the state before an archive is not that state when another
    session commits between the read and the write. *)
Example before_image_is_stale :
  let other db := (Update (at_ 6) quiet quiet owner 100%N (rename "Renamed" 1) db).2 in
  let archived := Archive (at_ 7) other quiet owner 100%N db1 in
  archived.1 = Ok tt /\
  (p ← projects (other db1) !! 100%N; Some (Name p)) = Some "Renamed" /\
  (r ← last (audit_log archived.2); AuditLog.r_Before r) =
    (p ← projects db1 !! 100%N; Some (auditImage p)) /\
  (p ← projects db1 !! 100%N; Some (Name p)) = Some "Apollo".
Proof. vm_compute. repeat split. Qed.

(** An expected version beyond the column's 32 bits is an internal error, where any other wrong version is a
    conflict. *)
Example huge_version_is_internal :
  let status v := match (Update (at_ 6) quiet quiet owner 100%N (rename "Renamed" v) db1).1 with Err e => Status (Map e) | Ok _ => 200 end in
  status 2147483648 = 500 /\ status 2147483647 = 409 /\ status 1 = 200.
Proof. vm_compute. repeat split. Qed.
End ProjectDemo.
