(* ===== verification/Ssrf.v ===== *)
(** * The SSRF guard

    [internal/platform/ssrf/ssrf.go]: which addresses a webhook may be delivered to,
    and the client that is pinned to the addresses that were checked. The [net/netip]
    operations the guard uses are modelled; the text of an address, which only error
    messages show, and [url.Parse] are parameters. *)

From Stdlib Require Import ZifyBool.
From S2P Require Import Prelude Apperr Webhook.

(** ** [netip.Addr] *)

Inductive Family := V4 | V6.
#[export] Instance Family_eq_dec : EqDecision Family.
Proof. solve_decision. Defined.

(** The bits of an address, and the zone of an IPv6 address. *)
Record Addr := mkAddr { family : Family; bits : Z; zone : string }.
#[export] Instance Addr_eq_dec : EqDecision Addr.
Proof. solve_decision. Defined.

Definition width (f : Family) : Z := match f with V4 => 32 | V6 => 128 end.
Definition Addr_wf (a : Addr) : Prop := 0 <= bits a < 2 ^ width (family a) /\ (family a = V4 -> zone a = "").

Class AddrText := { addr_String : Addr -> string }.

(** The first [n] bits. *)
Definition top (n : Z) (a : Addr) : Z := Z.shiftr (bits a) (width (family a) - n).

Definition Is4In6 (a : Addr) : bool := bool_decide (family a = V6) && (top 96 a =? 0xffff).
Definition Unmap (a : Addr) : Addr := if Is4In6 a then mkAddr V4 (bits a mod 2 ^ 32) "" else a.

Definition IPv6Unspecified : Addr := mkAddr V6 0 "".
Definition v4 (a : Addr) : bool := bool_decide (family a = V4).

Definition IsLoopback (a : Addr) : bool :=
  let a := Unmap a in if v4 a then top 8 a =? 127 else bits a =? 1.
Definition IsPrivate (a : Addr) : bool :=
  let a := Unmap a in
  if v4 a then (top 8 a =? 10) || (top 12 a =? 0xac1) || (top 16 a =? 0xc0a8) else top 7 a =? 0x7e.
Definition IsLinkLocalUnicast (a : Addr) : bool :=
  let a := Unmap a in if v4 a then top 16 a =? 0xa9fe else top 10 a =? 0x3fa.
Definition IsLinkLocalMulticast (a : Addr) : bool :=
  let a := Unmap a in if v4 a then top 24 a =? 0xe00000 else Z.land (top 16 a) 0xff0f =? 0xff02.
(** Compared with [==], zone included. *)
Definition IsUnspecified (a : Addr) : bool := bool_decide (a = mkAddr V4 0 "") || bool_decide (a = IPv6Unspecified).
Definition IsMulticast (a : Addr) : bool :=
  let a := Unmap a in if v4 a then top 4 a =? 0xe else top 8 a =? 0xff.
Definition IsGlobalUnicast (a : Addr) : bool :=
  let a := Unmap a in
  if v4 a && ((bits a =? 0) || (bits a =? 0xffffffff)) then false
  else negb (bool_decide (a = IPv6Unspecified)) && negb (IsLoopback a) && negb (IsMulticast a) && negb (IsLinkLocalUnicast a).

(** [netip.Prefix]; a prefix contains no address with a zone. *)
Record Prefix := mkPrefix { p_family : Family; p_len : Z; p_top : Z; p_text : string }.
Definition Contains (p : Prefix) (a : Addr) : bool :=
  bool_decide (zone a = "") && bool_decide (family a = p_family p) && (top (p_len p) a =? p_top p).

(** ** [netip.ParseAddr] *)

Definition parse_octet (s : string) : option Z :=
  if bool_decide (s = "") || negb (str_forall is_digit_b s) || (has_prefix "0" s && bool_decide (s <> "0")) then None
  else n ← parse_udec s; if (n <? 256)%N then Some (Z.of_N n) else None.

Definition parse_v4_bits (s : string) : option Z :=
  match split_on "."%char s with
  | [a; b; c; d] =>
      a ← parse_octet a; b ← parse_octet b; c ← parse_octet c; d ← parse_octet d;
      Some (((a * 256 + b) * 256 + c) * 256 + d)
  | _ => None
  end.

Definition hex_digit_value (b : Z) : option Z :=
  if is_digit_b b then Some (b - 48)
  else if (97 <=? b) && (b <=? 102) then Some (b - 87)
  else if (65 <=? b) && (b <=? 70) then Some (b - 55) else None.

Definition parse_group (s : string) : option Z :=
  if bool_decide (s = "") || (4 <? slen s) then None
  else foldl (fun acc b => acc ← acc; d ← hex_digit_value b; Some (acc * 16 + d)) (Some 0) (bytes_of s).

(** Colon-separated groups; the last one may be a dotted IPv4 address, two groups. *)
Fixpoint parse_groups (l : list string) : option (list Z) :=
  match l with
  | [] => Some []
  | [g] => if has_byte "."%char g then v ← parse_v4_bits g; Some [v / 65536; v mod 65536]
           else x ← parse_group g; Some [x]
  | g :: l' => x ← parse_group g; xs ← parse_groups l'; Some (x :: xs)
  end.

Definition groups_of (s : string) : list string := if decide (s = "") then [] else split_on ":"%char s.
Definition of_groups (l : list Z) : Z := foldl (fun acc g => acc * 65536 + g) 0 l.

(** With [::], what stands before it cannot end in a dotted address. *)
Definition parse_v6_bits (s : string) : option Z :=
  match cut_str "::" s with
  | Some (l, r) =>
      if has_byte "."%char l then None
      else
        xs ← parse_groups (groups_of l); ys ← parse_groups (groups_of r);
        if (length xs + length ys <? 8)%nat
        then Some (of_groups (xs ++ replicate (8 - length xs - length ys) 0 ++ ys)) else None
  | None => xs ← parse_groups (groups_of s); if (length xs =? 8)%nat then Some (of_groups xs) else None
  end.

(** The first of the bytes '.', ':' and '%' decides the family. *)
Fixpoint first_mark (s : string) : option ascii :=
  match s with
  | "" => None
  | String c r => if decide (c ∈ ["."%char; ":"%char; "%"%char]) then Some c else first_mark r
  end.

Definition ParseAddr (s : string) : option Addr :=
  match first_mark s with
  | Some "."%char => b ← parse_v4_bits s; Some (mkAddr V4 b "")
  | Some ":"%char =>
      match cut_str "%" s with
      | Some (t, z) => if decide (z = "") then None else b ← parse_v6_bits t; Some (mkAddr V6 b z)
      | None => b ← parse_v6_bits s; Some (mkAddr V6 b "")
      end
  | _ => None
  end.

Example parse_metadata : ParseAddr "169.254.169.254" = Some (mkAddr V4 0xa9fea9fe "").
Proof. reflexivity. Qed.
Example parse_mapped : Unmap <$> ParseAddr "::ffff:127.0.0.1" = Some (mkAddr V4 0x7f000001 "").
Proof. reflexivity. Qed.
Example parse_zoned : ParseAddr "fe80::1%eth0" = Some (mkAddr V6 0xfe800000000000000000000000000001 "eth0").
Proof. reflexivity. Qed.
Example parse_refused : ParseAddr "127.1" = None /\ ParseAddr "010.0.0.1" = None /\ ParseAddr ":::" = None /\ ParseAddr "1::2::3" = None.
Proof. repeat split; reflexivity. Qed.

(** ** The guard *)

Definition nonPublicPrefixes : list Prefix :=
  [mkPrefix V4 10 (0x64400000 / 2 ^ 22) "100.64.0.0/10"; mkPrefix V4 24 0xc00000 "192.0.0.0/24";
   mkPrefix V4 24 0xc00002 "192.0.2.0/24"; mkPrefix V4 15 (0xc6120000 / 2 ^ 17) "198.18.0.0/15";
   mkPrefix V4 24 0xc63364 "198.51.100.0/24"; mkPrefix V4 24 0xcb0071 "203.0.113.0/24";
   mkPrefix V4 4 0xf "240.0.0.0/4";
   mkPrefix V6 96 (0x0064ff9b * 2 ^ 64) "64:ff9b::/96"; mkPrefix V6 48 0x0064ff9b0001 "64:ff9b:1::/48";
   mkPrefix V6 64 (0x0100 * 2 ^ 48) "100::/64"; mkPrefix V6 32 0x20010db8 "2001:db8::/32"].

Definition isTransitionRange (a : Addr) : bool := (top 16 a =? 0x2002) || (top 32 a =? 0x20010000).

Record Guard := mkGuard { allowLoopback : bool }.
Definition New : Guard := mkGuard false.
Definition NewForTests : Guard := mkGuard true.

Section guard.
Context `{Unicode} `{NetURL} `{AddrText} (g : Guard).

Definition blocked (a : Addr) (why : string) : go_result unit :=
  Err (Wrapf ("ssrf: the address is not publicly routable: " +:+ addr_String a +:+ why) (Sentinel SsrfErrBlocked)).

(** The loop over the prefixes. *)
Fixpoint check_prefixes (a : Addr) (l : list Prefix) : go_result unit :=
  match l with
  | [] => Ok tt
  | p :: l' => if Contains p a then blocked a (" is in " +:+ p_text p +:+ ", which is not publicly routable")
               else check_prefixes a l'
  end.

Definition checkAddr (addr : Addr) : go_result unit :=
  let addr := Unmap addr in
  if IsLoopback addr then if allowLoopback g then Ok tt else blocked addr " is loopback"
  else if IsPrivate addr then blocked addr " is private"
  else if IsLinkLocalUnicast addr || IsLinkLocalMulticast addr
  then blocked addr " is link-local (cloud metadata lives here)"
  else if IsUnspecified addr then blocked addr " is the unspecified address"
  else if IsMulticast addr then blocked addr " is multicast"
  else if negb (IsGlobalUnicast addr) then blocked addr " is not globally routable"
  else if bool_decide (family addr = V6) && Is4In6 addr then blocked addr " is an IPv4 address in IPv6 form"
  else if bool_decide (family addr = V6) && isTransitionRange addr
  then blocked addr " is in an IPv6 transition range, which can embed a private address"
  else check_prefixes addr nonPublicPrefixes.

Record Resolved := mkResolved { Host : string; Addrs : list Addr; Port : string }.

(** Every address, in order; the first refusal is the answer. *)
Fixpoint check_all (host : string) (l : list Addr) : go_result unit :=
  match l with
  | [] => Ok tt
  | a :: l' => match checkAddr a with
               | Err e => Err (Wrapf (host +:+ " resolves to " +:+ addr_String a +:+ ": " +:+ error_text e) e)
               | Ok _ => check_all host l'
               end
  end.

(** [lookup] is what the resolver answers this call; [port] is [u.Port()]. *)
Definition Validate (lookup : string -> result string (list Addr)) (u_Port : URL -> string) (rawURL : string) : go_result Resolved :=
  match url_Parse rawURL with
  | None => Err (Plain "ssrf: parse url")
  | Some u =>
      if decide (u_Scheme u <> "http" /\ u_Scheme u <> "https")
      then Err (Wrapf ("ssrf: only http and https are permitted (got " +:+ fmt_q (u_Scheme u) +:+ ")") (Sentinel SsrfErrScheme))
      else
        let host := u_Hostname u in
        if decide (host = "") then Err (Plain "ssrf: the url has no host")
        else
          let port := if decide (u_Port u = "") then (if decide (u_Scheme u = "https") then "443" else "80") else u_Port u in
          match ParseAddr host with
          | Some a => match checkAddr a with Err e => Err e | Ok _ => Ok (mkResolved host [a] port) end
          | None =>
              match lookup host with
              | Err text => Err (Wrapf ("ssrf: the host did not resolve (" +:+ host +:+ ": " +:+ text +:+ ")") (Sentinel SsrfErrNoAddresses))
              | Ok [] => Err (Wrapf ("ssrf: the host did not resolve (" +:+ host +:+ ")") (Sentinel SsrfErrNoAddresses))
              | Ok addrs => match check_all host addrs with Err e => Err e | Ok _ => Ok (mkResolved host addrs port) end
              end
          end
  end.

(** The dialer of [Client]: the [next]-th connection, whatever address the transport asks for. *)
Definition dial (target : Resolved) (next : nat) (asked : string) : result string (Addr * string) :=
  match Addrs target with
  | [] => Err "ssrf: no validated address to dial"
  | _ => match Addrs target !! (next mod length (Addrs target))%nat with
         | Some a => Ok (a, Port target)
         | None => Err "ssrf: no validated address to dial"
         end
  end.

(** [CheckRedirect]: an error ends the request, [Ok tt] is [http.ErrUseLastResponse], the
    redirect's own response; no redirect is ever followed. *)
Definition CheckRedirect (lookup : string -> result string (list Addr)) (u_Port : URL -> string) (via : Z) (target : string)
    : go_result unit :=
  if 2 <=? via then Err (Plain "ssrf: too many redirects")
  else match Validate lookup u_Port target with
       | Err e => Err (Wrapf ("ssrf: redirect target refused: " +:+ error_text e) e)
       | Ok _ => Ok tt
       end.

Definition ValidateEndpointURL (lookup : string -> result string (list Addr)) (u_Port : URL -> string) (rawURL : string) : go_result unit :=
  match Validate lookup u_Port rawURL with Err e => Err e | Ok _ => Ok tt end.
End guard.

Definition SchemeOf `{Unicode} `{NetURL} (rawURL : string) : string :=
  match url_Parse rawURL with None => "" | Some u => to_lower (u_Scheme u) end.

(** ** The ranges the guard refuses *)

(** First and last address, as an operator would list them. *)
Definition blocked_ranges : list (Family * Z * Z) :=
  [(V4, 0x00000000, 0x00000000);   (* 0.0.0.0 *)
   (V4, 0x0a000000, 0x0affffff);   (* 10.0.0.0/8 *)
   (V4, 0x64400000, 0x647fffff);   (* 100.64.0.0/10 *)
   (V4, 0x7f000000, 0x7fffffff);   (* 127.0.0.0/8 *)
   (V4, 0xa9fe0000, 0xa9feffff);   (* 169.254.0.0/16 *)
   (V4, 0xac100000, 0xac1fffff);   (* 172.16.0.0/12 *)
   (V4, 0xc0000000, 0xc00000ff);   (* 192.0.0.0/24 *)
   (V4, 0xc0000200, 0xc00002ff);   (* 192.0.2.0/24 *)
   (V4, 0xc0a80000, 0xc0a8ffff);   (* 192.168.0.0/16 *)
   (V4, 0xc6120000, 0xc613ffff);   (* 198.18.0.0/15 *)
   (V4, 0xc6336400, 0xc63364ff);   (* 198.51.100.0/24 *)
   (V4, 0xcb007100, 0xcb0071ff);   (* 203.0.113.0/24 *)
   (V4, 0xe0000000, 0xffffffff);   (* 224.0.0.0/4 and 240.0.0.0/4 *)
   (V6, 0, 1);                                                                       (* :: and ::1 *)
   (V6, 0x0064ff9b * 2 ^ 96, 0x0064ff9b * 2 ^ 96 + (2 ^ 32 - 1));                     (* 64:ff9b::/96 *)
   (V6, 0x0064ff9b0001 * 2 ^ 80, 0x0064ff9b0001 * 2 ^ 80 + (2 ^ 80 - 1));             (* 64:ff9b:1::/48 *)
   (V6, 0x0100 * 2 ^ 112, 0x0100 * 2 ^ 112 + (2 ^ 64 - 1));                           (* 100::/64 *)
   (V6, 0x20010000 * 2 ^ 96, 0x20010000 * 2 ^ 96 + (2 ^ 96 - 1));                     (* 2001::/32 *)
   (V6, 0x20010db8 * 2 ^ 96, 0x20010db8 * 2 ^ 96 + (2 ^ 96 - 1));                     (* 2001:db8::/32 *)
   (V6, 0x2002 * 2 ^ 112, 0x2002 * 2 ^ 112 + (2 ^ 112 - 1));                          (* 2002::/16 *)
   (V6, 0xfc * 2 ^ 120, 0xfc * 2 ^ 120 + (2 ^ 121 - 1));                              (* fc00::/7 *)
   (V6, 0xfe80 * 2 ^ 112, 0xfe80 * 2 ^ 112 + (2 ^ 118 - 1));                          (* fe80::/10 *)
   (V6, 0xff * 2 ^ 120, 2 ^ 128 - 1)].                                                (* ff00::/8 *)

Definition in_range (a : Addr) (r : Family * Z * Z) : bool :=
  bool_decide (family a = r.1.1) && (r.1.2 <=? bits a) && (bits a <=? r.2).

(** The refusals of [checkAddr] without a loopback allowance, as one disjunction. *)
Definition refused (a : Addr) : bool :=
  IsLoopback a || IsPrivate a || IsLinkLocalUnicast a || IsLinkLocalMulticast a || IsUnspecified a || IsMulticast a ||
  negb (IsGlobalUnicast a) || (bool_decide (family a = V6) && Is4In6 a) || (bool_decide (family a = V6) && isTransitionRange a) ||
  existsb (fun p => Contains p a) nonPublicPrefixes.

(** ** Lemmas *)

Lemma top_eqb n a c :
  0 <= n <= width (family a) ->
  (top n a =? c) = (c * 2 ^ (width (family a) - n) <=? bits a) && (bits a <? (c + 1) * 2 ^ (width (family a) - n)).
Proof.
  intros Hn. unfold top. rewrite Z.shiftr_div_pow2 by lia. set (m := 2 ^ _).
  assert (0 < m) by (apply Z.pow_pos_nonneg; lia).
  destruct (Z.eqb_spec (bits a / m) c) as [<-|Hne]; symmetry.
  - pose proof (Z.mul_div_le (bits a) m ltac:(done)). pose proof (Z.mul_succ_div_gt (bits a) m ltac:(done)).
    apply andb_true_iff. rewrite Z.leb_le, Z.ltb_lt. lia.
  - apply not_true_iff_false. rewrite andb_true_iff, Z.leb_le, Z.ltb_lt. intros [H1 H2]. apply Hne.
    symmetry. apply (Z.div_unique _ _ _ (bits a - c * m)); lia.
Qed.

Lemma Unmap_wf a : Addr_wf a -> Addr_wf (Unmap a) /\ Is4In6 (Unmap a) = false.
Proof.
  intros Hwf. unfold Unmap. destruct (Is4In6 a) eqn:H4; [|done]. split; [|done].
  split; [|done]. cbn. apply Z.mod_pos_bound. reflexivity.
Qed.

Lemma Unmap_id a : Is4In6 a = false -> Unmap a = a.
Proof. intros H4. unfold Unmap. by rewrite H4. Qed.

Section guard_props.
Context `{Unicode} `{NetURL} `{AddrText}.

Lemma check_prefixes_ok a l : is_ok (check_prefixes a l) = negb (existsb (fun p => Contains p a) l).
Proof. induction l as [|p l IH]; cbn; [done|]. by destruct (Contains p a). Qed.

(** The switch and the two tails, as one disjunction. *)
Lemma checkAddr_ok a : is_ok (checkAddr New a) = negb (refused (Unmap a)).
Proof.
  unfold checkAddr, refused. set (u := Unmap a).
  destruct (IsLoopback u), (IsPrivate u), (IsLinkLocalUnicast u), (IsLinkLocalMulticast u), (IsUnspecified u),
    (IsMulticast u), (IsGlobalUnicast u), (bool_decide (family u = V6) && Is4In6 u),
    (bool_decide (family u = V6) && isTransitionRange u); cbn [orb negb]; try reflexivity.
  all: by rewrite check_prefixes_ok.
Qed.
End guard_props.

Lemma top_range n a : Addr_wf a -> 0 <= n <= width (family a) -> 0 <= top n a < 2 ^ n.
Proof.
  intros [[Hl Hh] _] Hn. unfold top. rewrite Z.shiftr_div_pow2 by lia.
  assert (0 < 2 ^ (width (family a) - n)) by (apply Z.pow_pos_nonneg; lia).
  split; [apply Z.div_pos; lia|]. apply Z.div_lt_upper_bound; [done|].
  rewrite <- Z.pow_add_r by lia. by replace (width (family a) - n + n) with (width (family a)) by lia.
Qed.

(** ff02::/16 and its flagged variants are part of ff00::/8. *)
Lemma link_local_multicast_high a :
  family a = V6 -> Addr_wf a -> Z.land (top 16 a) 0xff0f = 0xff02 -> top 8 a = 0xff.
Proof.
  intros Hf Hwf Hland.
  assert (Hw : width (family a) = 128) by (by rewrite Hf).
  pose proof (top_range 8 a Hwf ltac:(lia)) as Hr.
  assert (Hs : top 8 a = Z.shiftr (top 16 a) 8).
  { unfold top. rewrite Z.shiftr_shiftr by lia. f_equal. lia. }
  apply (f_equal (fun z => Z.shiftr z 8)) in Hland. rewrite Z.shiftr_land in Hland.
  change (Z.shiftr 0xff0f 8) with (Z.ones 8) in Hland. rewrite Z.land_ones in Hland by lia.
  rewrite <- Hs, Z.mod_small in Hland by lia. exact Hland.
Qed.

(** A test on the leading bits, as a test on the range of the address with its bounds computed. *)
Ltac range_tests :=
  repeat match goal with
    | |- context [top ?n (mkAddr ?f ?b ?z) =? ?c] =>
        let w := eval vm_compute in (width f) in
        let lo := eval vm_compute in (c * 2 ^ (w - n)) in
        let hi := eval vm_compute in ((c + 1) * 2 ^ (w - n)) in
        rewrite (top_eqb n (mkAddr f b z) c : _ -> _ = (lo <=? b) && (b <? hi)) by (cbn; lia)
    end.

Lemma unspecified_eqb f b c : bool_decide (mkAddr f b "" = mkAddr f c "") = (b =? c).
Proof. apply eq_true_iff_eq. rewrite bool_decide_eq_true, Z.eqb_eq. split; [by intros [=]|by intros ->]. Qed.

Lemma other_family_ne f b c : f <> V6 -> bool_decide (mkAddr f b "" = mkAddr V6 c "") = false.
Proof. intros Hf. rewrite bool_decide_eq_false. congruence. Qed.

Ltac closed_tests :=
  change (bool_decide ("" = "")) with true; change (bool_decide (V4 = V4)) with true;
  change (bool_decide (V6 = V6)) with true; change (bool_decide (V4 = V6)) with false; change (bool_decide (V6 = V4)) with false;
  cbn [andb orb negb];
  let r := eval vm_compute in blocked_ranges in change blocked_ranges with r;
  cbn [existsb]; unfold in_range; cbn [fst snd family bits];
  change (bool_decide (V4 = V4)) with true;
  change (bool_decide (V6 = V6)) with true; change (bool_decide (V4 = V6)) with false; change (bool_decide (V6 = V4)) with false;
  cbn [andb orb negb].

Ltac refused_ranges :=
  unfold refused, IsGlobalUnicast, IsLoopback, IsPrivate, IsLinkLocalUnicast, IsLinkLocalMulticast, IsUnspecified, IsMulticast, isTransitionRange.

Lemma refused_v4 b : 0 <= b < 2 ^ 32 -> refused (mkAddr V4 b "") = existsb (in_range (mkAddr V4 b "")) blocked_ranges.
Proof.
  intros Hb. refused_ranges. rewrite !(Unmap_id (mkAddr V4 b "")) by done.
  unfold nonPublicPrefixes. cbn [existsb]. unfold Contains. cbn [v4 family zone bits p_family p_len p_top].
  rewrite unspecified_eqb. unfold IPv6Unspecified. rewrite other_family_ne by done. change (v4 (mkAddr V4 b "")) with true. cbn iota.
  range_tests. closed_tests. destruct (Z.eqb_spec b 0); [by subst|]. cbn [andb orb negb].
  destruct (Z.eqb_spec b 0xffffffff); [by subst|]. cbn [andb orb negb]. change (2 ^ 32) with 4294967296 in Hb. apply eq_true_iff_eq. lia. Qed.

Lemma refused_v6 b :
  0 <= b < 2 ^ 128 -> Is4In6 (mkAddr V6 b "") = false -> refused (mkAddr V6 b "") = existsb (in_range (mkAddr V6 b "")) blocked_ranges.
Proof.
  intros Hb H4. refused_ranges. rewrite !(Unmap_id _ H4), H4.
  assert (Hll : (Z.land (top 16 (mkAddr V6 b "")) 0xff0f =? 0xff02) = true -> (top 8 (mkAddr V6 b "") =? 0xff) = true).
  { rewrite !Z.eqb_eq. apply link_local_multicast_high; [done|]. by split. }
  unfold nonPublicPrefixes. cbn [existsb]. unfold Contains. cbn [v4 family zone bits p_family p_len p_top].
  unfold IPv6Unspecified. rewrite unspecified_eqb. replace (bool_decide (mkAddr V6 b "" = mkAddr V4 0 "")) with false by (symmetry; by apply bool_decide_eq_false).
  change (v4 (mkAddr V6 b "")) with false. cbn iota.
  revert Hll. generalize (Z.land (top 16 (mkAddr V6 b "")) 0xff0f =? 0xff02). intros ll Hll.
  revert Hll. range_tests. closed_tests. intros Hll. 
  let n := eval vm_compute in (2 ^ 128) in change (2 ^ 128) with n in Hb.
  apply eq_true_iff_eq. destruct ll; lia.
Qed.

(** ** What the guard lets through *)

Lemma refused_ranges_exact a :
  Addr_wf a -> zone a = "" -> refused (Unmap a) = existsb (in_range (Unmap a)) blocked_ranges.
Proof.
  intros Hwf Hz. destruct (Unmap_wf a Hwf) as [[Hb _] H4].
  assert (Hzu : zone (Unmap a) = "") by (unfold Unmap; by case_match).
  destruct (Unmap a) as [[] b z]; cbn in Hzu, Hb; subst z; [by apply refused_v4|by apply refused_v6].
Qed.

(** ** Parsed addresses are addresses *)

Lemma parse_octet_range s x : parse_octet s = Some x -> 0 <= x < 256.
Proof. unfold parse_octet. case_match; [done|]. intros (n & _ & Hn)%bind_Some. case_match; simplify_eq. lia. Qed.

Lemma parse_v4_range s x : parse_v4_bits s = Some x -> 0 <= x < 2 ^ 32.
Proof.
  unfold parse_v4_bits. repeat case_match; try done.
  intros (a & Ha%parse_octet_range & (b & Hb%parse_octet_range & (c & Hc%parse_octet_range & (d & Hd%parse_octet_range & [= <-])%bind_Some)%bind_Some)%bind_Some)%bind_Some.
  change (2 ^ 32) with 4294967296. lia.
Qed.

Lemma hex_digit_range b d : hex_digit_value b = Some d -> 0 <= d < 16.
Proof. unfold hex_digit_value, is_digit_b. repeat case_match; intros [= <-]; lia. Qed.

Lemma parse_hex_fold l acc x :
  0 <= acc ->
  foldl (fun acc b => acc ← acc; d ← hex_digit_value b; Some (acc * 16 + d)) (Some acc) l = Some x ->
  0 <= x < (acc + 1) * 16 ^ Z.of_nat (length l).
Proof.
  revert acc. induction l as [|b l IH]; intros acc Hacc; cbn [foldl length].
  { intros [= <-]. change (16 ^ Z.of_nat 0) with 1. lia. }
  cbn [mbind option_bind]. destruct (hex_digit_value b) as [d|] eqn:Hd; cbn.
  - apply hex_digit_range in Hd. intros Hx%IH; [|lia].
    rewrite Nat2Z.inj_succ, Z.pow_succ_r by lia. pose proof (Z.pow_pos_nonneg 16 (Z.of_nat (length l))). nia.
  - intros Hx. exfalso. clear IH. induction l; cbn in Hx; [done|auto].
Qed.

Lemma parse_group_range s x : parse_group s = Some x -> 0 <= x < 65536.
Proof.
  unfold parse_group. destruct (_ || _) eqn:Hg; [done|]. intros Hx%parse_hex_fold; [|done].
  apply orb_false_iff in Hg as [_ Hlen%Z.ltb_ge].
  assert (16 ^ Z.of_nat (length (bytes_of s)) <= 16 ^ 4) by (apply Z.pow_le_mono_r; [done|rewrite length_bytes_of; unfold slen in Hlen; lia]).
  change (16 ^ 4) with 65536 in *. lia.
Qed.

Lemma parse_groups_range l xs : parse_groups l = Some xs -> Forall (fun x => 0 <= x < 65536) xs.
Proof.
  revert xs. induction l as [|g l IH]; intros xs; cbn; [by intros [= <-]|].
  destruct l as [|g' l].
  - case_match.
    + intros (v & Hv%parse_v4_range & [= <-])%bind_Some.
      repeat constructor; try (apply Z.div_pos || apply Z.mod_pos_bound); try lia. apply Z.div_lt_upper_bound; lia.
    + intros (x & Hx%parse_group_range & [= <-])%bind_Some. by repeat constructor; lia.
  - intros (x & Hx%parse_group_range & (ys & Hys%IH & [= <-])%bind_Some)%bind_Some. by constructor.
Qed.

Lemma of_groups_range l : Forall (fun x => 0 <= x < 65536) l -> 0 <= of_groups l < 65536 ^ Z.of_nat (length l).
Proof.
  unfold of_groups. induction l as [|x l IH] using rev_ind; [done|].
  rewrite Forall_app, Forall_singleton. intros [Hl%IH Hx]. rewrite foldl_app, length_app. cbn [foldl length].
  rewrite Nat2Z.inj_add, Z.pow_add_r by lia. change (65536 ^ Z.of_nat 1) with 65536. lia.
Qed.

Lemma parse_v6_range s x : parse_v6_bits s = Some x -> 0 <= x < 2 ^ 128.
Proof.
  unfold parse_v6_bits.
  destruct (cut_str "::" s) as [[l r]|].
  - case_match; [done|].
    intros (xs & Hxs%parse_groups_range & (ys & Hys%parse_groups_range & Hx)%bind_Some)%bind_Some.
    destruct (_ <? 8)%nat eqn:Hlen in Hx; [|done]. injection Hx as <-. apply Nat.ltb_lt in Hlen.
    match goal with |- 0 <= of_groups ?l < _ => assert (Hl : Forall (fun x => 0 <= x < 65536) l) end.
    { rewrite !Forall_app. split_and!; [done| |done]. apply Forall_replicate. lia. }
    apply of_groups_range in Hl. rewrite !length_app, length_replicate in Hl.
    replace (_ + (_ + _))%nat with 8%nat in Hl by lia. exact Hl.
  - intros (xs & Hxs%parse_groups_range & Hx)%bind_Some. destruct (_ =? 8)%nat eqn:Hlen in Hx; [|done].
    injection Hx as <-. apply Nat.eqb_eq in Hlen. apply of_groups_range in Hxs. by rewrite Hlen in Hxs.
Qed.

Lemma ParseAddr_wf s a : ParseAddr s = Some a -> Addr_wf a.
Proof.
  unfold ParseAddr. destruct (first_mark s) as [c|]; [|done]. intros Ha.
  assert ((exists b, parse_v4_bits s = Some b /\ a = mkAddr V4 b "") \/ (exists t z b, parse_v6_bits t = Some b /\ a = mkAddr V6 b z)) as [(b & Hb%parse_v4_range & ->)|(t & z & b & Hb%parse_v6_range & ->)].
  { repeat case_match; simplify_option_eq; eauto 10. }
  all: by split.
Qed.

Lemma ParseAddr_no_zone s a : has_byte "%"%char s = false -> ParseAddr s = Some a -> zone a = "".
Proof.
  unfold ParseAddr. intros Hp Ha.
  assert (Hcut : cut_str "%" s = None).
  { destruct (cut_str "%" s) as [[l r]|] eqn:Hc; [|done]. apply cut_str_spec in Hc. subst s.
    rewrite !has_byte_app in Hp. cbn in Hp. by rewrite orb_true_r in Hp. }
  rewrite Hcut in Ha. repeat case_match; simplify_option_eq; done.
Qed.

(** ** What the guard lets through *)

Section pinning.
Context `{Unicode} `{NetURL} `{AddrText}.

Definition public (a : Addr) : bool := negb (existsb (in_range (Unmap a)) blocked_ranges).

Lemma check_all_ok g host l : is_ok (check_all g host l) = forallb (fun a => is_ok (checkAddr g a)) l.
Proof. induction l as [|a l IH]; cbn; [done|]. by destruct (checkAddr g a). Qed.

(** Every address of a validated target passed the check. *)
Lemma Validate_checked g lookup port raw t :
  Validate g lookup port raw = Ok t ->
  exists u, url_Parse raw = Some u /\ (u_Scheme u = "http" \/ u_Scheme u = "https") /\ Host t = u_Hostname u /\ Addrs t <> [] /\
    Forall (fun a => is_ok (checkAddr g a) = true) (Addrs t) /\
    (Addrs t = option_list (ParseAddr (u_Hostname u)) \/ lookup (u_Hostname u) = Ok (Addrs t)).
Proof.
  unfold Validate. destruct (url_Parse raw) as [u|]; [|done]. intros Hv. exists u. revert Hv.
  case_decide as Hs; [done|]. case_decide; [done|].
  assert (u_Scheme u = "http" \/ u_Scheme u = "https").
  { destruct (decide (u_Scheme u = "http")); [by left|]. destruct (decide (u_Scheme u = "https")); [by right|]. tauto. }
  destruct (ParseAddr (u_Hostname u)) as [a|] eqn:Hp.
  - destruct (checkAddr g a) eqn:Hc; [|done]. intros [= <-]. cbn. split_and!; try done; [|by left]. apply Forall_singleton. by rewrite Hc.
  - destruct (lookup (u_Hostname u)) as [[|a l]|] eqn:Hl; [done| |done].
    destruct (check_all g (u_Hostname u) (a :: l)) eqn:Hc; [|done]. intros [= <-].
    assert (Hall : is_ok (check_all g (u_Hostname u) (a :: l)) = true) by (by rewrite Hc).
    rewrite check_all_ok in Hall. split_and!; try done; [|by right].
    apply Forall_forall. intros x Hx. by apply (proj1 (List.forallb_forall _ _) Hall), list_elem_of_In.
Qed.

Lemma dial_pinned t next asked : Addrs t <> [] -> exists a, a ∈ Addrs t /\ dial t next asked = Ok (a, Port t).
Proof.
  intros Hne. unfold dial. destruct (Addrs t) as [|x l] eqn:Ha; [done|]. rewrite <- Ha in *.
  destruct (lookup_lt_is_Some_2 (Addrs t) (next mod length (Addrs t))) as [a Hl].
  { apply Nat.mod_upper_bound. by rewrite Ha. }
  exists a. rewrite Hl. split; [by eapply list_elem_of_lookup_2|done].
Qed.

Lemma checkAddr_public a : Addr_wf a -> zone a = "" -> is_ok (checkAddr New a) = public a.
Proof. intros Hwf Hz. unfold public. by rewrite checkAddr_ok, refused_ranges_exact. Qed.

(** A resolver whose answers are addresses without a zone, and a host that spells none. *)
Definition plain_lookup (lookup : string -> result string (list Addr)) : Prop :=
  forall host l, lookup host = Ok l -> Forall (fun a => Addr_wf a /\ zone a = "") l.

Lemma dial_public lookup port raw u t next asked :
  plain_lookup lookup -> url_Parse raw = Some u -> has_byte "%"%char (u_Hostname u) = false ->
  Validate New lookup port raw = Ok t ->
  exists a, dial t next asked = Ok (a, Port t) /\ a ∈ Addrs t /\ public a = true.
Proof.
  intros Hlook Hu Hpct Hv.
  destruct (Validate_checked _ _ _ _ _ Hv) as (u' & Hu' & _ & _ & Hne & Hall & Hfrom). assert (u' = u) as -> by congruence.
  destruct (dial_pinned t next asked Hne) as (a & Ha & Hd). exists a. split_and!; [done|done|].
  assert (Addr_wf a /\ zone a = "") as [Hwf Hz].
  { destruct Hfrom as [Hp|Hl]; [|by eapply Forall_forall in Ha; [|exact (Hlook _ _ Hl)]].
    rewrite Hp in Ha. destruct (ParseAddr (u_Hostname u)) as [b|] eqn:Hb; [|by apply not_elem_of_nil in Ha].
    apply list_elem_of_singleton in Ha. subst b. split; [by eapply ParseAddr_wf|by eapply ParseAddr_no_zone]. }
  rewrite <- checkAddr_public by done. by eapply Forall_forall in Ha; [|exact Hall].
Qed.

(** C21: a delivery never leaves the public addresses. For every address without a zone the guard's switch and prefix list
    refuse exactly the addresses of the listed ranges (mapped IPv4 addresses judged as IPv4), and an approved URL whose
    host and whose resolved addresses carry no zone is dialled, at every attempt and whatever address the
    transport asks for, at one of the addresses that were checked, which is public. *)
Theorem delivery_stays_public :
  (forall a, Addr_wf a -> zone a = "" -> is_ok (checkAddr New a) = public a) /\
  forall lookup port raw u t,
    (forall host l, lookup host = Ok l -> Forall (fun a => Addr_wf a /\ zone a = "") l) ->
    url_Parse raw = Some u -> has_byte "%"%char (u_Hostname u) = false ->
    Validate New lookup port raw = Ok t ->
    forall next asked, exists a, dial t next asked = Ok (a, Port t) /\ a ∈ Addrs t /\ public a = true.
Proof.
  split; [exact checkAddr_public|]. intros lookup port raw u t Hlook Hu Hpct Hv next asked. by eapply dial_public.
Qed.
End pinning.

Module SsrfDemo.
#[local] Existing Instance DemoUnicode.
#[local] Instance text : AddrText := {| addr_String _ := "address" |}.
#[local] Instance net : NetURL := {| url_Parse s :=
  if decide (s = "https://hooks.example/in") then Some (mkURL "https" "hooks.example" "" false)
  else if decide (s = "http://[::%251]/") then Some (mkURL "http" "::%1" "" false) else None |}.

Definition lookup (host : string) : result string (list Addr) :=
  if decide (host = "hooks.example") then Ok [mkAddr V4 0x5db8d822 ""; mkAddr V6 0x26062800022000010248189325c81946 ""] else Err "no such host".
Definition port (u : URL) : string := "".
Definition target : Resolved := mkResolved "hooks.example" [mkAddr V4 0x5db8d822 ""; mkAddr V6 0x26062800022000010248189325c81946 ""] "443".

Lemma lookup_wf host l : lookup host = Ok l -> Forall (fun a => Addr_wf a /\ zone a = "") l.
Proof. unfold lookup. case_decide; [|done]. intros [= <-]. repeat constructor; cbn; vm_compute; congruence. Qed.

Lemma delivery_stays_public_witness :
  Validate New lookup port "https://hooks.example/in" = Ok target /\
  exists a, dial target 3 "attacker" = Ok (a, "443") /\ a ∈ Addrs target /\ public a = true.
Proof.
  assert (Hv : Validate New lookup port "https://hooks.example/in" = Ok target) by reflexivity.
  split; [exact Hv|]. exact (proj2 delivery_stays_public lookup port "https://hooks.example/in" _ target lookup_wf eq_refl eq_refl Hv 3%nat "attacker").
Defined.

(** A zone hides an address from the comparisons that include it: the unspecified address, which connects
    to the local host, and the NAT64 form of the metadata address. *)
Example zone_bypasses_guard :
  is_ok (checkAddr New (mkAddr V6 0 "")) = false /\ is_ok (checkAddr New (mkAddr V6 0 "1")) = true /\
  Validate New lookup port "http://[::%251]/" = Ok (mkResolved "::%1" [mkAddr V6 0 "1"] "80") /\
  is_ok (checkAddr New (mkAddr V6 (0x0064ff9b * 2 ^ 96 + 0xa9fea9fe) "")) = false /\
  is_ok (checkAddr New (mkAddr V6 (0x0064ff9b * 2 ^ 96 + 0xa9fea9fe) "1")) = true.
Proof. vm_compute. auto 10. Qed.

(** Ranges the list leaves out: "this network" beyond 0.0.0.0, and the IPv4-compatible form of a loopback address. *)
Example gaps_accepted :
  is_ok (checkAddr New (mkAddr V4 0x00000001 "")) = true /\ is_ok (checkAddr New (mkAddr V6 0x7f000001 "")) = true.
Proof. split; reflexivity. Qed.
End SsrfDemo.
