(* ===== verification/ClientIp.v ===== *)
(** * Client addresses

    [internal/platform/clientip]: which address a request is attributed to. A forwarding
    header is read only when the socket peer is a declared proxy, nearest hop first. The
    [net] functions it uses (ParseIP, ParseCIDR, IPNet.Contains, SplitHostPort) are
    modelled over the addresses of [Ssrf]. *)

From S2P Require Import Prelude Idempotency Ssrf.

(** ** [net.IP]

    An address is its 16-byte form: an IPv4 address is stored mapped. *)

Definition IP := Z.
Definition v4InV6Prefix : Z := 0xffff * 2 ^ 32.
Definition As16 (a : Addr) : IP := if v4 a then v4InV6Prefix + bits a else bits a.
Definition To4 (ip : IP) : option Z := if Z.shiftr ip 32 =? 0xffff then Some (ip mod 2 ^ 32) else None.

Definition ParseIP (s : string) : option IP :=
  match ParseAddr s with
  | Some a => if decide (zone a = "") then Some (As16 a) else None
  | None => None
  end.

(** [net.IPNet]: the address, and how many ones its mask of [mask_bits] bits starts with. *)
Record IPNet := mkIPNet { net_IP : IP; ones : Z; mask_bits : Z }.

(** Equality of the leading [n] of [w] bits. *)
Definition same_top (w n x y : Z) : bool := Z.shiftr x (w - n) =? Z.shiftr y (w - n).

(** [networkNumberAndMask] reduces a mapped network to its last four bytes and the mask to
    its last four; addresses of different lengths never match. *)
Definition net_Contains (n : IPNet) (ip : IP) : bool :=
  match To4 (net_IP n), To4 ip with
  | Some x, Some y => same_top 32 (if mask_bits n =? 32 then ones n else Z.max 0 (ones n - 96)) x y
  | None, None => (mask_bits n =? 128) && same_top 128 (ones n) (net_IP n) ip
  | _, _ => false
  end.

(** The address with the bits after the first [n] of its [w] cleared. *)
Definition mask_low (w n x : Z) : Z := Z.shiftl (Z.shiftr x (w - n)) (w - n).

Definition ParseCIDR (s : string) : option IPNet :=
  match cut_str "/" s with
  | None => None
  | Some (addr, mask) =>
      a ← ParseAddr addr;
      if bool_decide (zone a <> "") || bool_decide (mask = "") || negb (str_forall is_digit_b mask) then None
      else n ← parse_udec mask;
        let w := width (family a) in
        if w <? Z.of_N n then None
        else Some (mkIPNet (if v4 a then v4InV6Prefix + mask_low 32 (Z.of_N n) (bits a) else mask_low 128 (Z.of_N n) (bits a))
                     (Z.of_N n) w)
  end.

(** ** [net.SplitHostPort] *)

(** The text before and after the last colon. *)
Fixpoint cut_last_colon (s : string) : option (string * string) :=
  match s with
  | "" => None
  | String c r =>
      match cut_last_colon r with
      | Some (h, p) => Some (String c h, p)
      | None => if decide (c = ":"%char) then Some ("", r) else None
      end
  end.

(** The host; a bracketed host ends at the first bracket, directly before the last colon. *)
Definition SplitHostPort (hostport : string) : option string :=
  match cut_last_colon hostport with
  | None => None
  | Some (before, port) =>
      match strip_prefix "[" hostport with
      | Some rest =>
          match cut_str "]" rest with
          | None => None
          | Some (host, tail) =>
              if bool_decide (tail = String ":"%char port) && negb (has_byte ":"%char port) &&
                 negb (has_byte "["%char rest) && negb (has_byte "]"%char tail)
              then Some host else None
          end
      | None =>
          if has_byte ":"%char before || has_byte "["%char hostport || has_byte "]"%char hostport then None else Some before
      end
  end.

(** ** The resolver *)

(** [strings.Trim(addr, "[]")] *)
Fixpoint trim_set_left (cut : list ascii) (s : string) : string :=
  match s with
  | String c r => if decide (c ∈ cut) then trim_set_left cut r else s
  | "" => ""
  end.
Definition trim_set (cut : list ascii) (s : string) : string := str_rev (trim_set_left cut (str_rev (trim_set_left cut s))).

Definition hostOnly (addr : string) : string :=
  let addr := trim_space addr in
  if decide (addr = "") then ""
  else match SplitHostPort addr with
       | Some host => host
       | None => trim_set ["["%char; "]"%char] addr
       end.

Definition dquote_char : ascii := chr 34.

Definition parseForwardedAddress (entry : string) : option string :=
  let entry := trim_space entry in
  if decide (entry = "") then None
  else
    let entry := match cut_str ";" entry with Some (l, _) => l | None => entry end in
    let entry := match cut_str "for=" entry with Some (_, after) => after | None => entry end in
    let host := hostOnly (trim_set [dquote_char] (trim_space entry)) in
    match ParseIP host with None => None | Some _ => Some host end.

Record Resolver := mkResolver { trusted : list IPNet }.

(** The network one configured range stands for; [None] is the parse error. *)
Definition parse_trusted (cidr : string) : option IPNet :=
  match ParseCIDR cidr with
  | Some n => Some n
  | None =>
      match ParseIP cidr with
      | None => None
      | Some ip => let w := match To4 ip with Some _ => 32 | None => 128 end in Some (mkIPNet ip w w)
      end
  end.

Fixpoint New (trustedProxyCIDRs : list string) : result string Resolver :=
  match trustedProxyCIDRs with
  | [] => Ok (mkResolver [])
  | raw :: rest =>
      let cidr := trim_space raw in
      if decide (cidr = "") then New rest
      else match parse_trusted cidr with
           | None => Err ("invalid trusted proxy CIDR: " +:+ cidr)
           | Some network => match New rest with
                             | Ok r => Ok (mkResolver (network :: trusted r))
                             | Err e => Err e
                             end
           end
  end.

Definition Trusts (r : Resolver) : bool := bool_decide (trusted r <> []).

Definition isTrusted (r : Resolver) (ip : string) : bool :=
  if decide (ip = "") then false
  else match ParseIP ip with
       | None => false
       | Some parsed => existsb (fun network => net_Contains network parsed) (trusted r)
       end.

(** The entries of a header's values. *)
Definition entries (values : list string) : list string :=
  filter (fun part => part <> "") (trim_space <$> (values ≫= split_on ","%char)).

(** Nearest hop first. *)
Definition xffChain (h : Header) : list string :=
  rev (entries (Values h "X-Forwarded-For") ++ entries (Values h "Forwarded")).

Fixpoint walk_chain (r : Resolver) (peer : string) (chain : list string) : string :=
  match chain with
  | [] => peer
  | raw :: rest =>
      match parseForwardedAddress raw with
      | None => peer
      | Some ip => if isTrusted r ip then walk_chain r peer rest else ip
      end
  end.

Definition ClientIP (r : Resolver) (remoteAddr : string) (h : Header) : string :=
  let peer := hostOnly remoteAddr in
  if isTrusted r peer then walk_chain r peer (xffChain h) else peer.

(** ** Attribution *)

Lemma walk_chain_sound r peer chain :
  walk_chain r peer chain = peer \/
  exists entry, entry ∈ chain /\ parseForwardedAddress entry = Some (walk_chain r peer chain) /\ isTrusted r (walk_chain r peer chain) = false.
Proof.
  induction chain as [|raw chain IH]; cbn; [by left|].
  destruct (parseForwardedAddress raw) as [ip|] eqn:Hp; [|by left].
  destruct (isTrusted r ip) eqn:Ht; [|right; exists raw; set_solver].
  destruct IH as [?|(e & He & ?)]; [by left|right]. exists e. split; [by right|done].
Qed.

Lemma parseForwarded_address entry ip : parseForwardedAddress entry = Some ip -> is_Some (ParseIP ip).
Proof. unfold parseForwardedAddress. case_decide; [done|]. case_match eqn:Hp; [|done]. intros [= <-]. by rewrite Hp. Qed.

Lemma walk_chain_honest r peer hops client ip spoofed :
  Forall (fun hop => exists p, parseForwardedAddress hop = Some p /\ isTrusted r p = true) hops ->
  parseForwardedAddress client = Some ip -> isTrusted r ip = false ->
  walk_chain r peer (hops ++ client :: spoofed) = ip.
Proof.
  intros Hh Hc Ht. induction Hh as [|hop hops (p & Hp & Hpt) _ IH]; cbn; [by rewrite Hc, Ht|]. by rewrite Hp, Hpt.
Qed.

(** C24: Which address a request is counted under. From a peer that is not a declared proxy the headers are ignored:
    the address is the socket's. Behind declared proxies, and as long as the request carries no Forwarded header,
    whatever the caller put into X-Forwarded-For before the proxies appended to it is not read: the answer is the
    last hop that is not a declared proxy. (With a Forwarded header a caller behind a proxy that passes it through
    does choose its address: example forwarded_header_spoofs.) In every case the answer is the socket peer or a
    well-formed address outside the declared ranges, never other text. *)
Theorem address_not_chosen_by_caller r remoteAddr h :
  let peer := hostOnly remoteAddr in
  (isTrusted r peer = false -> ClientIP r remoteAddr h = peer) /\
  (forall spoofed client hops ip,
     isTrusted r peer = true -> Values h "Forwarded" = [] ->
     entries (Values h "X-Forwarded-For") = spoofed ++ client :: hops ->
     parseForwardedAddress client = Some ip -> isTrusted r ip = false ->
     Forall (fun hop => exists p, parseForwardedAddress hop = Some p /\ isTrusted r p = true) hops ->
     ClientIP r remoteAddr h = ip) /\
  (ClientIP r remoteAddr h = peer \/
   (is_Some (ParseIP (ClientIP r remoteAddr h)) /\ isTrusted r (ClientIP r remoteAddr h) = false)).
Proof.
  intros peer. unfold ClientIP. fold peer. split_and!.
  - by intros ->.
  - intros spoofed client hops ip -> Hf Hx Hc Ht Hh. unfold xffChain. rewrite Hf, Hx. cbn [entries mbind list_bind].
    change (entries []) with (@nil string). rewrite app_nil_r, rev_app_distr. cbn [rev]. rewrite <- app_assoc.
    apply walk_chain_honest; [|done|done]. rewrite Forall_forall in Hh. apply Forall_forall. intros x Hx'.
    apply Hh. by rewrite list_elem_of_In, in_rev, <- list_elem_of_In.
  - destruct (isTrusted r peer); [|by left]. destruct (walk_chain_sound r peer (xffChain h)) as [?|(e & _ & Hp & Ht)]; [by left|right].
    split; [by eapply parseForwarded_address|done].
Qed.

(** ** What a configured range covers *)

Lemma mask_low_top w n x : 0 <= n <= w -> Z.shiftr (mask_low w n x) (w - n) = Z.shiftr x (w - n).
Proof.
  intros Hn. unfold mask_low. rewrite Z.shiftr_shiftl_l by lia. by rewrite Z.sub_diag, Z.shiftl_0_r.
Qed.

(** The tests on a known family. *)
Ltac families :=
  repeat first
    [ progress change (bool_decide (V4 = V4)) with true | progress change (bool_decide (V6 = V6)) with true
    | progress change (bool_decide (V4 = V6)) with false | progress change (bool_decide (V6 = V4)) with false ];
  cbn [andb].

Lemma As16_To4 a : Addr_wf a -> Is4In6 a = false -> To4 (As16 a) = if v4 a then Some (bits a) else None.
Proof.
  intros [Hb _] H4. unfold As16, To4, v4 in *. destruct (family a) eqn:Hf; cbn in Hb |- *; families.
  - rewrite Z.shiftr_div_pow2 by done. replace (v4InV6Prefix + bits a) with (bits a + 0xffff * 2 ^ 32) by (unfold v4InV6Prefix; lia).
    rewrite (Z.div_add (bits a) 0xffff (2 ^ 32)), (Z.mod_add (bits a) 0xffff (2 ^ 32)), Z.div_small, Z.mod_small by done. done.
  - unfold Is4In6, top in H4. rewrite Hf in H4. cbn in H4. change (bool_decide (V6 = V6)) with true in H4. change (128 - 96) with 32 in H4. cbn [andb] in H4. by rewrite H4.
Qed.

Lemma mask_low_mapped n x :
  0 <= n <= 128 -> Z.shiftr x 32 <> 0xffff -> Z.shiftr (mask_low 128 n x) 32 <> 0xffff.
Proof.
  intros Hn Hx. unfold mask_low. destruct (Z.le_gt_cases (128 - n) 32) as [Hk|Hk].
  - rewrite Z.shiftr_shiftl_r by lia. rewrite Z.shiftr_shiftr by lia. by replace (128 - n + (32 - (128 - n))) with 32 by lia.
  - rewrite Z.shiftr_shiftl_l by lia. rewrite Z.shiftl_mul_pow2 by lia.
    replace (128 - n - 32) with (Z.succ (95 - n)) by lia. rewrite Z.pow_succ_r by lia. lia.
Qed.

Lemma same_top_mask w n x y : 0 <= n <= w -> same_top w n (mask_low w n x) y = same_top w n x y.
Proof. intros Hn. unfold same_top. by rewrite mask_low_top. Qed.

Lemma To4_masked a n :
  Addr_wf a -> Is4In6 a = false -> 0 <= n <= width (family a) ->
  To4 (if v4 a then v4InV6Prefix + mask_low 32 n (bits a) else mask_low 128 n (bits a)) =
    (if v4 a then Some (mask_low 32 n (bits a)) else None).
Proof.
  intros [Hb _] H4 Hn. unfold v4 in *. destruct (family a) eqn:Hf; cbn in Hb, Hn |- *; families.
  - assert (Hm : 0 <= mask_low 32 n (bits a) < 2 ^ 32).
    { unfold mask_low. rewrite Z.shiftl_mul_pow2, Z.shiftr_div_pow2 by lia.
      assert (0 < 2 ^ (32 - n)) by (apply Z.pow_pos_nonneg; lia). pose proof (Z.mul_div_le (bits a) (2 ^ (32 - n)) ltac:(lia)).
      pose proof (Z.div_pos (bits a) (2 ^ (32 - n)) ltac:(lia) ltac:(lia)). nia. }
    apply (As16_To4 (mkAddr V4 _ "")); [by split|done].
  - unfold To4. assert (Hx : Z.shiftr (bits a) 32 <> 0xffff).
    { unfold Is4In6, top in H4. rewrite Hf in H4. change (bool_decide (V6 = V6)) with true in H4. by apply Z.eqb_neq in H4. }
    apply (mask_low_mapped n) in Hx; [|done]. by apply Z.eqb_neq in Hx as ->.
Qed.

(** A declared range "address/n" covers exactly the addresses of its family that agree with it on
    the first n bits. *)
Theorem declared_range_exact s net addr mask a b :
  ParseCIDR s = Some net -> cut_str "/" s = Some (addr, mask) -> ParseAddr addr = Some a -> Is4In6 a = false ->
  Addr_wf b -> Is4In6 b = false ->
  0 <= ones net <= width (family a) /\ parse_udec mask = Some (Z.to_N (ones net)) /\
  net_Contains net (As16 b) = bool_decide (family a = family b) && (top (ones net) a =? top (ones net) b).
Proof.
  unfold ParseCIDR. intros Hp Hcut Ha H4 Hwfb H4b. pose proof (ParseAddr_wf _ _ Ha) as Hwf. rewrite Hcut, Ha in Hp. cbn in Hp.
  destruct (_ || _) in Hp; [done|]. destruct (parse_udec mask) as [m|] eqn:Hm; [|done]. cbn in Hp.
  destruct (Z.ltb_spec (width (family a)) (Z.of_N m)) as [|Hle]; [done|].
  apply Some_inj in Hp. subst net. cbn [ones net_IP mask_bits].
  split_and!; [lia..|by rewrite N2Z.id|].
  unfold net_Contains. cbn [ones net_IP mask_bits]. rewrite To4_masked, As16_To4 by (done || lia).
  unfold top, v4 in *. destruct (family a) eqn:Hfa, (family b) eqn:Hfb; cbn; families; try done.
  - rewrite same_top_mask by (cbn in Hle; lia). done.
  - unfold As16, v4. rewrite Hfb. families. rewrite same_top_mask by (cbn in Hle; lia). done.
Qed.

(** ** Witnesses *)

Module ClientIpDemo.
Definition resolver : Resolver := mkResolver [mkIPNet (v4InV6Prefix + 0x0a000000) 8 32].
Example resolver_parsed : New ["10.0.0.0/8"; " "] = Ok resolver.
Proof. reflexivity. Qed.

Definition spoofing : Header := {[ "X-Forwarded-For" := ["8.8.8.8, 1.1.1.1"; "203.0.113.9, 10.0.0.2"] ]}.

Lemma address_not_chosen_by_caller_witness : ClientIP resolver "10.0.0.1:4711" spoofing = "203.0.113.9".
Proof.
  apply (proj1 (proj2 (address_not_chosen_by_caller resolver "10.0.0.1:4711" spoofing))
    ["8.8.8.8"; "1.1.1.1"] "203.0.113.9" ["10.0.0.2"] "203.0.113.9"); try reflexivity.
  repeat constructor. exists "10.0.0.2". split; reflexivity.
Defined.

Lemma declared_range_exact_witness :
  net_Contains (mkIPNet (v4InV6Prefix + 0x0a000000) 8 32) (As16 (mkAddr V4 0x0a010203 "")) = true.
Proof.
  apply (declared_range_exact "10.1.2.3/8" (mkIPNet (v4InV6Prefix + 0x0a000000) 8 32) "10.1.2.3" "8" (mkAddr V4 0x0a010203 "")
    (mkAddr V4 0x0a010203 "")); try reflexivity; by split.
Defined.

(** A proxy that appends to X-Forwarded-For passes a Forwarded header through, and its entries are taken for the
    nearest hops: the caller chooses its address. *)
Example forwarded_header_spoofs :
  ClientIP resolver "10.0.0.1:4711" {[ "X-Forwarded-For" := ["203.0.113.9"] ]} = "203.0.113.9" /\
  ClientIP resolver "10.0.0.1:4711" (<["Forwarded" := ["for=198.51.100.7"]]> {[ "X-Forwarded-For" := ["203.0.113.9"] ]}) = "198.51.100.7" /\
  ClientIP resolver "10.0.0.1:4711" (<["Forwarded" := ["for=198.51.100.8"]]> {[ "X-Forwarded-For" := ["203.0.113.9"] ]}) = "198.51.100.8".
Proof. repeat split; reflexivity. Qed.
End ClientIpDemo.
