(* ===== verification/Handlers.v ===== *)
(** * Tenant-scoped handlers

    [internal/httpx]: the handlers of projects, invoices, webhooks, API keys and the audit
    trail, with what they render ([handlers_projects.go], [handlers_invoices.go],
    [handlers_webhooks.go], [handlers_apikeys.go], [handlers_audit.go]) and the success
    replies of [platform/httperr/respond.go]. A handler runs behind the gate of [Tenant], so
    its authorization is an argument; its body is the outcome of [decodeJSON], its query and
    path parameters are strings. *)

From S2P Require Import Prelude Apperr Ids Cursor Db Authz Tenant Paging Render.
From S2P Require AuditLog Invoice Webhook Outbox InvoiceStore ApiKey Project Ssrf.

(** ** Replies *)

(** [Next] is [next_cursor], omitted when empty. *)
Record Reply (A : Type) := mkReply {
  code : Z;
  Location : option string;
  data : option A;
  next_cursor : option string;
}.
Arguments mkReply {A} _ _ _ _.
Arguments code {A} _.
Arguments Location {A} _.
Arguments data {A} _.
Arguments next_cursor {A} _.

Definition OK {A} (payload : A) : Reply A := mkReply 200 None (Some payload) None.
Definition Created {A} (location : option string) (payload : A) : Reply A := mkReply 201 location (Some payload) None.
Definition NoContent : Reply unit := mkReply 204 None None None.
Definition Page {A} (items : list A) (nextCursor : string) : Reply (list A) :=
  mkReply 200 None (Some items) (if decide (nextCursor = "") then None else Some nextCursor).

(** ** Cursors *)

Section cursors.
Context `{UUIDLib} (json_Unmarshal : string -> option encoded) (c : Codec).

Definition decodeCursor (binding : Binding) (raw : string) : go_result (option Position) :=
  if decide (raw = "") then Ok None
  else match Decode json_Unmarshal c binding raw with
       | Ok pos => Ok (Some pos)
       | Err e =>
           if Is e CursorErrBinding
           then Err (Invalid "cursor" "this cursor belongs to a different query; start from the first page")
           else Err (Invalid "cursor" "the cursor is not valid")
       end.

Definition encodeCursor (binding : Binding) (pos : Position) : string :=
  match Encode c binding pos with Ok token => token | Err _ => "" end.

(** The end of every listing: the items and the token of the next page. *)
Definition page_reply {A B} (binding : Binding) (render : A -> B) (page : list A * option Position) : Reply (list B) :=
  Page (render <$> page.1) (match page.2 with Some pos => encodeCursor binding pos | None => "" end).

(** ** Projects *)

Record createProjectRequest := mkCreateProject { cp_Name : string; cp_Slug : string; cp_Description : string }.
Record updateProjectRequest := mkUpdateProject {
  upr_Name : option string;
  upr_Description : option string;
  upr_ExpectedVersion : Z;
}.

Record projectResponse := mkProjectResponse {
  pr_ID : string;
  pr_TenantID : string;
  pr_Name : string;
  pr_Slug : string;
  pr_Description : string;
  pr_Version : Z;
  pr_CreatedBy : string;
  pr_CreatedByKey : string;
  pr_CreatedAt : string;
  pr_UpdatedAt : string;
  pr_ArchivedAt : option string;
}.

Definition uuidPtrString (id : option uuid) : string := match id with None => "" | Some u => uuid_String u end.

Definition projectResponseFrom (p : Project.Project) : projectResponse :=
  mkProjectResponse (uuid_String (Project.ID p)) (uuid_String (Project.TenantID p)) (Project.Name p) (Project.p_Slug p)
    (Project.Description p) (Project.Version p) (uuidPtrString (Project.CreatedBy p)) (uuidPtrString (Project.CreatedByKey p))
    (timestamp (Project.CreatedAt p)) (timestamp (Project.UpdatedAt p)) (timestampPtr (Project.ArchivedAt p)).

Definition projectURL (tenantID projectID : uuid) : string :=
  "/v1/tenants/" +:+ uuid_String tenantID +:+ "/projects/" +:+ uuid_String projectID.

Section projects.
Context `{Unicode} `{TimeJSON}.

Definition handleCreateProject (env : Env) (a : Authorized) (body : go_result createProjectRequest)
    : SE Project.DB Problem (Reply projectResponse) :=
  req ← failing (lift body);
  created ← failing (Project.Create env a (Project.mkCreateInput (cp_Name req) (cp_Description req) (cp_Slug req)));
  mret (Created (Some (projectURL (scope a) (Project.ID created))) (projectResponseFrom created)).

Definition handleListProjects (a : Authorized) (raw_limit raw_cursor include_archived : string)
    : SE Project.DB Problem (Reply (list projectResponse)) :=
  params ← failing (lift (pageParams raw_limit raw_cursor));
  includeArchived ← failing (lift (boolParam "include_archived" include_archived));
  let filter_ := Project.mkListFilter includeArchived in
  let binding := Project.Binding_of a filter_ in
  after ← failing (lift (decodeCursor binding params.2));
  page ← failing (Project.List_ a filter_ after params.1);
  mret (page_reply binding projectResponseFrom page).

Definition handleGetProject (a : Authorized) (projectID : string) : SE Project.DB Problem (Reply projectResponse) :=
  id ← failing (lift (pathUUID projectID));
  p ← failing (Project.Get a id);
  mret (OK (projectResponseFrom p)).

(** [mid] and [mid2] are the commits of other sessions [Project.Update] can see. *)
Definition handleUpdateProject (env : Env) (mid mid2 : Project.DB -> Project.DB) (a : Authorized) (projectID : string)
    (body : go_result updateProjectRequest) : SE Project.DB Problem (Reply projectResponse) :=
  id ← failing (lift (pathUUID projectID));
  req ← failing (lift body);
  if decide (upr_Name req = None /\ upr_Description req = None)
  then failing (throw (Invalid "body" "supply at least one field to update"))
  else
    updated ← failing (Project.Update env mid mid2 a id
                (Project.mkUpdateInput (upr_Name req) (upr_Description req) (upr_ExpectedVersion req)));
    mret (OK (projectResponseFrom updated)).

Definition handleArchiveProject (env : Env) (mid mid2 : Project.DB -> Project.DB) (a : Authorized) (projectID : string)
    : SE Project.DB Problem (Reply unit) :=
  id ← failing (lift (pathUUID projectID));
  _ ← failing (Project.Archive env mid mid2 a id);
  mret NoContent.
End projects.

(** ** Invoices *)

Record invoiceItemResponse := mkItemResponse {
  ir_ID : string;
  ir_Position : Z;
  ir_Description : string;
  ir_Quantity : Z;
  ir_UnitPriceMinor : Z;
  ir_LineTotalMinor : Z;
}.

Record invoiceResponse := mkInvoiceResponse {
  inr_ID : string;
  inr_TenantID : string;
  inr_Number : string;
  inr_Status : string;
  inr_Currency : string;
  inr_SubtotalMinor : Z;
  inr_TaxMinor : Z;
  inr_TotalMinor : Z;
  inr_Version : Z;
  inr_CreatedBy : string;
  inr_CreatedByKey : string;
  inr_IssuedAt : option string;
  inr_PaidAt : option string;
  inr_VoidedAt : option string;
  inr_CreatedAt : string;
  inr_UpdatedAt : string;
  inr_Items : option (list invoiceItemResponse);
}.

Definition invoiceItemResponseFrom (it : Invoice.Item) : invoiceItemResponse :=
  mkItemResponse (uuid_String (Invoice.item_ID it)) (Invoice.Position it) (Invoice.Description it) (Invoice.Quantity it)
    (Invoice.UnitPriceMinor it) (Invoice.LineTotalMinor it).

Definition invoiceResponseFrom (includeItems : bool) (inv : Invoice.Invoice) : invoiceResponse :=
  mkInvoiceResponse (uuid_String (Invoice.ID inv)) (uuid_String (Invoice.TenantID inv)) (Invoice.Number inv)
    (Invoice.Status inv) (Invoice.Currency inv) (Invoice.SubtotalMinor inv) (Invoice.TaxMinor inv) (Invoice.TotalMinor inv)
    (Invoice.Version inv) (uuidPtrString (Invoice.CreatedBy inv)) (uuidPtrString (Invoice.CreatedByKey inv))
    (timestampPtr (Invoice.IssuedAt inv)) (timestampPtr (Invoice.PaidAt inv)) (timestampPtr (Invoice.VoidedAt inv))
    (timestamp (Invoice.CreatedAt inv)) (timestamp (Invoice.UpdatedAt inv))
    (if includeItems then Some (invoiceItemResponseFrom <$> Invoice.Items inv) else None).

Section invoices.
Context `{Unicode} `{Outbox.GoJSON} (emits : bool) (traceparent : string).

Definition handleCreateInvoice (env : Env) (a : Authorized) (body : go_result Invoice.CreateInput)
    : SE InvoiceStore.DB Problem (Reply invoiceResponse) :=
  req ← failing (lift body);
  created ← failing (InvoiceStore.Create emits traceparent env a req);
  mret (Created None (invoiceResponseFrom true created)).

Definition handleGetInvoice (a : Authorized) (invoiceID : string) : SE InvoiceStore.DB Problem (Reply invoiceResponse) :=
  id ← failing (lift (pathUUID invoiceID));
  inv ← failing (InvoiceStore.Get a id);
  mret (OK (invoiceResponseFrom true inv)).

Definition handleListInvoices (a : Authorized) (raw_limit raw_cursor status : string)
    : SE InvoiceStore.DB Problem (Reply (list invoiceResponse)) :=
  params ← failing (lift (pageParams raw_limit raw_cursor));
  _ ← failing (lift (Invoice.NormalizeStatus status));
  let binding := InvoiceStore.Binding_of a status in
  after ← failing (lift (decodeCursor binding params.2));
  page ← failing (InvoiceStore.List_ a status after params.1);
  mret (page_reply binding (invoiceResponseFrom false) page).

Definition handleAddInvoiceItem (env : Env) (a : Authorized) (invoiceID : string) (body : go_result Invoice.ItemInput)
    : SE InvoiceStore.DB Problem (Reply invoiceResponse) :=
  id ← failing (lift (pathUUID invoiceID));
  req ← failing (lift body);
  updated ← failing (InvoiceStore.AddItem env a id req);
  mret (OK (invoiceResponseFrom true updated)).

Definition handleRemoveInvoiceItem (env : Env) (a : Authorized) (invoiceID itemID : string)
    : SE InvoiceStore.DB Problem (Reply invoiceResponse) :=
  id ← failing (lift (pathUUID invoiceID));
  item ← failing (lift (pathUUID itemID));
  updated ← failing (InvoiceStore.RemoveItem env a id item);
  mret (OK (invoiceResponseFrom true updated)).

(** The body is the expected version. *)
Definition handleTransition (env : Env) (a : Authorized) (invoiceID : string) (body : go_result Z) (t : string)
    : SE InvoiceStore.DB Problem (Reply invoiceResponse) :=
  id ← failing (lift (pathUUID invoiceID));
  expected ← failing (lift body);
  updated ← failing (InvoiceStore.TransitionInvoice emits traceparent env a id t expected);
  mret (OK (invoiceResponseFrom true updated)).

Definition handleIssueInvoice env a invoiceID body := handleTransition env a invoiceID body Invoice.TransitionIssue.
Definition handlePayInvoice env a invoiceID body := handleTransition env a invoiceID body Invoice.TransitionPay.
Definition handleVoidInvoice env a invoiceID body := handleTransition env a invoiceID body Invoice.TransitionVoid.
End invoices.

(** ** Webhooks *)

Record webhookEndpointResponse := mkEndpointResponse {
  wr_ID : string;
  wr_URL : string;
  wr_Events : list string;
  wr_Description : string;
  wr_Active : bool;
  wr_CreatedAt : string;
  wr_UpdatedAt : string;
}.

Definition webhookEndpointFrom (e : Outbox.Endpoint) : webhookEndpointResponse :=
  mkEndpointResponse (uuid_String (Outbox.ep_ID e)) (Outbox.ep_URL e) (Outbox.ep_Events e) (Outbox.ep_Description e)
    (Outbox.ep_Active e) (timestamp (Outbox.ep_CreatedAt e)) (timestamp (Outbox.ep_UpdatedAt e)).

Record webhookDeliveryResponse := mkDeliveryResponse {
  dr_ID : string;
  dr_EndpointID : string;
  dr_Event : string;
  dr_State : string;
  dr_Attempts : Z;
  dr_Replays : Z;
  dr_NextAt : string;
  dr_LastError : string;
  dr_LastStatus : Z;
  dr_DeliveredAt : string;
  dr_CreatedAt : string;
}.

Definition webhookDeliveryFrom (d : Outbox.Delivery) : webhookDeliveryResponse :=
  mkDeliveryResponse (uuid_String (Outbox.dl_ID d)) (uuid_String (Outbox.dl_EndpointID d)) (Outbox.dl_Event d)
    (Webhook.state_text (Outbox.dl_State d)) (Outbox.dl_Attempts d) (Outbox.dl_Replays d) (timestamp (Outbox.dl_NextAt d))
    (Outbox.dl_LastError d) (Outbox.dl_LastStatus d)
    (match Outbox.dl_DeliveredAt d with Some t => timestamp t | None => "" end) (timestamp (Outbox.dl_CreatedAt d)).

(** [None] is a deployment without a guard. *)
Definition requireGuard (guard : option Ssrf.Guard) : result Problem Ssrf.Guard :=
  match guard with
  | None => Err (mkProblem 500 "internal_error" "an internal error occurred" None)
  | Some g => Ok g
  end.

Section webhooks.
Context `{Unicode} `{Webhook.NetURL} `{Ssrf.AddrText}.

(** [lookup] is what the resolver answers, [u_Port] the port of a parsed URL. *)
Definition handleCreateWebhookEndpoint (guard : option Ssrf.Guard) (lookup : string -> result string (list Ssrf.Addr))
    (u_Port : Webhook.URL -> string) (env : Env) (a : Authorized) (body : go_result Webhook.CreateInput)
    : SE Outbox.DB Problem (Reply (webhookEndpointResponse * string)) :=
  g ← lift (requireGuard guard);
  req ← failing (lift body);
  validated ← failing (lift (Webhook.ValidateCreate req));
  _ ← failing (lift (match Ssrf.ValidateEndpointURL g lookup u_Port (Webhook.in_URL validated) with
                     | Err e => Err (Invalid "url" (trim_prefix "ssrf: " (error_text e)))
                     | Ok _ => Ok tt
                     end));
  created ← failing (Outbox.CreateEndpoint env a validated);
  mret (Created (Some ("/v1/tenants/" +:+ uuid_String (scope a) +:+ "/webhooks/" +:+ uuid_String (Outbox.ep_ID created.1)))
          (webhookEndpointFrom created.1, created.2)).

Definition handleListWebhookEndpoints (a : Authorized) (raw_limit raw_cursor : string)
    : SE Outbox.DB Problem (Reply (list webhookEndpointResponse)) :=
  params ← failing (lift (pageParams raw_limit raw_cursor));
  let binding := Outbox.EndpointBinding a in
  after ← failing (lift (decodeCursor binding params.2));
  page ← failing (Outbox.ListEndpoints a after params.1);
  mret (page_reply binding webhookEndpointFrom page).

Definition handleGetWebhookEndpoint (a : Authorized) (endpointID : string)
    : SE Outbox.DB Problem (Reply webhookEndpointResponse) :=
  id ← failing (lift (pathUUID endpointID));
  e ← failing (Outbox.GetEndpoint a id);
  mret (OK (webhookEndpointFrom e)).

Definition handleUpdateWebhookEndpoint (env : Env) (a : Authorized) (endpointID : string) (body : go_result Outbox.UpdateInput)
    : SE Outbox.DB Problem (Reply webhookEndpointResponse) :=
  id ← failing (lift (pathUUID endpointID));
  req ← failing (lift body);
  if decide (Outbox.up_Events req = None /\ Outbox.up_Description req = None /\ Outbox.up_Active req = None)
  then failing (throw (Invalid "body" "supply at least one field to update"))
  else
    updated ← failing (Outbox.UpdateEndpoint env a id req);
    mret (OK (webhookEndpointFrom updated)).

Definition handleListWebhookDeliveries (a : Authorized) (endpointID raw_limit raw_cursor state : string)
    : SE Outbox.DB Problem (Reply (list webhookDeliveryResponse)) :=
  id ← failing (lift (pathUUID endpointID));
  _ ← failing (Outbox.GetEndpoint a id);
  params ← failing (lift (pageParams raw_limit raw_cursor));
  let filter_ := Outbox.mkListFilter (uuid_String id) state in
  _ ← failing (lift (Webhook.NormalizeState state));
  let binding := Outbox.DeliveryBinding a filter_ in
  after ← failing (lift (decodeCursor binding params.2));
  page ← failing (Outbox.List_ a filter_ after params.1);
  mret (page_reply binding webhookDeliveryFrom page).

Definition handleReplayWebhookDelivery (env : Env) (a : Authorized) (deliveryID : string)
    : SE Outbox.DB Problem (Reply webhookDeliveryResponse) :=
  id ← failing (lift (pathUUID deliveryID));
  replayed ← failing (or_fail (Outbox.Replay env a id)
               (fun e => if Is e WebhookErrNotDead then Sentinel ErrConflict else e));
  mret (OK (webhookDeliveryFrom replayed)).
End webhooks.

(** ** API keys *)

Record apiKeyResponse := mkKeyResponse {
  kr_ID : string;
  kr_Name : string;
  kr_Prefix : string;
  kr_Scopes : list string;
  kr_CreatedBy : string;
  kr_CreatedAt : string;
  kr_LastUsedAt : option string;
  kr_ExpiresAt : option string;
  kr_RevokedAt : option string;
}.

Definition apiKeyFrom (k : ApiKey.APIKey) : apiKeyResponse :=
  mkKeyResponse (uuid_String (ApiKey.k_ID k)) (ApiKey.k_Name k) (ApiKey.k_Prefix k) (permStrings (ApiKey.k_Scopes k))
    (uuid_String (ApiKey.k_CreatedBy k)) (timestamp (ApiKey.k_CreatedAt k)) (timestampPtr (ApiKey.k_LastUsedAt k))
    (timestampPtr (ApiKey.k_ExpiresAt k)) (timestampPtr (ApiKey.k_RevokedAt k)).

Record createKeyRequest := mkCreateKey { ck_Name : string; ck_Scopes : list string; ck_ExpiresAt : option string }.

Section keys.
Context `{Unicode} `{TimeJSON} (time_Parse : string -> option gotime).   (* [time.Parse(time.RFC3339, _)] *)

Definition handleListAPIKeys (a : Authorized) : SE ApiKey.DB Problem (Reply (list apiKeyResponse)) :=
  keys ← failing (ApiKey.List_ (scope a) (userID a));
  mret (OK (apiKeyFrom <$> keys)).

Definition parseExpiry (raw : option string) : go_result (option gotime) :=
  match raw with
  | None => Ok None
  | Some s =>
      if decide (s = "") then Ok None
      else match time_Parse s with
           | None => Err (Invalid "expires_at" "must be an RFC 3339 timestamp")
           | Some t => Ok (Some t)
           end
  end.

Definition handleCreateAPIKey (env : Env) (a : Authorized) (body : go_result createKeyRequest)
    : SE ApiKey.DB Problem (Reply (apiKeyResponse * string)) :=
  req ← failing (lift body);
  expiresAt ← failing (lift (parseExpiry (ck_ExpiresAt req)));
  minted ← failing (ApiKey.Mint env (scope a) (userID a) (ck_Name req) (ck_Scopes req) expiresAt);
  mret (Created
          (Some ("/v1/tenants/" +:+ uuid_String (scope a) +:+ "/api-keys/" +:+ uuid_String (ApiKey.k_ID (ApiKey.m_Key minted))))
          (apiKeyFrom (ApiKey.m_Key minted), ApiKey.m_Secret minted)).

Definition handleRevokeAPIKey (env : Env) (a : Authorized) (keyID : string) : SE ApiKey.DB Problem (Reply unit) :=
  id ← failing (lift (pathUUID keyID));
  _ ← failing (ApiKey.Revoke env (scope a) (userID a) id);
  mret NoContent.
End keys.

(** ** The audit trail *)

Record auditEntryResponse := mkAuditResponse {
  ar_ID : string;
  ar_ActorKind : string;
  ar_Action : string;
  ar_Resource : string;
  ar_At : string;
  ar_ActorID : option string;
  ar_ResourceID : option string;
  ar_Before : option json;
  ar_After : option json;
  ar_RequestID : option string;
}.

Definition auditEntryResponseFrom (r : AuditLog.Row) : auditEntryResponse :=
  mkAuditResponse (uuid_String (AuditLog.r_ID r)) (AuditLog.r_ActorKind r) (AuditLog.r_Action r) (AuditLog.r_Resource r)
    (timestamp (AuditLog.r_At r)) (uuid_String <$> AuditLog.r_ActorID r) (uuid_String <$> AuditLog.r_ResourceID r)
    (AuditLog.r_Before r) (AuditLog.r_After r) (AuditLog.r_RequestID r).

(** [wired] tells whether the deployment has a reader. *)
Definition handleListAudit (wired : bool) (a : Authorized) (raw_limit raw_cursor : string)
    : SE AuditLog.Table Problem (Reply (list auditEntryResponse)) :=
  if negb wired then failing (throw (Sentinel ErrNotFound))
  else
    params ← failing (lift (pageParams raw_limit raw_cursor));
    let binding := AuditLog.Binding_of a in
    after ← failing (lift (decodeCursor binding params.2));
    page ← failing (AuditLog.List_ a after params.1);
    mret (page_reply binding auditEntryResponseFrom page).
End cursors.
