(* ===== verification/HandlersProps.v ===== *)
(** * Handlers: listings and replies

    A client that follows [next_cursor] through a listing, what a create replies, and what
    an identifier of another tenant answers. *)

From S2P Require Import Prelude Apperr Encoding Ids Cursor Db Authz Tenant Paging Render Handlers.
From S2P Require AuditLog Invoice Webhook Outbox InvoiceStore ApiKey Project ProjectProps.

(** ** Following a listing *)

(** [get] is the endpoint, given the value of [cursor]; the flag tells whether the last page
    was reached within [n] requests. *)
Fixpoint crawl {B} (get : string -> result Problem (Reply (list B))) (n : nat) (cursor : string) : list B * bool :=
  match n with
  | O => ([], false)
  | S n' =>
      match get cursor with
      | Err _ => ([], false)
      | Ok r =>
          let items := default [] (data r) in
          match next_cursor r with
          | None => (items, true)
          | Some token => let '(more, finished) := crawl get n' token in (items ++ more, finished)
          end
      end
  end.

Section crawling.
Context `{UUIDLib} (json_Unmarshal : string -> option encoded) (c : Codec).
Context (json_law : forall e, in_int64 (T e) -> str_forall is_hex_lower_b (B e) = true ->
  json_Unmarshal (json_Marshal e) = Some e).

(** A position the database can hold: microseconds, and the identifier of a row. *)
Definition db_position (p : Position) : Prop := (exists us, in_int64 us /\ Time p = of_UnixMicro us) /\ ID p <> uuid_Nil.

Lemma cursor_roundtrip binding pos :
  db_position pos ->
  encodeCursor c binding pos <> "" /\ decodeCursor json_Unmarshal c binding (encodeCursor c binding pos) = Ok (Some pos).
Proof.
  intros [(us & Hus & Ht) Hid]. unfold encodeCursor.
  destruct (Encode c binding pos) as [token|e] eqn:He; [|unfold Encode in He; by case_decide].
  pose proof (Decode_Encode_gen json_Unmarshal json_law c binding binding pos token He) as Hd.
  rewrite decide_True, Ht, Unix_micro_roundtrip, <- Ht in Hd by done.
  assert (token <> "") as Hne.
  { intros ->. unfold Decode in Hd. cbn in Hd. discriminate. }
  split; [done|]. unfold decodeCursor. rewrite decide_False, Hd by done. by destruct pos.
Qed.

Context {A B : Type} (key : A -> Key) (render : A -> B) (binding : Binding) (rows : list A) (limit : Z).

(** The endpoint every listing is, over the rows of its query. *)
Definition listing (raw : string) : result Problem (Reply (list B)) :=
  match decodeCursor json_Unmarshal c binding raw with
  | Err e => Err (Map e)
  | Ok after => Ok (page_reply c binding render (page key rows after limit))
  end.

Definition db_keys : Prop := forall x, x ∈ rows -> db_position (mkPosition (key x).1 (key x).2).

Lemma page_position after out pos :
  1 <= limit -> unique_keys key rows -> db_keys -> page key rows after limit = (out, Some pos) -> db_position pos.
Proof.
  intros Hl Hu Hk Hp. apply page_spec in Hp as (_ & Hin & _ & (last & Hlast & Hkey) & _); [|done|done].
  destruct (Hin _ Hlast) as [Hr _]. specialize (Hk _ Hr). rewrite Hkey in Hk. by destruct pos.
Qed.

Lemma crawl_walk n after raw :
  1 <= limit -> unique_keys key rows -> db_keys ->
  decodeCursor json_Unmarshal c binding raw = Ok after ->
  crawl listing n raw = (render <$> (walk key (replicate n rows) after limit).1, (walk key (replicate n rows) after limit).2).
Proof.
  intros Hl Hu Hk. revert after raw. induction n as [|n IH]; intros after raw Hd; [done|].
  cbn [crawl replicate walk]. unfold listing at 1. rewrite Hd.
  destruct (page key rows after limit) as [out [pos|]] eqn:Hp; cbn; [|by destruct (decide _)].
  destruct (cursor_roundtrip binding pos (page_position _ _ _ Hl Hu Hk Hp)) as [Hne Hrt].
  rewrite decide_False by done. rewrite (IH _ _ Hrt). destruct (walk _ _ _ _). cbn. by rewrite fmap_app.
Qed.

Lemma crawl_complete :
  1 <= limit -> unique_keys key rows -> db_keys ->
  crawl listing (S (length rows)) "" = (render <$> newest_first key rows, true).
Proof. intros Hl Hu Hk. rewrite (crawl_walk _ None) by done. by rewrite walk_constant. Qed.
End crawling.

Lemma crawl_ext {B} (f g : string -> result Problem (Reply (list B))) n raw :
  (forall x, f x = g x) -> crawl f n raw = crawl g n raw.
Proof.
  intros Hfg. revert raw. induction n as [|n IH]; intros raw; [done|]. cbn. rewrite Hfg.
  destruct (g raw) as [r|]; [|done]. destruct (next_cursor r); [|done]. by rewrite IH.
Qed.

(** Rows of a table indexed by their identifiers have distinct keys. *)
Lemma map_unique_keys {A} (m : gmap uuid A) (key : A -> Key) (P : A -> Prop) `{!forall x, Decision (P x)} :
  (forall i x, m !! i = Some x -> (key x).2 = i) -> unique_keys key (filter P (map_to_list m).*2).
Proof.
  intros Hid. apply unique_keys_filter. unfold unique_keys.
  apply (NoDup_fmap_1 snd).
  replace (snd <$> (key <$> (map_to_list m).*2)) with (map_to_list m).*1; [apply NoDup_fst_map_to_list|].
  rewrite <- !list_fmap_compose. apply list_fmap_ext. intros k [i x] Hx. cbn. symmetry. apply (Hid i).
  apply elem_of_map_to_list. by eapply list_elem_of_lookup_2.
Qed.

(** ** Projects *)

Section projects.
Context `{Unicode} `{UUIDLaws} `{TimeJSON} (json_Unmarshal : string -> option encoded) (c : Codec).
Context (json_law : forall e, in_int64 (T e) -> str_forall is_hex_lower_b (B e) = true ->
  json_Unmarshal (json_Marshal e) = Some e).

Lemma pageParams_parsed raw_limit :
  raw_limit = "" \/ is_Some (parse_int64 raw_limit) -> exists n, forall raw, pageParams raw_limit raw = Ok (n, raw).
Proof.
  unfold pageParams. intros [->|[n Hn]]; [by exists 0|]. case_decide; [by exists 0|]. rewrite Hn. by exists n.
Qed.

Lemma project_page_size n : 1 <= Project.NormalizePageSize n.
Proof. unfold Project.NormalizePageSize, Project.DefaultPageSize, Project.MaxPageSize. repeat case_match; lia. Qed.

Definition project_rows (a : Authorized) (inc : bool) (db : Project.DB) : list Project.Project :=
  Project.listed_rows (settings_of (Identity_of a)) (scope a) (Project.mkListFilter inc) db.

(** The handler is the generic listing of the rows the filter keeps. *)
Lemma handleListProjects_listing a raw_limit n raw inc_raw inc db :
  Valid a = true -> boolParam "include_archived" inc_raw = Ok inc -> (forall x, pageParams raw_limit x = Ok (n, x)) ->
  handleListProjects json_Unmarshal c a raw_limit raw inc_raw db =
    (listing json_Unmarshal c Project.project_key projectResponseFrom
       (Project.Binding_of a (Project.mkListFilter inc)) (project_rows a inc db) (Project.NormalizePageSize n) raw, db).
Proof.
  intros Hv Hb Hl. unfold handleListProjects, listing, failing, lift, mbind, SE_bind. rewrite Hl, Hb.
  destruct (decodeCursor json_Unmarshal c _ raw) as [after|e] eqn:Hd; cbn [fst snd]; rewrite Hd; [|done].
  unfold Project.List_. rewrite Hv. cbn [negb]. unfold mbind, SE_bind, or_fail.
  rewrite WithIdentityTx_run by apply (Valid_identity _ Hv). reflexivity.
Qed.

(** C23: A client that follows next_cursor from the first page, with any limit, is given every project of
    its tenant that the filter keeps exactly once, newest first, and reaches the end within
    one request more than there are projects; the requests change nothing. *)
Theorem project_listing_complete a raw_limit inc_raw inc db :
  rtc ProjectProps.step Project.empty_DB db -> Valid a = true ->
  raw_limit = "" \/ is_Some (parse_int64 raw_limit) -> boolParam "include_archived" inc_raw = Ok inc ->
  (forall i p, Project.projects db !! i = Some p -> i <> uuid_Nil /\ exists us, in_int64 us /\ Project.CreatedAt p = of_UnixMicro us) ->
  let get raw := handleListProjects json_Unmarshal c a raw_limit raw inc_raw db in
  let rows := project_rows a inc db in
  crawl (fun raw => (get raw).1) (S (length rows)) "" = (projectResponseFrom <$> newest_first Project.project_key rows, true) /\
  (forall p, p ∈ newest_first Project.project_key rows <->
     Project.projects db !! Project.ID p = Some p /\ Project.TenantID p = scope a /\ (inc = true \/ Project.Archived p = false)) /\
  NoDup (newest_first Project.project_key rows) /\ (forall raw, (get raw).2 = db).
Proof.
  intros Hr Hv Hl Hb Hdb get rows. destruct (pageParams_parsed raw_limit Hl) as [n Hn].
  pose proof (ProjectProps.project_reachable_wf _ Hr) as Hwf.
  assert (Hin : forall p, p ∈ rows <->
     Project.projects db !! Project.ID p = Some p /\ Project.TenantID p = scope a /\ (inc = true \/ Project.Archived p = false)).
  { intros p. unfold rows, project_rows, Project.listed_rows. rewrite list_elem_of_filter. cbn [Project.IncludeArchived].
    assert (Hg : Project.TenantID p = scope a -> tenant_is (settings_of (Identity_of a)) (Project.TenantID p) = true).
    { intros ->. apply Valid_identity in Hv as [_ Hs]. unfold tenant_is. by apply bool_decide_eq_true. }
    assert (Ha : Project.ArchivedAt p = None <-> Project.Archived p = false).
    { unfold Project.Archived. by rewrite bool_decide_eq_false, eq_None_not_Some. }
    rewrite Ha, list_elem_of_fmap. split.
    - intros ((_ & Ht & Hi) & [i q] & -> & Hq%elem_of_map_to_list). cbn in *.
      destruct (ProjectProps.wf_row _ Hwf _ _ Hq) as [-> _]. done.
    - intros (Hp & Ht & Hi). split; [by split_and!; [rewrite Hg|..]|].
      exists (Project.ID p, p). by rewrite elem_of_map_to_list. }
  assert (Hu : unique_keys Project.project_key rows).
  { apply map_unique_keys. intros i p Hp. by destruct (ProjectProps.wf_row _ Hwf _ _ Hp). }
  split_and!.
  - rewrite (crawl_ext _ (listing json_Unmarshal c Project.project_key projectResponseFrom
      (Project.Binding_of a (Project.mkListFilter inc)) rows (Project.NormalizePageSize n))).
    + apply crawl_complete; [done|apply project_page_size|done|]. intros p Hp%Hin.
      destruct Hp as (Hp & _). destruct (Hdb _ _ Hp) as [Hne Hus]. by split.
    + intros raw. unfold get. by rewrite (handleListProjects_listing a raw_limit n raw inc_raw inc db).
  - intros p. unfold newest_first. by rewrite order_by_Permutation.
  - unfold newest_first. rewrite order_by_Permutation. by apply (NoDup_fmap_1 Project.project_key).
  - intros raw. unfold get. by rewrite (handleListProjects_listing a raw_limit n raw inc_raw inc db).
Qed.
End projects.

(** ** Identifiers of other tenants *)

Definition not_found : Problem := mkProblem 404 "not_found" "the requested resource does not exist" None.

Section identifiers.
Context `{Unicode} `{UUIDLaws} `{TimeJSON}.

(** No project of the caller's tenant has the identifier the path names: it is malformed, unknown or another tenant's. *)
Definition not_ours (a : Authorized) (raw : string) (db : Project.DB) : Prop :=
  forall id p, uuid_Parse raw = Some id -> Project.projects db !! id = Some p -> Project.TenantID p <> scope a.

Lemma not_ours_unseen a raw db id :
  not_ours a raw db -> uuid_Parse raw = Some id -> Project.find_project (settings_of (Identity_of a)) (scope a) id db = None.
Proof.
  intros Hno Hp. destruct (Project.find_project _ _ _ _) as [p|] eqn:Hf; [|done].
  apply ProjectProps.find_project_Some in Hf as (Hpr & Ht & _). by destruct (Hno _ _ Hp Hpr).
Qed.

Lemma Get_unseen a id db :
  Valid a = true -> Project.find_project (settings_of (Identity_of a)) (scope a) id db = None ->
  Project.Get a id db = (Err (Sentinel ErrNotFound), db).
Proof.
  intros Hv Hf. unfold Project.Get. rewrite Hv. cbn [negb]. case_decide; [done|].
  unfold or_fail. rewrite WithIdentityTx_run by apply (Valid_identity _ Hv). unfold BeginFunc.
  change (mkSettings _ _ _ _ _) with (settings_of (Identity_of a)). by rewrite Hf.
Qed.

Lemma write_unseen env a id verb action before cond f db :
  Project.find_project (settings_of (Identity_of a)) (scope a) id db = None ->
  BeginFunc (Project.write_project env (settings_of (Identity_of a)) a id verb action before cond f) db = (Ok None, db).
Proof.
  intros Hf. unfold BeginFunc, Project.write_project, mbind, SE_bind, or_fail, Project.update_project. by rewrite Hf.
Qed.

(** A body an update would accept. *)
Definition acceptable (req : updateProjectRequest) : Prop :=
  ~ (upr_Name req = None /\ upr_Description req = None) /\ 0 < upr_ExpectedVersion req <= Project.MaxInt32 /\
  (forall n, upr_Name req = Some n -> is_ok (Project.validateName n) = true) /\
  (forall d, upr_Description req = Some d -> is_ok (Project.validateDescription d) = true).

Lemma Update_unseen env a id i db :
  Valid a = true -> 0 < Project.ExpectedVersion i <= Project.MaxInt32 ->
  (forall n, Project.up_Name i = Some n -> is_ok (Project.validateName n) = true) ->
  (forall d, Project.up_Description i = Some d -> is_ok (Project.validateDescription d) = true) ->
  Project.find_project (settings_of (Identity_of a)) (scope a) id db = None ->
  Project.Update env (fun d => d) (fun d => d) a id i db = (Err (Sentinel ErrNotFound), db).
Proof.
  intros Hv Hver Hn Hd Hf. unfold Project.Update. rewrite Hv. cbn [negb]. case_decide; [done|].
  destruct (Z.leb_spec (Project.ExpectedVersion i) 0); [lia|].
  destruct (match Project.up_Name i with None => _ | Some n => _ end) as [name|] eqn:En.
  2:{ destruct (Project.up_Name i) as [n|]; [|done]. specialize (Hn n eq_refl). destruct (Project.validateName n); done. }
  destruct (match Project.up_Description i with None => _ | Some d => _ end) eqn:Ed.
  2:{ destruct (Project.up_Description i) as [d|]; [|done]. specialize (Hd d eq_refl). by rewrite Ed in Hd. }
  cbv zeta. destruct (Z.ltb_spec Project.MaxInt32 (Project.ExpectedVersion i)); [lia|].
  rewrite write_unseen by done. unfold Project.classify. by rewrite Hf.
Qed.

(** The project endpoints are no oracle for other tenants' identifiers: whether the path names
    nothing, another tenant's project or no identifier at all, reading, editing and archiving
    answer the same 404, and nothing changes. *)
Theorem foreign_project_indistinguishable a raw db :
  Valid a = true -> not_ours a raw db ->
  handleGetProject a raw db = (Err not_found, db) /\
  (forall env req, acceptable req ->
     handleUpdateProject env (fun d => d) (fun d => d) a raw (Ok req) db = (Err not_found, db)) /\
  (forall env, handleArchiveProject env (fun d => d) (fun d => d) a raw db = (Err not_found, db)).
Proof.
  intros Hv Hno. unfold handleGetProject, handleUpdateProject, handleArchiveProject, pathUUID, failing, lift, mbind, SE_bind.
  destruct (uuid_Parse raw) as [id|] eqn:Hp; [|by split_and!].
  pose proof (not_ours_unseen _ _ _ _ Hno Hp) as Hf. split_and!.
  - by rewrite Get_unseen.
  - intros env req (Hsome & Hver & Hn & Hd). rewrite decide_False by done. by rewrite Update_unseen.
  - intros env. unfold Project.Archive. rewrite Hv. cbn [negb]. case_decide; [done|]. cbv zeta.
    rewrite write_unseen by done. by rewrite Hf.
Qed.

(** What a create replies is what a read of the returned location answers, in every field. *)
Theorem created_project_readable env a req r db db' :
  env_id env 0 <> uuid_Nil -> handleCreateProject env a (Ok req) db = (Ok r, db') ->
  exists id body, code r = 201 /\ Location r = Some (projectURL (scope a) id) /\ data r = Some body /\ pr_ID body = uuid_String id /\
    handleGetProject a (uuid_String id) db' = (Ok (OK body), db') /\
    (forall b raw, Valid b = true -> scope b <> scope a -> uuid_Parse raw = Some id -> handleGetProject b raw db' = (Err not_found, db')).
Proof.
  intros Hid. unfold handleCreateProject, failing, lift. unfold mbind, SE_bind at 1.
  unfold SE_bind. destruct (Project.Create env a _ db) as [[p|e] d] eqn:Hc; [|done]. intros [= <- <-].
  apply ProjectProps.Create_cases in Hc as (v & row & _ & Hp & _ & Hv & _ & _ & -> & _).
  set (d := Project.mkDB _ _). assert (Hids : Project.ID p = env_id env 0) by (by subst p).
  assert (Hten : Project.TenantID p = scope a) by (by subst p).
  assert (Hl : Project.projects d !! Project.ID p = Some p) by (subst d; cbn; by rewrite lookup_insert_eq).
  exists (Project.ID p), (projectResponseFrom p). split_and!; try done.
  - unfold handleGetProject, pathUUID, failing, lift, mbind, SE_bind. rewrite uuid_Parse_String.
    unfold Project.Get. rewrite Hv. cbn [negb]. rewrite decide_False by congruence. unfold or_fail.
    rewrite WithIdentityTx_run by apply (Valid_identity _ Hv). unfold BeginFunc.
    change (mkSettings _ _ _ _ _) with (settings_of (Identity_of a)).
    assert (Project.find_project (settings_of (Identity_of a)) (scope a) (Project.ID p) d = Some p) as ->; [|done].
    apply ProjectProps.find_project_Some. split_and!; [done..|]. by apply Valid_identity in Hv as [_ ?].
  - intros b raw Hvb Hne Hraw.
    assert (Hno : not_ours b raw d) by (intros i x Hi Hx; congruence).
    unfold handleGetProject, pathUUID, failing, lift, mbind, SE_bind. rewrite Hraw.
    by rewrite Get_unseen by (done || by eapply not_ours_unseen).
Qed.

(** The webhook package has a not-found error of its own, which [Map] does not know: an unknown endpoint or
    delivery is an internal error, not a 404. *)
Lemma unknown_webhook_is_internal a raw id db :
  Valid a = true -> uuid_Parse raw = Some id ->
  Outbox.find_endpoint (settings_of (Identity_of a)) a id db = None ->
  exists p, handleGetWebhookEndpoint a raw db = (Err p, db) /\ Status p = 500.
Proof.
  intros Hv Hp Hf. eexists. unfold handleGetWebhookEndpoint, pathUUID, failing, lift, mbind, SE_bind. rewrite Hp.
  unfold Outbox.GetEndpoint. rewrite Hv. cbn [negb]. case_decide; [done|].
  unfold or_fail. rewrite WithIdentityTx_run by apply (Valid_identity _ Hv). unfold BeginFunc.
  change (mkSettings _ _ _ _ _) with (settings_of (Identity_of a)). by rewrite Hf.
Qed.

(** So is revoking the nil identifier, which names no key. *)
Lemma nil_key_is_internal env a raw db :
  uuid_Parse raw = Some uuid_Nil -> exists p, handleRevokeAPIKey env a raw db = (Err p, db) /\ Status p = 500.
Proof.
  intros Hp. eexists. unfold handleRevokeAPIKey, pathUUID, failing, lift, mbind, SE_bind. rewrite Hp.
  unfold ApiKey.Revoke. rewrite decide_True by auto. done.
Qed.
End identifiers.

(** ** Witnesses *)

Module HandlersDemo.
#[local] Existing Instance DemoUnicode.
#[local] Existing Instance DemoUUID.lib.
#[local] Existing Instance DemoUUID.laws.
#[local] Existing Instance ProjectProps.ProjectDemo.demo_time.

Definition at_ : nat -> Env := ProjectProps.ProjectDemo.at_.
Definition owner : Authorized := ProjectProps.ProjectDemo.owner.
Definition stranger : Authorized := mkAuthorized 6%N KindHuman 12%N RoleOwner 0%N.
Definition apollo : createProjectRequest := mkCreateProject "Apollo" "" "moon".
Definition gemini : createProjectRequest := mkCreateProject "Gemini" "" "".
Definition created := handleCreateProject (at_ 1) owner (Ok apollo) Project.empty_DB.
Definition db1 : Project.DB := created.2.
Definition db2 : Project.DB := (handleCreateProject (at_ 2) owner (Ok gemini) db1).2.

Lemma handleCreateProject_step env a req db : rtc ProjectProps.step db (handleCreateProject env a (Ok req) db).2.
Proof.
  unfold handleCreateProject, failing, lift, mbind, SE_bind.
  destruct (Project.Create env a _ db) as [[p|e] d] eqn:Hc; cbn; apply rtc_once; by eapply ProjectProps.step_create.
Qed.

Lemma db2_reached : rtc ProjectProps.step Project.empty_DB db2.
Proof. etrans; apply handleCreateProject_step. Qed.

Lemma db2_rows i p : Project.projects db2 !! i = Some p ->
  i <> uuid_Nil /\ exists us, in_int64 us /\ Project.CreatedAt p = of_UnixMicro us.
Proof.
  intros Hp. assert (Hin : (i, p) ∈ map_to_list (Project.projects db2)) by by apply elem_of_map_to_list.
  let l := eval vm_compute in (map_to_list (Project.projects db2)) in change (map_to_list (Project.projects db2)) with l in Hin.
  rewrite !elem_of_cons, elem_of_nil in Hin.
  destruct Hin as [[= -> ->]|[[= -> ->]|[]]]; (split; [discriminate|]); [exists 1|exists 2]; (split; [by split|done]) ||
    (exists 1; split; [by split|done]).
Qed.

Lemma project_listing_complete_witness :
  crawl (fun raw => (handleListProjects CursorDemo.demo_Unmarshal CursorDemo.demo_codec owner "1" raw "" db2).1)
    (S (length (project_rows owner false db2))) "" =
    (projectResponseFrom <$> newest_first Project.project_key (project_rows owner false db2), true) /\
  Project.p_Slug <$> newest_first Project.project_key (project_rows owner false db2) = ["gemini"; "apollo"].
Proof.
  split; [|vm_compute; reflexivity].
  assert (Hp : is_Some (parse_int64 "1")) by by eexists.
  pose proof (project_listing_complete CursorDemo.demo_Unmarshal CursorDemo.demo_codec CursorDemo.demo_law owner "1" "" false db2
    db2_reached eq_refl (or_intror Hp) eq_refl db2_rows) as Hall. cbv zeta in Hall.
  exact (proj1 Hall).
Defined.

Lemma foreign_project_indistinguishable_witness : handleGetProject stranger "100" db1 = (Err not_found, db1).
Proof.
  refine (proj1 (foreign_project_indistinguishable stranger "100" db1 eq_refl _)).
  intros id p Hid Hp Ht. assert (Hin : (id, p) ∈ map_to_list (Project.projects db1)) by by apply elem_of_map_to_list.
  let l := eval vm_compute in (map_to_list (Project.projects db1)) in change (map_to_list (Project.projects db1)) with l in Hin.
  rewrite elem_of_cons, elem_of_nil in Hin. destruct Hin as [[= -> ->]|[]]. discriminate Ht.
Defined.

Lemma created_project_readable_witness :
  exists r body, created = (Ok r, db1) /\ data r = Some body /\ handleGetProject owner (pr_ID body) db1 = (Ok (OK body), db1).
Proof.
  assert (Hc : exists r, created = (Ok r, db1)) by (eexists; vm_compute; reflexivity). destruct Hc as [r Hc].
  destruct (created_project_readable (at_ 1) owner apollo r Project.empty_DB db1 ltac:(discriminate) Hc)
    as (id & body & _ & _ & Hd & Hid & Hget & _).
  exists r, body. rewrite Hid. auto.
Defined.
End HandlersDemo.
