(* ===== verification/Router.v ===== *)
(** * The router

    [internal/httpx/router.go]: which guards stand before each endpoint, in which order, and
    what a request does on its way through them. The guards are those of [Authz], [Tenant],
    [RateLimit] and [IdempotencyHttp]; the limiters' addresses come from [ClientIp]. Matching
    a path to a route is chi's and is not under src/: a request is served on the route it
    matched, whose parameters it carries. *)

From S2P Require Import Prelude Apperr Ids Db Authz.
From S2P Require Tenant ApiKey RateLimit ClientIp Idempotency IdempotencyHttp.

(** ** Routes *)

(** The optional collaborators; [None] is a nil field. *)
Record RateLimits := mkRateLimits {
  Login : option RateLimit.Policy;
  Register : option RateLimit.Policy;
  Refresh : option RateLimit.Policy;
  API : option RateLimit.Policy;
  IP : option ClientIp.Resolver;
}.

Record Deps := mkDeps {
  Invoices : bool;
  Webhooks : bool;
  APIKeys : bool;
  Idempotency_ : bool;
  RateLimits_ : option RateLimits;
}.

Definition limits (d : Deps) : RateLimits := default (mkRateLimits None None None None None) (RateLimits_ d).

(** The middleware a route is registered under, after those of every route. *)
Inductive Guard :=
  | LimitByIP (l : option RateLimit.Policy)
  | RequireAuthentication
  | ResolveTenant
  | RequireAuthorized
  | LimitByPrincipal (l : option RateLimit.Policy)
  | Require_ (perm : Perm).

(** [guarded] is the idempotency layer, directly before the handler. *)
Record Route := mkRoute {
  rt_Method : string;
  rt_Pattern : string;
  guards : list Guard;
  guarded : bool;
  handler : string;
}.

(** [r.Route(prefix, ...)] with the middleware [gs]: the routes of a subrouter. *)
Definition under (prefix : string) (gs : list Guard) (l : list Route) : list Route :=
  (fun r => mkRoute (rt_Method r) (prefix +:+ rt_Pattern r) (gs ++ guards r) (guarded r) (handler r)) <$> l.

(** [r.With(authz.Require(perm)).Get(...)] *)
Definition read (perm : Perm) (pattern h : string) : Route := mkRoute "GET" pattern [Require_ perm] false h.

(** A route of a group that uses [writeGuard(perm)]: authorization, then idempotency. *)
Definition writeGuard (perm : Perm) (method pattern h : string) : Route := mkRoute method pattern [Require_ perm] true h.

Definition registerInvoiceRoutes (d : Deps) : list Route :=
  if negb (Invoices d) then []
  else under "/invoices" []
    [read PermInvoiceRead "/" "handleListInvoices";
     read PermInvoiceRead "/{invoiceID}" "handleGetInvoice";
     writeGuard PermInvoiceWrite "POST" "/" "handleCreateInvoice";
     writeGuard PermInvoiceWrite "POST" "/{invoiceID}/items" "handleAddInvoiceItem";
     writeGuard PermInvoiceWrite "DELETE" "/{invoiceID}/items/{itemID}" "handleRemoveInvoiceItem";
     writeGuard PermInvoiceWrite "POST" "/{invoiceID}/issue" "handleIssueInvoice";
     writeGuard PermInvoiceSettle "POST" "/{invoiceID}/pay" "handlePayInvoice";
     writeGuard PermInvoiceSettle "POST" "/{invoiceID}/void" "handleVoidInvoice"].

Definition registerWebhookRoutes (d : Deps) : list Route :=
  if negb (Webhooks d) then []
  else under "/webhooks" []
    [read PermWebhookRead "/" "handleListWebhookEndpoints";
     read PermWebhookRead "/{endpointID}" "handleGetWebhookEndpoint";
     read PermWebhookRead "/{endpointID}/deliveries" "handleListWebhookDeliveries";
     writeGuard PermWebhookManage "POST" "/" "handleCreateWebhookEndpoint";
     writeGuard PermWebhookManage "PATCH" "/{endpointID}" "handleUpdateWebhookEndpoint";
     writeGuard PermWebhookManage "POST" "/deliveries/{deliveryID}/replay" "handleReplayWebhookDelivery"].

Definition registerAPIKeyRoutes (d : Deps) : list Route :=
  if negb (APIKeys d) then []
  else under "/api-keys" []
    [read PermAPIKeyRead "/" "handleListAPIKeys";
     writeGuard PermAPIKeyManage "POST" "/" "handleCreateAPIKey";
     writeGuard PermAPIKeyManage "DELETE" "/{keyID}" "handleRevokeAPIKey"].

Definition projectRoutes : list Route :=
  under "/projects" []
    [read PermProjectRead "/" "handleListProjects";
     read PermProjectRead "/{projectID}" "handleGetProject";
     writeGuard PermProjectWrite "POST" "/" "handleCreateProject";
     writeGuard PermProjectWrite "PATCH" "/{projectID}" "handleUpdateProject";
     writeGuard PermProjectWrite "DELETE" "/{projectID}" "handleArchiveProject"].

Definition infrastructureRoutes : list Route :=
  [mkRoute "GET" "/healthz" [] false "handleHealth"; mkRoute "GET" "/readyz" [] false "handleReady"].

Definition authRoutes (d : Deps) : list Route :=
  under "/v1/auth" []
    [mkRoute "POST" "/register" [LimitByIP (Register (limits d))] false "handleRegister";
     mkRoute "POST" "/login" [LimitByIP (Login (limits d))] false "handleLogin";
     mkRoute "POST" "/refresh" [LimitByIP (Refresh (limits d))] false "handleRefresh";
     mkRoute "POST" "/logout" [] false "handleLogout"].

Definition accountRoutes (d : Deps) : list Route :=
  under "" [RequireAuthentication; LimitByPrincipal (API (limits d))]
    [mkRoute "GET" "/v1/me" [] false "handleMe";
     mkRoute "GET" "/v1/tenants" [] false "handleListMyTenants";
     mkRoute "POST" "/v1/tenants" [] false "handleCreateTenant"].

Definition tenantPrefix : string := "/v1/tenants/{tenantID}".

Definition tenantRoutes (d : Deps) : list Route :=
  under tenantPrefix [ResolveTenant; RequireAuthorized; LimitByPrincipal (API (limits d))]
    ([mkRoute "GET" "/" [] false "handleGetTenant";
      mkRoute "GET" "/members" [] false "handleListMembers";
      mkRoute "POST" "/members" [] false "handleAddMember";
      read PermAuditRead "/audit" "handleListAudit"] ++
     registerInvoiceRoutes d ++ registerWebhookRoutes d ++ registerAPIKeyRoutes d ++ projectRoutes).

(** The metrics endpoint is the prometheus library's handler. *)
Definition New (d : Deps) : list Route :=
  infrastructureRoutes ++ authRoutes d ++ accountRoutes d ++ tenantRoutes d.

(** What answers a path that matches no route, and one that matches under other methods. *)
Definition NotFound : Problem := mkProblem 404 "not_found" "no such endpoint" None.
Definition MethodNotAllowed : Problem :=
  mkProblem 405 "method_not_allowed" "that method is not supported on this endpoint" None.

(** The probes: the status and the members of the flat body; [None] is a probe that is not configured. *)
Definition handleHealth : Z * list (string * string) := (200, [("status", "ok")]).
Definition handleReady (DBPing RedisPing : option bool) : Z * list (string * string) :=
  if negb (default true DBPing) then (503, [("status", "not_ready"); ("reason", "database_unreachable")])
  else if negb (default true RedisPing) then (200, [("status", "degraded"); ("redis", "unreachable")])
  else (200, [("status", "ready")]).

(** ** Serving a request *)

Inductive Answer :=
  | Denied (p : Problem) (e : option RateLimit.Enforced)
  | Answered (o : IdempotencyHttp.Outcome).

(** What the request context carries. *)
Record Ctx := mkCtx { principal : option Principal; authorized : option Tenant.Authorized }.

Record World (W : Type) := mkWorld {
  redis : RateLimit.Redis;
  store : ApiKey.DB;
  keys : Idempotency.Table;
  domain : W;
}.
Arguments mkWorld {W} _ _ _ _.
Arguments redis {W} _.
Arguments store {W} _.
Arguments keys {W} _.
Arguments domain {W} _.

Definition tooManyRequests : Problem :=
  mkProblem 429 "rate_limited" "too many requests; retry after the interval in Retry-After" None.

Section serving.
Context `{Unicode} `{UUIDLib} {W : Type} (d : Deps).

(** A request: its path parameter, its peer and headers, and what the limiter observes
    (redis's reachability and clock, the member drawn). *)
Record Incoming := mkIncoming {
  param_tenantID : string;
  RemoteAddr : string;
  Header_ : Idempotency.Header;
  reachable : bool;
  redis_now : Z;
  member : string;
  request : IdempotencyHttp.Request;
}.

Definition clientIP (rq : Incoming) : string :=
  RateLimit.clientIP (RemoteAddr rq) ((fun r => ClientIp.ClientIP r (RemoteAddr rq) (Header_ rq)) <$> IP (limits d)).

(** [enforce] *)
Definition limit (l : option RateLimit.Policy) (bucket : string) (rq : Incoming) (db : RateLimit.Redis)
    : option RateLimit.Enforced * RateLimit.Redis :=
  match l with
  | None => (None, db)
  | Some p =>
      let '(dec, db') := RateLimit.Allow p (reachable rq) (redis_now rq) (member rq) bucket db in
      let e := RateLimit.enforce dec in
      (if RateLimit.proceeds e then None else Some e, db')
  end.

(** One guard: the refusal, or the context the next one sees. *)
Definition pass (g : Guard) (rq : Incoming) (ctx : Ctx) : SE (RateLimit.Redis * Tenant.DB) Answer Ctx := fun s =>
  match g with
  | LimitByIP l =>
      match limit l (clientIP rq) rq s.1 with
      | (Some e, db') => (Err (Denied tooManyRequests (Some e)), (db', s.2))
      | (None, db') => (Ok ctx, (db', s.2))
      end
  | LimitByPrincipal l =>
      match limit l (RateLimit.principal_bucket (authorized ctx) (principal ctx) (clientIP rq)) rq s.1 with
      | (Some e, db') => (Err (Denied tooManyRequests (Some e)), (db', s.2))
      | (None, db') => (Ok ctx, (db', s.2))
      end
  | RequireAuthentication =>
      (match ApiKey.RequireAuthentication (principal ctx) ctx with Ok c => Ok c | Err p => Err (Denied p None) end, s)
  | ResolveTenant =>
      match Tenant.ResolveTenant (principal ctx) (param_tenantID rq) s.2 with
      | (Ok ap, acc) => (Ok (mkCtx (Some ap.2) (Some ap.1)), (s.1, acc))
      | (Err p, acc) => (Err (Denied p None), (s.1, acc))
      end
  | RequireAuthorized =>
      (match authorized ctx with Some _ => Ok ctx | None => Err (Denied Tenant.not_found_problem None) end, s)
  | Require_ perm =>
      (match Authz.Require_ perm (principal ctx) ctx with Ok c => Ok c | Err p => Err (Denied p None) end, s)
  end.

Fixpoint pass_all (gs : list Guard) (rq : Incoming) (ctx : Ctx) : SE (RateLimit.Redis * Tenant.DB) Answer Ctx :=
  match gs with
  | [] => mret ctx
  | g :: gs' => ctx' ← pass g rq ctx; pass_all gs' rq ctx'
  end.

Definition set_accounts (acc : Tenant.DB) (db : ApiKey.DB) : ApiKey.DB := ApiKey.mkDB (ApiKey.api_keys db) acc (ApiKey.audit_log db).

(** [endpoint] is the handler by its name, in the context it finds; [w] is the response under
    construction, [env] and [others] what the idempotency store's transactions observe. *)
Definition serve (endpoint : string -> Ctx -> IdempotencyHttp.Handler) (retention lease : Z) (env : nat -> Env)
    (others : nat -> Idempotency.Table -> Idempotency.Table) (rt : Route) (rq : Incoming) (ctx : Ctx)
    (w : Idempotency.Writer) (s : World W) : Answer * World W :=
  match pass_all (guards rt) rq ctx (redis s, ApiKey.accounts (store s)) with
  | (Err e, (db', acc)) => (e, mkWorld db' (set_accounts acc (store s)) (keys s) (domain s))
  | (Ok ctx', (db', acc)) =>
      let next := endpoint (handler rt) ctx' in
      let '(o, tb, s') :=
        if guarded rt
        then IdempotencyHttp.Idempotency retention lease (Idempotency_ d) env others next (authorized ctx') (request rq) w
               (keys s) (domain s)
        else let '(o, s') := IdempotencyHttp.serve next (IdempotencyHttp.Path (request rq)) (IdempotencyHttp.Body (request rq)) w (domain s) in
             (o, keys s, s') in
      (Answered o, mkWorld db' (set_accounts acc (store s)) tb s')
  end.

(** A whole request: the authenticator, which every route runs behind, then the route. [env0], [parse] and
    [mid] are what authenticating observes, [header] the Authorization header. *)
Definition ServeHTTP `{TimeJSON} (env0 : Env) (parse : string -> go_result uuid) (mid : ApiKey.DB -> ApiKey.DB) (header : string)
    (endpoint : string -> Ctx -> IdempotencyHttp.Handler) (retention lease : Z) (env : nat -> Env)
    (others : nat -> Idempotency.Table -> Idempotency.Table) (rt : Route) (rq : Incoming)
    (w : Idempotency.Writer) (s : World W) : Answer * World W :=
  match ApiKey.Middleware env0 parse mid header (store s) with
  | (Err p, db') => (Denied p None, mkWorld (redis s) db' (keys s) (domain s))
  | (Ok pr, db') =>
      serve endpoint retention lease env others rt rq (mkCtx pr None) w (mkWorld (redis s) db' (keys s) (domain s))
  end.
End serving.
