(* ===== verification/RouterProps.v ===== *)
(** * The router: what a request must hold to change anything *)

From S2P Require Import Prelude Apperr Ids Db Authz Router.
From S2P Require Tenant ApiKey RateLimit ClientIp Idempotency IdempotencyHttp Account Render.

(** The routes of a tenant that ask for no permission beyond the gate. *)
Definition open_to_members : list string := ["handleGetTenant"; "handleListMembers"; "handleAddMember"].

Definition tenant_guards (d : Deps) : list Guard := [ResolveTenant; RequireAuthorized; LimitByPrincipal (API (limits d))].

(** Every route of a tenant stands behind the gate and the tenant's limiter, then asks for one permission; a
    guarded one puts the idempotency layer behind that, and the unguarded ones are the reads and the three
    routes that ask for none. *)
Definition well_guarded (d : Deps) (rt : Route) : Prop :=
  (exists perm, guards rt = tenant_guards d ++ [Require_ perm] /\ guarded rt = negb (bool_decide (rt_Method rt = "GET"))) \/
  (guards rt = tenant_guards d /\ guarded rt = false /\ handler rt ∈ open_to_members /\
   (rt_Method rt = "GET" \/ handler rt = "handleAddMember")).

Lemma under_Forall prefix gs (P Q : Route -> Prop) l :
  (forall r, P r -> Q (mkRoute (rt_Method r) (prefix +:+ rt_Pattern r) (gs ++ guards r) (guarded r) (handler r))) ->
  Forall P l -> Forall Q (under prefix gs l).
Proof. intros HPQ Hl. unfold under. apply Forall_fmap. eapply Forall_impl; [exact Hl|exact HPQ]. Qed.

(** What a route asks for below the tenant's guards. *)
Definition asks (rt : Route) : Prop :=
  (exists perm, guards rt = [Require_ perm] /\ guarded rt = negb (bool_decide (rt_Method rt = "GET"))) \/
  (guards rt = [] /\ guarded rt = false /\ handler rt ∈ open_to_members /\
   (rt_Method rt = "GET" \/ handler rt = "handleAddMember")).

Lemma asks_under prefix l : Forall asks l -> Forall asks (under prefix [] l).
Proof. apply under_Forall. by intros []. Qed.

Lemma asks_read perm pattern h : asks (read perm pattern h).
Proof. left. by exists perm. Qed.
Lemma asks_write perm m pattern h : m <> "GET" -> asks (writeGuard perm m pattern h).
Proof. intros Hm. left. exists perm. split; [done|]. cbn. by rewrite bool_decide_eq_false_2. Qed.
#[local] Hint Resolve asks_read : core.
#[local] Hint Extern 1 (asks (writeGuard _ _ _ _)) => (apply asks_write; discriminate) : core.

#[local] Ltac all_routes := repeat first [apply Forall_nil_2 | apply Forall_cons_2]; auto.

Lemma tenantRoutes_guarded d : Forall (well_guarded d) (tenantRoutes d).
Proof.
  unfold tenantRoutes. apply (under_Forall _ _ asks).
  { intros [m p g i h] [(perm & Hg & Hi)|(Hg & Hi & Hh & Hm)]; cbn in *; subst g; [left|right].
    - by exists perm.
    - by split_and!. }
  rewrite !Forall_app. split_and!.
  - all_routes; right; cbn; (split_and!; [done|done|set_solver|auto]).
  - unfold registerInvoiceRoutes. case_match; [done|]. apply asks_under. all_routes.
  - unfold registerWebhookRoutes. case_match; [done|]. apply asks_under. all_routes.
  - unfold registerAPIKeyRoutes. case_match; [done|]. apply asks_under. all_routes.
  - apply asks_under. all_routes.
Qed.

Section effects.
Context `{Unicode} `{UUIDLib} {W : Type} (d : Deps).

(** What a request that got through the guards of a tenant's route holds. *)
Definition cleared (rt : Route) (pr : option Principal) (tid : string) (db : Tenant.DB) : Prop :=
  exists p ap, pr = Some p /\ (Tenant.ResolveTenant (Some p) tid db).1 = Ok ap /\
    ((exists perm, Require_ perm ∈ guards rt /\ (Tenant.guarded_route perm (Some p) tid db).1 = Ok ap.1) \/
     handler rt ∈ open_to_members).

(** A read leaves the tables. *)
Lemma Authorize_reads sc u db : (Tenant.Authorize sc u db).2 = db.
Proof.
  unfold Tenant.Authorize. destruct (negb _); [done|]. case_decide; [done|]. unfold or_fail.
  destruct (WithIdentityTx _ _ db) as [[r|e] db'] eqn:Ht; cbn; [|by apply WithIdentityTx_Err in Ht].
  apply WithIdentityTx_Ok in Ht. unfold Tenant.select_role in Ht. repeat case_match; by simplify_eq.
Qed.

Lemma Resolve_reads t u db : (Tenant.Resolve t u db).2 = db.
Proof.
  unfold Tenant.Resolve. destruct (Tenant.NewScope t) as [sc|]; [|done]. case_decide; [done|]. unfold mbind, SE_bind.
  pose proof (Authorize_reads sc u db) as Hr. destruct (Tenant.Authorize sc u db) as [[r|e] db']; exact Hr.
Qed.

Lemma ResolveTenant_reads pr tid db : (Tenant.ResolveTenant pr tid db).2 = db.
Proof.
  unfold Tenant.ResolveTenant. destruct pr as [p|]; [|done]. destruct (uuid_Parse tid) as [t|]; [|done].
  case_decide; [by repeat case_match|]. pose proof (Resolve_reads t (Authz.UserID p) db) as Hr.
  destruct (Tenant.Resolve t _ db) as [[a|e] db']; exact Hr.
Qed.

Lemma pass_all_reads gs rq ctx s : (pass_all d gs rq ctx s).2.2 = s.2.
Proof.
  revert ctx s. induction gs as [|g gs IH]; intros ctx s; [done|]. cbn [pass_all]. unfold mbind, SE_bind.
  assert (Hg : (pass d g rq ctx s).2.2 = s.2).
  { destruct g; cbn [pass]; try done.
    - by destruct (limit _ _ _ _) as [[]].
    - pose proof (ResolveTenant_reads (principal ctx) (param_tenantID rq) s.2) as Hr.
      destruct (Tenant.ResolveTenant _ _ _) as [[] ?]; exact Hr.
    - by destruct (limit _ _ _ _) as [[]]. }
  destruct (pass d g rq ctx s) as [[ctx'|e] s'] eqn:Hp; [|exact Hg]. rewrite IH. exact Hg.
Qed.

Lemma pass_all_denied gs rq ctx s e s' : pass_all d gs rq ctx s = (Err e, s') -> exists p x, e = Denied p x.
Proof.
  revert ctx s. induction gs as [|g gs IH]; intros ctx s; [done|]. cbn [pass_all]. unfold mbind, SE_bind.
  destruct (pass d g rq ctx s) as [[ctx'|e'] s1] eqn:Hp; [apply IH|]. intros [= <- <-].
  destruct g; cbn [pass] in Hp; repeat case_match; simplify_eq; eauto.
Qed.

Lemma pass_all_cleared rt rq pr s ctx' s' :
  well_guarded d rt -> pass_all d (guards rt) rq (mkCtx pr None) s = (Ok ctx', s') ->
  cleared rt pr (param_tenantID rq) s.2.
Proof.
  intros Hwg. assert (Hg : exists rest, guards rt = tenant_guards d ++ rest) by
    (destruct Hwg as [(perm & -> & _)|(-> & _)]; [by eexists|exists []; by rewrite app_nil_r]).
  destruct Hg as [rest Hg]. rewrite Hg. unfold tenant_guards. cbn [app pass_all]. unfold mbind, SE_bind. cbn [pass principal].
  destruct pr as [p|]; [|done]. destruct (Tenant.ResolveTenant (Some p) (param_tenantID rq) s.2) as [[ap|pb] acc'] eqn:Hres; [|done].
  cbn [authorized principal]. destruct (limit _ _ _ _) as [[e|] db1]; [done|]. intros Hrest. exists p, ap.
  rewrite Hres. split_and!; [done|done|]. destruct Hwg as [(perm & Hg' & _)|(_ & _ & Hh & _)]; [left|by right].
  exists perm. rewrite Hg in Hg'. apply app_inv_head in Hg'. rewrite Hg, Hg' in *.
  split; [unfold tenant_guards; set_solver|]. cbn in Hrest. unfold mbind, SE_bind in Hrest. cbn [pass principal] in Hrest.
  unfold Tenant.guarded_route, mbind, SE_bind. rewrite Hres. unfold lift, Authz.Require_ in *.
  by destruct (negb (Allows ap.2 perm)).
Qed.

Lemma guarded_or_open rt :
  well_guarded d rt -> rt_Method rt <> "GET" -> guarded rt = true \/ handler rt = "handleAddMember".
Proof.
  intros [(perm & _ & ->)|(_ & _ & _ & [?|?])] Hm; [left|done|by right]. by rewrite bool_decide_eq_false_2.
Qed.

(** C5: A request to a tenant's route changes nothing unless it may: before the guards have let it through, the
    idempotency table, the domain tables, the accounts and the keys are as they were, and the answer is a refusal.
    What got through was resolved by the gate to an authorization for the tenant of the path and, except at the
    three routes open to every member, holds the one permission the route asks for; and every write but adding a
    member is behind the idempotency layer. *)
Theorem unauthorized_changes_nothing (endpoint : string -> Ctx -> IdempotencyHttp.Handler) retention lease env others rt rq pr w
    (s s' : World W) ans :
  rt ∈ tenantRoutes d -> serve d endpoint retention lease env others rt rq (mkCtx pr None) w s = (ans, s') ->
  store s' = store s /\
  ((keys s' = keys s /\ domain s' = domain s /\ exists p e, ans = Denied p e) \/
   cleared rt pr (param_tenantID rq) (ApiKey.accounts (store s))) /\
  (rt_Method rt <> "GET" -> guarded rt = true \/ handler rt = "handleAddMember").
Proof.
  intros Hrt Hs. pose proof (proj1 (Forall_forall _ _) (tenantRoutes_guarded d) _ Hrt) as Hwg. unfold serve in Hs.
  set (s0 := (redis s, ApiKey.accounts (store s))) in *.
  pose proof (pass_all_reads (guards rt) rq (mkCtx pr None) s0) as Hreads.
  destruct (pass_all d (guards rt) rq (mkCtx pr None) s0) as [[ctx'|e] [db' acc]] eqn:Hp; cbn in Hreads; subst acc.
  - destruct (if guarded rt then _ else _) as [[o tb] x] in Hs. injection Hs as <- <-. split_and!.
    + cbn. by destruct (store s).
    + right. by eapply (pass_all_cleared rt rq pr s0).
    + by apply guarded_or_open.
  - destruct (pass_all_denied _ _ _ _ _ _ Hp) as (p & x & ->). injection Hs as <- <-. split_and!.
    + cbn. by destruct (store s).
    + left. cbn. eauto.
    + by apply guarded_or_open.
Qed.
End effects.

(** ** Witnesses *)

Module RouterDemo.
#[local] Existing Instance DemoUnicode.
#[local] Existing Instance DemoUUID.lib.
#[local] Instance by_bytes : Collation := {| text_leb := String.leb |}.
#[local] Instance demo_time : TimeJSON := {| time_json t := JNum t |}.

Definition deps : Deps := mkDeps true true true true (Some (mkRateLimits None None None (Some RateLimit.PolicyAPI) None)).
(** A handler that counts its runs. *)
Definition counting (name : string) (ctx : Ctx) : IdempotencyHttp.Handler := fun _ _ n => ([], false, S n).
Definition empty_writer : Idempotency.Writer := Idempotency.new_writer ∅.
Definition incoming (method : string) : Incoming :=
  mkIncoming "5" "203.0.113.9:4711" ∅ true 1000 "m1"
    (IdempotencyHttp.mkRequest method ["key-1"] "/v1/tenants/5/projects/" "/v1/tenants/{tenantID}/projects/" "" (IdempotencyHttp.Stream "{}")).
Definition world : World nat := mkWorld ∅ (ApiKey.mkDB ∅ Tenant.TenantDemo.db1 []) ∅ 0%nat.
Definition create_project : Route := default (mkRoute "" "" [] false "") (list_find (fun r => handler r = "handleCreateProject") (tenantRoutes deps) ≫= fun p => Some p.2).
Definition as_principal (p : Principal) :=
  serve deps counting 86400 60 (fun _ => Tenant.TenantDemo.env0) (fun _ tb => tb) create_project (incoming "POST") (mkCtx (Some p) None)
    empty_writer world.

Lemma create_project_route : create_project ∈ tenantRoutes deps.
Proof. apply (list_elem_of_lookup_2 _ 23). vm_compute. reflexivity. Qed.

(** A stranger is refused and leaves no trace; the owner runs the handler. *)
Lemma unauthorized_changes_nothing_witness :
  store (as_principal Tenant.TenantDemo.bob_jwt).2 = store world /\ guarded create_project = true /\
  domain (as_principal Tenant.TenantDemo.bob_jwt).2 = 0%nat /\ domain (as_principal Tenant.TenantDemo.ada_jwt).2 = 1%nat.
Proof.
  destruct (unauthorized_changes_nothing deps counting 86400 60 (fun _ => Tenant.TenantDemo.env0) (fun _ tb => tb) create_project
    (incoming "POST") (Some Tenant.TenantDemo.bob_jwt) empty_writer world (as_principal Tenant.TenantDemo.bob_jwt).2
    (as_principal Tenant.TenantDemo.bob_jwt).1 create_project_route (surjective_pairing _)) as (Hs & _ & Hg).
  split; [exact Hs|]. split; [|split; vm_compute; reflexivity].
  destruct (Hg ltac:(vm_compute; discriminate)) as [E|E]; [exact E|]. vm_compute in E. discriminate.
Defined.

(** No route asks for member:read: a key that only reads invoices is let through to the members' addresses. *)
Definition invoice_key : Principal := mkPrincipal 0%N 5%N "" [PermInvoiceRead] MethodAPIKey 9%N.
Definition list_members : Route := default (mkRoute "" "" [] false "") (list_find (fun r => handler r = "handleListMembers") (tenantRoutes deps) ≫= fun p => Some p.2).
Example key_lists_members :
  Allows invoice_key PermMemberRead = false /\
  domain (serve deps counting 86400 60 (fun _ => Tenant.TenantDemo.env0) (fun _ tb => tb) list_members (incoming "GET")
            (mkCtx (Some invoice_key) None) empty_writer world).2 = 1%nat /\
  (Account.mm_email <$>
     match (Account.handleListMembers Tenant.TenantDemo.key_auth Tenant.TenantDemo.db1).1 with Ok l => l | Err _ => [] end) =
    ["ada@example.com"].
Proof. vm_compute. repeat split. Qed.

(** The authenticator runs before every route: an expired access token in the header refuses even the
    refresh that would replace it. *)
Definition refresh : Route := default (mkRoute "" "" [] false "") (list_find (fun r => handler r = "handleRefresh") (New deps) ≫= fun p => Some p.2).
Example stale_header_blocks_refresh :
  let send header := ServeHTTP deps Tenant.TenantDemo.env0 (fun _ => Err (Sentinel ErrTokenInvalid)) (fun db => db) header counting 86400 60
    (fun _ => Tenant.TenantDemo.env0) (fun _ tb => tb) refresh (incoming "POST") empty_writer world in
  (send "Bearer expired").1 = Denied (mkProblem 401 "unauthorized" "invalid credentials" None) None /\
  domain (send "Bearer expired").2 = 0%nat /\ domain (send "").2 = 1%nat.
Proof. vm_compute. repeat split. Qed.
End RouterDemo.
