(* ===== verification/Logging.v ===== *)
(** * Log redaction

    [internal/platform/logging/logging.go]: the handler that replaces credentials in a
    record before it is written. The values of log/slog are a tree of attributes; the
    JSON handler of the library is modelled by the tree it writes. *)

From S2P Require Import Prelude.

(** ** Attributes and the library's handler *)

(** A value of log/slog by its kind; every kind that is neither a string nor a group
    (numbers, booleans, times, errors, any, and a [LogValuer], which the library resolves
    after the redaction) is carried by its text. *)
Inductive value :=
  | KindString (s : string)
  | KindGroup (attrs : list (string * value))
  | KindOther (text : string).
Definition Attr : Type := string * value.

Definition isEmptyGroup (a : Attr) : bool := match a.2 with KindGroup [] => true | _ => false end.

(** [slog.GroupValue] and [Record.AddAttrs] leave empty groups out. *)
Definition non_empty (l : list Attr) : list Attr := filter (fun a => isEmptyGroup a = false) l.
Definition GroupValue (l : list Attr) : value := KindGroup (non_empty l).

(** The JSON handler: its threshold and what was bound to it, oldest first. *)
Inductive bound := WithAttrs_ (attrs : list Attr) | WithGroup_ (name : string).
Record JSONHandler := mkJSONHandler { threshold : Z; bounds : list bound }.

Definition json_WithAttrs (h : JSONHandler) (l : list Attr) : JSONHandler :=
  mkJSONHandler (threshold h) (bounds h ++ [WithAttrs_ l]).
Definition json_WithGroup (h : JSONHandler) (name : string) : JSONHandler :=
  mkJSONHandler (threshold h) (bounds h ++ [WithGroup_ name]).

(** A group opened on the handler holds everything that comes after it. *)
Fixpoint nest (bs : list bound) (record : list Attr) : list Attr :=
  match bs with
  | [] => record
  | WithAttrs_ l :: bs' => l ++ nest bs' record
  | WithGroup_ name :: bs' => [(name, KindGroup (nest bs' record))]
  end.
Definition json_Handle (h : JSONHandler) (record : list Attr) : list Attr := nest (bounds h) record.

(** ** The redacting handler *)

Definition redactedKeys : list string :=
  ["authorization"; "token"; "api_key"; "apikey"; "password"; "secret"; "cookie"; "set-cookie"; "credential";
   "private_key"; "session"].
Definition redactedValuePrefixes : list string := ["bearer "; "basic "; "ak_"; "rt_"].

Definition LevelDebug : Z := -4.
Definition LevelInfo : Z := 0.
Definition LevelWarn : Z := 4.
Definition LevelError : Z := 8.

Record redactHandler := mkRedact { Handler : JSONHandler }.

Section redaction.
Context `{Unicode}.

Definition isSensitiveKey (key : string) : bool :=
  let k := to_lower key in existsb (fun rk => str_contains rk k) redactedKeys.

Definition hasSensitiveValue (v : value) : bool :=
  match v with
  | KindString s => let s := to_lower s in existsb (fun p => has_prefix p s) redactedValuePrefixes
  | _ => false
  end.

(** The body of the loop for one attribute; a group is entered, and its own key is not
    looked at. *)
Fixpoint redactAttr (key : string) (v : value) : value :=
  match v with
  | KindGroup l => GroupValue (map (fun a => (a.1, redactAttr a.1 a.2)) l)
  | _ => if isSensitiveKey key || hasSensitiveValue v then KindString "[redacted]" else v
  end.
Definition redactAttrs (attrs : list Attr) : list Attr := map (fun a => (a.1, redactAttr a.1 a.2)) attrs.

Definition level_of (level : string) : Z :=
  let l := to_lower level in
  if decide (l = "debug") then LevelDebug
  else if decide (l = "warn" \/ l = "warning") then LevelWarn
  else if decide (l = "error") then LevelError
  else LevelInfo.

Definition New (level : string) : redactHandler := mkRedact (mkJSONHandler (level_of level) []).

Definition Enabled (h : redactHandler) (l : Z) : bool := threshold (Handler h) <=? l.

(** [collectAttrs] gives the record's attributes in order. *)
Definition Handle (h : redactHandler) (record : list Attr) : list Attr :=
  json_Handle (Handler h) (non_empty (redactAttrs record)).
Definition WithAttrs (h : redactHandler) (attrs : list Attr) : redactHandler :=
  mkRedact (json_WithAttrs (Handler h) (redactAttrs attrs)).
Definition WithGroup (h : redactHandler) (name : string) : redactHandler := mkRedact (json_WithGroup (Handler h) name).

(** ** What a chain of child loggers writes *)

(** A child logger as the library's [Logger] derives it: [With] and [WithGroup]. *)
Definition child (h : redactHandler) (b : bound) : redactHandler :=
  match b with WithAttrs_ l => WithAttrs h l | WithGroup_ name => WithGroup h name end.
Definition json_child (h : JSONHandler) (b : bound) : JSONHandler :=
  match b with WithAttrs_ l => json_WithAttrs h l | WithGroup_ name => json_WithGroup h name end.

(** A log call of a logger derived by [chain]; [None] when the level is filtered out. *)
Definition written (level : string) (chain : list bound) (l : Z) (record : list Attr) : option (list Attr) :=
  let h := foldl child (New level) chain in if Enabled h l then Some (Handle h record) else None.

(** The same without the redacting wrapper. *)
Definition written_plain (level : string) (chain : list bound) (l : Z) (record : list Attr) : option (list Attr) :=
  let h := foldl json_child (mkJSONHandler (level_of level) []) chain in
  if threshold h <=? l then Some (json_Handle h record) else None.

(** The leaves of a tree: enclosing groups, own key, value. *)
Fixpoint leaves_of (path : list string) (key : string) (v : value) : list (list string * Attr) :=
  match v with
  | KindGroup l => flat_map (fun a => leaves_of (path ++ [key]) a.1 a.2) l
  | _ => [(path, (key, v))]
  end.
Definition leaves (path : list string) (l : list Attr) : list (list string * Attr) :=
  flat_map (fun a => leaves_of path a.1 a.2) l.

(** A credential in a leaf: under a sensitive key, or in a recognised format. *)
Definition sensitive (a : Attr) : bool := isSensitiveKey a.1 || hasSensitiveValue a.2.
Definition redact_leaf (x : list string * Attr) : list string * Attr :=
  if sensitive x.2 then (x.1, (x.2.1, KindString "[redacted]")) else x.

(** ** Lemmas *)

Lemma value_nested_ind (P : value -> Prop) :
  (forall s, P (KindString s)) -> (forall t, P (KindOther t)) ->
  (forall l, Forall (fun a => P a.2) l -> P (KindGroup l)) -> forall v, P v.
Proof.
  intros Hs Ho Hg. fix IH 1. intros [s|l|t]; [apply Hs| |apply Ho].
  apply Hg. induction l as [|[k v] l IHl]; constructor; [apply IH|exact IHl].
Qed.

Lemma leaves_non_empty path l : leaves path (non_empty l) = leaves path l.
Proof.
  induction l as [|[k v] l IH]; [done|]. unfold non_empty in *. rewrite filter_cons.
  destruct (decide _) as [Hd|Hd]; cbn.
  - unfold leaves in IH. by rewrite IH.
  - destruct v as [|[|]|]; cbn in Hd; try done.
Qed.

Lemma redact_leaf_attr path key v :
  leaves_of path key (redactAttr key v) = map redact_leaf (leaves_of path key v).
Proof.
  revert path key. induction v as [s|t|l IH] using value_nested_ind; intros path key.
  1-2: cbn; unfold redact_leaf, sensitive; cbn; by destruct (_ || _).
  cbn [redactAttr leaves_of GroupValue]. unfold GroupValue. cbn [leaves_of].
  change (flat_map _ ?x) with (leaves (path ++ [key]) x). rewrite leaves_non_empty. unfold leaves.
  induction IH as [|[k v] l Hv _ IHl]; cbn in *; [done|]. by rewrite map_app, Hv, IHl.
Qed.

Lemma redactAttrs_leaves path l : leaves path (redactAttrs l) = map redact_leaf (leaves path l).
Proof.
  induction l as [|[k v] l IH]; [done|]. unfold leaves, redactAttrs in *. cbn [map flat_map fst snd].
  by rewrite map_app, redact_leaf_attr, IH.
Qed.

Lemma leaves_app path l k : leaves path (l ++ k) = leaves path l ++ leaves path k.
Proof. apply flat_map_app. Qed.

(** What is bound to a child is redacted when it is bound. *)
Definition redact_bound (b : bound) : bound :=
  match b with WithAttrs_ l => WithAttrs_ (redactAttrs l) | WithGroup_ name => WithGroup_ name end.

Lemma foldl_child chain h :
  foldl child h chain = mkRedact (mkJSONHandler (threshold (Handler h)) (bounds (Handler h) ++ map redact_bound chain)).
Proof.
  revert h. induction chain as [|b chain IH]; intros [[t bs]]; cbn [foldl map].
  - cbn. by rewrite app_nil_r.
  - rewrite IH. destruct b; cbn; by rewrite <- app_assoc.
Qed.

Lemma foldl_json_child chain h :
  foldl json_child h chain = mkJSONHandler (threshold h) (bounds h ++ chain).
Proof.
  revert h. induction chain as [|b chain IH]; intros [t bs]; cbn [foldl].
  - cbn. by rewrite app_nil_r.
  - rewrite IH. destruct b; cbn; by rewrite <- app_assoc.
Qed.

Lemma nest_redacted chain path record :
  leaves path (nest (map redact_bound chain) (non_empty (redactAttrs record))) =
  map redact_leaf (leaves path (nest chain record)).
Proof.
  revert path. induction chain as [|[l|name] chain IH]; intros path; cbn [nest map redact_bound].
  - by rewrite leaves_non_empty, redactAttrs_leaves.
  - by rewrite !leaves_app, map_app, IH, redactAttrs_leaves.
  - unfold leaves at 1 2. cbn [flat_map leaves_of fst snd]. rewrite !app_nil_r. apply IH.
Qed.

Lemma redacted_not_sensitive : hasSensitiveValue (KindString "[redacted]") = false.
Proof. reflexivity. Qed.

(** ** Theorems *)

(** C38: Whatever loggers are derived from the service's own and however groups are nested, a
    call writes exactly the leaves the plain handler would write, in the same order under
    the same keys, but for the credentials among them: each leaf under a sensitive key or
    holding a credential of a recognised format has the value [[redacted]]. So no string
    that starts like a credential is ever written, and none that sits directly under a
    sensitive key. *)
Theorem redaction_complete level chain l record tree :
  written level chain l record = Some tree ->
  exists plain, written_plain level chain l record = Some plain /\
    leaves [] tree = map redact_leaf (leaves [] plain) /\
    forall path key v, (path, (key, v)) ∈ leaves [] tree ->
      hasSensitiveValue v = false /\ (isSensitiveKey key = true -> v = KindString "[redacted]").
Proof.
  unfold written, written_plain, Enabled, Handle, json_Handle.
  rewrite foldl_child, foldl_json_child. cbn [Handler threshold bounds New app].
  destruct (_ <=? l); [|discriminate]. intros [= <-]. eexists. split; [done|].
  rewrite nest_redacted. split; [done|]. intros path key v.
  rewrite list_elem_of_fmap. intros ([p [k w]] & Heq & _). revert Heq.
  unfold redact_leaf, sensitive. cbn [fst snd].
  destruct (isSensitiveKey k || hasSensitiveValue w) eqn:Hs; intros [= -> -> ->].
  - by rewrite redacted_not_sensitive.
  - apply orb_false_iff in Hs as [Hk Hv]. split; [done|]. congruence.
Qed.

(** Redacting twice is redacting once: a record that passes through two loggers is not
    changed further. *)
Lemma redact_leaf_idemp x : redact_leaf (redact_leaf x) = redact_leaf x.
Proof.
  unfold redact_leaf at 2 3. destruct (sensitive x.2) eqn:Hs.
  - unfold redact_leaf, sensitive. cbn [fst snd]. rewrite redacted_not_sensitive.
    by destruct (isSensitiveKey _).
  - unfold redact_leaf. by rewrite Hs.
Qed.
End redaction.

Module LoggingDemo.
#[local] Existing Instance DemoUnicode.

Definition chain : list bound :=
  [WithAttrs_ [("component", KindString "worker"); ("Api_Key", KindOther "42")]; WithGroup_ "request";
   WithAttrs_ [("header", KindString "Bearer eyJ0"); ("auth", KindGroup [("token", KindString "t")])]].
Definition record : list Attr := [("status", KindOther "200"); ("echo", KindString "ak_live_1"); ("empty", KindGroup [])].

Example child_logger_redacts :
  written "info" chain LevelWarn record =
  Some [("component", KindString "worker"); ("Api_Key", KindString "[redacted]");
        ("request", KindGroup [("header", KindString "[redacted]");
                               ("auth", KindGroup [("token", KindString "[redacted]")]);
                               ("status", KindOther "200"); ("echo", KindString "[redacted]")])].
Proof. vm_compute. reflexivity. Qed.

Example filtered_by_level : written "ERROR" chain LevelWarn record = None.
Proof. vm_compute. reflexivity. Qed.

(** A group is entered without a look at its own key: what is logged as a group of
    credentials is written in the clear, and so is a credential that is not a string. *)
Lemma group_key_ignored :
  written "info" [] LevelInfo [("credentials", KindGroup [("value", KindString "hunter2")])] =
    Some [("credentials", KindGroup [("value", KindString "hunter2")])] /\
  written "info" [WithGroup_ "session"] LevelInfo [("id", KindString "s3cr3t")] =
    Some [("session", KindGroup [("id", KindString "s3cr3t")])] /\
  written "info" [] LevelInfo [("header", KindOther "[Bearer eyJ0]")] = Some [("header", KindOther "[Bearer eyJ0]")].
Proof. repeat split; vm_compute; reflexivity. Qed.

Lemma redaction_complete_witness :
  exists tree plain, written "info" chain LevelWarn record = Some tree /\
    written_plain "info" chain LevelWarn record = Some plain /\ leaves [] tree = map redact_leaf (leaves [] plain) /\
    leaves [] tree <> leaves [] plain.
Proof.
  destruct (redaction_complete "info" chain LevelWarn record _ child_logger_redacts) as (plain & Hp & Hl & _).
  eexists _, plain. split; [exact child_logger_redacts|]. split; [exact Hp|]. split; [exact Hl|].
  vm_compute in Hp. injection Hp as <-. vm_compute. discriminate.
Defined.
End LoggingDemo.
