(* ===== verification/Config.v ===== *)
(** * Configuration

    [internal/platform/config/config.go]: the environment read and validated at start-up,
    with [time.ParseDuration] as the language's library defines it. The environment is a
    function from names to values, [""] when a variable is not set, which is all
    [os.Getenv] tells. *)

From S2P Require Import Prelude Ids Float64.
From S2P Require Token.

(** ** [time.ParseDuration] *)

Definition u64 (z : Z) : Z := z mod 2 ^ 64.

(** [leadingInt]: the value of the leading digits, [None] when it passes 2^63. *)
Fixpoint leadingInt (x : Z) (s : string) : option (Z * string) :=
  match s with
  | String c s' =>
      if is_digit_b (byte_of c) then
        if 2 ^ 63 / 10 <? x then None
        else let x := x * 10 + (byte_of c - 48) in
             if 2 ^ 63 <? x then None else leadingInt x s'
      else Some (x, s)
  | "" => Some (x, s)
  end.

(** [leadingFraction]: digits past the precision are read and dropped. *)
Fixpoint leadingFraction (x : Z) (scale : F64) (overflow : bool) (s : string) : Z * F64 * string :=
  match s with
  | String c s' =>
      if is_digit_b (byte_of c) then
        if overflow then leadingFraction x scale true s'
        else if (2 ^ 63 - 1) / 10 <? x then leadingFraction x scale true s'
        else let y := x * 10 + (byte_of c - 48) in
             if 2 ^ 63 <? y then leadingFraction x scale true s'
             else leadingFraction y (fmul scale (of_int 10)) false s'
      else (x, scale, s)
  | "" => (x, scale, s)
  end.

(** Division of positive doubles: a quotient of enough bits with a sticky bit, rounded. *)
Definition fdiv (x y : F64) : F64 :=
  let q := mant x * 2 ^ 160 / mant y in
  let r := mant x * 2 ^ 160 mod mant y in
  round53 (mkF64 (2 * q + (if r =? 0 then 0 else 1)) (expo x - expo y - 161)).

(** The conversion of a positive double to an integer. *)
Definition ftrunc (x : F64) : Z := if 0 <=? expo x then mant x * 2 ^ expo x else mant x / 2 ^ (- expo x).

Definition Nanosecond : Z := 1.
Definition Microsecond : Z := 1000.
Definition Millisecond : Z := 1000000.
Definition Second : Z := 1000000000.
Definition Minute : Z := 60 * Second.
Definition Hour : Z := 60 * Minute.

(** The two spellings of the micro sign are U+00B5 and U+03BC. *)
Definition micro_sign : string := String (chr 194) (String (chr 181) "").
Definition mu : string := String (chr 206) (String (chr 188) "").

Definition unitMap (u : string) : option Z :=
  if decide (u = "ns") then Some Nanosecond
  else if decide (u = "us" \/ u = micro_sign +:+ "s" \/ u = mu +:+ "s") then Some Microsecond
  else if decide (u = "ms") then Some Millisecond
  else if decide (u = "s") then Some Second
  else if decide (u = "m") then Some Minute
  else if decide (u = "h") then Some Hour
  else None.

Definition is_num_b (b : Z) : bool := (b =? 46) || is_digit_b b.

(** The unit runs to the next digit or point. *)
Fixpoint take_unit (s : string) : string * string :=
  match s with
  | "" => ("", "")
  | String c s' => if is_num_b (byte_of c) then ("", s) else let '(u, r) := take_unit s' in (String c u, r)
  end.

(** [v] units and the fraction [f / scale] of one, in nanoseconds. *)
Definition element_value (v f : Z) (scale : F64) (unit : Z) : option Z :=
  if 2 ^ 63 / unit <? v then None
  else
    let v := v * unit in
    if 0 <? f then
      let v := u64 (v + ftrunc (fmul (round53 (of_int f)) (fdiv (of_int unit) scale))) in
      if 2 ^ 63 <? v then None else Some v
    else Some v.

(** One round of the loop: a number with a unit, added to [d]. *)
Definition parse_element (d : Z) (s : string) : option (Z * string) :=
  match s with
  | "" => None
  | String c _ =>
      if negb (is_num_b (byte_of c)) then None
      else
        '(v, s1) ← leadingInt 0 s;
        let pre := negb (slen s1 =? slen s) in
        let '(f, scale, s2, post) :=
          match s1 with
          | String c1 s1' =>
              if byte_of c1 =? 46
              then let '(f, scale, s2) := leadingFraction 0 (of_int 1) false s1' in
                   (f, scale, s2, negb (slen s2 =? slen s1'))
              else (0, of_int 1, s1, false)
          | "" => (0, of_int 1, s1, false)
          end in
        if negb pre && negb post then None
        else
          let '(u, s3) := take_unit s2 in
          if decide (u = "") then None
          else
            unit ← unitMap u;
            v ← element_value v f scale unit;
            let d := u64 (d + v) in
            if 2 ^ 63 <? d then None else Some (d, s3)
  end.

(** Each round consumes a byte; [fuel] is the length of the string. *)
Fixpoint parse_elements (fuel : nat) (d : Z) (s : string) : option Z :=
  match s, fuel with
  | "", _ => Some d
  | _, O => None
  | _, S fuel => '(d, s) ← parse_element d s; parse_elements fuel d s
  end.

Definition ParseDuration (s : string) : option Z :=
  let '(neg, s) := match s with
                   | String c s' => if byte_of c =? 45 then (true, s') else if byte_of c =? 43 then (false, s') else (false, s)
                   | "" => (false, s)
                   end in
  if decide (s = "0") then Some 0
  else if decide (s = "") then None
  else
    d ← parse_elements (String.length s) 0 s;
    if neg : bool then Some (wrap64 (- wrap64 d))
    else if 2 ^ 63 - 1 <? d then None else Some d.

Example durations :
  ParseDuration "10m" = Some (10 * Minute) /\ ParseDuration "1h30m" = Some (90 * Minute) /\
  ParseDuration "1.5h" = Some (90 * Minute) /\ ParseDuration "-250ms" = Some (- (250 * Millisecond)) /\
  ParseDuration ("3" +:+ mu +:+ "s") = Some 3000 /\ ParseDuration ".5s" = Some 500000000 /\
  ParseDuration "1.000000001s" = Some 1000000001 /\ ParseDuration "0" = Some 0 /\ ParseDuration "2562047h47m16.854775807s" = Some MaxInt64.
Proof. repeat split; vm_compute; reflexivity. Qed.

Example not_durations :
  ParseDuration "10" = None /\ ParseDuration "" = None /\ ParseDuration "m" = None /\ ParseDuration "10 m" = None /\
  ParseDuration "1d" = None /\ ParseDuration "." = None /\ ParseDuration "9223372036854775808ns" = None /\
  ParseDuration "--1s" = None.
Proof. repeat split; vm_compute; reflexivity. Qed.

(** ** Loading *)

Record Config := mkConfig {
  Env_ : string;
  Port : Z;
  DatabaseURL : string;
  MigrateDatabaseURL : string;
  RedisURL : string;
  JWTSecret : string;
  AccessTokenTTL : Z;
  RefreshTTL : Z;
  RefreshReuseGrace : Z;
  TrustedProxyCIDRs : list string;
  WorkerBatchSize : Z;
  WorkerInterval : Z;
  WorkerMetricsPort : Z;
  LogLevel : string;
}.

(** The refusals of [Load], each with what its message quotes. *)
Inductive config_error :=
  | NotAnInteger (key raw : string)
  | NotADuration (key raw : string)
  | Negative (key : string) (d : Z)
  | PortRange (key : string) (port : Z)
  | DatabaseURLRequired
  | SecretRequired
  | SecretShort (len : Z)
  | BatchRange (n : Z)
  | IntervalNotPositive (d : Z)
  | AccessTooLong (d : Z)
  | RefreshTooShort (refresh access : Z).

Section load.
Context (getenv : string -> string).

Definition envOr (key fallback : string) : string := if decide (getenv key = "") then fallback else getenv key.

Definition intEnv (key : string) (fallback : Z) : result config_error Z :=
  let raw := getenv key in
  if decide (raw = "") then Ok fallback
  else match parse_int64 raw with Some v => Ok v | None => Err (NotAnInteger key raw) end.

Definition durationEnv (key : string) (fallback : Z) : result config_error Z :=
  let raw := getenv key in
  if decide (raw = "") then Ok fallback
  else match ParseDuration raw with
       | None => Err (NotADuration key raw)
       | Some d => if d <? 0 then Err (Negative key d) else Ok d
       end.

(** A port, as both listeners check it. *)
Definition portEnv (key : string) (fallback : Z) : result config_error Z :=
  port ← intEnv key fallback;
  if (port <=? 0) || (65535 <? port) then Err (PortRange key port) else Ok port.

Definition development_secret : string := "dev-only-insecure-secret-change-me-32b-min".

Definition secretEnv (env : string) : result config_error string :=
  secret ← (if decide (getenv "JWT_SECRET" = "")
            then if decide (env = "prod") then Err SecretRequired else Ok development_secret
            else Ok (getenv "JWT_SECRET"));
  if slen secret <? 32 then Err (SecretShort (slen secret)) else Ok secret.

(** The comma-separated list; an empty variable has one empty entry, which is dropped. *)
Definition proxyEnv : list string :=
  filter (fun cidr => cidr <> "") (trim_space <$> split_on "," (getenv "TRUSTED_PROXY_CIDRS")).

Definition workerEnv : result config_error (Z * Z * Z) :=
  batch ← intEnv "WORKER_BATCH_SIZE" 10;
  if (batch <=? 0) || (1000 <? batch) then Err (BatchRange batch)
  else
    interval ← durationEnv "WORKER_INTERVAL" Second;
    if interval <=? 0 then Err (IntervalNotPositive interval)
    else
      port ← portEnv "WORKER_METRICS_PORT" 9090;
      Ok (batch, interval, port).

Definition Load : result config_error Config :=
  let env := envOr "APP_ENV" "dev" in
  port ← portEnv "PORT" 8080;
  if decide (getenv "DATABASE_URL" = "") then Err DatabaseURLRequired
  else
    secret ← secretEnv env;
    access ← durationEnv "ACCESS_TOKEN_TTL" Token.DefaultAccessTTL;
    refresh ← durationEnv "REFRESH_TOKEN_TTL" (30 * 24 * Hour);
    grace ← durationEnv "REFRESH_REUSE_GRACE" (10 * Second);
    '(batch, interval, metrics_port) ← workerEnv;
    if Hour <? access then Err (AccessTooLong access)
    else if refresh <=? access then Err (RefreshTooShort refresh access)
    else
      Ok (mkConfig env port (getenv "DATABASE_URL") (getenv "MIGRATE_DATABASE_URL")
            (envOr "REDIS_URL" "redis://localhost:6379/0") secret access refresh grace proxyEnv batch interval
            metrics_port (envOr "LOG_LEVEL" "info")).
End load.

(** ** Lemmas *)

Lemma parse_element_range d s d' s' : parse_element d s = Some (d', s') -> 0 <= d' <= 2 ^ 63.
Proof.
  unfold parse_element. destruct s as [|c s]; [done|]. intros He. case_match; [done|].
  apply bind_Some in He as ([v s1] & _ & He).
  destruct (match s1 with "" => _ | _ => _ end) as [[[f scale] s2] post]. case_match; [done|].
  destruct (take_unit s2) as [u s3]. case_decide; [done|].
  apply bind_Some in He as (unit & _ & He). apply bind_Some in He as (w & _ & He).
  case_match; [done|]. to_prop. injection He as <- <-. split; [apply Z.mod_pos_bound|]; lia.
Qed.

Lemma parse_elements_range fuel d s d' :
  0 <= d <= 2 ^ 63 -> parse_elements fuel d s = Some d' -> 0 <= d' <= 2 ^ 63.
Proof.
  revert d s. induction fuel as [|fuel IH]; intros d [|c s] Hd Hp; cbn [parse_elements] in Hp; simplify_eq; try done.
  apply bind_Some in Hp as ([d1 s1] & He & Hp). apply parse_element_range in He. eauto.
Qed.

(** A duration that parses is one of the 64-bit durations. *)
Lemma ParseDuration_range s d : ParseDuration s = Some d -> in_int64 d.
Proof.
  unfold ParseDuration. destruct (match s with "" => _ | _ => _ end) as [neg s'].
  case_decide; [intros [= <-]; split; done|]. case_decide; [done|]. intros Hp.
  apply bind_Some in Hp as (d1 & He & Hp). apply parse_elements_range in He; [|lia].
  destruct neg; [injection Hp as <-; apply wrap64_range|].
  case_match; [done|]. to_prop. injection Hp as <-. unfold in_int64, MaxInt64, MinInt64. lia.
Qed.

Lemma slen_String c s : slen (String c s) = 1 + slen s.
Proof. unfold slen. cbn [String.length]. lia. Qed.

Lemma leadingInt_suffix x s v r : leadingInt x s = Some (v, r) -> slen r <= slen s.
Proof.
  revert x. induction s as [|c s IH]; intros x; cbn [leadingInt]; [by intros [= <- <-]|].
  repeat case_match; intros; simplify_eq; try done. rewrite slen_String. specialize (IH _ ltac:(eassumption)). lia.
Qed.

Lemma leadingFraction_suffix x scale o s v sc r : leadingFraction x scale o s = (v, sc, r) -> slen r <= slen s.
Proof.
  revert x scale o. induction s as [|c s IH]; intros x scale o; cbn [leadingFraction]; [by intros [= <- <- <-]|].
  rewrite slen_String. repeat case_match; intros; simplify_eq; rewrite ?slen_String; try lia;
    match goal with Hx : leadingFraction _ _ _ s = _ |- _ => apply IH in Hx end; lia.
Qed.

Lemma take_unit_app s u r : take_unit s = (u, r) -> s = u +:+ r.
Proof.
  revert u. induction s as [|c s IH]; intros u; cbn [take_unit]; [by intros [= <- <-]|].
  destruct (is_num_b _); [by intros [= <- <-]|]. destruct (take_unit s) as [u' r'] eqn:E. intros [= <- <-].
  cbn [String.append]. by rewrite (IH _ eq_refl).
Qed.

(** A round of the parser leaves a shorter rest, so the length of the input is fuel enough:
    with more the result is the same. *)
Lemma parse_element_shorter d s d' s' : parse_element d s = Some (d', s') -> slen s' < slen s.
Proof.
  unfold parse_element. destruct s as [|c s]; [done|]. intros He. case_match; [done|].
  apply bind_Some in He as ([v s1] & Hi%leadingInt_suffix & He).
  destruct (match s1 with "" => _ | _ => _ end) as [[[f scale] s2] post] eqn:Hf. case_match; [done|].
  assert (slen s2 <= slen s1) as H2.
  { destruct s1 as [|c1 s1]; [by simplify_eq|]. destruct (_ =? 46); [|by simplify_eq].
    destruct (leadingFraction _ _ _ s1) as [[v' sc] r] eqn:E. apply leadingFraction_suffix in E. simplify_eq.
    rewrite slen_String. lia. }
  destruct (take_unit s2) as [u s3] eqn:Hu. apply take_unit_app in Hu as ->. case_decide as Hne; [done|].
  apply bind_Some in He as (unit & _ & He). apply bind_Some in He as (w & _ & He). case_match; [done|].
  injection He as _ <-. rewrite slen_app in H2. destruct u; [done|]. rewrite slen_String in H2. pose proof (slen_nonneg u). lia.
Qed.

Lemma parse_elements_fuel n m d s :
  (String.length s <= n)%nat -> (String.length s <= m)%nat -> parse_elements n d s = parse_elements m d s.
Proof.
  revert m d s. induction n as [|n IH]; intros m d [|c s] Hn Hm; cbn [String.length] in *; try lia;
    destruct m as [|m]; try lia; try done.
  cbn [parse_elements]. destruct (parse_element d (String c s)) as [[d' s']|] eqn:E; [|done]. cbn.
  apply parse_element_shorter in E. unfold slen in E. cbn [String.length] in E. apply IH; lia.
Qed.

(** The value of a string of digits, after [x]. *)
Fixpoint digits_value (x : Z) (s : string) : Z :=
  match s with "" => x | String c s' => digits_value (x * 10 + (byte_of c - 48)) s' end.

Lemma digits_value_le x s : 0 <= x -> str_forall is_digit_b s = true -> x <= digits_value x s.
Proof.
  revert x. induction s as [|c s IH]; intros x Hx; cbn [digits_value str_forall]; [lia|].
  intros [Hc Hs]%andb_true_iff. unfold is_digit_b in Hc. to_prop. specialize (IH (x * 10 + (byte_of c - 48)) ltac:(lia) Hs). lia.
Qed.

Lemma leadingInt_digits x ds rest :
  0 <= x -> str_forall is_digit_b ds = true -> digits_value x ds <= 2 ^ 63 ->
  match rest with "" => True | String c _ => is_digit_b (byte_of c) = false end ->
  leadingInt x (ds +:+ rest) = Some (digits_value x ds, rest).
Proof.
  intros Hx. revert x Hx. induction ds as [|c ds IH]; intros x Hx Hd Hv Hr; cbn [String.append].
  - destruct rest as [|c r]; [done|]. cbn [leadingInt digits_value]. by rewrite Hr.
  - cbn [str_forall digits_value leadingInt] in *. apply andb_true_iff in Hd as [Hc Hd]. rewrite Hc.
    pose proof Hc as Hc'. unfold is_digit_b in Hc'. to_prop.
    pose proof (digits_value_le (x * 10 + (byte_of c - 48)) ds ltac:(lia) Hd).
    destruct (Z.ltb_spec (2 ^ 63 / 10) x); [pose proof (Z.div_le_lower_bound (2 ^ 63) 10 x); lia|].
    destruct (Z.ltb_spec (2 ^ 63) (x * 10 + (byte_of c - 48))); [lia|]. apply IH; auto; lia.
Qed.

Lemma of_uint_acc_value u p : Z.pos (Pos.of_uint_acc u p) = digits_value (Z.pos p) (NilEmpty.string_of_uint u).
Proof.
  revert p. induction u as [|u IH|u IH|u IH|u IH|u IH|u IH|u IH|u IH|u IH|u IH]; intros p; [done|..];
    cbn [Pos.of_uint_acc NilEmpty.string_of_uint digits_value]; rewrite IH; f_equal; unfold byte_of; cbn; lia.
Qed.

Lemma of_uint_value u : Z.of_N (Pos.of_uint u) = digits_value 0 (NilEmpty.string_of_uint u).
Proof. induction u as [|u IH| | | | | | | | |]; [done|exact IH|..]; cbn; apply of_uint_acc_value. Qed.

Lemma udec_value n : digits_value 0 (udec n) = Z.of_N n.
Proof.
  unfold udec. rewrite <- (DecimalN.Unsigned.of_to n) at 2. unfold N.of_uint. rewrite of_uint_value.
  unfold NilZero.string_of_uint. by destruct (N.to_uint n).
Qed.

(** A whole number of units is read as that many units, as long as it fits. *)
Lemma ParseDuration_units n unit name :
  0 <= n -> n * unit <= MaxInt64 -> unitMap name = Some unit -> take_unit name = (name, "") ->
  ParseDuration (dec n +:+ name) = Some (n * unit).
Proof.
  intros Hn Hmax Hu Ht.
  assert (1 <= unit) as Hpos by (unfold unitMap in Hu; repeat case_decide; simplify_eq; done).
  destruct name as [|c name]; [done|]. cbn [take_unit] in Ht. destruct (is_num_b (byte_of c)) eqn:Hc; [done|].
  unfold dec. destruct (Z.ltb_spec n 0) as [|_]; [lia|]. replace (Z.abs_N n) with (Z.to_N n) by lia.
  pose proof (udec_value (Z.to_N n)) as Hv. rewrite Z2N.id in Hv by done.
  pose proof (udec_digits (Z.to_N n)) as Hd. pose proof (udec_nonempty (Z.to_N n)) as Hne.
  destruct (udec (Z.to_N n)) as [|k ds]; [done|]. pose proof Hd as Hk. cbn [str_forall] in Hk. apply andb_true_iff in Hk as [Hk _].
  assert (byte_of k <> 45 /\ byte_of k <> 43) as [Hk1 Hk2] by (unfold is_digit_b in Hk; to_prop; lia).
  assert (parse_element 0 (String k ds +:+ String c name) = Some (n * unit, "")) as He.
  { unfold parse_element. cbn [String.append]. unfold is_num_b at 1. rewrite Hk, orb_true_r. cbn [negb].
    change (String k (ds +:+ String c name)) with (String k ds +:+ String c name).
    rewrite (leadingInt_digits 0 (String k ds)), Hv by (done || (rewrite Hv; unfold MaxInt64 in Hmax; nia) ||
      by (unfold is_num_b in Hc; apply orb_false_iff in Hc as [_ ?])).
    cbn [mbind option_bind]. unfold is_num_b in Hc. pose proof Hc as [Hc1 _]%orb_false_iff. rewrite Hc1. cbv beta iota zeta.
    assert (slen (String c name) =? slen (String k ds +:+ String c name) = false) as ->.
    { rewrite slen_app, (slen_String k). pose proof (slen_nonneg ds). apply Z.eqb_neq. lia. }
    cbn [negb andb take_unit]. unfold is_num_b at 1. rewrite Hc. destruct (take_unit name) as [u r]. injection Ht as -> ->.
    rewrite decide_False, Hu by done. cbn [mbind option_bind]. unfold element_value. destruct (Z.ltb_spec (2 ^ 63 / unit) n) as [Hlt|_].
    { pose proof (Z.div_le_lower_bound (2 ^ 63) unit n). unfold MaxInt64 in Hmax. lia. }
    cbn [mbind option_bind Z.ltb Z.compare]. unfold u64. rewrite Z.add_0_l, Z.mod_small by (unfold MaxInt64 in Hmax; nia).
    destruct (Z.ltb_spec (2 ^ 63) (n * unit)); [unfold MaxInt64 in Hmax; lia|done]. }
  unfold ParseDuration. cbn [String.append]. rewrite (proj2 (Z.eqb_neq _ _) Hk1), (proj2 (Z.eqb_neq _ _) Hk2).
  change (String k (ds +:+ String c name)) with (String k ds +:+ String c name).
  rewrite decide_False by (destruct ds; done). rewrite decide_False by done.
  cbn [String.append String.length parse_elements]. change (String k (ds +:+ String c name)) with (String k ds +:+ String c name).
  rewrite He. cbn. destruct (String.length _); cbn; (destruct (Z.ltb_spec (2 ^ 63 - 1) (n * unit)); [unfold MaxInt64 in Hmax; lia|done]).
Qed.

Lemma ParseDuration_seconds n : 0 <= n <= 9223372036 -> ParseDuration (dec n +:+ "s") = Some (n * Second).
Proof. intros Hn. apply ParseDuration_units; [lia|unfold Second, MaxInt64; lia|done|done]. Qed.

(** The integer part, read at a scale. *)
Lemma ftrunc_at K x : 0 <= K -> 0 <= expo x + K -> ftrunc x = at_scale K x / 2 ^ K.
Proof.
  intros HK He. unfold ftrunc, at_scale. destruct (Z.leb_spec 0 (expo x)).
  - rewrite Z.pow_add_r by lia. rewrite Z.mul_assoc, Z.div_mul; [done|]. pose proof (pow2_pos K HK). lia.
  - replace K with (- expo x + (expo x + K)) at 2 by lia. rewrite (Z.pow_add_r 2 (- expo x)) by lia.
    rewrite Z.div_mul_cancel_r; [done| |]; pose proof (pow2_pos (- expo x)); pose proof (pow2_pos (expo x + K) He); lia.
Qed.

(** ** What a configuration may say *)

Section spec.
Context (getenv : string -> string).

(** A variable that is not set takes its default; one that is set is read, never ignored. *)
Definition said {A} (parse : string -> option A) (fallback : A) (key : string) (v : A) : Prop :=
  if decide (getenv key = "") then v = fallback else parse (getenv key) = Some v.

Definition refused_by {A} (parse : string -> option A) (key : string) : Prop :=
  getenv key <> "" /\ parse (getenv key) = None.

(** Why a start is refused, in terms of the environment alone. *)
Definition justified (e : config_error) : Prop :=
  match e with
  | NotAnInteger key raw => raw = getenv key /\ refused_by parse_int64 key
  | NotADuration key raw => raw = getenv key /\ refused_by ParseDuration key
  | Negative key d => ParseDuration (getenv key) = Some d /\ d < 0
  | PortRange key port => parse_int64 (getenv key) = Some port /\ ~ 1 <= port <= 65535
  | DatabaseURLRequired => getenv "DATABASE_URL" = ""
  | SecretRequired => getenv "APP_ENV" = "prod" /\ getenv "JWT_SECRET" = ""
  | SecretShort n => n = slen (getenv "JWT_SECRET") /\ 1 <= n < 32
  | BatchRange n => parse_int64 (getenv "WORKER_BATCH_SIZE") = Some n /\ ~ 1 <= n <= 1000
  | IntervalNotPositive d => ParseDuration (getenv "WORKER_INTERVAL") = Some d /\ d = 0
  | AccessTooLong d => ParseDuration (getenv "ACCESS_TOKEN_TTL") = Some d /\ Hour < d
  | RefreshTooShort refresh access =>
      said ParseDuration Token.DefaultAccessTTL "ACCESS_TOKEN_TTL" access /\
      said ParseDuration (30 * 24 * Hour) "REFRESH_TOKEN_TTL" refresh /\ refresh <= access
  end.

(** An entry of a comma-separated list, without the space around it; an empty one is none. *)
Definition entry (part : string) : option string :=
  if decide (trim_space part = "") then None else Some (trim_space part).

(** Where each field comes from, all fourteen of them. *)
Definition loaded (c : Config) : Prop :=
  said Some "dev" "APP_ENV" (Env_ c) /\
  said parse_int64 8080 "PORT" (Port c) /\
  DatabaseURL c = getenv "DATABASE_URL" /\
  MigrateDatabaseURL c = getenv "MIGRATE_DATABASE_URL" /\
  said Some "redis://localhost:6379/0" "REDIS_URL" (RedisURL c) /\
  said Some development_secret "JWT_SECRET" (JWTSecret c) /\
  said ParseDuration Token.DefaultAccessTTL "ACCESS_TOKEN_TTL" (AccessTokenTTL c) /\
  said ParseDuration (30 * 24 * Hour) "REFRESH_TOKEN_TTL" (RefreshTTL c) /\
  said ParseDuration (10 * Second) "REFRESH_REUSE_GRACE" (RefreshReuseGrace c) /\
  said parse_int64 10 "WORKER_BATCH_SIZE" (WorkerBatchSize c) /\
  said ParseDuration Second "WORKER_INTERVAL" (WorkerInterval c) /\
  said parse_int64 9090 "WORKER_METRICS_PORT" (WorkerMetricsPort c) /\
  said Some "info" "LOG_LEVEL" (LogLevel c) /\
  TrustedProxyCIDRs c = omap entry (split_on "," (getenv "TRUSTED_PROXY_CIDRS")) /\
  (getenv "APP_ENV" = "prod" -> getenv "JWT_SECRET" <> "").

(** What the rest of the program may rely on. *)
Definition Config_ok (c : Config) : Prop :=
  1 <= Port c <= 65535 /\ DatabaseURL c <> "" /\ 32 <= slen (JWTSecret c) /\
  0 <= AccessTokenTTL c <= Hour /\ AccessTokenTTL c < RefreshTTL c <= MaxInt64 /\
  0 <= RefreshReuseGrace c <= MaxInt64 /\ 1 <= WorkerBatchSize c <= 1000 /\
  1 <= WorkerInterval c <= MaxInt64 /\ 1 <= WorkerMetricsPort c <= 65535 /\
  Forall (fun cidr => cidr <> "" /\ trim_space cidr = cidr) (TrustedProxyCIDRs c).

(** A reader either yields a value with [Q] or an error with a reason. *)
Definition outcome {A} (Q : A -> Prop) (r : result config_error A) : Prop :=
  match r with Ok a => Q a | Err e => justified e end.

Lemma outcome_bind {A B} (Q : A -> Prop) (R : B -> Prop) (m : result config_error A) (f : A -> result config_error B) :
  outcome Q m -> (forall a, Q a -> outcome R (f a)) -> outcome R (m ≫= f).
Proof. destruct m; cbn; auto. Qed.

Lemma intEnv_outcome key fallback : outcome (said parse_int64 fallback key) (intEnv getenv key fallback).
Proof.
  unfold intEnv, said. destruct (decide (getenv key = "")) as [|Hne]; [done|].
  destruct (parse_int64 _) eqn:Hp; cbn; [done|]. done.
Qed.

(** A duration that is read is a 64-bit duration and not negative. *)
Definition said_duration (fallback : Z) (key : string) (d : Z) : Prop :=
  said ParseDuration fallback key d /\ 0 <= d <= MaxInt64.

Lemma durationEnv_outcome key fallback :
  0 <= fallback <= MaxInt64 -> outcome (said_duration fallback key) (durationEnv getenv key fallback).
Proof.
  intros Hf. unfold durationEnv, said_duration, said. destruct (decide (getenv key = "")) as [|Hne]; [done|].
  destruct (ParseDuration _) as [d|] eqn:Hp; cbn; [|done].
  pose proof (ParseDuration_range _ _ Hp) as [_ Hd].
  destruct (Z.ltb_spec d 0); cbn; split; done || lia.
Qed.

Lemma portEnv_outcome key fallback :
  1 <= fallback <= 65535 ->
  outcome (fun port => said parse_int64 fallback key port /\ 1 <= port <= 65535) (portEnv getenv key fallback).
Proof.
  intros Hf. eapply outcome_bind; [apply intEnv_outcome|]. intros port Hport.
  destruct ((port <=? 0) || (65535 <? port)) eqn:Hr; cbn.
  - unfold said in Hport. case_decide; [subst; lia|]. split; [done|lia].
  - split; [done|]. lia.
Qed.

Lemma secretEnv_outcome env :
  env = envOr getenv "APP_ENV" "dev" ->
  outcome (fun secret => (said Some development_secret "JWT_SECRET" secret /\ 32 <= slen secret) /\
                         (getenv "APP_ENV" = "prod" -> getenv "JWT_SECRET" <> "")) (secretEnv getenv env).
Proof.
  intros ->. unfold secretEnv, said, envOr.
  destruct (decide (getenv "JWT_SECRET" = "")) as [He|Hne].
  - destruct (decide (getenv "APP_ENV" = "")) as [Hd|Hd]; [|destruct (decide (getenv "APP_ENV" = "prod"))]; cbn.
    all: repeat split; done || congruence.
  - cbn. destruct (Z.ltb_spec (slen (getenv "JWT_SECRET")) 32); cbn; [|by repeat split].
    split; [done|]. destruct (getenv "JWT_SECRET"); [done|]. unfold slen in *. cbn in *. lia.
Qed.

Lemma workerEnv_outcome :
  outcome (fun w => (said parse_int64 10 "WORKER_BATCH_SIZE" w.1.1 /\ 1 <= w.1.1 <= 1000) /\
                    (said ParseDuration Second "WORKER_INTERVAL" w.1.2 /\ 1 <= w.1.2 <= MaxInt64) /\
                    (said parse_int64 9090 "WORKER_METRICS_PORT" w.2 /\ 1 <= w.2 <= 65535)) (workerEnv getenv).
Proof.
  eapply outcome_bind; [apply intEnv_outcome|]. intros batch Hbatch.
  destruct ((batch <=? 0) || (1000 <? batch)) eqn:Hr; cbn.
  { unfold said in Hbatch. case_decide; [subst; lia|]. split; [done|lia]. }
  eapply outcome_bind; [apply durationEnv_outcome; unfold MaxInt64, Second; lia|]. intros interval [Hi Hrange].
  destruct (Z.leb_spec interval 0); cbn.
  { unfold said in Hi. case_decide; [unfold Second in *; lia|]. split; [done|lia]. }
  eapply outcome_bind; [apply portEnv_outcome; lia|]. intros port [Hport ?]. cbn. repeat split; done || lia.
Qed.

Lemma proxyEnv_ok : Forall (fun cidr => cidr <> "" /\ trim_space cidr = cidr) (proxyEnv getenv).
Proof.
  apply Forall_forall. intros cidr Hin. unfold proxyEnv in Hin. apply list_elem_of_filter in Hin as [Hne Hin].
  apply list_elem_of_fmap in Hin as (s & -> & _). split; [done|apply trim_space_idem].
Qed.

Lemma envOr_said key fallback : said Some fallback key (envOr getenv key fallback).
Proof. unfold said, envOr. by case_decide. Qed.

Lemma proxyEnv_entries : proxyEnv getenv = omap entry (split_on "," (getenv "TRUSTED_PROXY_CIDRS")).
Proof.
  unfold proxyEnv. induction (split_on "," _) as [|part l IH]; [done|]. rewrite fmap_cons, filter_cons. cbn [omap list_omap].
  unfold entry at 1. rewrite IH. repeat case_decide; try done.
Qed.

Lemma Load_outcome : outcome (fun c => Config_ok c /\ loaded c) (Load getenv).
Proof.
  unfold Load.
  eapply outcome_bind; [apply portEnv_outcome; lia|]. intros port [Hport Hport_range].
  case_decide as Hdb; [done|].
  eapply outcome_bind; [by apply secretEnv_outcome|]. intros secret [[Hsecret Hlen] Hprod].
  eapply outcome_bind; [apply durationEnv_outcome; done|]. intros access [Haccess ?].
  eapply outcome_bind; [apply durationEnv_outcome; done|]. intros refresh [Hrefresh ?].
  eapply outcome_bind; [apply durationEnv_outcome; done|]. intros grace [Hgrace ?].
  eapply outcome_bind; [apply workerEnv_outcome|]. intros [[batch interval] mport] ([? ?] & [? ?] & [? ?]). cbn [fst snd] in *.
  destruct (Z.ltb_spec Hour access).
  { cbn. unfold said in Haccess. case_decide; [|done]. subst. done. }
  destruct (Z.leb_spec refresh access); [by repeat split|].
  cbn. split; unfold Config_ok, loaded; cbn; repeat split; first [done | lia | apply proxyEnv_ok | apply proxyEnv_entries | apply envOr_said].
Qed.

Lemma Load_redis c : Load getenv = Ok c -> RedisURL c = envOr getenv "REDIS_URL" "redis://localhost:6379/0".
Proof.
  unfold Load. intros Hl. apply bind_Ok in Hl as (port & _ & Hl). case_decide; [done|].
  apply bind_Ok in Hl as (secret & _ & Hl). apply bind_Ok in Hl as (access & _ & Hl).
  apply bind_Ok in Hl as (refresh & _ & Hl). apply bind_Ok in Hl as (grace & _ & Hl).
  apply bind_Ok in Hl as ([[batch interval] mport] & _ & Hl).
  destruct (_ <? access); [done|]. destruct (refresh <=? access); [done|]. by injection Hl as <-.
Qed.

(** C30: Loading the environment yields a configuration or says why not. Each of the fourteen fields of a configuration
    it yields is what its variable says when that is set, read as the field's type, and the field's own default only
    when it is not; the bounds the loader checks hold (both ports, the length of the secret, at most an hour for an
    access token and less than the refresh token's life, batch and interval of the worker, no negative duration), and
    production never runs on the development secret. A refusal always names a variable that is at fault. (The lower
    bound on an access token's life that the comment on the field announces is not checked: lemma
    shortest_access_token.) *)
Theorem Load_exact :
  match Load getenv with Ok c => Config_ok c /\ loaded c | Err e => justified e end.
Proof.
  apply Load_outcome.
Qed.
End spec.

(** ** One variable changed *)

Definition with_refresh (refresh : Z) (c : Config) : Config :=
  mkConfig (Env_ c) (Port c) (DatabaseURL c) (MigrateDatabaseURL c) (RedisURL c) (JWTSecret c) (AccessTokenTTL c) refresh
    (RefreshReuseGrace c) (TrustedProxyCIDRs c) (WorkerBatchSize c) (WorkerInterval c) (WorkerMetricsPort c) (LogLevel c).

(** A configuration is a function of what the variables say. *)
Lemma Load_agree getenv getenv' c c' :
  (forall key, key <> "REFRESH_TOKEN_TTL" -> getenv' key = getenv key) ->
  Load getenv = Ok c -> Load getenv' = Ok c' -> exists refresh, c' = with_refresh refresh c.
Proof.
  intros Henv. unfold Load, portEnv, secretEnv, workerEnv, proxyEnv, envOr, portEnv, durationEnv, intEnv.
  repeat match goal with |- context [getenv' ?key] => rewrite (Henv key) by done end. intros Hl Hl'.
  apply bind_Ok in Hl as (port & Hp & Hl). rewrite Hp in Hl'. cbn [mbind result_bind] in Hl'. case_decide; [done|].
  apply bind_Ok in Hl as (secret & Hs & Hl). rewrite Hs in Hl'. cbn [mbind result_bind] in Hl'.
  apply bind_Ok in Hl as (access & Ha & Hl). rewrite Ha in Hl'. cbn [mbind result_bind] in Hl'.
  apply bind_Ok in Hl as (refresh & _ & Hl). apply bind_Ok in Hl' as (refresh' & _ & Hl').
  apply bind_Ok in Hl as (grace & Hg & Hl). rewrite Hg in Hl'. cbn [mbind result_bind] in Hl'.
  apply bind_Ok in Hl as ([[batch interval] mport] & Hw & Hl). rewrite Hw in Hl'. cbn [mbind result_bind] in Hl'.
  destruct (_ <? access); [done|]. destruct (refresh <=? access); [done|]. destruct (refresh' <=? access); [done|].
  injection Hl as <-. injection Hl' as <-. by exists refresh'.
Qed.

Module ConfigDemo.
Definition env_of (l : list (string * string)) (key : string) : string :=
  default "" ((list_to_map l : gmap string string) !! key).
Definition minimal : list (string * string) := [("DATABASE_URL", "postgres://app_rw@db/tenant_platform")].

(** With the database's address alone the service starts on its defaults. *)
Example defaults :
  Load (env_of minimal) =
  Ok (mkConfig "dev" 8080 "postgres://app_rw@db/tenant_platform" "" "redis://localhost:6379/0" development_secret
        (10 * Minute) (720 * Hour) (10 * Second) [] 10 Second 9090 "info").
Proof. vm_compute. reflexivity. Qed.

Example refusals :
  Load (env_of []) = Err DatabaseURLRequired /\
  Load (env_of (("APP_ENV", "prod") :: minimal)) = Err SecretRequired /\
  Load (env_of (("JWT_SECRET", "hunter2") :: minimal)) = Err (SecretShort 7) /\
  Load (env_of (("PORT", "65536") :: minimal)) = Err (PortRange "PORT" 65536) /\
  Load (env_of (("ACCESS_TOKEN_TTL", "61m") :: minimal)) = Err (AccessTooLong (61 * Minute)) /\
  Load (env_of (("REFRESH_TOKEN_TTL", "10m") :: minimal)) = Err (RefreshTooShort (10 * Minute) (10 * Minute)) /\
  Load (env_of (("REFRESH_REUSE_GRACE", "-1s") :: minimal)) = Err (Negative "REFRESH_REUSE_GRACE" (- Second)) /\
  Load (env_of (("WORKER_INTERVAL", "0s") :: minimal)) = Err (IntervalNotPositive 0) /\
  Load (env_of (("WORKER_BATCH_SIZE", "ten") :: minimal)) = Err (NotAnInteger "WORKER_BATCH_SIZE" "ten").
Proof. repeat split; vm_compute; reflexivity. Qed.

Example proxies :
  proxyEnv (env_of [("TRUSTED_PROXY_CIDRS", " 10.0.0.0/8, ,192.0.2.7,")]) = ["10.0.0.0/8"; "192.0.2.7"].
Proof. vm_compute. reflexivity. Qed.

(** The lower bound of an access token's life is not checked here: a nanosecond is
    accepted, and zero is left for the issuer to refuse. *)
Example shortest_access_token :
  is_ok (Load (env_of (("ACCESS_TOKEN_TTL", "1ns") :: minimal))) = true /\
  is_ok (Load (env_of (("ACCESS_TOKEN_TTL", "0") :: minimal))) = true.
Proof. split; vm_compute; reflexivity. Qed.
End ConfigDemo.
