(* ===== verification/Startup.v ===== *)
(** * Start-up

    What [cmd/api/main.go] and [cmd/worker/main.go] construct and when they refuse to run,
    with [platform/db/role.go]; serving and the shutdown are not modelled. The outside
    (environment, database, redis) answers once per question: a [World]. *)

From S2P Require Import Prelude Apperr Ids Float64.
From S2P Require Config Token Cursor Password Account RateLimit ClientIp Router Ssrf Webhook.

(** ** The world at start *)

Record RoleRow := mkRole { currentUser : string; isSuper : bool; bypassRLS : bool }.

(** [script.Load]: an answer of the server is a [redis.Error], anything else is not. *)
Inductive ScriptLoad := ScriptLoaded | ServerError (text : string) | Unreachable (text : string).

(** Errors of the outside are texts. *)
Record World := mkWorld {
  getenv : string -> string;
  NewPool : string -> result string unit;
  Ping : string -> result string unit;
  QueryRole : string -> result string RoleRow;
  redis_ParseURL : string -> bool;
  LoadScript : string -> ScriptLoad;
  rand : nat -> Z;
}.

Inductive startup_error :=
  | BadConfig (e : Config.config_error)
  | NoPool (text : string)
  | NoDatabase (url text : string)   (* the redacted address *)
  | InspectRole (text : string)
  | SuperuserRole (user : string)
  | BypassRole (user : string)
  | BadProxies (text : string)
  | BadScript (policy text : string)
  | BadIssuer (e : err)
  | BadCodec (e : err)
  | BadService (e : err).

(** ** The database role *)

Definition AllowPrivilegedRoleEnv : string := "ALLOW_PRIVILEGED_DB_ROLE".

Definition AssertUnprivilegedRole (w : World) (url : string) : result startup_error unit :=
  if decide (getenv w AllowPrivilegedRoleEnv = "1") then Ok tt
  else match QueryRole w url with
       | Err text => Err (InspectRole text)
       | Ok r => if isSuper r then Err (SuperuserRole (currentUser r))
                 else if bypassRLS r then Err (BypassRole (currentUser r)) else Ok tt
       end.

(** ** Credentials in a connection string *)

(** The first [@] and the first [://], as the two loops find them. *)
Definition redactURL (raw : string) : string :=
  match cut_str "@" raw with
  | None => raw
  | Some (before, after) =>
      match cut_str "://" raw with
      | None => "postgres://[redacted]"
      | Some (scheme, _) =>
          if slen before <? slen scheme + 3 then "postgres://[redacted]"
          else (scheme +:+ "://") +:+ "[redacted]" +:+ "@" +:+ after
      end
  end.

(** ** The rate limiter's script *)

Definition validateScript (w : World) (policy : string) : result string unit :=
  match LoadScript w policy with ServerError text => Err text | ScriptLoaded | Unreachable _ => Ok tt end.

(** [for _, l := range limiters { l.Validate }] *)
Fixpoint validateAll (w : World) (ps : list RateLimit.Policy) : result startup_error unit :=
  match ps with
  | [] => Ok tt
  | p :: ps' => match validateScript w (RateLimit.Name p) with
                | Err text => Err (BadScript (RateLimit.Name p) text)
                | Ok _ => validateAll w ps'
                end
  end.

(** ** The API *)

Definition at_startup {A} (fail : err -> startup_error) (r : go_result A) : result startup_error A :=
  match r with Ok a => Ok a | Err e => Err (fail e) end.

Record Api := mkApi {
  a_Port : Z;
  a_LogLevel : string;
  a_Service : Account.Service;
  a_RefreshGrace : Z;
  a_Codec : Cursor.Codec;
  a_Guard : Ssrf.Guard;
  a_Deps : Router.Deps;
  a_RedisPing : bool;        (* whether the readiness probe asks redis *)
  a_AccessTokenTTL : Z;      (* whole seconds, as sessions report it *)
}.

Section startup.
Context `{Password.Argon2} (w : World).

(** [int(ttl.Seconds())]: the seconds and the remaining nanoseconds are added as doubles. *)
Definition Seconds (d : Z) : F64 :=
  fadd (of_int (Z.quot d Config.Second)) (Config.fdiv (of_int (Z.rem d Config.Second)) (of_int 1000000000)).
Definition whole_seconds (d : Z) : Z := Config.ftrunc (Seconds d).

Definition wire_limits (resolver : ClientIp.Resolver) (redis : bool) : Router.RateLimits :=
  if redis
  then Router.mkRateLimits (Some RateLimit.PolicyLogin) (Some RateLimit.PolicyRegister) (Some RateLimit.PolicyRefreshIP)
         (Some RateLimit.PolicyAPI) (Some resolver)
  else Router.mkRateLimits None None None None (Some resolver).

Definition connect (cfg : Config.Config) : result startup_error unit :=
  match NewPool w (Config.DatabaseURL cfg) with
  | Err text => Err (NoPool text)
  | Ok _ => match Ping w (Config.DatabaseURL cfg) with
            | Err text => Err (NoDatabase (redactURL (Config.DatabaseURL cfg)) text)
            | Ok _ => AssertUnprivilegedRole w (Config.DatabaseURL cfg)
            end
  end.

Definition load_config : result startup_error Config.Config :=
  match Config.Load (getenv w) with Err e => Err (BadConfig e) | Ok cfg => Ok cfg end.

Definition limiters : list RateLimit.Policy :=
  [RateLimit.PolicyLogin; RateLimit.PolicyRegister; RateLimit.PolicyRefreshIP; RateLimit.PolicyAPI].

(** [run] of cmd/api up to the moment it listens. *)
Definition api_run : result startup_error Api :=
  cfg ← load_config;
  _ ← connect cfg;
  let redis := redis_ParseURL w (Config.RedisURL cfg) in
  resolver ← (match ClientIp.New (Config.TrustedProxyCIDRs cfg) with Err e => Err (BadProxies e) | Ok r => Ok r end);
  _ ← (if redis then validateAll w limiters else Ok tt);
  tokens ← at_startup BadIssuer
             (Token.NewTokenIssuer (Config.JWTSecret cfg) Token.DefaultIssuer Token.DefaultAudience (Config.AccessTokenTTL cfg));
  codec ← at_startup BadCodec (Cursor.NewCodec (Cursor.DeriveKey (Config.JWTSecret cfg)));
  service ← at_startup BadService (Account.NewService true tokens true (rand w));
  Ok (mkApi (Config.Port cfg) (Config.LogLevel cfg) service (Config.RefreshReuseGrace cfg) codec Ssrf.New
        (Router.mkDeps true true true true (Some (wire_limits resolver redis))) redis
        (whole_seconds (Config.AccessTokenTTL cfg))).

(** ** The worker *)

Record WorkerProcess := mkWorkerProcess {
  wp_Guard : Ssrf.Guard;
  wp_BatchSize : Z;
  wp_Interval : Z;
  wp_MetricsPort : Z;
}.

(** [run] of cmd/worker up to the moment it polls; it opens the pool without a ping. *)
Definition worker_run : result startup_error WorkerProcess :=
  cfg ← load_config;
  _ ← (match NewPool w (Config.DatabaseURL cfg) with
       | Err text => Err (NoPool text)
       | Ok _ => AssertUnprivilegedRole w (Config.DatabaseURL cfg)
       end);
  Ok (mkWorkerProcess Ssrf.New (Config.WorkerBatchSize cfg) (Config.WorkerInterval cfg) (Config.WorkerMetricsPort cfg)).
End startup.

(** ** Lemmas *)

(** The fraction of a second is read between 0 and [1 - 2^-30]. *)
Lemma fraction_between r :
  0 <= r < 1000000000 ->
  let f := Config.fdiv (of_int r) (of_int 1000000000) in
  0 <= mant f /\ -161 <= expo f /\ 0 <= at_scale 200 f <= (2 ^ 30 - 1) * 2 ^ 170.
Proof.
  intros Hr f. unfold f, Config.fdiv, of_int. cbn [mant expo].
  set (q := r * 2 ^ 160 / 1000000000). set (s := if _ =? 0 then 0 else 1).
  assert (0 <= s <= 1) as Hs by (unfold s; case_match; lia).
  assert (0 <= q <= 999999999 * 2 ^ 160 / 1000000000) as [Hq1 Hq2].
  { split; [apply Z.div_pos; lia|]. apply Z.div_le_mono; lia. }
  assert (2 * (999999999 * 2 ^ 160 / 1000000000) + 1 <= (2 ^ 30 - 1) * 2 ^ 131) as Hc by (vm_compute; congruence).
  destruct (round53_between 200 (mkF64 (2 * q + s) (0 - 0 - 161)) 0 0 (2 ^ 30 - 1) (-30)) as (H1 & H2 & H3);
    cbn [mant expo]; try lia.
  - unfold le_at, at_scale. cbn [mant expo]. pose proof (pow2_pos (0 - 0 - 161 + 200) ltac:(lia)). nia.
  - unfold le_at, at_scale. cbn [mant expo]. change (-30 + 200) with (131 + 39). change (0 - 0 - 161 + 200) with 39.
    rewrite Z.pow_add_r, Z.mul_assoc by lia. apply Z.mul_le_mono_nonneg_r; [lia|]. lia.
  - split; [done|]. split; [apply (round53_expo (mkF64 _ (0 - 0 - 161)))|]. unfold le_at, at_scale in *. cbn [mant expo] in *. lia.
Qed.

(** A duration of less than 2^20 seconds is reported as its whole seconds. *)
Lemma whole_seconds_exact d : 0 <= d < 2 ^ 20 * Config.Second -> whole_seconds d = d / Config.Second.
Proof.
  intros Hd. unfold whole_seconds, Seconds, fadd. change Config.Second with 1000000000 in *.
  rewrite Z.quot_div_nonneg, Z.rem_mod_nonneg by lia.
  set (q := d / 1000000000). pose proof (Z.mod_pos_bound d 1000000000 ltac:(lia)) as Hr.
  assert (0 <= q < 2 ^ 20) as Hq by (split; [apply Z.div_pos; lia|apply Z.div_lt_upper_bound; lia]).
  destruct (fraction_between (d mod 1000000000) Hr) as (Hf1 & Hf2 & Hf3). set (f := Config.fdiv _ _) in *.
  set (e := Z.min (expo (of_int q)) (expo f)). assert (-161 <= e) as He by (unfold e; cbn; lia).
  pose proof (at_scale_align 200 (of_int q) f e ltac:(unfold e; lia) ltac:(unfold e; lia) ltac:(lia)) as Hsum.
  set (x := mkF64 _ e) in *. assert (at_scale 200 (of_int q) = q * 2 ^ 200) as Hsq by done.
  assert (0 <= mant x) as Hm.
  { unfold x, align. cbn [mant of_int expo]. pose proof (pow2_pos (0 - e)). pose proof (pow2_pos (expo f - e)).
    assert (0 <= 0 - e /\ 0 <= expo f - e) by (unfold e; cbn; lia). nia. }
  destruct (round53_between 200 x q 0 ((q + 1) * 2 ^ 30 - 1) (-30)) as (_ & H2 & H3); try done; try (cbn [expo mant x]; lia).
  - unfold le_at. rewrite Hsum, Hsq. unfold at_scale at 1. cbn [mant expo]. lia.
  - unfold le_at. rewrite Hsum, Hsq. unfold at_scale at 2. cbn [mant expo]. lia.
  - rewrite (Config.ftrunc_at 200) by (pose proof (round53_expo x); cbn [expo x] in *; lia).
    unfold le_at in *. unfold at_scale at 1 in H2. unfold at_scale at 2 in H3. cbn [mant expo] in H2, H3.
    symmetry. apply Z.div_unique with (at_scale 200 (round53 x) - q * 2 ^ 200); lia.
Qed.

Section role.
Context (w : World).

(** The tables' policies bind the process: its role is neither a superuser nor exempt
    from row-level security, or an operator has waived the check. *)
Definition confined (url : string) : Prop :=
  getenv w AllowPrivilegedRoleEnv = "1" \/
  exists r, QueryRole w url = Ok r /\ isSuper r = false /\ bypassRLS r = false.

Lemma AssertUnprivilegedRole_ok url : AssertUnprivilegedRole w url = Ok tt <-> confined url.
Proof.
  unfold AssertUnprivilegedRole, confined. case_decide as Hallow; [tauto|].
  destruct (QueryRole w url) as [[u [] []]|text]; cbn; split; try discriminate; intros [?|(r & [= <-] & ? & ?)] || intros _; cbn in *; try done.
  right. by eexists.
Qed.

Lemma validateAll_ok ps :
  validateAll w ps = Ok tt <-> Forall (fun p => forall text, LoadScript w (RateLimit.Name p) <> ServerError text) ps.
Proof.
  induction ps as [|p ps IH]; cbn; [by split|]. unfold validateScript. rewrite Forall_cons, <- IH.
  destruct (LoadScript w (RateLimit.Name p)); split; try done; naive_solver.
Qed.
End role.

(** The codec's key is long enough whatever the secret. *)
Lemma derived_codec secret : Cursor.NewCodec (Cursor.DeriveKey secret) = Ok (Cursor.mkCodec (Cursor.DeriveKey secret)).
Proof. unfold Cursor.NewCodec, Cursor.DeriveKey. by rewrite Encoding.hmac_length. Qed.

Lemma issuer_starts cfg :
  32 <= slen (Config.JWTSecret cfg) ->
  is_ok (Token.NewTokenIssuer (Config.JWTSecret cfg) Token.DefaultIssuer Token.DefaultAudience (Config.AccessTokenTTL cfg)) =
  (0 <? Config.AccessTokenTTL cfg).
Proof.
  intros Hlen. unfold Token.NewTokenIssuer. destruct (Z.ltb_spec (slen (Config.JWTSecret cfg)) 32); [lia|].
  destruct (Z.leb_spec (Config.AccessTokenTTL cfg) 0); cbn; destruct (Z.ltb_spec 0 (Config.AccessTokenTTL cfg)); lia || done.
Qed.

Lemma connect_ok w cfg :
  connect w cfg = Ok tt <->
  NewPool w (Config.DatabaseURL cfg) = Ok tt /\ Ping w (Config.DatabaseURL cfg) = Ok tt /\ confined w (Config.DatabaseURL cfg).
Proof.
  unfold connect. rewrite <- AssertUnprivilegedRole_ok.
  destruct (NewPool w _) as [[]|]; [|naive_solver]. destruct (Ping w _) as [[]|]; naive_solver.
Qed.

Lemma load_config_ok w cfg : load_config w = Ok cfg <-> Config.Load (getenv w) = Ok cfg.
Proof. unfold load_config. destruct (Config.Load (getenv w)); naive_solver. Qed.

(** What [Config.Load] establishes, for the proofs below. *)
Lemma load_config_facts w cfg :
  load_config w = Ok cfg -> Config.Config_ok cfg /\ Config.loaded (getenv w) cfg.
Proof.
  intros Hl%load_config_ok. pose proof (Config.Load_outcome (getenv w)) as Ho. by rewrite Hl in Ho.
Qed.

Section theorems.
Context `{Password.Argon2}.

(** The fields of a started API, from the configuration and the parsed proxies. *)
Lemma api_run_ok w a :
  api_run w = Ok a <->
  exists cfg resolver,
    Config.Load (getenv w) = Ok cfg /\ connect w cfg = Ok tt /\
    ClientIp.New (Config.TrustedProxyCIDRs cfg) = Ok resolver /\
    (redis_ParseURL w (Config.RedisURL cfg) = true -> validateAll w limiters = Ok tt) /\
    0 < Config.AccessTokenTTL cfg /\
    a = mkApi (Config.Port cfg) (Config.LogLevel cfg)
          (Account.mkService
             (Token.mkIssuer (Config.JWTSecret cfg) Token.DefaultIssuer Token.DefaultAudience (Config.AccessTokenTTL cfg) Token.DefaultLeeway)
             true (Password.HashPassword (rand w) "no account has this password; this digest exists only to burn CPU"))
          (Config.RefreshReuseGrace cfg) (Cursor.mkCodec (Cursor.DeriveKey (Config.JWTSecret cfg))) Ssrf.New
          (Router.mkDeps true true true true (Some (wire_limits resolver (redis_ParseURL w (Config.RedisURL cfg)))))
          (redis_ParseURL w (Config.RedisURL cfg)) (whole_seconds (Config.AccessTokenTTL cfg)).
Proof.
  unfold api_run. split.
  - intros Hrun. apply bind_Ok in Hrun as (cfg & Hload & Hrun).
    pose proof (load_config_facts _ _ Hload) as [(_ & _ & Hlen & _) _]. apply load_config_ok in Hload.
    apply bind_Ok in Hrun as ([] & Hc & Hrun). apply bind_Ok in Hrun as (resolver & Hr & Hrun).
    apply bind_Ok in Hrun as ([] & Hv & Hrun). apply bind_Ok in Hrun as (tokens & Ht & Hrun).
    apply bind_Ok in Hrun as (codec & Hk & Hrun). apply bind_Ok in Hrun as (service & Hs & [= <-]).
    rewrite derived_codec in Hk. injection Hk as <-. injection Hs as <-.
    unfold Token.NewTokenIssuer in Ht. rewrite (proj2 (Z.ltb_ge _ _) Hlen) in Ht.
    destruct (Z.leb_spec (Config.AccessTokenTTL cfg) 0); [done|]. injection Ht as <-.
    exists cfg, resolver. destruct (ClientIp.New _); [|done]. injection Hr as ->.
    split; [done|]. split; [done|]. split; [done|]. split; [intros Hredis; by rewrite Hredis in Hv|]. by split.
  - intros (cfg & resolver & Hload & Hc & Hr & Hv & Httl & ->). apply load_config_ok in Hload.
    pose proof (load_config_facts _ _ Hload) as [(_ & _ & Hlen & _) _].
    assert ((if redis_ParseURL w (Config.RedisURL cfg) then validateAll w limiters else Ok tt) = Ok tt) as Hv'
      by (destruct (redis_ParseURL w _); auto).
    rewrite Hload. unfold mbind at 1, result_bind at 1. rewrite Hc, Hr. unfold mbind at 1 2, result_bind at 1 2.
    rewrite Hv'. unfold Token.NewTokenIssuer. rewrite (proj2 (Z.ltb_ge _ _) Hlen), (proj2 (Z.leb_gt _ _) Httl).
    cbn [bool_decide orb mbind result_bind at_startup]. by rewrite derived_codec.
Qed.

Lemma worker_run_ok w p :
  worker_run w = Ok p <->
  exists cfg, Config.Load (getenv w) = Ok cfg /\ NewPool w (Config.DatabaseURL cfg) = Ok tt /\
    confined w (Config.DatabaseURL cfg) /\
    p = mkWorkerProcess Ssrf.New (Config.WorkerBatchSize cfg) (Config.WorkerInterval cfg) (Config.WorkerMetricsPort cfg).
Proof.
  unfold worker_run. split.
  - intros Hrun. apply bind_Ok in Hrun as (cfg & Hload%load_config_ok & Hrun).
    apply bind_Ok in Hrun as ([] & Hp & [= <-]). exists cfg.
    destruct (NewPool w _) as [[]|]; [|done]. apply AssertUnprivilegedRole_ok in Hp. done.
  - intros (cfg & Hload%load_config_ok & Hp & Hc & ->). rewrite Hload. cbn. rewrite Hp.
    apply AssertUnprivilegedRole_ok in Hc. by rewrite Hc.
Qed.
End theorems.

Section main_theorems.
Context `{Password.Argon2}.

(** When the API starts: exactly when its configuration loads, the database answers under a
    role its policies bind, every proxy range parses, the access tokens have a life at all,
    and a redis that answers has not refused the limiter's script. A redis that cannot be
    reached, or whose address makes no sense, never keeps the service down. *)
Lemma api_starts_exactly_when w :
  (exists a, api_run w = Ok a) <->
  exists cfg resolver,
    Config.Load (getenv w) = Ok cfg /\ NewPool w (Config.DatabaseURL cfg) = Ok tt /\
    Ping w (Config.DatabaseURL cfg) = Ok tt /\ confined w (Config.DatabaseURL cfg) /\
    ClientIp.New (Config.TrustedProxyCIDRs cfg) = Ok resolver /\ 0 < Config.AccessTokenTTL cfg /\
    (redis_ParseURL w (Config.RedisURL cfg) = true ->
     Forall (fun p => forall text, LoadScript w (RateLimit.Name p) <> ServerError text) limiters).
Proof.
  setoid_rewrite api_run_ok. setoid_rewrite connect_ok. setoid_rewrite validateAll_ok. split.
  - intros (a & cfg & resolver & ? & (? & ? & ?) & ? & ? & ? & _). exists cfg, resolver. auto 10.
  - intros (cfg & resolver & ? & ? & ? & ? & ? & ? & ?). eexists _, cfg, resolver. auto 10.
Qed.

(** C29: What a process that started can rely on. The database role is bound by the tables'
    policies unless an operator waived the check; tokens are signed with a secret of at least
    32 bytes, in production one the operator set, live at most an hour and are reported with that
    life in whole seconds; cursors are signed
    with a key derived from it; webhook targets are guarded without the loopback allowance, in
    the API and in the worker; the limits on tenants' requests are off only when the address of
    redis could not be parsed. *)
Theorem started_processes_confined w :
  (forall a, api_run w = Ok a ->
     confined w (getenv w "DATABASE_URL") /\
     let issuer := Account.tokens (a_Service a) in
     32 <= slen (Token.secret issuer) /\ 0 < Token.ttl issuer <= Config.Hour /\
     a_AccessTokenTTL a = Token.ttl issuer / Config.Second /\
     (getenv w "APP_ENV" = "prod" -> getenv w "JWT_SECRET" = Token.secret issuer) /\
     Cursor.key (a_Codec a) = Cursor.DeriveKey (Token.secret issuer) /\ Ssrf.allowLoopback (a_Guard a) = false /\
     Router.API (Router.limits (a_Deps a)) =
       (if redis_ParseURL w (Config.envOr (getenv w) "REDIS_URL" "redis://localhost:6379/0")
        then Some RateLimit.PolicyAPI else None)) /\
  (forall p, worker_run w = Ok p ->
     confined w (getenv w "DATABASE_URL") /\ Ssrf.allowLoopback (wp_Guard p) = false /\
     1 <= wp_BatchSize p <= 1000 /\ 0 < wp_Interval p <= MaxInt64).
Proof.
  split.
  - intros a (cfg & resolver & Hload & (_ & _ & Hc)%connect_ok & _ & _ & Httl & ->)%api_run_ok.
    pose proof (Config.Load_outcome (getenv w)) as Ho. rewrite Hload in Ho.
    destruct Ho as [(_ & _ & ? & ? & _) (_ & _ & Hdb & _ & _ & Hsecret & Hrest)]. rewrite Hdb in Hc.
    cbn. split; [done|]. split; [done|]. split; [lia|].
    split; [apply whole_seconds_exact; unfold Config.Hour, Config.Minute, Config.Second in *; lia|].
    split; [|split; [done|split; [done|]]].
    + intros Hprod. unfold Config.said in Hsecret. destruct Hrest as (_ & _ & _ & _ & _ & _ & _ & _ & Hp).
      rewrite decide_False in Hsecret by auto. congruence.
    + rewrite (Config.Load_redis _ _ Hload). unfold wire_limits. by destruct (redis_ParseURL w _).
  - intros p (cfg & Hload & _ & Hc & ->)%worker_run_ok.
    pose proof (Config.Load_outcome (getenv w)) as Ho. rewrite Hload in Ho.
    destruct Ho as [(_ & _ & _ & _ & _ & _ & ? & ? & _) (_ & _ & Hdb & _)]. rewrite Hdb in Hc. cbn. repeat split; done || lia.
Qed.

(** REFRESH_TOKEN_TTL is validated and then forgotten: two environments that differ in it
    alone, and both load, start the same service. *)
Lemma refresh_ttl_ignored w w' cfg cfg' :
  (forall key, key <> "REFRESH_TOKEN_TTL" -> getenv w' key = getenv w key) ->
  w' = mkWorld (getenv w') (NewPool w) (Ping w) (QueryRole w) (redis_ParseURL w) (LoadScript w) (rand w) ->
  Config.Load (getenv w) = Ok cfg -> Config.Load (getenv w') = Ok cfg' -> api_run w' = api_run w.
Proof.
  intros Henv Hw Hl Hl'.
  assert (exists refresh, cfg' = Config.with_refresh refresh cfg) as [refresh ->].
  { eapply Config.Load_agree; eauto. }
  assert (load_config w = Ok cfg) as Hc by by apply load_config_ok.
  assert (load_config w' = Ok (Config.with_refresh refresh cfg)) as Hc' by by apply load_config_ok.
  unfold api_run. rewrite Hc, Hc'. unfold mbind at 1, result_bind at 1. unfold mbind at 6, result_bind at 6.
  assert (connect w' (Config.with_refresh refresh cfg) = connect w cfg) as Hconn.
  { unfold connect, AssertUnprivilegedRole. rewrite Henv by done. rewrite Hw. by destruct cfg. }
  assert (forall l, validateAll w' l = validateAll w l) as Hval.
  { intros l. induction l as [|p l IH]; [done|]. cbn [validateAll]. rewrite IH. unfold validateScript. by rewrite Hw. }
  rewrite Hconn, Hval, Hw. by destruct cfg.
Qed.
End main_theorems.

(** ** What the redaction of a connection string hides *)

(** A separator is found at its first byte's first occurrence. *)
Lemma cut_str_app c sep a b :
  has_byte c a = false -> cut_str (String c sep) (a +:+ String c sep +:+ b) = Some (a, b).
Proof.
  induction a as [|x a IH]; intros Ha.
  - change ("" +:+ String c sep +:+ b) with (String c sep +:+ b).
    destruct (String c sep +:+ b) as [|y l] eqn:E; [done|]. cbn [cut_str]. by rewrite <- E, strip_prefix_app.
  - cbn in Ha. case_decide as Hx; [done|]. specialize (IH Ha).
    change (String x a +:+ ?r) with (String x (a +:+ r)). cbn [cut_str strip_prefix].
    rewrite decide_False by congruence. by rewrite IH.
Qed.

(** With credentials that hold no [@] the printed address does not depend on them. *)
Lemma redactURL_hides scheme userinfo rest :
  has_byte ":" scheme = false -> has_byte "@" scheme = false -> has_byte "@" userinfo = false ->
  redactURL (scheme +:+ "://" +:+ userinfo +:+ "@" +:+ rest) = scheme +:+ "://[redacted]@" +:+ rest.
Proof.
  intros Hcolon Hs Hu. unfold redactURL. rewrite (cut_str_app ":" "//") by done.
  assert (scheme +:+ "://" +:+ userinfo +:+ "@" +:+ rest = (scheme +:+ "://" +:+ userinfo) +:+ "@" +:+ rest) as ->
    by by rewrite <- !str_app_assoc.
  rewrite cut_byte_app by (rewrite !has_byte_app, Hs, Hu; reflexivity).
  rewrite !slen_app. change (slen "://") with 3. pose proof (slen_nonneg userinfo).
  destruct (Z.ltb_spec (slen scheme + (3 + slen userinfo)) (slen scheme + 3)); [lia|].
  by rewrite <- !str_app_assoc.
Qed.

Module StartupDemo.
#[local] Existing Instance Password.PasswordDemo.argon2.

Definition world (env : list (string * string)) (role : RoleRow) (redis : bool) (script : ScriptLoad) : World :=
  mkWorld (Config.ConfigDemo.env_of env) (fun _ => Ok tt) (fun _ => Ok tt) (fun _ => Ok role) (fun _ => redis)
    (fun _ => script) (fun _ => 7).
Definition production : list (string * string) :=
  [("APP_ENV", "prod"); ("DATABASE_URL", "postgres://app_rw:pw@db/tenants"); ("JWT_SECRET", "0123456789abcdef0123456789abcdef")].
Definition app_rw : RoleRow := mkRole "app_rw" false false.
Definition owner : RoleRow := mkRole "owner" true false.

Definition verdict {A} (r : result startup_error A) : option startup_error := match r with Ok _ => None | Err e => Some e end.

(** The checks, and what does not keep the service down. *)
Example starts_and_refusals :
  verdict (api_run (world production app_rw true ScriptLoaded)) = None /\
  verdict (api_run (world production app_rw true (Unreachable "dial tcp: refused"))) = None /\
  verdict (api_run (world production app_rw false ScriptLoaded)) = None /\
  verdict (api_run (world production app_rw true (ServerError "ERR compiling script"))) =
    Some (BadScript "login" "ERR compiling script") /\
  verdict (api_run (world production owner true ScriptLoaded)) = Some (SuperuserRole "owner") /\
  verdict (worker_run (world production owner true ScriptLoaded)) = Some (SuperuserRole "owner") /\
  verdict (api_run (world ((AllowPrivilegedRoleEnv, "1") :: production) owner true ScriptLoaded)) = None /\
  verdict (api_run (world (("TRUSTED_PROXY_CIDRS", "10.0.0.0/33") :: production) app_rw true ScriptLoaded)) =
    Some (BadProxies "invalid trusted proxy CIDR: 10.0.0.0/33").
Proof. repeat split; vm_compute; reflexivity. Qed.

(** A life of zero passes [Config.Load] and is refused by the issuer. *)
Example zero_ttl :
  verdict (api_run (world (("ACCESS_TOKEN_TTL", "0") :: production) app_rw true ScriptLoaded)) =
    Some (BadIssuer (Plain "authn: access token TTL must be positive")).
Proof. vm_compute. reflexivity. Qed.

Example reported_lifetimes :
  whole_seconds (10 * Config.Minute) = 600 /\ whole_seconds (90 * Config.Second + 999999999) = 90 /\
  whole_seconds 1 = 0 /\ whole_seconds (Config.Hour - 1) = 3599.
Proof. repeat split; vm_compute; reflexivity. Qed.

(** A password that holds an [@], and every other form of a connection string, is printed. *)
Lemma redaction_leaks :
  redactURL "postgres://app_rw:hunter@2@db/tenants" = "postgres://[redacted]@2@db/tenants" /\
  redactURL "host=db user=app_rw password=hunter2" = "host=db user=app_rw password=hunter2" /\
  redactURL "postgres://db/tenants?user=app_rw&password=hunter2" = "postgres://db/tenants?user=app_rw&password=hunter2".
Proof. repeat split; vm_compute; reflexivity. Qed.

(** A session life that the operator sets is accepted and changes nothing. *)
Lemma refresh_ttl_has_no_effect :
  is_ok (Config.Load (getenv (world (("REFRESH_TOKEN_TTL", "1h") :: production) app_rw true ScriptLoaded))) = true /\
  api_run (world (("REFRESH_TOKEN_TTL", "1h") :: production) app_rw true ScriptLoaded) =
    api_run (world production app_rw true ScriptLoaded).
Proof. split; vm_compute; reflexivity. Qed.

Lemma started_processes_confined_witness :
  is_ok (api_run (world production app_rw true ScriptLoaded)) = true /\
  is_ok (worker_run (world production app_rw true ScriptLoaded)) = true /\
  confined (world production app_rw true ScriptLoaded) "postgres://app_rw:pw@db/tenants".
Proof.
  split; [vm_compute; reflexivity|]. split; [vm_compute; reflexivity|].
  pose proof (proj2 (started_processes_confined (world production app_rw true ScriptLoaded))) as Hw.
  destruct (worker_run (world production app_rw true ScriptLoaded)) as [p|e] eqn:E; [|exfalso; vm_compute in E; discriminate].
  exact (proj1 (Hw p eq_refl)).
Defined.
End StartupDemo.
