(* ===== verification/Trace.v ===== *)
(** * Request ids and trace contexts

    [internal/platform/reqid/reqid.go] and [internal/httpx/trace.go]: the W3C trace context
    of a request, from its header to the value the outbox stores. A context is modelled by
    what it holds under the package's two keys. *)

From S2P Require Import Prelude Encoding.

(** ** The format *)

Definition isLowerHex (s : string) : bool := str_forall is_hex_lower_b s.

(** [strings.Trim(s, "0") == ""] *)
Definition all_zero (s : string) : bool := bool_decide (trim_both ["0"] s = "").

Definition ValidTraceparent (tp : string) : bool :=
  if bool_decide (tp = "") || (slen tp <? 55) then false
  else match split_on "-" tp with
       | version :: traceID :: spanID :: flags :: _ =>
           if negb (slen version =? 2) || negb (isLowerHex version) then false
           else if bool_decide (version = "ff") then false
           else if negb (slen traceID =? 32) || negb (isLowerHex traceID) then false
           else if negb (slen spanID =? 16) || negb (isLowerHex spanID) then false
           else if negb (slen flags =? 2) || negb (isLowerHex flags) then false
           else if all_zero traceID || all_zero spanID then false
           else true
       | _ => false
       end.

(** ** The context *)

Record Ctx := mkCtx { requestID : string; traceparent : option string }.

Definition From_ (ctx : Ctx) : string := requestID ctx.

Definition WithTraceparent (ctx : Ctx) (tp : string) : Ctx :=
  if negb (ValidTraceparent tp) then ctx else mkCtx (requestID ctx) (Some tp).

Definition TraceparentFrom (ctx : Ctx) : string := default "" (traceparent ctx).

(** The middleware, given the request's first [traceparent] header ([""] when it has none). *)
Definition traceContext (header : string) (ctx : Ctx) : Ctx :=
  if decide (header <> "") then WithTraceparent ctx header else ctx.

(** The response header of [requestIDResponseHeader]. *)
Definition requestIDResponseHeader (ctx : Ctx) : option (string * string) :=
  if decide (requestID ctx = "") then None else Some ("X-Request-Id", requestID ctx).

(** The route label of [instrument]; [pattern] is chi's, [""] when no route matched. *)
Definition route_label (pattern : string) : string := if decide (pattern = "") then "unmatched" else pattern.

(** ** What the validation establishes *)

Definition zeros (s : string) : bool := str_forall (fun b => b =? 48) s.

(** The shape documented for version 00, and what may follow it. *)
Definition well_formed (tp : string) : Prop :=
  exists version traceID spanID flags tail,
    tp = version +:+ "-" +:+ traceID +:+ "-" +:+ spanID +:+ "-" +:+ flags +:+ tail /\
    slen version = 2 /\ slen traceID = 32 /\ slen spanID = 16 /\ slen flags = 2 /\
    isLowerHex version = true /\ isLowerHex traceID = true /\ isLowerHex spanID = true /\ isLowerHex flags = true /\
    version <> "ff" /\ zeros traceID = false /\ zeros spanID = false /\
    (tail = "" \/ exists rest, tail = "-" +:+ rest).

(** ** Lemmas *)

Lemma trim_left_zero c s : trim_left ["0"] (String c s) = if decide (c = "0"%char) then trim_left ["0"] s else String c s.
Proof.
  unfold trim_left. cbn [String.length trim_left_fuel first_rest strip_prefix].
  destruct (decide ("0"%char = c)) as [<-|Hne]; [by rewrite decide_True|]. by rewrite decide_False by congruence.
Qed.

Lemma trim_left_zeros s : trim_left ["0"] s = "" <-> zeros s = true.
Proof.
  induction s as [|c s IH]; [done|]. rewrite trim_left_zero. unfold zeros in *. cbn [str_forall].
  destruct (decide (c = "0"%char)) as [->|Hne]; [by rewrite IH|]. split; [done|].
  rewrite andb_true_iff. intros [Hc%Z.eqb_eq _]. destruct Hne.
  rewrite <- (byte_to_of c), Hc. reflexivity.
Qed.

Lemma all_zero_spec s : all_zero s = zeros s.
Proof.
  unfold all_zero, trim_both, trim_right. change (str_rev <$> ["0"]) with ["0"].
  destruct (zeros s) eqn:Hz.
  - apply trim_left_zeros in Hz. rewrite Hz. apply bool_decide_eq_true. reflexivity.
  - apply bool_decide_eq_false. intros Hr. apply not_true_iff_false in Hz. apply Hz. clear Hz.
    assert (zeros (trim_left ["0"] s) = true) as Hl.
    { rewrite <- (str_rev_rev (trim_left ["0"] s)). unfold zeros. rewrite str_forall_rev. apply trim_left_zeros.
      rewrite <- (str_rev_rev (trim_left _ (str_rev _))), Hr. reflexivity. }
    induction s as [|c s IH]; [done|]. rewrite trim_left_zero in *.
    destruct (decide (c = "0"%char)) as [->|]; [|done]. unfold zeros in *. cbn [str_forall]. apply andb_true_iff. split; [done|].
    by apply IH.
Qed.

(** Splitting at a byte, first piece by first piece. *)
Lemma split_on_cons c s a l :
  split_on c s = a :: l ->
  has_byte c a = false /\
  ((l = [] /\ s = a) \/ exists r, s = a +:+ String c r /\ split_on c r = l).
Proof.
  revert a. induction s as [|x s IH]; intros a; cbn [split_on]; [intros [= <- <-]; auto|].
  destruct (decide (x = c)) as [->|Hne].
  - intros [= <- <-]. split; [done|]. right. by exists s.
  - destruct (split_on c s) as [|b l'] eqn:E; [by destruct (split_on_nonempty c s)|]. intros [= <- <-].
    destruct (IH b eq_refl) as [Hb Hrest]. split; [cbn; by rewrite decide_False|].
    destruct Hrest as [[-> ->]|(r & -> & Hr)]; [by left|]. right. by exists r.
Qed.

Lemma hex_no_dash s : isLowerHex s = true -> has_byte "-" s = false.
Proof.
  unfold isLowerHex. induction s as [|c s IH]; [done|]. cbn. rewrite andb_true_iff. intros [Hc Hs].
  destruct (decide (c = "-"%char)) as [->|]; [done|auto].
Qed.

(** Four pieces, and the rest if any. *)
Lemma split_four s v t p f l :
  split_on "-" s = v :: t :: p :: f :: l ->
  exists tail, s = v +:+ "-" +:+ t +:+ "-" +:+ p +:+ "-" +:+ f +:+ tail /\ (tail = "" \/ exists rest, tail = "-" +:+ rest).
Proof.
  intros Hs. apply split_on_cons in Hs as [_ [[? _]|(s1 & -> & Hs)]]; [done|].
  apply split_on_cons in Hs as [_ [[? _]|(s2 & -> & Hs)]]; [done|].
  apply split_on_cons in Hs as [_ [[? _]|(s3 & -> & Hs)]]; [done|].
  apply split_on_cons in Hs as [_ [[_ ->]|(s4 & -> & _)]].
  - exists "". rewrite str_app_nil_r. auto.
  - exists ("-" +:+ s4). eauto.
Qed.

Lemma split_well_formed v t p f tail :
  has_byte "-" v = false -> has_byte "-" t = false -> has_byte "-" p = false -> has_byte "-" f = false ->
  (tail = "" \/ exists rest, tail = "-" +:+ rest) ->
  exists l, split_on "-" (v +:+ "-" +:+ t +:+ "-" +:+ p +:+ "-" +:+ f +:+ tail) = v :: t :: p :: f :: l.
Proof.
  intros Hv Ht Hp Hf Htail. rewrite !split_on_app by done.
  destruct Htail as [->|[rest ->]].
  - rewrite str_app_nil_r, split_on_none by done. by eexists.
  - rewrite split_on_app by done. by eexists.
Qed.

(** ** Theorems *)

(** What is stored and sent on as a trace context is exactly the documented format: two,
    thirty-two, sixteen and two lower-case hexadecimal digits between dashes, not the
    reserved version, neither identifier all zeros, and then nothing or a further dash. *)
Lemma ValidTraceparent_spec tp : ValidTraceparent tp = true <-> well_formed tp.
Proof.
  unfold ValidTraceparent, well_formed. split.
  - destruct (_ || _); [done|]. destruct (split_on "-" tp) as [|v [|t [|p [|f l]]]] eqn:E; try done.
    apply split_four in E as (tail & -> & Htail). rewrite !all_zero_spec.
    intros Hv. repeat case_match; try done. exists v, t, p, f, tail. to_prop.
    repeat match goal with H : _ || _ = false |- _ => apply orb_false_iff in H as [? ?] end. to_prop. done.
  - intros (v & t & p & f & tail & -> & Hv & Ht & Hp & Hf & Xv & Xt & Xp & Xf & Hff & Zt & Zp & Htail).
    destruct (split_well_formed v t p f tail) as [l ->]; [by apply hex_no_dash..|done|].
    rewrite !all_zero_spec, Hv, Ht, Hp, Hf, Xv, Xt, Xp, Xf, Zt, Zp, (bool_decide_eq_false_2 (v = "ff")) by done.
    rewrite !slen_app, Hv, Ht, Hp, Hf. change (slen "-") with 1. pose proof (slen_nonneg tail).
    destruct v; [done|]. cbn. destruct (Z.ltb_spec (2 + (1 + (32 + (1 + (16 + (1 + (2 + slen tail))))))) 55); [lia|done].
Qed.

(** From the header to the store: the context carries the caller's value unchanged when it is
    well formed, and what was there before when it is not; nothing is repaired. *)
Lemma traceContext_spec header ctx :
  traceContext header ctx = (if ValidTraceparent header then mkCtx (requestID ctx) (Some header) else ctx).
Proof.
  unfold traceContext, WithTraceparent. case_decide as Hh; [by destruct (ValidTraceparent header)|].
  by assert (header = "") as -> by (destruct (decide (header = "")); naive_solver).
Qed.

Lemma traced_value header id :
  let tp := TraceparentFrom (traceContext header (mkCtx id None)) in tp = "" \/ (tp = header /\ well_formed header).
Proof.
  cbn. rewrite traceContext_spec. destruct (ValidTraceparent header) eqn:Hv; [right|by left].
  split; [done|]. by apply ValidTraceparent_spec.
Qed.

Module TraceDemo.
Definition tp : string := "00-4bf92f3577b34da6a3ce929d0e0e4736-00f067aa0ba902b7-01".

Example accepted : ValidTraceparent tp = true.
Proof. vm_compute. reflexivity. Qed.

Example refused :
  ValidTraceparent "" = false /\
  ValidTraceparent "ff-4bf92f3577b34da6a3ce929d0e0e4736-00f067aa0ba902b7-01" = false /\
  ValidTraceparent "00-4BF92F3577B34DA6A3CE929D0E0E4736-00f067aa0ba902b7-01" = false /\
  ValidTraceparent "00-00000000000000000000000000000000-00f067aa0ba902b7-01" = false /\
  ValidTraceparent "00-4bf92f3577b34da6a3ce929d0e0e4736-0000000000000000-01" = false /\
  ValidTraceparent (tp +:+ "0") = false.
Proof. repeat split; vm_compute; reflexivity. Qed.

(** The section after the flags is accepted for version 00 too, and it is not looked at: any
    bytes of any length, a byte that is no UTF-8 included. *)
Lemma tail_unchecked :
  ValidTraceparent (tp +:+ "-extra") = true /\ ValidTraceparent (tp +:+ "-" +:+ String (chr 255) "") = true.
Proof. split; vm_compute; reflexivity. Qed.
End TraceDemo.
