(* ===== verification/Worker.v ===== *)
(** * The delivery worker

    [internal/webhook/worker.go]: one delivery attempt from the stored row to the request on
    the wire, the batch, and the polling loop with the failures and the cancellation it
    lives through. The exchange with a receiver, the resolver's answers and the clock are
    inputs, one per attempt. *)

From S2P Require Import Prelude Apperr Encoding Ids Db Float64 Webhook Outbox.
From S2P Require Import Ssrf.

(** ** The request *)

Record Request := mkRequest {
  req_Method : string;
  req_URL : string;
  req_Header : list (string * string);
  req_Body : string;
}.

Definition SignatureHeader : string := "Webhook-Signature".
Definition EventHeader : string := "Webhook-Event".
Definition IDHeader : string := "Webhook-Id".
Definition AttemptHeader : string := "Webhook-Attempt".

(** ** The exchange *)

(** A response's [Location], resolved against the request. *)
Inductive Location := NoLocation | BadLocation (text : string) | RedirectTo (url : string).
Inductive Transport := NoResponse (text : string) | Response (status : Z) (location : Location).

(** The statuses [http.Client] treats as a redirect. *)
Definition is_redirect (status : Z) : bool := bool_decide (status ∈ [301; 302; 303; 307; 308]).

(** What one attempt meets. [ch_dials] is the number of connections the transport has opened
    before. [ch_interrupted]: the settling transaction cannot run, because the context is done
    or the database is away. *)
Record Chance := mkChance {
  ch_lookup : string -> result string (list Addr);
  ch_redirect_lookup : string -> result string (list Addr);
  ch_signedAt : gotime;
  ch_dials : nat;
  ch_network : Addr * string -> Request -> Transport;
  ch_env : Env;
  ch_jitter : F64;
  ch_interrupted : bool;
}.

Section deliver.
Context `{Unicode} `{NetURL} `{AddrText} `{UUIDLib} (g : Guard) (u_Port : URL -> string).
(** The bytes postgres returns for a stored payload. *)
Context (payload_text : json -> string).

(** [Header.Set] writes names in their canonical form. *)
Definition traceparent_header (tp : option string) : list (string * string) :=
  match tp with Some tp => if decide (tp = "") then [] else [("Traceparent", tp)] | None => [] end.

Definition request_of (signedAt : gotime) (d : Due) : Request :=
  let body := payload_text (d_Payload d) in
  mkRequest "POST" (d_URL d)
    ([("Content-Type", "application/json"); (SignatureHeader, Sign (d_Secret d) signedAt body);
      (EventHeader, d_Event d); (IDHeader, uuid_String (d_EventID d)); (AttemptHeader, dec (d_Attempt d))]
     ++ traceparent_header (d_Traceparent d)) body.

(** [client.Do] with the guard's [CheckRedirect]: the status of the first response, whatever
    it redirects to, or an error. *)
Definition client_Do (c : Chance) (t : Transport) : go_result Z :=
  match t with
  | NoResponse text => Err (Plain text)
  | Response status location =>
      if negb (is_redirect status) then Ok status
      else match location with
           | NoLocation => Ok status
           | BadLocation text => Err (Plain text)
           | RedirectTo url =>
               match CheckRedirect g (ch_redirect_lookup c) u_Port 1 url with
               | Err e => Err (Wrapf ("Post: " +:+ error_text e) e)
               | Ok _ => Ok status
               end
           end
  end.

(** The connection and the request of an attempt; [None] when nothing is sent. *)
Definition outgoing (c : Chance) (d : Due) : option ((Addr * string) * Request) :=
  match Validate g (ch_lookup c) u_Port (d_URL d) with
  | Err _ => None
  | Ok target =>
      match dial target (ch_dials c) (d_URL d) with
      | Err _ => None
      | Ok conn => Some (conn, request_of (ch_signedAt c) d)
      end
  end.

Definition Deliver (c : Chance) (d : Due) : DeliveryResult :=
  match Validate g (ch_lookup c) u_Port (d_URL d) with
  | Err e => mkResult 0 (Some (Wrapf ("target refused: " +:+ error_text e) e))
  | Ok target =>
      match url_Parse (d_URL d) with
      | None => mkResult 0 (Some (Plain "build request"))
      | Some _ =>
          let answer := match dial target (ch_dials c) (d_URL d) with
                        | Err text => NoResponse text
                        | Ok conn => ch_network c conn (request_of (ch_signedAt c) d)
                        end in
          match client_Do c answer with
          | Err e => mkResult 0 (Some (if Is e SsrfErrBlocked then Wrapf ("redirect refused: " +:+ error_text e) e else e))
          | Ok status => mkResult status None
          end
      end
  end.

(** The log's prefix of a receiver's answer: bytes, then an ellipsis (U+2026). *)
Definition truncate (s : string) (n : Z) : string :=
  if slen s <=? n then s else substring 0 (Z.to_nat n) s +:+ of_bytes [226; 128; 166].

(** ** The worker *)

Record Worker := mkWorker { batchSize : Z; interval : Z }.

Definition NewWorker (batchSize interval : Z) : Worker :=
  mkWorker (if batchSize <=? 0 then 10 else batchSize) (if interval <=? 0 then Second else interval).

(** [errors.As] along the unwrap chain. *)
Fixpoint isLeaseLost (e : err) : bool :=
  match e with LeaseLostError _ => true | Wrapf _ e' => isLeaseLost e' | _ => false end.
Fixpoint isDeadLetter (e : err) : bool :=
  match e with DeadLetterError _ _ _ => true | Wrapf _ e' => isDeadLetter e' | _ => false end.

(** The label an attempt is counted under and whether it is logged as an error. *)
Definition verdict (res : DeliveryResult) (settled : result err unit) : string * bool :=
  match settled with
  | Ok _ => if Succeeded res then ("delivered", false) else ("retry", false)
  | Err e => if isLeaseLost e then ("lease_lost", false) else if isDeadLetter e then ("dead", true) else ("retry", true)
  end.

(** One attempt, as the log and the metrics report it. *)
Record Report := mkReport { rp_Due : Due; rp_Result : DeliveryResult; rp_Settled : result err unit }.

Definition attempt (c : Chance) (d : Due) (db : DB) : Report * DB :=
  let res := Deliver c d in
  if ch_interrupted c
  then (mkReport d res (Err (Plain "webhook: settle delivery: context canceled")), db)
  else let '(settled, db') := Settle (ch_env c) d res (ch_jitter c) db in (mkReport d res settled, db').

(** The loop over a batch; attempt [k] meets [cs k]. *)
Fixpoint attempts (k : nat) (cs : nat -> Chance) (due : list Due) (db : DB) : list Report * DB :=
  match due with
  | [] => ([], db)
  | d :: due' =>
      let '(r, db1) := attempt (cs k) d db in
      let '(rs, db2) := attempts (S k) cs due' db1 in
      (r :: rs, db2)
  end.

(** One round of the loop: whether the context is done at its head; the claim's environment
    ([None]: the claim fails); the attempts; and whether the context is done afterwards, at the
    error check or while the worker waits. *)
Record Round := mkRound {
  rd_done : bool;
  rd_claim : option (Env * (uuid -> bool));
  rd_chances : nat -> Chance;
  rd_done_after : bool;
}.

Definition poll (w : Worker) (rd : Round) (db : DB) : result err (list Report) * DB :=
  match rd_claim rd with
  | None => (Err (Plain "webhook: claim deliveries"), db)
  | Some (env, locked) =>
      match Claim env locked (batchSize w) db with
      | (Err e, db') => (Err e, db')
      | (Ok due, db') => let '(rs, db'') := attempts 0 (rd_chances rd) due db' in (Ok rs, db'')
      end
  end.

(** What a run leaves: whether [Run] has returned (its error is always nil), the attempts
    made, the depths recorded, and how often it waited for the ticker. *)
Record Ran := mkRan { returned : bool; log : list Report; depths : list (State -> Z); waits : nat }.

Definition ran (returned : bool) : Ran := mkRan returned [] [] 0.
Definition and_then (rs : list Report) (depth : list (State -> Z)) (waited : nat) (later : Ran) : Ran :=
  mkRan (returned later) (rs ++ log later) (depth ++ depths later) (waited + waits later).

(** [recordDepth]: the gauge is set when the depth can be read. *)
Definition recordDepth (db : DB) : list (State -> Z) :=
  match (Depth db).1 with Ok depth => [depth] | Err _ => [] end.

Fixpoint Run (w : Worker) (rounds : list Round) (db : DB) : Ran * DB :=
  match rounds with
  | [] => (ran false, db)
  | rd :: rest =>
      if rd_done rd then (ran true, db)
      else match poll w rd db with
           | (Err _, db') =>
               if rd_done_after rd then (ran true, db')
               else let '(later, db'') := Run w rest db' in (and_then [] [] 1 later, db'')
           | (Ok rs, db') =>
               let depth := recordDepth db' in
               match rs with
               | [] => if rd_done_after rd then (and_then [] depth 0 (ran true), db')
                       else let '(later, db'') := Run w rest db' in (and_then [] depth 1 later, db'')
               | _ => let '(later, db'') := Run w rest db' in (and_then rs depth 0 later, db'')
               end
           end
  end.
End deliver.
