(* ===== verification/WorkerProps.v ===== *)
(** * Properties of the delivery worker

    What an attempt sends, what a round that is not disturbed does to the outbox, and what happens when the worker is
    told to stop. Several workers on one outbox are in [Workers]. *)

From S2P Require Import Prelude Apperr Encoding Ids Db Float64 Webhook Outbox OutboxProps.
From S2P Require Import Ssrf Worker.

(** ** What goes over the wire *)

Section wire.
Context `{Unicode} `{NetURL} `{AddrText} `{UUIDLib} (u_Port : URL -> string) (payload_text : json -> string).

(** A header the request goes out with. *)
Definition carries (req : Request) (name value : string) : Prop := (name, value) ∈ req_Header req.

(** C22: What an attempt sends when the host of the stored URL carries no IPv6 zone, the resolver's answers carry none
    either, and the clock's seconds fit 64 bits: to a public address that was checked for this attempt, the stored
    payload and nothing else, with a signature that a receiver holding the endpoint's secret verifies for as long as
    its clock is within the tolerance of the sender's, the event, the event's id and the attempt's number, and the
    trace context of the request that caused the event exactly when one was stored. (A host with a zone gets past the
    guard: lemma zone_bypasses_guard.) *)
Theorem outgoing_request c d u conn req now :
  outgoing New u_Port payload_text c d = Some (conn, req) ->
  plain_lookup (ch_lookup c) -> url_Parse (d_URL d) = Some u -> has_byte "%"%char (u_Hostname u) = false ->
  in_int64 (ch_signedAt c / Second) -> ch_signedAt c / Second <= MaxInt64 - unixToInternal ->
  Z.abs (now - ch_signedAt c / Second * Second) <= SignatureTolerance ->
  public conn.1 = true /\ req_URL req = d_URL d /\ req_Body req = payload_text (d_Payload d) /\
  (exists signature, carries req SignatureHeader signature /\
     Verify (d_Secret d) signature (req_Body req) now SignatureTolerance = Ok tt) /\
  carries req EventHeader (d_Event d) /\ carries req IDHeader (uuid_String (d_EventID d)) /\
  carries req AttemptHeader (dec (d_Attempt d)) /\
  (forall tp, carries req "Traceparent" tp <-> d_Traceparent d = Some tp /\ tp <> "").
Proof.
  unfold outgoing, carries. destruct (Validate New _ u_Port _) as [t|] eqn:Hv; [|done]. intros Hout Hlook Hu Hpct Hts Hhi Hnow.
  destruct (dial_public _ _ _ _ _ (ch_dials c) (d_URL d) Hlook Hu Hpct Hv) as (a & Hd & _ & Hpub).
  rewrite Hd in Hout. injection Hout as <- <-. cbn [fst req_URL req_Body request_of]. split_and!; try done.
  - exists (Sign (d_Secret d) (ch_signedAt c) (payload_text (d_Payload d))). split.
    + cbn. set_solver.
    + by apply Verify_Sign.
  - cbn. set_solver.
  - cbn. set_solver.
  - cbn. set_solver.
  - intros tp. cbn. rewrite !elem_of_cons. unfold traceparent_header.
    destruct (d_Traceparent d) as [tp'|]; [case_decide|]; rewrite ?elem_of_nil, ?list_elem_of_singleton; naive_solver.
Qed.

(** An attempt succeeds only on a 2xx answer of the address it sent its request to. *)
Definition acknowledged (g : Guard) (c : Chance) (d : Due) : Prop :=
  exists conn status location,
    outgoing g u_Port payload_text c d = Some (conn, request_of payload_text (ch_signedAt c) d) /\
    ch_network c conn (request_of payload_text (ch_signedAt c) d) = Response status location /\ 200 <= status < 300.

Lemma Deliver_acknowledged g c d : Succeeded (Deliver g u_Port payload_text c d) = true -> acknowledged g c d.
Proof.
  unfold Deliver, acknowledged, outgoing. destruct (Validate g _ u_Port _) as [t|]; [|done].
  destruct (url_Parse _); [|done]. destruct (dial t _ _) as [conn|text]; [|done].
  destruct (ch_network c conn _) as [text|status location] eqn:Hnet; [done|].
  destruct (client_Do _ _ _ _) as [status'|e] eqn:Hdo;
    [|by unfold Succeeded; rewrite bool_decide_eq_false_2].
  assert (status' = status) as ->.
  { unfold client_Do in Hdo. case_in Hdo; congruence. }
  unfold Succeeded. cbn. intros Hs. exists conn, status, location. split; [done|]. split; [done|lia].
Qed.
End wire.

(** ** A batch that is not disturbed *)

Section batch.
Context `{Unicode} `{NetURL} `{AddrText} `{UUIDLib} `{GoJSON}.
Context (g : Guard) (u_Port : URL -> string) (payload_text : json -> string).

(** An attempt moves the outbox by its settle, if at all. *)
Lemma attempt_steps c d db : rtc step db (attempt g u_Port payload_text c d db).2.
Proof.
  unfold attempt. destruct (ch_interrupted c); [done|]. destruct (Settle _ _ _ _ _) as [out db1] eqn:Hs.
  apply rtc_once. by econstructor.
Qed.

(** The attempt's settle can run, before [deadline], and its receiver, if it answers, answers
    with one of the statuses the column admits. *)
Record undisturbed (deadline : gotime) (c : Chance) : Prop := {
  ud_runs : ch_interrupted c = false;
  ud_time : env_now (ch_env c) < deadline;
  ud_jitter : Z.abs (mant (ch_jitter c)) < 2 ^ 53;
  ud_status : forall conn req, match ch_network c conn req with Response s _ => 100 <= s <= 599 | NoResponse _ => True end;
}.

(** Where an attempt leaves the row [r]. *)
Definition outcome_of (c : Chance) (d : Due) (r r' : OutboxRow) : Prop :=
  o_Lease r' = None /\ frozen r' = frozen r /\ o_Attempts r' = o_Attempts r /\
  if Succeeded (Deliver g u_Port payload_text c d) then
    o_State r' = StateDelivered /\ o_DeliveredAt r' = Some (env_now (ch_env c))
  else if MaxAttempts <=? d_Attempt d then o_State r' = StateDead
  else o_State r' = StatePending /\
       env_time (ch_env c) + NominalBackoff (d_Attempt d) / 2 <= o_NextAt r'
         <= env_time (ch_env c) + NominalBackoff (d_Attempt d).

Lemma Deliver_status deadline c d :
  undisturbed deadline c -> res_Err (Deliver g u_Port payload_text c d) = None ->
  100 <= StatusCode (Deliver g u_Port payload_text c d) <= 599.
Proof.
  intros [_ _ _ Hst]. unfold Deliver. destruct (Validate g _ u_Port _) as [t|]; [|done].
  destruct (url_Parse _); [|done]. destruct (dial t _ _) as [conn|text]; [|done].
  specialize (Hst conn (request_of payload_text (ch_signedAt c) d)).
  destruct (ch_network c conn _) as [text|status location]; [done|].
  destruct (client_Do _ _ _ _) as [status'|e] eqn:Hdo; [|done]. intros _.
  assert (status' = status) as ->; [|done]. unfold client_Do in Hdo. case_in Hdo; congruence.
Qed.

(** What a claimed delivery needs for its settle to be accepted. *)
Record held (deadline : gotime) (d : Due) (r : OutboxRow) : Prop := {
  hd_state : o_State r = StateDelivering;
  hd_lease : o_Lease r = Some deadline;
  hd_attempt : o_Attempts r = d_Attempt d;
  hd_positive : 0 < d_Attempt d;
  hd_event : AuditLog.is_dotted (o_Event r) = true;
}.

Lemma attempt_outcome deadline c d db r :
  DB_wf db -> undisturbed deadline c -> outbox db !! d_ID d = Some r -> held deadline d r ->
  exists r', outcome_of c d r r' /\
    (attempt g u_Port payload_text c d db).2 = set_outbox (<[d_ID d := r']> (outbox db)) db.
Proof.
  intros Hwf Hud Hr [Hst Hl Ha Hpos Hdot]. pose proof (ud_runs _ _ Hud) as Hrun. pose proof (ud_time _ _ Hud) as Htime.
  assert (fence (env_now (ch_env c)) d r = true) as Hf.
  { unfold fence. rewrite Hst, Hl, Ha. rewrite bool_decide_eq_true_2 by done. lia. }
  destruct (Settle_outcomes (ch_env c) d (Deliver g u_Port payload_text c d) (ch_jitter c) db r) as
    (r' & Hdb & Hlease & Hfr & Hatt & Hout).
  - by eapply wf_row.
  - done.
  - by eapply wf_id.
  - done.
  - done.
  - done.
  - exact (ud_jitter _ _ Hud).
  - by eapply Deliver_status.
  - exists r'. split.
    + unfold outcome_of. destruct (Succeeded _); [tauto|]. destruct (_ <=? _); tauto.
    + unfold attempt. rewrite Hrun. rewrite <- Hdb. by destruct (Settle _ _ _ _ _).
Qed.

Lemma attempts_outcome deadline due k cs db :
  DB_wf db -> NoDup (d_ID <$> due) -> (forall k, undisturbed deadline (cs k)) ->
  (forall d, d ∈ due -> exists r, outbox db !! d_ID d = Some r /\ held deadline d r) ->
  rp_Due <$> (attempts g u_Port payload_text k cs due db).1 = due /\
  (forall i, i ∉ d_ID <$> due -> outbox (attempts g u_Port payload_text k cs due db).2 !! i = outbox db !! i) /\
  forall j d r, due !! j = Some d -> outbox db !! d_ID d = Some r ->
    exists r', outbox (attempts g u_Port payload_text k cs due db).2 !! d_ID d = Some r' /\ outcome_of (cs (k + j)%nat) d r r'.
Proof.
  intros Hwf Hnd Hud. revert k db Hwf Hnd. induction due as [|d due IH]; intros k db Hwf Hnd Hheld; [by split_and!|].
  rewrite fmap_cons, NoDup_cons in Hnd. destruct Hnd as [Hd Hnd].
  destruct (Hheld d) as (r & Hr & Hh); [by left|].
  destruct (attempt_outcome deadline (cs k) d db r Hwf (Hud k) Hr Hh) as (r' & Ho & Hdb).
  pose proof (attempt_steps (cs k) d db) as Hsteps.
  destruct (attempt g u_Port payload_text (cs k) d db) as [rep db1] eqn:Ha.
  assert (rp_Due rep = d) as Hrep.
  { unfold attempt in Ha. destruct (ch_interrupted _); [by injection Ha as <- _|].
    destruct (Settle _ _ _ _ _). by injection Ha as <- _. }
  cbn [snd] in Hdb. assert (forall i, i <> d_ID d -> outbox db1 !! i = outbox db !! i) as Hother.
  { intros i Hi. rewrite Hdb. cbn. by rewrite lookup_insert_ne. }
  assert (forall x, x ∈ due -> d_ID x <> d_ID d) as Hne.
  { intros x Hx Heq. apply Hd. rewrite <- Heq. by apply list_elem_of_fmap_2. }
  destruct (IH (S k) db1) as (Hlen & Hrest & Hout); [by eapply outbox_steps_wf|done| |].
  { intros x Hx. rewrite Hother by auto. apply Hheld. by right. }
  cbn [attempts]. rewrite Ha. destruct (attempts g u_Port payload_text (S k) cs due db1) as [rs db2]. cbn [fst snd] in *.
  split; [cbn; by rewrite Hrep, Hlen|]. split.
  - intros i Hi. rewrite fmap_cons, not_elem_of_cons in Hi. rewrite Hrest by tauto. apply Hother. tauto.
  - intros [|j] x rx Hx Hrx.
    + injection Hx as <-. exists r'. replace rx with r by congruence. rewrite Nat.add_0_r. split; [|done].
      rewrite Hrest by done. rewrite Hdb. cbn. by rewrite lookup_insert_eq.
    + replace (k + S j)%nat with (S k + j)%nat by lia. apply (Hout j x rx Hx).
      rewrite Hother; [done|]. apply Hne. by eapply list_elem_of_lookup_2.
Qed.

(** C10: A round of one worker that nothing disturbs does its work. Undisturbed means: no other session commits between
    its transactions, every attempt of the batch settles before the lease the claim took runs out, no settle is cut off,
    a receiver that answers does so with a status from 100 to 599, the jitter is at least 0 and below 1, and the events of the
    rows have the form the column checks. Then every row it claims was due, is attempted exactly once under the number
    the claim gave it, and is left delivered when its receiver acknowledged, dead when that was the last attempt, and
    otherwise pending again between half and all of the nominal backoff ahead; no lease is left behind and no other row
    is touched. (Without the conditions it fails: lemmas slow_batch_loses_leases, settle_bad_status_stuck and
    shutdown_abandons_delivery.) *)
Theorem poll_settles_batch w rd env locked db rs db' :
  rtc step empty_DB db -> (forall i r, outbox db !! i = Some r -> AuditLog.is_dotted (o_Event r) = true) ->
  rd_claim rd = Some (env, locked) -> (forall k, undisturbed (env_now env + LeaseDuration) (rd_chances rd k)) ->
  poll g u_Port payload_text w rd db = (Ok rs, db') ->
  (forall k rep, rs !! k = Some rep ->
     exists r r', outbox db !! d_ID (rp_Due rep) = Some r /\ is_due (env_now env) r = true /\
       d_Attempt (rp_Due rep) = o_Attempts r + 1 /\ outbox db' !! d_ID (rp_Due rep) = Some r' /\
       outcome_of (rd_chances rd k) (rp_Due rep) (claimed (env_now env) r) r') /\
  NoDup (d_ID ∘ rp_Due <$> rs) /\
  (forall i, i ∉ d_ID ∘ rp_Due <$> rs -> outbox db' !! i = outbox db !! i).
Proof.
  intros Hdb Hdot Hclaim Hud Hp. pose proof (outbox_steps_wf _ _ Hdb outbox_empty_wf) as Hwf.
  unfold poll in Hp. rewrite Hclaim in Hp.
  destruct (Claim_spec env locked (batchSize w) db Hwf) as (db1 & Hc & _ & _ & Hin & Hout).
  rewrite Hc in Hp. set (due := (claim_list env locked (batchSize w) db).*2) in *.
  assert (Hwf1 : DB_wf db1) by (eapply DB_step_wf; [by eapply Claim_step|done]).
  assert (d_ID <$> due = o_ID <$> (claim_list env locked (batchSize w) db).*1) as Hids.
  { unfold due. rewrite <- !list_fmap_compose. apply list_fmap_ext. intros k [r d] Hk%list_elem_of_lookup_2. cbn.
    by destruct (claim_list_spec _ _ _ _ _ _ Hwf Hk) as (r0 & e & _ & _ & -> & _ & ->). }
  assert (NoDup (d_ID <$> due)) as Hnd.
  { rewrite Hids. refine (sublist_NoDup _ _ _ (claim_list_ids_sublist _ _ _ _)). by apply due_rows_NoDup. }
  destruct (attempts_outcome (env_now env + LeaseDuration) due 0 (rd_chances rd) db1 Hwf1 Hnd Hud) as (Hlen & Hrest & Hres).
  { intros d Hd. destruct (Claim_Due _ _ _ _ _ _ d Hwf Hc Hd) as (r & e & Hr & Hdue & Hr1 & ->).
    exists (claimed (env_now env) r). split; [done|]. pose proof (rw_attempts _ (wf_row _ Hwf _ _ Hr)).
    split; cbn; [done|done|done|lia|by eapply Hdot]. }
  destruct (attempts _ _ _ 0 _ due db1) as [rs' db2] eqn:Ha. injection Hp as <- <-. cbn [fst snd] in *.
  assert (d_ID ∘ rp_Due <$> rs' = d_ID <$> due) as Hreports by (by rewrite list_fmap_compose, Hlen).
  split; [|split].
  - intros k rep Hk. assert (due !! k = Some (rp_Due rep)) as Hdk by (by rewrite <- Hlen, list_lookup_fmap, Hk).
    destruct (Claim_Due _ _ _ _ _ _ (rp_Due rep) Hwf Hc) as (r & e & Hr & Hdue & Hr1 & Hd); [by eapply list_elem_of_lookup_2|].
    destruct (Hres k _ _ Hdk Hr1) as (r' & Hr' & Ho). exists r, r'. split_and!; try done. by rewrite Hd.
  - by rewrite Hreports.
  - rewrite Hreports. intros i Hi. rewrite Hrest by done. apply Hout. by rewrite <- Hids.
Qed.
End batch.

(** ** A worker that is told to stop *)

Section shutdown.
Context `{Unicode} `{NetURL} `{AddrText} `{UUIDLib} `{GoJSON}.
Context (g : Guard) (u_Port : URL -> string) (payload_text : json -> string).

(** Attempts that are cut off record nothing, whatever their receivers did. *)
Lemma interrupted_attempts k cs due db :
  (forall j, ch_interrupted (cs j) = true) -> (attempts g u_Port payload_text k cs due db).2 = db.
Proof.
  intros Hi. revert k. induction due as [|d due IH]; intros k; [done|]. cbn [attempts].
  unfold attempt. rewrite Hi. specialize (IH (S k)). destruct (attempts _ _ _ (S k) cs due db). exact IH.
Qed.

(** [Run] ends at the first round at whose head the context is done, and it never sleeps
    while there is work: it waits once for each round that found nothing or failed. *)
Lemma Run_stops w rounds rest db rd :
  rd_done rd = true -> exists res db', Run g u_Port payload_text w (rounds ++ rd :: rest) db = (res, db') /\ returned res = true.
Proof.
  intros Hd. revert db. induction rounds as [|r rounds IH]; intros db; cbn [app Run].
  { rewrite Hd. by eexists _, _. }
  destruct (rd_done r); [by eexists _, _|]. destruct (poll _ _ _ w r db) as [[[|rep rs]|e] db1].
  all: destruct (IH db1) as (later & db2 & -> & Hret); try destruct (rd_done_after r); eexists _, _; split; done.
Qed.
End shutdown.

(** ** A worker at work *)

Module WorkerDemo.
#[local] Existing Instance DemoUnicode.
#[local] Existing Instance DemoUUID.lib.
#[local] Existing Instance OutboxDemo.demo_json.
#[local] Instance text : AddrText := {| addr_String _ := "address" |}.
#[local] Instance net : NetURL := {| url_Parse s :=
  if decide (s = "https://hooks.example.com/x") then Some (mkURL "https" "hooks.example.com" "" false) else None |}.
Definition receiver : Addr := mkAddr V4 0x5db8d822 "".
Definition lookup (host : string) : result string (list Addr) :=
  if decide (host = "hooks.example.com") then Ok [receiver] else Err "no such host".
Definition port (u : URL) : string := "".
Definition body (j : json) : string := "{}".

(** A receiver that answers 200, asked at second [s]. *)
Definition answers (status s : Z) (interrupted : bool) : Chance :=
  mkChance lookup lookup (s * Second) 0 (fun _ _ => Response status NoLocation) (OutboxDemo.at_ s) OutboxDemo.j0 interrupted.
Definition round_at (s : Z) (c : Chance) : Round := mkRound false (Some (OutboxDemo.at_ s, OutboxDemo.nolock)) (fun _ => c) false.
Definition stop : Round := mkRound true None (fun _ => answers 200 0 true) true.
Definition worker : Worker := NewWorker 0 0.
Definition run (rounds : list Round) : Ran * DB := Run New port body worker rounds OutboxDemo.db2.
Definition row (db : DB) : option OutboxRow := outbox db !! 700%N.

Example delivered_and_stopped :
  let '(res, db) := run [round_at 3 (answers 200 4 false); round_at 5 (answers 200 6 false); stop] in
  returned res = true /\ length (log res) = 1%nat /\ waits res = 1%nat /\ o_State <$> row db = Some StateDelivered.
Proof. vm_compute. repeat split. Qed.

Example outage_then_retry :
  let '(res, db) := run [mkRound false None (fun _ => answers 200 0 false) false; round_at 3 (answers 503 4 false)] in
  returned res = false /\ waits res = 1%nat /\ o_State <$> row db = Some StatePending /\ o_Attempts <$> row db = Some 1.
Proof. vm_compute. repeat split. Qed.

Definition sent (c : Chance) (db : DB) : list string :=
  (fun d => match outgoing New port body c d with Some (_, r) => req_Body r | None => "" end) <$>
    (match (Claim (OutboxDemo.at_ 3) OutboxDemo.nolock 10 db).1 with Ok ds => ds | Err _ => [] end).

(** The comments say that a delivery in flight finishes when the worker is told to stop. The
    context of the loop is also that of the request and of the settle: the receiver has the
    event and has answered 200, the row stays claimed, and a later worker sends it again. *)
Lemma shutdown_abandons_delivery :
  sent (answers 200 4 true) OutboxDemo.db2 = ["{}"] /\
  (let '(res, db) := run [round_at 3 (answers 200 4 true); stop] in
   returned res = true /\ (rp_Result <$> log res) = [mkResult 200 None] /\
   o_State <$> row db = Some StateDelivering /\ o_LastError <$> row db = Some None) /\
  (let '(res, db) := run [round_at 3 (answers 200 4 true); round_at 70 (answers 200 71 false); stop] in
   (d_Attempt ∘ rp_Due <$> log res) = [1; 2] /\ o_State <$> row db = Some StateDelivered).
Proof. vm_compute. repeat split. Qed.

Definition due_demo : Due := Eval vm_compute in OutboxDemo.stale.

Lemma lookup_plain : plain_lookup lookup.
Proof. intros host l. unfold lookup. case_decide; [|done]. intros [= <-]. repeat constructor; cbn; vm_compute; congruence. Qed.

Lemma outgoing_request_witness :
  exists conn req, outgoing New port body (answers 200 4 false) due_demo = Some (conn, req) /\
    public conn.1 = true /\ req_Body req = "{}" /\ (AttemptHeader, dec (d_Attempt due_demo)) ∈ req_Header req.
Proof.
  eexists _, _. split; [reflexivity|].
  pose proof (outgoing_request port body (answers 200 4 false) due_demo (mkURL "https" "hooks.example.com" "" false)
    (receiver, "443") (request_of body (4 * Second) due_demo) (5 * Second) eq_refl lookup_plain eq_refl eq_refl) as P.
  destruct P as (Hpub & _ & Hbody & _ & _ & _ & Hattempt & _); [by vm_compute..|].
  split; [exact Hpub|]. split; [exact Hbody|exact Hattempt].
Defined.

Lemma poll_settles_batch_witness :
  exists rs db', poll New port body worker (round_at 3 (answers 503 4 false)) OutboxDemo.db2 = (Ok rs, db') /\
    length rs = 1%nat /\
    forall k rep, rs !! k = Some rep ->
      exists r r', outbox OutboxDemo.db2 !! d_ID (rp_Due rep) = Some r /\ outbox db' !! d_ID (rp_Due rep) = Some r' /\
        outcome_of New port body (answers 503 4 false) (rp_Due rep) (claimed (3 * Second) r) r'.
Proof.
  destruct (poll New port body worker (round_at 3 (answers 503 4 false)) OutboxDemo.db2) as [[rs|e] db'] eqn:E;
    [|exfalso; vm_compute in E; discriminate].
  exists rs, db'. split; [reflexivity|]. split; [vm_compute in E; injection E as <- _; reflexivity|].
  destruct (poll_settles_batch New port body worker (round_at 3 (answers 503 4 false)) (OutboxDemo.at_ 3) OutboxDemo.nolock
              OutboxDemo.db2 rs db' OutboxDemo.run_db2) as [Hall _].
  - intros i r Hi. assert ((map_to_list (outbox OutboxDemo.db2)).*2 = [OutboxDemo.row_at OutboxDemo.db2]) as Hone by (vm_compute; reflexivity).
    assert (r ∈ (map_to_list (outbox OutboxDemo.db2)).*2) as Hr
      by (apply (list_elem_of_fmap_2 snd _ (i, r)); by apply elem_of_map_to_list).
    rewrite Hone in Hr. apply list_elem_of_singleton in Hr. rewrite Hr. vm_compute. reflexivity.
  - reflexivity.
  - intros k. split; [reflexivity|by vm_compute..|]. intros conn req. by vm_compute.
  - exact E.
  - intros k rep Hk. destruct (Hall k rep Hk) as (r & r' & Hr & _ & _ & Hr' & Ho). exists r, r'. split; [exact Hr|]. split; [exact Hr'|exact Ho].
Defined.
End WorkerDemo.
