(* ===== verification/Workers.v ===== *)
(** * Workers side by side

    Any number of the workers of [internal/webhook/worker.go] on one outbox, with the requests of the API between
    their transactions: the claim of a batch and each settle of it are steps of their own, and anything may be
    committed between a claim and the settles that follow it. *)

From S2P Require Import Prelude Apperr Encoding Ids Db Authz Tenant Float64 Webhook Outbox OutboxProps.
From S2P Require Import Ssrf Worker WorkerProps.

(** ** What each transaction may mark delivered *)

Section deliveries.
Context `{Unicode} `{UUIDLib} `{GoJSON}.

(** The transactions of the API. *)
Inductive api_step : DB -> DB -> Prop :=
  | api_enqueue env g ev tp t event data res db db' :
      BeginFunc (Enqueue env g ev tp t event data) db = (res, db') -> api_step db db'
  | api_replay env a id res db db' : Replay env a id db = (res, db') -> api_step db db'
  | api_create env a i res db db' : CreateEndpoint env a i db = (res, db') -> api_step db db'
  | api_update env a id i res db db' : UpdateEndpoint env a id i db = (res, db') -> api_step db db'.

Lemma api_step_step db db' : api_step db db' -> step db db'.
Proof. by intros []; econstructor. Qed.

(** No row is newly delivered. *)
Definition delivers_nothing (db db' : DB) : Prop :=
  forall i r', outbox db' !! i = Some r' -> o_State r' = StateDelivered -> outbox db !! i = Some r'.

Lemma same_outbox db db' : outbox db' = outbox db -> delivers_nothing db db'.
Proof. by intros He i r' Hi _; rewrite He in Hi. Qed.

Lemma CreateEndpoint_outbox env a i db res db' : CreateEndpoint env a i db = (res, db') -> outbox db' = outbox db.
Proof.
  unfold CreateEndpoint. destruct (negb _); [by intros [= _ <-]|].
  unfold mbind, SE_bind, lift. destruct (AuditLog.ActorFromAuthorized a) as [[actor kd]|x]; [|by intros [= _ <-]].
  set (e := mkEndpoint _ _ _ _ _ _ _ _ _ _ _). destruct (WithIdentityTx _ _ db) as [[[]|x] db1] eqn:HW.
  - apply WithIdentityTx_Ok in HW. intros [= _ <-]. destruct (or_fail _ _ db) as [[[]|y] db2] eqn:HI; [|done].
    apply or_fail_Ok in HI. apply write_audit_Ok in HW as [_ ->]. unfold insert_endpoint in HI.
    destruct (negb _); [done|]. destruct (negb _); [done|]. case_bool_decide; [done|]. by injection HI as <-.
  - intros [= _ <-]. by apply WithIdentityTx_Err in HW as ->.
Qed.

Lemma UpdateEndpoint_outbox env a id i db res db' : UpdateEndpoint env a id i db = (res, db') -> outbox db' = outbox db.
Proof.
  unfold UpdateEndpoint. destruct (negb _); [by intros [= _ <-]|]. case_decide; [by intros [= _ <-]|].
  unfold mbind, SE_bind, lift. destruct (normalize_update i) as [i'|x]; [|by intros [= _ <-]].
  destruct (AuditLog.ActorFromAuthorized a) as [[actor kd]|x]; [|by intros [= _ <-]].
  intros HW. destruct res as [e|x]; [|by apply WithIdentityTx_Err in HW as ->]. apply WithIdentityTx_Ok in HW.
  destruct (find_endpoint _ a id db) as [before|]; [|done]. destruct (negb _); [done|].
  destruct (write_audit _ _ _ _ _) as [[[]|y] db1] eqn:Ha; [|done]. injection HW as _ <-. by apply write_audit_Ok in Ha as [_ ->].
Qed.

Lemma api_delivers_nothing db db' : DB_wf db -> api_step db db' -> delivers_nothing db db'.
Proof.
  intros Hwf Hs. destruct Hs as [env g ev tp t event data [n|e] db db' Hrun|env a id res db db' Hrun|env a i res db db' Hrun|env a id i res db db' Hrun].
  - apply BeginFunc_Ok, Enqueue_Ok in Hrun as (_ & _ & l & tp' & _ & _ & Hl).
    destruct (fan_out_Ok _ _ _ _ _ _ _ _ _ _ _ _ Hl) as (_ & _ & _ & Hold & Hnew & _). intros i r' Hi Hst.
    destruct (outbox db !! i) as [r|] eqn:Hr; [by rewrite (Hold _ _ Hr) in Hi|].
    by destruct (Hnew _ _ Hi Hr) as (_ & e & _ & -> & _).
  - apply BeginFunc_Err in Hrun as ->. by apply same_outbox.
  - apply Replay_cases in Hrun as [->|(r & Hr & _ & _ & _ & ->)]; [by apply same_outbox|].
    intros i r'. cbn. rewrite lookup_insert_Some. by intros [[_ <-]|[_ Hi]].
  - by eapply same_outbox, CreateEndpoint_outbox.
  - by eapply same_outbox, UpdateEndpoint_outbox.
Qed.

(** A claim delivers nothing. *)
Lemma Claim_delivers_nothing env locked n db due db' :
  DB_wf db -> Claim env locked n db = (Ok due, db') -> delivers_nothing db db'.
Proof.
  intros Hwf Hc. destruct (Claim_spec env locked n db Hwf) as (db1 & Hc' & _ & _ & Hin & Hout).
  rewrite Hc in Hc'. injection Hc' as _ ->. intros i r' Hi Hst.
  destruct (decide (i ∈ o_ID <$> (claim_list env locked n db).*1)) as [Hm|Hm]; [|by rewrite <- Hout].
  exfalso. apply list_elem_of_fmap in Hm as (r0 & -> & Hm). apply list_elem_of_fmap in Hm as ([r1 d] & -> & Hm).
  destruct (claim_list_spec env locked n db r1 d Hwf Hm) as (r & e & _ & _ & -> & _).
  cbn [fst] in Hi. rewrite (Hin _ _ Hm) in Hi. by injection Hi as <-.
Qed.

(** A settle marks its own row, after an attempt that succeeded and under that attempt's number. *)
Lemma Settle_delivers env d res j db out db' i r' :
  DB_wf db -> Settle env d res j db = (out, db') -> outbox db' !! i = Some r' -> o_State r' = StateDelivered ->
  outbox db !! i = Some r' \/
  (i = d_ID d /\ Succeeded res = true /\ out = Ok tt /\ o_Attempts r' = d_Attempt d /\ o_DeliveredAt r' = Some (env_now env)).
Proof.
  intros Hwf Hs Hi Hst. destruct (Settle_cases _ _ _ _ _ _ _ Hs) as [->|(r & st & next & le & lc & Hr & Hf & Hp & ->)]; [by left|].
  pose proof (fence_cases _ _ _ Hf) as (_ & _ & Hatt). pose proof (wf_id _ Hwf _ _ Hr) as Hid. cbn in Hi. rewrite Hid in Hi.
  destruct (decide (i = d_ID d)) as [->|Hne]; [|left; by rewrite lookup_insert_ne in Hi].
  rewrite lookup_insert_eq in Hi. injection Hi as <-. right.
  destruct (settle_plan_cases _ _ _ _ _ _ Hp) as [(-> & Hok)|[(-> & _)|(-> & _)]]; [|by unfold settled in Hst; rewrite decide_False in Hst by done..].
  split_and!; [done|done| |by unfold settled; case_decide|by unfold settled; case_decide].
  set (x := settled _ _ _ _ _ _) in *. assert (set_outbox (<[o_ID r := x]> (outbox db)) db <> db) as Hch.
  { intros Hdb. apply (f_equal (fun t => outbox t !! d_ID d)) in Hdb. cbn in Hdb. rewrite Hid, Hr, lookup_insert_eq in Hdb.
    pose proof (fence_cases _ _ _ Hf) as (Hdel & _). congruence. }
  unfold Settle in Hs. destruct (_ <=? 0); [by injection Hs as _ Hdb; destruct Hch|].
  rewrite Hp in Hs. unfold mbind, SE_bind in Hs. destruct (WithSettings _ _ db) as [[[]|e] db1] eqn:HW; [by injection Hs as <- _|].
  apply WithSettings_Err in HW as ->. by injection Hs as _ Hdb; destruct Hch.
Qed.
End deliveries.

(** ** The fleet *)

Section fleet.
Context `{Unicode} `{NetURL} `{AddrText} `{UUIDLib} `{GoJSON}.
Context (g : Guard) (u_Port : URL -> string) (payload_text : json -> string) (ws : nat -> Worker).

(** The tables; the deliveries each worker has claimed and not attempted yet; every attempt so far, as it was
    reported, with what it met. *)
Record Fleet := mkFleet { tables : DB; hands : gmap nat (list Due); made : list (Report * Chance) }.

(** An attempt touches the tables in its settle only, so it is a step of the tables at that moment: whatever was
    committed while the receiver was being asked comes before. *)
Inductive fleet_step : Fleet -> Fleet -> Prop :=
  | fl_api db db' o l : api_step db db' -> fleet_step (mkFleet db o l) (mkFleet db' o l)
  | fl_claim k env locked due db db' o l :
      o !! k = None -> Claim env locked (batchSize (ws k)) db = (Ok due, db') ->
      fleet_step (mkFleet db o l) (mkFleet db' (<[k := due]> o) l)
  | fl_attempt k c d due rep db db' o l :
      o !! k = Some (d :: due) -> attempt g u_Port payload_text c d db = (rep, db') ->
      fleet_step (mkFleet db o l) (mkFleet db' (<[k := due]> o) (l ++ [(rep, c)]))
  | fl_drop k db o l : fleet_step (mkFleet db o l) (mkFleet db (delete k o) l).

Definition idle : Fleet := mkFleet empty_DB ∅ [].

(** ** The loop of one worker is a run of the fleet *)

Lemma attempts_fleet k n cs due db rs db' o l :
  attempts g u_Port payload_text n cs due db = (rs, db') ->
  exists t, t.*1 = rs /\ rtc fleet_step (mkFleet db (<[k := due]> o) l) (mkFleet db' (<[k := []]> o) (l ++ t)).
Proof.
  revert n db rs db' l. induction due as [|d due IH]; intros n db rs db' l Ha; cbn [attempts] in Ha.
  { injection Ha as <- <-. exists []. by rewrite app_nil_r. }
  destruct (attempt _ _ _ _ d db) as [rep db1] eqn:Hone. destruct (attempts _ _ _ _ _ due db1) as [rs2 db2] eqn:Hrest.
  injection Ha as <- <-. destruct (IH _ _ _ _ (l ++ [(rep, cs n)]) Hrest) as (t & <- & Ht).
  exists ((rep, cs n) :: t). split; [done|]. eapply rtc_l; [by eapply (fl_attempt k); [apply lookup_insert_eq|exact Hone]|].
  rewrite insert_insert_eq. by rewrite <- app_assoc in Ht.
Qed.

Lemma poll_fleet k rd db res db' o l :
  o !! k = None -> poll g u_Port payload_text (ws k) rd db = (res, db') ->
  exists t, t.*1 = (match res with Ok rs => rs | Err _ => [] end) /\ rtc fleet_step (mkFleet db o l) (mkFleet db' o (l ++ t)).
Proof.
  intros Ho Hp. unfold poll in Hp. destruct (rd_claim rd) as [[env locked]|].
  2: { injection Hp as <- <-. exists []. by rewrite app_nil_r. }
  destruct (Claim env locked _ db) as [[due|e] db1] eqn:Hc.
  - destruct (attempts _ _ _ _ _ due db1) as [rs db2] eqn:Ha. injection Hp as <- <-.
    destruct (attempts_fleet k _ _ _ _ _ _ o l Ha) as (t & Ht & Hs). exists t. split; [done|].
    eapply rtc_l; [by eapply (fl_claim k)|]. etrans; [exact Hs|]. apply rtc_once.
    rewrite <- (delete_insert_id o k []) at 2 by done. constructor.
  - injection Hp as <- <-. exists []. split; [done|]. rewrite app_nil_r.
    unfold Claim in Hc. apply or_fail_Err in Hc as (x & _ & Hc). by apply WithSettings_Err in Hc as ->.
Qed.

Lemma Run_fleet k rounds db res db' o l :
  o !! k = None -> Run g u_Port payload_text (ws k) rounds db = (res, db') ->
  exists t, t.*1 = log res /\ rtc fleet_step (mkFleet db o l) (mkFleet db' o (l ++ t)).
Proof.
  intros Ho. revert db res db' l. induction rounds as [|rd rounds IH]; intros db res db' l Hr; cbn [Run] in Hr.
  { injection Hr as <- <-. exists []. by rewrite app_nil_r. }
  destruct (rd_done rd); [injection Hr as <- <-; exists []; by rewrite app_nil_r|].
  destruct (poll _ _ _ (ws k) rd db) as [p db1] eqn:Hp. destruct (poll_fleet k rd db p db1 o l Ho Hp) as (t1 & Ht1 & S1).
  destruct (Run _ _ _ (ws k) rounds db1) as [later db2] eqn:Hlater.
  destruct (IH _ _ _ (l ++ t1) Hlater) as (t2 & Ht2 & S2). rewrite <- app_assoc in S2.
  destruct p as [[|rep rs]|e]; [destruct (rd_done_after rd)| |destruct (rd_done_after rd)];
    injection Hr as <- <-; cbn [log and_then ran app].
  all: first [exists t1; split; [exact Ht1|exact S1] | exists (t1 ++ t2); rewrite fmap_app, Ht1, Ht2; split; [done|by etrans]].
Qed.

(** ** What holds of every fleet *)

(** What is sent is a row's. *)
Definition from_row (db : DB) (d : Due) : Prop :=
  exists r, outbox db !! d_ID d = Some r /\ d_Event d = o_Event r /\ d_EventID d = o_EventID r /\ d_Payload d = o_Payload r.

(** The attempt that delivered the row [r]. *)
Definition delivering_attempt (i : uuid) (r : OutboxRow) (rep : Report) (c : Chance) : Prop :=
  d_ID (rp_Due rep) = i /\ d_Attempt (rp_Due rep) = o_Attempts r /\ rp_Settled rep = Ok tt /\
  o_DeliveredAt r = Some (env_now (ch_env c)) /\ acknowledged u_Port payload_text g c (rp_Due rep).

Record fleet_ok (f : Fleet) : Prop := {
  fo_steps : rtc step empty_DB (tables f);
  fo_hands : forall k due d, hands f !! k = Some due -> d ∈ due -> from_row (tables f) d;
  fo_made : forall rep c, (rep, c) ∈ made f -> from_row (tables f) (rp_Due rep);
  fo_delivered : forall i r, outbox (tables f) !! i = Some r -> o_State r = StateDelivered ->
    exists rep c, (rep, c) ∈ made f /\ delivering_attempt i r rep c;
}.

Lemma from_row_steps db db' d : rtc step db db' -> DB_wf db -> from_row db d -> from_row db' d.
Proof.
  intros Hs Hwf (r & Hr & He). destruct (outbox_steps_row _ _ _ _ Hs Hwf Hr) as (r' & Hr' & Hf & _).
  exists r'. split; [done|]. unfold frozen in Hf. naive_solver congruence.
Qed.

(** A transaction that delivers nothing, or one row by an attempt that joins the log. *)
Lemma fleet_ok_step db db' o l new :
  fleet_ok (mkFleet db o l) -> rtc step db db' ->
  (forall rep c, (rep, c) ∈ new -> from_row db (rp_Due rep)) ->
  (forall i r, outbox db' !! i = Some r -> o_State r = StateDelivered ->
     outbox db !! i = Some r \/ exists rep c, (rep, c) ∈ new /\ delivering_attempt i r rep c) ->
  fleet_ok (mkFleet db' o (l ++ new)).
Proof.
  intros [F1 F2 F3 F4] Hs Hnew Hd. cbn in *. pose proof (outbox_steps_wf _ _ F1 outbox_empty_wf) as Hwf. split; cbn.
  - by etrans.
  - intros k due d Hk Hin. eapply from_row_steps; eauto.
  - intros rep c [Hin|Hin]%elem_of_app; eapply from_row_steps; eauto.
  - intros i r Hi Hst. destruct (Hd i r Hi Hst) as [Hold|(rep & c & Hin & Hrep)].
    + destruct (F4 i r Hold Hst) as (rep & c & Hin & Hrep). exists rep, c. split; [|done]. apply elem_of_app. by left.
    + exists rep, c. split; [|done]. apply elem_of_app. by right.
Qed.

Lemma fleet_ok_hands db o o' l :
  fleet_ok (mkFleet db o l) -> (forall k due d, o' !! k = Some due -> d ∈ due -> from_row db d) -> fleet_ok (mkFleet db o' l).
Proof. by intros [F1 F2 F3 F4] Ho; split. Qed.

Lemma attempt_spec c d db rep db' :
  DB_wf db -> attempt g u_Port payload_text c d db = (rep, db') ->
  rp_Due rep = d /\ rtc step db db' /\
  forall i r, outbox db' !! i = Some r -> o_State r = StateDelivered -> outbox db !! i = Some r \/ delivering_attempt i r rep c.
Proof.
  intros Hwf Ha. unfold attempt in Ha. destruct (ch_interrupted c).
  { injection Ha as <- <-. split_and!; [done|done|]. by left. }
  destruct (Settle (ch_env c) d _ _ db) as [out db1] eqn:Hs. injection Ha as <- <-.
  split_and!; [done|apply rtc_once; by econstructor|]. intros i r Hi Hst.
  destruct (Settle_delivers _ _ _ _ _ _ _ _ _ Hwf Hs Hi Hst) as [?|(-> & Hok & -> & Hat & Hnow)]; [by left|right].
  split_and!; [done|done|done|done|by apply Deliver_acknowledged].
Qed.

Lemma fleet_step_ok f f' : fleet_step f f' -> fleet_ok f -> fleet_ok f'.
Proof.
  intros Hs Hf. pose proof (outbox_steps_wf _ _ (fo_steps _ Hf) outbox_empty_wf) as Hwf.
  destruct Hs as [db db' o l Ha|k env locked due db db' o l Ho Hc|k c d due rep db db' o l Ho Ha|k db o l]; cbn in Hwf.
  - rewrite <- (app_nil_r l). apply (fleet_ok_step db); [done|by apply rtc_once, api_step_step|by intros ? ? ?%elem_of_nil|].
    intros i r Hi Hst. left. by eapply api_delivers_nothing.
  - assert (S1 : step db db') by (by econstructor). apply (fleet_ok_hands _ o).
    + rewrite <- (app_nil_r l). apply (fleet_ok_step db); [done|by apply rtc_once|by intros ? ? ?%elem_of_nil|].
      intros i r Hi Hst. left. by eapply Claim_delivers_nothing.
    + intros k' due' d. rewrite lookup_insert_Some. intros [[<- <-]|[_ Hk]] Hd.
      * destruct (Claim_Due _ _ _ _ _ _ d Hwf Hc Hd) as (r & e & _ & _ & Hr & ->). by exists (claimed (env_now env) r).
      * eapply from_row_steps; [by apply rtc_once|done|by eapply (fo_hands _ Hf)].
  - destruct (attempt_spec c d db rep db' Hwf Ha) as (Hrep & S1 & Hd). apply (fleet_ok_hands _ o).
    + apply (fleet_ok_step db); [done|done| |].
      * intros rep' c' [= -> ->]%list_elem_of_singleton. rewrite Hrep. eapply (fo_hands _ Hf); [done|left].
      * intros i r Hi Hst. destruct (Hd i r Hi Hst); [by left|right]. exists rep, c. split; [by left|done].
    + intros k' due' d'. rewrite lookup_insert_Some.
      intros [[<- <-]|[_ Hk]] Hin; eapply from_row_steps; eauto; eapply (fo_hands _ Hf); cbn; eauto; by right.
  - apply (fleet_ok_hands _ o); [done|]. intros k' due' d [_ Hk]%lookup_delete_Some. by eapply (fo_hands _ Hf).
Qed.

Lemma fleet_reachable_ok f : rtc fleet_step idle f -> fleet_ok f.
Proof.
  intros Hs. refine (rtc_ind_r (fun f => fleet_ok f) idle _ _ f Hs).
  - split; cbn; [done|..]; intros *; rewrite ?lookup_empty; try done. by intros ?%elem_of_nil.
  - intros x y _ Hxy Hx. by eapply fleet_step_ok.
Qed.

(** C9: Any number of workers, each with its own batch in hand, and requests of the API committing between any two of
    their transactions; workers that crash with a batch in hand, receivers that answer anything, settles that are cut
    off or come after another worker has reclaimed the row. The outbox moves only by the transactions of its own life;
    a row is marked delivered only by an attempt that carried its event and payload, under the number the row still
    had, whose receiver answered it with a 2xx at an address checked for it; and the loop of a single worker, whatever
    its rounds bring, is one such run, with the attempts it logs. *)
Theorem delivered_means_acknowledged f :
  rtc fleet_step idle f ->
  rtc step empty_DB (tables f) /\
  (forall i r, outbox (tables f) !! i = Some r -> o_State r = StateDelivered ->
     exists rep c, (rep, c) ∈ made f /\ d_ID (rp_Due rep) = i /\ d_Attempt (rp_Due rep) = o_Attempts r /\
       d_Event (rp_Due rep) = o_Event r /\ d_EventID (rp_Due rep) = o_EventID r /\ d_Payload (rp_Due rep) = o_Payload r /\
       rp_Settled rep = Ok tt /\ o_DeliveredAt r = Some (env_now (ch_env c)) /\
       acknowledged u_Port payload_text g c (rp_Due rep)) /\
  (forall k rounds res db', hands f !! k = None -> Run g u_Port payload_text (ws k) rounds (tables f) = (res, db') ->
     exists t, t.*1 = log res /\ rtc fleet_step f (mkFleet db' (hands f) (made f ++ t))).
Proof.
  intros Hs. pose proof (fleet_reachable_ok f Hs) as [F1 F2 F3 F4]. split; [done|]. split.
  - intros i r Hi Hst. destruct (F4 i r Hi Hst) as (rep & c & Hin & <- & Hn & Hok & Hat & Hack).
    destruct (F3 rep c Hin) as (r' & Hr' & Hv & He & Hp). rewrite Hi in Hr'. injection Hr' as <-.
    exists rep, c. by split_and!.
  - intros k rounds res db' Hk Hr. destruct f as [db o l]. cbn in *. by eapply Run_fleet.
Qed.
End fleet.

(** ** Two workers on one delivery *)

Module FleetDemo.
Import OutboxDemo WorkerDemo.
#[local] Existing Instance DemoUnicode.
#[local] Existing Instance DemoUUID.lib.
#[local] Existing Instance demo_json.
#[local] Existing Instance WorkerDemo.text.
#[local] Existing Instance WorkerDemo.net.

Notation fstep := (fleet_step New port body (fun _ => worker)).

(** Worker 0 claims and stalls until its lease has lapsed; worker 1 claims the same row. The receiver answers 200 to
    both, worker 0 first. *)
Definition hand0 : list Due := Eval vm_compute in due_at 3 db2.
Definition hand1 : list Due := Eval vm_compute in due_at 100 (claim_at 3 db2).
Definition late : Report * DB := attempt New port body (answers 200 101 false) (hd stale hand0) (claim_at 100 (claim_at 3 db2)).
Definition prompt : Report * DB := attempt New port body (answers 200 102 false) (hd stale hand1) late.2.
Definition both : Fleet :=
  mkFleet prompt.2 (<[1%nat := []]> (<[0%nat := []]> (<[1%nat := hand1]> (<[0%nat := hand0]> ∅))))
    [(late.1, answers 200 101 false); (prompt.1, answers 200 102 false)].

Lemma enqueued_run : rtc fstep idle (mkFleet db2 ∅ []).
Proof.
  eapply rtc_l; [apply (fl_api _ _ _ _ empty_DB db1); eapply (api_create (at_ 1) owner (mkCreateInput "https://hooks.example.com/x" [EventInvoicePaid] "")), surjective_pairing|].
  apply rtc_once, fl_api; eapply (api_enqueue (at_ 2) g5 90%N "" 5%N EventInvoicePaid (JNum 1)), surjective_pairing.
Qed.

Lemma both_run : rtc fstep idle both.
Proof.
  etrans; [exact enqueued_run|].
  eapply rtc_l; [apply (fl_claim _ _ _ _ 0%nat (at_ 3) nolock hand0 db2 (claim_at 3 db2)); [reflexivity|vm_compute; reflexivity]|].
  eapply rtc_l; [apply (fl_claim _ _ _ _ 1%nat (at_ 100) nolock hand1 _ (claim_at 100 (claim_at 3 db2))); [reflexivity|vm_compute; reflexivity]|].
  eapply rtc_l; [apply (fl_attempt _ _ _ _ 0%nat (answers 200 101 false) (hd stale hand0) [] late.1 _ late.2); [reflexivity|apply surjective_pairing]|].
  apply rtc_once, (fl_attempt _ _ _ _ 1%nat (answers 200 102 false) (hd stale hand1) [] prompt.1 _ prompt.2); [reflexivity|apply surjective_pairing].
Qed.

(** Only the second counts. *)
Lemma delivered_means_acknowledged_witness :
  (rp_Settled late.1, rp_Settled prompt.1) = (Err (LeaseLostError 700%N), Ok tt) /\
  exists r rep c, outbox (tables both) !! 700%N = Some r /\ o_State r = StateDelivered /\ o_Attempts r = 2 /\
    (rep, c) ∈ made both /\ d_Attempt (rp_Due rep) = 2 /\ rp_Settled rep = Ok tt /\
    acknowledged port body New c (rp_Due rep).
Proof.
  split; [vm_compute; reflexivity|].
  destruct (delivered_means_acknowledged New port body (fun _ => worker) both both_run) as (_ & Hd & _).
  destruct (Hd 700%N (row_at (tables both))) as (rep & c & Hin & _ & Hat & _ & _ & _ & Hok & _ & Hack);
    [vm_compute; reflexivity|vm_compute; reflexivity|].
  exists (row_at (tables both)), rep, c. split; [vm_compute; reflexivity|]. split; [vm_compute; reflexivity|].
  split; [vm_compute; reflexivity|]. split; [exact Hin|]. split; [rewrite Hat; vm_compute; reflexivity|]. split; [exact Hok|exact Hack].
Defined.
End FleetDemo.
