(* ===== verification/Migrations.v ===== *)
(** * Schema migrations

    [internal/platform/migrations/migrate.go] and the commands of [cmd/migrate] that use it:
    which files are applied, when, and what is recorded of them. What a file's SQL does to
    the schema is postgres's and a parameter; a transaction applies a file and records it, or
    neither. A run holds the advisory lock from its first read to its end, so runs do not
    overlap and a history is a sequence of whole runs. *)

From S2P Require Import Prelude Apperr Encoding Ids Db.

(** ** The embedded files *)

(** A directory entry of the embedded file system, which lists them by name. *)
Record Entry := mkEntry { e_Name : string; e_IsDir : bool; e_Data : string }.

Record Migration := mkMigration { Version : string; Name : string; SQL : string; Checksum : string }.

Inductive load_error :=
  | BadName (name : string)
  | DuplicateVersion (version first second : string)
  | NoMigrations.

(** The loop over the entries; [seen] maps the versions met to their files. *)
Fixpoint load_entries (seen : list (string * string)) (entries : list Entry) : result load_error (list Migration) :=
  match entries with
  | [] => Ok []
  | e :: rest =>
      if e_IsDir e || negb (has_suffix ".sql" (e_Name e)) then load_entries seen rest
      else match cut_str "_" (e_Name e) with
           | None => Err (BadName (e_Name e))
           | Some (version, _) =>
               if decide (version = "") then Err (BadName (e_Name e))
               else match (list_to_map seen : gmap string string) !! version with
                    | Some first => Err (DuplicateVersion version first (e_Name e))
                    | None =>
                        out ← load_entries ((version, e_Name e) :: seen) rest;
                        Ok (mkMigration version (e_Name e) (e_Data e) (hex_encode (sha256 (e_Data e))) :: out)
                    end
           end
  end.

(** [sort.Slice] by file name, byte by byte. *)
Definition name_leb (a b : Migration) : bool := String.leb (Name a) (Name b).

Definition Load (entries : list Entry) : result load_error (list Migration) :=
  out ← load_entries [] entries;
  if decide (out = []) then Err NoMigrations else Ok (order_by name_leb out).

(** ** The database *)

(** A row of [schema_migrations]. *)
Record Status := mkStatus { s_Version : string; s_Name : string; s_Checksum : string; s_AppliedAt : gotime }.

Section up.
Context {S : Type} (exec : string -> S -> option S).

Record DB := mkDB { schema : S; migrations : gmap string Status }.

(** ** Failures

    The calls of a run that can fail; a commit can fail before or after it took effect. *)
Inductive Call := Acquire | Lock | Ensure | ReadApplied | Begin (name : string) | Apply (name : string)
  | Record_ (name : string) | Restrict.
Inductive CommitOutcome := Committed | NotCommitted | CommittedUnseen.

Record Faults := mkFaults { fails : Call -> bool; commit : string -> CommitOutcome; now : gotime }.

Inductive up_error :=
  | LoadFailed (e : load_error)
  | CallFailed (c : Call)
  | Edited (name : string)
  | CommitFailed (name : string).

Record Result := mkResult { Applied : list string; AlreadyCurrent : Z }.
Definition no_result : Result := mkResult [] 0.

(** [applyOne]: the file and its record in one transaction. *)
Definition applyOne (f : Faults) (m : Migration) (db : DB) : option up_error * DB :=
  if fails f (Begin (Name m)) then (Some (CallFailed (Begin (Name m))), db)
  else if fails f (Apply (Name m)) then (Some (CallFailed (Apply (Name m))), db)
  else match exec (SQL m) (schema db) with
       | None => (Some (CallFailed (Apply (Name m))), db)
       | Some s' =>
           if fails f (Record_ (Name m)) || bool_decide (is_Some (migrations db !! Version m))
           then (Some (CallFailed (Record_ (Name m))), db)
           else
             let db' := mkDB s' (<[Version m := mkStatus (Version m) (Name m) (Checksum m) (now f)]> (migrations db)) in
             match commit f (Name m) with
             | Committed => (None, db')
             | NotCommitted => (Some (CommitFailed (Name m)), db)
             | CommittedUnseen => (Some (CommitFailed (Name m)), db')
             end
       end.

(** The loop over the files; [applied] is what was recorded when the run began. *)
Fixpoint up_loop (f : Faults) (applied : gmap string string) (migs : list Migration) (res : Result) (db : DB)
    : Result * option up_error * DB :=
  match migs with
  | [] => (res, None, db)
  | m :: rest =>
      match applied !! Version m with
      | Some prev =>
          if decide (prev <> Checksum m) then (res, Some (Edited (Name m)), db)
          else up_loop f applied rest (mkResult (Applied res) (AlreadyCurrent res + 1)) db
      | None =>
          match applyOne f m db with
          | (Some e, db') => (res, Some e, db')
          | (None, db') => up_loop f applied rest (mkResult (Applied res ++ [Name m]) (AlreadyCurrent res)) db'
          end
      end
  end.

Definition appliedChecksums (db : DB) : gmap string string := s_Checksum <$> migrations db.

(** A run; the table is created empty when it is missing, which the model's map is. *)
Definition Up (f : Faults) (entries : list Entry) (db : DB) : Result * option up_error * DB :=
  match Load entries with
  | Err e => (no_result, Some (LoadFailed e), db)
  | Ok migs =>
      if fails f Acquire then (no_result, Some (CallFailed Acquire), db)
      else if fails f Lock then (no_result, Some (CallFailed Lock), db)
      else if fails f Ensure then (no_result, Some (CallFailed Ensure), db)
      else if fails f ReadApplied then (no_result, Some (CallFailed ReadApplied), db)
      else match up_loop f (appliedChecksums db) migs no_result db with
           | (res, Some e, db') => (res, Some e, db')
           | (res, None, db') => if fails f Restrict then (res, Some (CallFailed Restrict), db') else (res, None, db')
           end
  end.

(** [Applied]: the history, [ORDER BY version]. *)
Definition Applied_ `{Collation} (db : DB) : list Status :=
  order_by (fun a b => text_leb (s_Version a) (s_Version b)) (map_to_list (migrations db)).*2.

(** ** The commands *)

(** [runStatus]: the recorded history, then the files it does not hold. Reading the history is
    a call that can fail; before the first run its table does not exist and it does. *)
Inductive StatusLine := AppliedLine (s : Status) | PendingLine (version name : string).
Definition runStatus `{Collation} (f : Faults) (entries : list Entry) (db : DB) : result up_error (list StatusLine) :=
  match Load entries with
  | Err e => Err (LoadFailed e)
  | Ok migs =>
      if fails f ReadApplied then Err (CallFailed ReadApplied)
      else
        let applied := Applied_ db in
        Ok ((AppliedLine <$> applied) ++
            ((fun m => PendingLine (Version m) (Name m)) <$>
               filter (fun m => Version m ∉ s_Version <$> applied) migs))
  end.
End up.

(** The connection strings of the commands. *)
Definition ownerURL (getenv : string -> string) : string :=
  if decide (getenv "MIGRATE_DATABASE_URL" = "") then getenv "DATABASE_URL" else getenv "MIGRATE_DATABASE_URL".
Definition appURL (getenv : string -> string) : string :=
  if decide (getenv "APP_DATABASE_URL" = "")
  then if decide (getenv "DATABASE_URL" = "") then getenv "MIGRATE_DATABASE_URL" else getenv "DATABASE_URL"
  else getenv "APP_DATABASE_URL".

(** ** What loading establishes *)

(** A file of the repository as a migration. *)
Definition migration_of (e : Entry) : Migration :=
  mkMigration (from_option fst "" (cut_str "_" (e_Name e))) (e_Name e) (e_Data e) (hex_encode (sha256 (e_Data e))).
Definition is_sql (e : Entry) : bool := negb (e_IsDir e) && has_suffix ".sql" (e_Name e).

Lemma load_entries_ok seen entries migs :
  load_entries seen entries = Ok migs ->
  migs = migration_of <$> filter (fun e => is_sql e = true) entries /\
  NoDup (Version <$> migs) /\ (forall m, m ∈ migs -> Version m <> "" /\ Version m ∉ seen.*1).
Proof.
  revert seen migs. induction entries as [|e entries IH]; intros seen migs; cbn [load_entries].
  { intros [= <-]. split; [done|]. split; [constructor|]. by intros m ?%elem_of_nil. }
  destruct (e_IsDir e || negb (has_suffix ".sql" (e_Name e))) eqn:Hsql.
  { intros Hl. rewrite filter_cons_False; [by apply IH|]. unfold is_sql. by destruct (e_IsDir e), (has_suffix _ _). }
  rewrite filter_cons_True by (unfold is_sql; by destruct (e_IsDir e), (has_suffix _ _)).
  destruct (cut_str "_" (e_Name e)) as [[version tail]|] eqn:Hcut; [|done]. case_decide as Hv; [done|].
  destruct (_ !! version) eqn:Hseen; [done|]. intros Hl. apply bind_Ok in Hl as (out & Hl & [= <-]).
  destruct (IH _ _ Hl) as (-> & Hnd & Hall). apply not_elem_of_list_to_map in Hseen.
  assert (migration_of e = mkMigration version (e_Name e) (e_Data e) (hex_encode (sha256 (e_Data e)))) as Hm
    by (unfold migration_of; by rewrite Hcut).
  rewrite fmap_cons, Hm. split; [done|]. split.
  - rewrite fmap_cons. cbn [Version]. constructor; [|done]. intros Hin.
    apply list_elem_of_fmap in Hin as (m & Heq & Hin). destruct (Hall m Hin) as [_ Hn]. apply Hn. rewrite <- Heq. by left.
  - intros m [->|Hin]%elem_of_cons; [done|]. destruct (Hall m Hin) as [? Hn]. split; [done|].
    cbn [fmap list_fmap fst] in Hn. rewrite not_elem_of_cons in Hn. tauto.
Qed.

(** The migrations are the repository's .sql files, each once and under a version of its own. *)
Lemma Load_ok entries migs :
  Load entries = Ok migs ->
  migs ≡ₚ migration_of <$> filter (fun e => is_sql e = true) entries /\ NoDup (Version <$> migs) /\ migs <> [].
Proof.
  unfold Load. intros Hl. apply bind_Ok in Hl as (out & Hl & Hout). case_decide as Hne; [done|]. injection Hout as <-.
  destruct (load_entries_ok _ _ _ Hl) as (Heq & Hnd & _). rewrite <- Heq. split; [apply order_by_Permutation|].
  split; [by rewrite order_by_Permutation|]. intros Hnil. apply Hne. apply Permutation_nil_r.
  rewrite <- Hnil. symmetry. apply order_by_Permutation.
Qed.

(** ** Histories *)

Section histories.
Context {S : Type} (exec : string -> S -> option S).
Implicit Types (db : DB (S := S)) (m : Migration).

(** The files applied one after the other. *)
Fixpoint run_files (ms : list Migration) (s : S) : option S :=
  match ms with [] => Some s | m :: ms' => s' ← exec (SQL m) s; run_files ms' s' end.

Definition pending (migs : list Migration) (db : DB (S := S)) : list Migration :=
  filter (fun m => migrations db !! Version m = None) migs.

Definition status_of (f : Faults) (m : Migration) : Status := mkStatus (Version m) (Name m) (Checksum m) (now f).
Definition record_all (f : Faults) (ms : list Migration) (t : gmap string Status) : gmap string Status :=
  foldl (fun t m => <[Version m := status_of f m]> t) t ms.

Lemma pending_recorded m migs db st : migrations db !! Version m = Some st -> pending (m :: migs) db = pending migs db.
Proof. intros Hst. unfold pending. rewrite filter_cons_False; [done|by rewrite Hst]. Qed.

Lemma pending_new m migs db : migrations db !! Version m = None -> pending (m :: migs) db = m :: pending migs db.
Proof. intros Hst. unfold pending. by rewrite filter_cons_True. Qed.

Lemma pending_ext l db1 db2 :
  (forall m, m ∈ l -> migrations db1 !! Version m = migrations db2 !! Version m) -> pending l db1 = pending l db2.
Proof.
  unfold pending. induction l as [|m l IH]; intros Heq; [done|]. rewrite !filter_cons, (Heq m) by (by left).
  rewrite IH by (intros x Hx; apply Heq; by right). done.
Qed.

(** A recorded file still has the contents it was applied with. *)
Definition unedited (db : DB (S := S)) (m : Migration) : Prop :=
  forall st, migrations db !! Version m = Some st -> s_Checksum st = Checksum m.

Lemma run_files_app a b s : run_files (a ++ b) s = run_files a s ≫= run_files b.
Proof. revert s. induction a as [|m a IH]; intros s; cbn; [done|]. destruct (exec _ _); cbn; [apply IH|done]. Qed.

Lemma record_all_lookup f ms t v :
  record_all f ms t !! v = None <-> t !! v = None /\ v ∉ Version <$> ms.
Proof.
  revert t. induction ms as [|m ms IH]; intros t; cbn [record_all foldl fmap list_fmap].
  - rewrite elem_of_nil. tauto.
  - change (foldl _ ?x ms) with (record_all f ms x). rewrite IH, lookup_insert_None, not_elem_of_cons. intuition congruence.
Qed.

Lemma applyOne_spec f m db e db' :
  applyOne exec f m db = (e, db') ->
  (db' = db /\ e <> None) \/
  (exists s', exec (SQL m) (schema db) = Some s' /\ migrations db !! Version m = None /\
     db' = mkDB s' (<[Version m := status_of f m]> (migrations db)) /\
     (e = None \/ e = Some (CommitFailed (Name m)))).
Proof.
  unfold applyOne. destruct (fails f (Begin _)); [intros [= <- <-]; by left|].
  destruct (fails f (Apply _)); [intros [= <- <-]; by left|].
  destruct (exec _ _) as [s'|]; [|intros [= <- <-]; by left].
  destruct (fails f (Record_ _) || _) eqn:Hr; [intros [= <- <-]; by left|].
  apply orb_false_iff in Hr as [_ Hr%bool_decide_eq_false]. apply eq_None_not_Some in Hr.
  destruct (commit f (Name m)); intros [= <- <-]; [right|by left|right]; exists s'; split_and!; auto.
Qed.

(** One run: it executes, in the order of the files, a prefix of those not yet recorded; what
    it executed is recorded, file by file; it ends without an error only when nothing is left. *)
Lemma up_loop_spec f t0 migs res db res' e db' :
  NoDup (Version <$> migs) ->
  (forall m, m ∈ migs -> migrations db !! Version m = t0 !! Version m) ->
  up_loop exec f (s_Checksum <$> t0) migs res db = (res', e, db') ->
  exists done s' fresh,
    done `prefix_of` pending migs db /\ run_files done (schema db) = Some s' /\
    db' = mkDB s' (record_all f done (migrations db)) /\
    Applied res' = Applied res ++ fresh /\ fresh `prefix_of` (Name <$> done) /\
    (forall pre m post, migs = pre ++ m :: post -> ~ unedited db m -> e <> None /\ done `prefix_of` pending pre db) /\
    (e = None -> done = pending migs db /\ fresh = Name <$> done).
Proof.
  intros Hnd. revert res db. induction migs as [|m migs IH]; intros res db Hagree Hrun; cbn [up_loop] in Hrun.
  { injection Hrun as <- <- <-. exists [], (schema db), []. destruct db. split_and!; try done; [by rewrite app_nil_r|].
    intros [|? ?] ? ?; done. }
  rewrite fmap_cons, NoDup_cons in Hnd. destruct Hnd as [Hm Hnd].
  pose proof (Hagree m ltac:(by left)) as Hag. rewrite lookup_fmap, <- Hag in Hrun.
  destruct (migrations db !! Version m) as [st|] eqn:Hst; cbn [fmap option_fmap option_map] in Hrun.
  - assert (pending (m :: migs) db = pending migs db) as Hpend by by eapply pending_recorded.
    rewrite Hpend. case_decide as Hck.
    + injection Hrun as <- <- <-. exists [], (schema db), []. destruct db. split_and!; try done; [apply prefix_nil|by rewrite app_nil_r|].
      intros pre x post _ _. split; [done|apply prefix_nil].
    + destruct (IH Hnd _ _ (fun x Hx => Hagree x ltac:(by right)) Hrun) as (dn & s' & fresh & P1 & P2 & P3 & P4 & P5 & P6 & P7).
      exists dn, s', fresh. split_and!; try done. intros [|y pre] x post [= <- ->] Hed.
      * destruct Hed. intros st' Hst'. rewrite Hst in Hst'. injection Hst' as <-. exact Hck.
      * destruct (P6 pre x post eq_refl Hed) as [He Hpre]. split; [done|]. unfold pending in *.
        rewrite filter_cons_False; [done|by rewrite Hst].
  - assert (pending (m :: migs) db = m :: pending migs db) as Hpend by by apply pending_new.
    rewrite Hpend. destruct (applyOne exec f m db) as [e1 db1] eqn:Hone.
    destruct (applyOne_spec _ _ _ _ _ Hone) as [[-> He]|(s1 & Hex & _ & -> & He)].
    + destruct e1 as [e1|]; [|done]. injection Hrun as <- <- <-. exists [], (schema db), []. destruct db.
      split_and!; try done; [apply prefix_nil|by rewrite app_nil_r|]. intros pre x post _ _. split; [done|apply prefix_nil].
    + assert (forall x, x ∈ migs -> Version x <> Version m) as Hne.
      { intros x Hx Heq. apply Hm. rewrite <- Heq. by apply list_elem_of_fmap_2. }
      set (db1 := mkDB s1 _) in *.
      assert (forall l, (forall x, x ∈ l -> x ∈ migs) -> pending l db1 = pending l db) as Hpend1.
      { intros l Hl. apply pending_ext. intros x Hx. cbn. by rewrite lookup_insert_ne by (symmetry; auto). }
      assert (forall x, x ∈ migs -> unedited db1 x <-> unedited db x) as Hued.
      { intros x Hx. unfold unedited. cbn. by rewrite lookup_insert_ne by (symmetry; auto). }
      destruct e1 as [e1|].
      * injection Hrun as <- <- <-. exists [m], s1, []. split_and!; try done.
        -- by apply prefix_cons, prefix_nil.
        -- cbn. by rewrite Hex.
        -- by rewrite app_nil_r.
        -- apply prefix_nil.
        -- intros [|y pre] x post [= <- ->] Hed; [by destruct Hed; intros ? ?; congruence|]. split; [done|].
           unfold pending. rewrite filter_cons_True by done. apply prefix_cons, prefix_nil.
      * destruct (IH Hnd (mkResult (Applied res ++ [Name m]) (AlreadyCurrent res)) db1) as
          (dn & s' & fresh & P1 & P2 & P3 & P4 & P5 & P6 & P7); [|exact Hrun|].
        { intros x Hx. cbn. rewrite lookup_insert_ne by (symmetry; auto). apply Hagree. by right. }
        rewrite Hpend1 in P1, P7 by done. exists (m :: dn), s', (Name m :: fresh). split_and!.
        -- by apply prefix_cons.
        -- cbn. by rewrite Hex.
        -- exact P3.
        -- rewrite P4. cbn. by rewrite <- app_assoc.
        -- by apply prefix_cons.
        -- intros [|y pre] x post [= <- ->] Hed; [by destruct Hed; intros ? ?; congruence|].
           destruct (P6 pre x post eq_refl) as [Hx Hpre]; [rewrite Hued by set_solver; done|]. split; [done|].
           unfold pending at 1. rewrite filter_cons_True by done. apply prefix_cons.
           rewrite Hpend1 in Hpre; [done|]. intros z Hz. set_solver.
        -- intros He0. destruct (P7 He0) as [-> ->]. done.
Qed.
Lemma Up_spec f entries migs db res e db' :
  Load entries = Ok migs -> Up exec f entries db = (res, e, db') ->
  exists done s',
    done `prefix_of` pending migs db /\ run_files done (schema db) = Some s' /\
    db' = mkDB s' (record_all f done (migrations db)) /\ Applied res `prefix_of` (Name <$> done) /\
    (forall pre m post, migs = pre ++ m :: post -> ~ unedited db m -> e <> None /\ done `prefix_of` pending pre db) /\
    (e = None -> done = pending migs db /\ Applied res = Name <$> done).
Proof.
  intros Hload Hup. unfold Up in Hup. rewrite Hload in Hup. destruct (Load_ok _ _ Hload) as (_ & Hnd & _).
  assert (forall e0, e0 <> None -> (no_result, e0, db) = (res, e, db') ->
    exists done s', done `prefix_of` pending migs db /\ run_files done (schema db) = Some s' /\
      db' = mkDB s' (record_all f done (migrations db)) /\ Applied res `prefix_of` (Name <$> done) /\
      (forall pre m post, migs = pre ++ m :: post -> ~ unedited db m -> e <> None /\ done `prefix_of` pending pre db) /\
      (e = None -> done = pending migs db /\ Applied res = Name <$> done)) as Hfail.
  { intros e0 He [= <- <- <-]. exists [], (schema db). destruct db. split_and!; try done; try apply prefix_nil.
    intros pre m post _ _. split; [done|apply prefix_nil]. }
  revert Hup. do 4 (destruct (fails f _); [intros Hup; refine (Hfail _ _ Hup); done|]). intros Hup. clear Hfail.
  destruct (up_loop exec f _ migs no_result db) as [[res1 e1] db1] eqn:Hloop.
  destruct (up_loop_spec f (migrations db) migs no_result db res1 e1 db1 Hnd (fun _ _ => eq_refl) Hloop)
    as (dn & s' & fresh & P1 & P2 & P3 & P4 & P5 & P6 & P7). exists dn, s'.
  destruct e1 as [e1|]; [injection Hup as <- <- <-; rewrite P4; by split_and!|].
  destruct (fails f Restrict); injection Hup as <- <- <-; rewrite P4; split_and!; try done.
  intros pre m post Hm Hed. destruct (P6 pre m post Hm Hed). done.
Qed.

(** A run that meets no failure. *)
Definition quiet (f : Faults) : Prop := (forall c, fails f c = false) /\ (forall name, commit f name = Committed).

Lemma up_loop_quiet f t0 migs res db s' :
  quiet f -> NoDup (Version <$> migs) -> (forall m, m ∈ migs -> migrations db !! Version m = t0 !! Version m) ->
  (forall m, m ∈ migs -> unedited db m) -> run_files (pending migs db) (schema db) = Some s' ->
  exists n, up_loop exec f (s_Checksum <$> t0) migs res db =
    (mkResult (Applied res ++ (Name <$> pending migs db)) (AlreadyCurrent res + n), None,
     mkDB s' (record_all f (pending migs db) (migrations db))) /\
    n + Z.of_nat (length (pending migs db)) = Z.of_nat (length migs).
Proof.
  intros [Hf Hc] Hnd. revert res db. induction migs as [|m migs IH]; intros res db Hagree Hued Hrun; cbn [up_loop].
  { injection Hrun as <-. exists 0. destruct db, res. cbn. rewrite app_nil_r. split; [|done]. do 3 f_equal. lia. }
  rewrite fmap_cons, NoDup_cons in Hnd. destruct Hnd as [Hm Hnd].
  rewrite lookup_fmap, <- (Hagree m) by (by left).
  destruct (migrations db !! Version m) as [st|] eqn:Hst; cbn [fmap option_fmap option_map].
  - rewrite (pending_recorded _ _ _ _ Hst) in Hrun |- *.
    rewrite decide_False by (intros Hck; apply Hck, (Hued m); [by left|done]).
    destruct (IH Hnd (mkResult (Applied res) (AlreadyCurrent res + 1)) db) as (n & Heq & Hn);
      [intros; apply Hagree; by right|intros; apply Hued; by right|done|].
    exists (n + 1). rewrite Heq. split; [cbn; do 3 f_equal; lia|cbn [length]; lia].
  - rewrite (pending_new _ _ _ Hst) in Hrun |- *. cbn [run_files] in Hrun. destruct (exec (SQL m) (schema db)) as [s1|] eqn:Hex; [|done].
    assert (forall x, x ∈ migs -> Version x <> Version m) as Hne.
    { intros x Hx Heq. apply Hm. rewrite <- Heq. by apply list_elem_of_fmap_2. }
    unfold applyOne. rewrite !Hf, Hex, Hst, Hc, bool_decide_eq_false_2 by (by intros [? ?]). cbn [orb].
    set (db1 := mkDB s1 _).
    assert (pending migs db1 = pending migs db) as Hp.
    { apply pending_ext. intros x Hx. cbn. by rewrite lookup_insert_ne by (symmetry; auto). }
    destruct (IH Hnd (mkResult (Applied res ++ [Name m]) (AlreadyCurrent res)) db1) as (n & Heq & Hn).
    + intros x Hx. cbn. rewrite lookup_insert_ne by (symmetry; auto). apply Hagree. by right.
    + intros x Hx st. cbn. rewrite lookup_insert_ne by (symmetry; auto). apply Hued. by right.
    + rewrite Hp. exact Hrun.
    + rewrite Hp in Heq, Hn. exists n. rewrite Heq. split; [cbn; by rewrite <- app_assoc|cbn [length]; lia].
Qed.

(** Any number of runs with the same files, each cut short anywhere or not. *)
Definition deploys (entries : list Entry) : relation (DB (S := S)) := rtc (fun db db' => exists f res e, Up exec f entries db = (res, e, db')).

(** The files [done] and nothing else are recorded, unedited. *)
Definition recorded (done : list Migration) (db : DB (S := S)) : Prop :=
  (forall v, migrations db !! v = None <-> v ∉ Version <$> done) /\ forall m, m ∈ done -> unedited db m.

Lemma recorded_pending done rest db :
  NoDup (Version <$> done ++ rest) -> recorded done db -> pending (done ++ rest) db = rest.
Proof.
  intros Hnd [Hrec _]. unfold pending. rewrite filter_app, fmap_app, NoDup_app in *. destruct Hnd as (_ & Hdis & _).
  assert (forall l, (forall m, m ∈ l -> m ∈ done) -> filter (fun m => migrations db !! Version m = None) l = []) as Hnil.
  { induction l as [|m l IH]; intros Hl; [done|]. rewrite filter_cons_False; [apply IH; intros; apply Hl; by right|].
    rewrite Hrec. intros Hn. apply Hn. apply list_elem_of_fmap_2, Hl. by left. }
  rewrite Hnil by done. clear Hnil. cbn [app].
  induction rest as [|m rest IH]; [done|]. rewrite filter_cons_True.
  - f_equal. apply IH. intros x Hx Hin. apply (Hdis x Hx). by right.
  - apply Hrec. intros Hin. apply (Hdis _ Hin). by left.
Qed.
(** Where a deployment stands: some of the files, from the first on, are applied and recorded. *)
Definition stands_at (migs : list Migration) (s0 : S) (db : DB (S := S)) : Prop :=
  exists done, done `prefix_of` migs /\ run_files done s0 = Some (schema db) /\ recorded done db.

Lemma record_all_unedited f ms t m :
  NoDup (Version <$> ms) -> m ∈ ms -> record_all f ms t !! Version m = Some (status_of f m).
Proof.
  revert t. induction ms as [|x ms IH]; intros t; [by intros _ ?%elem_of_nil|].
  rewrite fmap_cons, NoDup_cons. intros [Hx Hnd] [->|Hm]%elem_of_cons; cbn [record_all foldl].
  - change (foldl _ ?t ms) with (record_all f ms t). clear IH. generalize (lookup_insert_eq t (Version x) (status_of f x)).
    generalize (<[Version x := status_of f x]> t). revert Hx Hnd. induction ms as [|y ms IH]; intros Hx Hnd t' Ht; [done|].
    rewrite fmap_cons, not_elem_of_cons in Hx. rewrite fmap_cons, NoDup_cons in Hnd. cbn [record_all foldl].
    apply IH; [tauto|tauto|]. rewrite lookup_insert_ne; [done|]. intros Heq. by destruct Hx.
  - by apply IH.
Qed.

Lemma record_all_other f ms t v : v ∉ Version <$> ms -> record_all f ms t !! v = t !! v.
Proof.
  revert t. induction ms as [|x ms IH]; intros t; [done|]. rewrite fmap_cons, not_elem_of_cons. intros [Hx Hv].
  cbn [record_all foldl]. change (foldl _ ?t ms) with (record_all f ms t). rewrite IH by done.
  by rewrite lookup_insert_ne by congruence.
Qed.

(** Recording the next files. *)
Lemma recorded_app f done next s' db :
  NoDup (Version <$> done ++ next) -> recorded done db ->
  recorded (done ++ next) (mkDB s' (record_all f next (migrations db))).
Proof.
  intros Hnd [Hrec Hued]. rewrite fmap_app, NoDup_app in Hnd. destruct Hnd as (_ & Hdis & Hnd). split.
  - intros v. cbn. rewrite record_all_lookup, Hrec, fmap_app, elem_of_app. tauto.
  - intros m [Hm|Hm]%elem_of_app st; cbn.
    + rewrite record_all_other by (apply Hdis; by apply list_elem_of_fmap_2). by apply Hued.
    + rewrite record_all_unedited by done. by intros [= <-].
Qed.

Lemma Up_stands f entries migs s0 db res e db' :
  Load entries = Ok migs -> stands_at migs s0 db -> Up exec f entries db = (res, e, db') -> stands_at migs s0 db'.
Proof.
  intros Hload (done & [rest ->] & Hrun & Hrec) Hup. destruct (Load_ok _ _ Hload) as (_ & Hnd & _).
  destruct (Up_spec _ _ _ _ _ _ _ Hload Hup) as (next & s' & Hpre & Hs' & -> & _).
  rewrite (recorded_pending done rest db Hnd Hrec) in Hpre. destruct Hpre as [tail ->].
  exists (done ++ next). split; [exists tail; by rewrite app_assoc|]. split; [by rewrite run_files_app, Hrun|].
  apply recorded_app; [|done]. rewrite app_assoc, fmap_app, NoDup_app in Hnd. tauto.
Qed.

Lemma deploys_stand entries migs s0 db db' :
  Load entries = Ok migs -> deploys entries db db' -> stands_at migs s0 db -> stands_at migs s0 db'.
Proof.
  intros Hload. induction 1 as [|x y z (f & res & e & Hup) _ IH]; [done|]. intros Hs. apply IH. by eapply Up_stands.
Qed.

(** C31: From an empty database, whatever was cut short and wherever (a connection that dies, a
    file whose transaction rolls back, a commit whose answer is lost), the schema is at every
    moment the result of the first files in order, each applied once, and exactly these are
    recorded. The next run that meets no failure applies the rest and no other file, and every
    undisturbed run after it applies nothing and changes nothing. *)
Theorem deploy_converges entries migs s0 s_end db f :
  Load entries = Ok migs -> run_files migs s0 = Some s_end -> deploys entries (mkDB s0 ∅) db -> quiet f ->
  stands_at migs s0 db /\
  exists res db', Up exec f entries db = (res, None, db') /\ schema db' = s_end /\ recorded migs db' /\
    Applied res = Name <$> pending migs db /\
    forall f', quiet f' -> Up exec f' entries db' = (mkResult [] (Z.of_nat (length migs)), None, db').
Proof.
  intros Hload Hall Hdep Hf. destruct (Load_ok _ _ Hload) as (_ & Hnd & _).
  assert (stands_at migs s0 db) as Hs.
  { eapply deploys_stand; [done..|]. exists []. split; [apply prefix_nil|]. split; [done|]. split; [|by intros m ?%elem_of_nil].
    intros v. cbn. rewrite lookup_empty. split; [intros _ ?%elem_of_nil; done|done]. }
  split; [done|].
  assert (forall f db s', quiet f -> (forall m, m ∈ migs -> unedited db m) -> run_files (pending migs db) (schema db) = Some s' ->
    exists n, Up exec f entries db = (mkResult (Name <$> pending migs db) n, None, mkDB s' (record_all f (pending migs db) (migrations db))) /\
      n + Z.of_nat (length (pending migs db)) = Z.of_nat (length migs)) as Hquiet.
  { intros f1 db1 s' Hf1 Hued Hrun. destruct (up_loop_quiet f1 (migrations db1) migs no_result db1 s') as (n & Heq & Hn); try done.
    exists n. unfold Up. rewrite Hload, !(proj1 Hf1). unfold appliedChecksums. rewrite Heq. done. }
  destruct Hs as (done & [rest ->] & Hrun & Hrec).
  assert (pending (done ++ rest) db = rest) as Hpend by by apply recorded_pending.
  rewrite run_files_app, Hrun in Hall. cbn in Hall.
  destruct (Hquiet f db s_end Hf) as (n & Heq & _); [|by rewrite Hpend|].
  { intros m [Hm|Hm]%elem_of_app; [by apply (proj2 Hrec)|]. intros st Hst. exfalso.
    rewrite fmap_app, NoDup_app in Hnd. assert (migrations db !! Version m = None) as Hno; [|congruence].
    apply (proj1 Hrec). intros Hin. apply (proj1 (proj2 Hnd) _ Hin). by apply list_elem_of_fmap_2. }
  rewrite Hpend in Heq. pose proof (recorded_app f done rest s_end db Hnd Hrec) as Hend.
  eexists _, _. split; [exact Heq|]. split; [done|]. split; [exact Hend|]. rewrite Hpend. split; [done|].
  intros f' Hf'. set (db' := mkDB s_end _) in *.
  assert (pending (done ++ rest) db' = []) as Hdone.
  { rewrite <- (app_nil_r (done ++ rest)) at 1. apply recorded_pending; [by rewrite app_nil_r|done]. }
  destruct (Hquiet f' db' s_end Hf') as (k & Heq' & Hk); [apply Hend|by rewrite Hdone|].
  rewrite Hdone in Heq', Hk. rewrite Heq'. cbn in *. by replace k with (Z.of_nat (length (done ++ rest))) by lia.
Qed.

(** An applied file that was edited afterwards is caught: no run ends well while it differs,
    and none gets past it. *)
Lemma edited_file_stops f entries pre m post st db res e db' :
  Load entries = Ok (pre ++ m :: post) -> migrations db !! Version m = Some st -> s_Checksum st <> Checksum m ->
  Up exec f entries db = (res, e, db') ->
  e <> None /\ Forall (fun x => migrations db' !! Version x = migrations db !! Version x) (m :: post).
Proof.
  intros Hload Hst Hne Hup. destruct (Load_ok _ _ Hload) as (_ & Hnd & _).
  destruct (Up_spec _ _ _ _ _ _ _ Hload Hup) as (done & s' & _ & _ & -> & _ & Hed & _).
  destruct (Hed pre m post eq_refl) as [He Hpre]; [intros Hu; by apply Hne, Hu|]. split; [done|].
  apply Forall_forall. intros x Hx. cbn. apply record_all_other. intros Hin.
  apply list_elem_of_fmap in Hin as (y & Hv & Hy). rewrite fmap_app, NoDup_app in Hnd. destruct Hnd as (_ & Hdis & _).
  apply (Hdis (Version x)); [|by apply list_elem_of_fmap_2]. rewrite Hv. apply list_elem_of_fmap_2.
  destruct Hpre as [tail Heq]. assert (y ∈ pending pre db) as Hp by (rewrite Heq; apply elem_of_app; by left).
  unfold pending in Hp. by apply list_elem_of_filter in Hp as [_ ?].
Qed.
End histories.

Module MigrationsDemo.
(** A schema is what was executed, and a file can be broken. *)
Definition exec (sql : string) (s : list string) : option (list string) := if decide (sql = "oops") then None else Some (s ++ [sql]).
Definition files : list Entry :=
  [mkEntry "0001_init.sql" false "create"; mkEntry "0002_auth.sql" false "alter"; mkEntry "migrate.go" false "package"].
Definition migs : list Migration := match Load files with Ok l => l | Err _ => [] end.
Definition calm : Faults := mkFaults (fun _ => false) (fun _ => Committed) 7.
Definition dies : Faults := mkFaults (fun c => match c with Begin "0002_auth.sql" => true | _ => false end) (fun _ => CommittedUnseen) 6.
Definition empty : DB (S := list string) := mkDB [] ∅.
Definition after_loss : DB := (Up exec dies files empty).2.

Example names : Name <$> migs = ["0001_init.sql"; "0002_auth.sql"] /\ Version <$> migs = ["0001"; "0002"].
Proof. vm_compute. done. Qed.

Example lost_commit_resumes :
  (Up exec dies files empty).1 = (mkResult [] 0, Some (CommitFailed "0001_init.sql")) /\
  (Up exec calm files after_loss).1 = (mkResult ["0002_auth.sql"] 1, None) /\
  schema (Up exec calm files after_loss).2 = ["create"; "alter"].
Proof. vm_compute. done. Qed.

Example edited_is_caught :
  (Up exec calm [mkEntry "0001_init.sql" false "create "; mkEntry "0002_auth.sql" false "alter"] after_loss).1 =
    (mkResult [] 0, Some (Edited "0001_init.sql")).
Proof. vm_compute. done. Qed.

Example load_refusals :
  Load [mkEntry "init.sql" false ""] = Err (BadName "init.sql") /\ Load [] = Err NoMigrations /\
  Load [mkEntry "1_a.sql" false ""; mkEntry "1_b.sql" false ""] = Err (DuplicateVersion "1" "1_a.sql" "1_b.sql").
Proof. vm_compute. done. Qed.

(** The seed is documented to run as the application role; with nothing else set it takes the
    owner's connection. *)
Lemma seed_takes_owner_connection :
  appURL (fun key => if decide (key = "MIGRATE_DATABASE_URL") then "postgres://owner@db/x" else "") = "postgres://owner@db/x".
Proof. reflexivity. Qed.

Lemma deploy_converges_witness :
  exists res db', Up exec calm files after_loss = (res, None, db') /\ schema db' = ["create"; "alter"] /\
    Up exec calm files db' = (mkResult [] 2, None, db').
Proof.
  assert (Load files = Ok migs) as Hload by (vm_compute; reflexivity).
  assert (quiet calm) as Hq by (split; reflexivity).
  assert (run_files exec migs [] = Some ["create"; "alter"]) as Hrun by (vm_compute; reflexivity).
  assert (deploys exec files (mkDB [] ∅) after_loss) as Hdep.
  { apply rtc_once. exists dies, (mkResult [] 0), (Some (CommitFailed "0001_init.sql")). vm_compute. reflexivity. }
  destruct (deploy_converges exec files migs [] _ after_loss calm Hload Hrun Hdep Hq) as (_ & res & db' & H1 & H2 & _ & _ & H3).
  exists res, db'. split; [exact H1|]. split; [exact H2|exact (H3 calm Hq)].
Defined.
End MigrationsDemo.
