(* ===== verification/Commands.v ===== *)
(** * The command-line tools

    [cmd/migrate/main.go] (its commands over the migration runner, the tenant store and the
    idempotency store) and [cmd/loadseed/main.go] (the accounts of the load test). A command
    is a function of its arguments and of a [Shell], what it observes of the outside; its lines
    on the standard output are data, not formatted text. *)

From S2P Require Import Prelude Apperr Encoding Ids Db Authz Slug Password Render.
From S2P Require Import Tenant.
From S2P Require Config Startup Token Project Idempotency Migrations ProjectProps AccountProps.

(** ** [migrate] *)

(** The database all connection strings name, with what the commands touch of it. *)
Record Sys {S : Type} := mkSys {
  sys_migrations : Migrations.DB (S := S);
  sys_tenancy : Tenant.DB;
  sys_keys : Idempotency.Table;
}.
Arguments Sys : clear implicits.

Record Shell := mkShell {
  getenv : string -> string;
  NewPool : string -> result string unit;
  Ping : string -> result string unit;
  subjectToRLS : string -> bool;       (* of the role a connection string logs in as *)
  faults : Migrations.Faults;
  files : list Migrations.Entry;
  calls : nat -> Env;                  (* what the n-th seeded tenant's creation observes *)
  rand : nat -> Z;
}.

Inductive command_error :=
  | NoURL
  | OpenPool (text : string)
  | PingFailed (text : string)
  | Migration (e : Migrations.up_error)
  | SeedFailed (slug : string) (e : err)
  | SweepFailed (e : err).

Inductive Line :=
  | Applied (name : string)
  | Summary (applied current : Z)
  | StatusOf (l : Migrations.StatusLine)
  | Skipped (slug : string)
  | Created (slug : string) (id : uuid) (owner : string) (ownerID : uuid)
  | Login (password : string)
  | Probe
  | Swept (removed : Z).

Definition seedPassword : string := "SeedPassw0rd!2026".
Record Seed := mkSeed { s_slug : string; s_name : string; s_ownerEmail : string }.
Definition seeds : list Seed :=
  [mkSeed "acme" "Acme Corp" "owner@acme.test"; mkSeed "globex" "Globex Industries" "owner@globex.test"].

Section migrate.
Context `{Unicode} `{Collation} `{Argon2} {S : Type} (exec : string -> S -> option S) (sh : Shell).

Definition connect (url : string) : result command_error unit :=
  if decide (url = "") then Err NoURL
  else match NewPool sh url with
       | Err text => Err (OpenPool text)
       | Ok _ => match Ping sh url with Err text => Err (PingFailed text) | Ok _ => Ok tt end
       end.

(** What a command wrote, how it ended, and the database after it. *)
Definition Ran : Type := list Line * option command_error * Sys S.
Definition connected (url : string) (sys : Sys S) (body : Ran) : Ran :=
  match connect url with Err e => ([], Some e, sys) | Ok _ => body end.

Definition runUp (sys : Sys S) : Ran :=
  connected (Migrations.ownerURL (getenv sh)) sys
    (let '(res, e, db) := Migrations.Up exec (faults sh) (files sh) (sys_migrations sys) in
     let sys' := mkSys S db (sys_tenancy sys) (sys_keys sys) in
     match e with
     | Some e => ([], Some (Migration e), sys')
     | None => ((Applied <$> Migrations.Applied res) ++
                  [Summary (Z.of_nat (length (Migrations.Applied res))) (Migrations.AlreadyCurrent res)], None, sys')
     end).

Definition runStatus (sys : Sys S) : Ran :=
  connected (Migrations.ownerURL (getenv sh)) sys
    (match Migrations.runStatus (faults sh) (files sh) (sys_migrations sys) with
     | Err e => ([], Some (Migration e), sys)
     | Ok lines => (StatusOf <$> lines, None, sys)
     end).

(** The owner and the tenant of a seed; [env_id] gives the two fresh identifiers. *)
Definition seeded_tenant (env : Env) (s : Seed) : Tenant.Tenant := Tenant.mkTenant (env_id env 0) (s_slug s) (s_name s) 0.
Definition seeded_owner (env : Env) (hash : string) (s : Seed) : Tenant.User := Tenant.mkUser (env_id env 1) (s_ownerEmail s) hash 0.

(** The loop over the seeds, from the [n]-th on. *)
Fixpoint seed_loop (hash : string) (n : nat) (ss : list Seed) (db : Tenant.DB)
    : list Line * option command_error * Tenant.DB :=
  match ss with
  | [] => ([], None, db)
  | s :: rest =>
      let env := calls sh n in
      let '(r, db') := Tenant.CreateTenantWithOwner env (seeded_tenant env s) (seeded_owner env hash s) RoleOwner db in
      match r with
      | Ok _ =>
          let '(lines, e, db'') := seed_loop hash (n + 1) rest db' in
          (Created (s_slug s) (env_id env 0) (s_ownerEmail s) (env_id env 1) :: lines, e, db'')
      | Err e =>
          if Is e ErrConflict
          then let '(lines, e, db'') := seed_loop hash (n + 1) rest db' in (Skipped (s_slug s) :: lines, e, db'')
          else ([], Some (SeedFailed (s_slug s) e), db')
      end
  end.

Definition runSeed (sys : Sys S) : Ran :=
  connected (Migrations.appURL (getenv sh)) sys
    (let hash := HashPassword (rand sh) seedPassword in
     let '(lines, e, db) := seed_loop hash 0 seeds (sys_tenancy sys) in
     let sys' := mkSys S (sys_migrations sys) db (sys_keys sys) in
     match e with
     | Some e => (lines, Some e, sys')
     | None => (lines ++ [Login seedPassword; Probe], None, sys')
     end).

(** [idempotency.NewStore(pool, 0, 0).Sweep(ctx, 0)] *)
Definition runSweep (sys : Sys S) : Ran :=
  let url := Migrations.ownerURL (getenv sh) in
  connected url sys
    (let '(r, tb) := Idempotency.Sweep (Idempotency.store_lease 0) (subjectToRLS sh url) 0 (calls sh 0) (sys_keys sys) in
     let sys' := mkSys S (sys_migrations sys) (sys_tenancy sys) tb in
     match r with Err e => ([], Some (SweepFailed e), sys') | Ok n => ([Swept n], None, sys') end).

(** [main]: the exit status; [args] are the words after the program's name. *)
Definition main (args : list string) (sys : Sys S) : Z * list Line * Sys S :=
  let finish '(lines, e, sys') := (match e with Some _ => 1 | None => 0 end, lines, sys') in
  match args with
  | [] => (2, [], sys)
  | cmd :: _ =>
      if decide (cmd = "up") then finish (runUp sys)
      else if decide (cmd = "status") then finish (runStatus sys)
      else if decide (cmd = "seed") then finish (runSeed sys)
      else if decide (cmd = "sweep") then finish (runSweep sys)
      else (2, [], sys)
  end.
End migrate.

(** ** [loadseed] *)

Definition loadPassword : string := "load-test-password-not-a-secret".
Record session := mkSession { s_Token : string; s_TenantID : string }.

Definition looksLocal (name : string) : bool := bool_decide (name = "tenant_platform" \/ name = "tenant_platform_test").

Inductive load_error :=
  | BadCount
  | BadConfig (e : Config.config_error)
  | NoPool (text : string)
  | NoDatabase (text : string)
  | NotLocal (database : string)
  | BadIssuer (e : err)
  | NoTenant (i : Z) (e : err)
  | NoToken (i : Z) (e : err)
  | NoAccess (i : Z) (e : err)
  | NoProject (i : Z) (e : err)
  | NotWritten (text : string).

Record LoadDB := mkLoadDB { tenancy : Tenant.DB; work : Project.DB }.
Definition set_tenancy (x : Tenant.DB) (db : LoadDB) : LoadDB := mkLoadDB x (work db).
Definition set_work (x : Project.DB) (db : LoadDB) : LoadDB := mkLoadDB (tenancy db) x.

Record LoadShell := mkLoadShell {
  l_getenv : string -> string;
  l_NewPool : string -> result string unit;
  current_database : string -> result string string;
  l_calls : nat -> nat -> Env;        (* what the n-th step of the i-th round observes *)
  l_rand : nat -> Z;                  (* of the password's salt *)
  l_suffix : nat -> Z;                (* of [idgen.ShortSuffix] *)
  WriteFile : string -> list session -> result string unit;
}.

Section loadseed.
Context `{Unicode} `{UUIDLib} `{TimeJSON} `{Argon2} `{Token.JWT} (sh : LoadShell).

Definition load_tenant (env : Env) (suffix : string) (i : Z) : Tenant.Tenant :=
  Tenant.mkTenant (env_id env 0) ("load-" +:+ suffix +:+ "-" +:+ pad_int 3 i) ("Load Tenant " +:+ pad_int 3 i) 0.
Definition load_owner (env : Env) (suffix hash : string) (i : Z) : Tenant.User :=
  Tenant.mkUser (env_id env 1) ("load-" +:+ suffix +:+ "-" +:+ pad_int 3 i +:+ "@load.test") hash 0.
Definition load_project : Project.CreateInput := Project.mkCreateInput "Seed project" "created by cmd/loadseed" "".

(** A failing step ends the command with its round's number. *)
Definition step_of {A} (fail : err -> load_error) (m : SE LoadDB err A) : SE LoadDB load_error A := fun db =>
  match m db with (Err e, db') => (Err (fail e), db') | (Ok a, db') => (Ok a, db') end.

(** One round of the loop: the tenant and its owner, a token, the gate, a project. *)
Definition provision (tokens : Token.TokenIssuer) (suffix hash : string) (n : nat) : SE LoadDB load_error session :=
  let env := l_calls sh n in let i := Z.of_nat n in
  let tid := env_id (env 0%nat) 0 in let owner := env_id (env 0%nat) 1 in
  _ ← step_of (NoTenant i) (zoom tenancy set_tenancy
        (CreateTenantWithOwner (env 0%nat) (load_tenant (env 0%nat) suffix i) (load_owner (env 0%nat) suffix hash i) RoleOwner));
  access ← step_of (NoToken i) (lift (Token.Mint tokens (env 1%nat) owner));
  auth ← step_of (NoAccess i) (zoom tenancy set_tenancy (Resolve tid owner));
  _ ← step_of (NoProject i) (zoom work set_work (Project.Create (env 2%nat) auth load_project));
  mret (mkSession access.1 (uuid_String tid)).

Fixpoint provision_all (tokens : Token.TokenIssuer) (suffix hash : string) (n : nat) (count : nat)
    : SE LoadDB load_error (list session) :=
  match count with
  | O => mret []
  | S count =>
      s ← provision tokens suffix hash n;
      rest ← provision_all tokens suffix hash (n + 1) count;
      mret (s :: rest)
  end.

Definition run (count : nat) (outPath : string) : SE LoadDB load_error (list session) := fun db =>
  match Config.Load (l_getenv sh) with
  | Err e => (Err (BadConfig e), db)
  | Ok cfg =>
      match l_NewPool sh (Config.DatabaseURL cfg), current_database sh (Config.DatabaseURL cfg) with
      | Err text, _ => (Err (NoPool text), db)
      | Ok _, Err text => (Err (NoDatabase text), db)
      | Ok _, Ok dbName =>
          if negb (looksLocal dbName) then (Err (NotLocal dbName), db)
          else match Token.NewTokenIssuer (Config.JWTSecret cfg) Token.DefaultIssuer Token.DefaultAudience (Config.AccessTokenTTL cfg) with
               | Err e => (Err (BadIssuer e), db)
               | Ok tokens =>
                   let hash := HashPassword (l_rand sh) loadPassword in
                   (sessions ← provision_all tokens (ShortSuffix (l_suffix sh) 8) hash 0 count;
                    match WriteFile sh outPath sessions with
                    | Err text => throw (NotWritten text)
                    | Ok _ => mret sessions
                    end) db
               end
      end
  end.

(** [main], the flags parsed. *)
Definition loadseed (tenants : Z) (out : string) : SE LoadDB load_error (list session) :=
  if (tenants <? 1) || (500 <? tenants) then throw BadCount else run (Z.to_nat tenants) out.
End loadseed.

(** ** Seeding *)

Lemma has_slug_true db slug : has_slug db slug = true <-> exists i t, tenants db !! i = Some t /\ t_Slug t = slug.
Proof.
  unfold has_slug. rewrite existsb_exists. split.
  - intros ([i t] & Hin%list_elem_of_In%elem_of_map_to_list & Hs%bool_decide_eq_true). by exists i, t.
  - intros (i & t & Hi & Hs). exists (i, t). split; [by apply list_elem_of_In, elem_of_map_to_list|by apply bool_decide_eq_true].
Qed.

Lemma has_email_true db email : has_email db email = true <-> exists i u, users db !! i = Some u /\ u_Email u = email.
Proof.
  unfold has_email. rewrite existsb_exists. split.
  - intros ([i u] & Hin%list_elem_of_In%elem_of_map_to_list & Hs%bool_decide_eq_true). by exists i, u.
  - intros (i & u & Hi & Hs). exists (i, u). split; [by apply list_elem_of_In, elem_of_map_to_list|by apply bool_decide_eq_true].
Qed.

Section create.
Context `{Unicode} (env : Env) (t : Tenant.Tenant) (o : User) (email : string).

(** With an input the store and the tables accept and identifiers nobody has, a creation
    is decided by the slug and the address: free, it is made; taken, it is a conflict. *)
Lemma CreateTenantWithOwner_decided db :
  validateNewTenant t = Ok tt -> u_ID o <> uuid_Nil -> normalizeEmail (u_Email o) = Ok email ->
  1 <= char_length (t_Name t) <= 200 -> to_lower email = email -> 3 <= char_length email <= 320 ->
  8 <= char_length (u_PWHash o) ->
  DB_wf db -> tenants db !! t_ID t = None -> users db !! u_ID o = None ->
  if has_slug db (t_Slug t) || has_email db email
  then exists e, CreateTenantWithOwner env t o RoleOwner db = (Err e, db) /\ Is e ErrConflict = true
  else exists db', CreateTenantWithOwner env t o RoleOwner db = (Ok tt, db').
Proof.
  intros Hv Ho He Hn Hl Hel Hh Hwf Ht Hu.
  assert (t_ID t <> uuid_Nil /\ slugPattern (t_Slug t) = true) as [Hnil Hs].
  { unfold validateNewTenant in Hv. case_decide; [done|]. split; [done|]. by destruct (slugPattern _). }
  destruct (CreateTenantWithOwner env t o RoleOwner db) as [res db'] eqn:E.
  unfold CreateTenantWithOwner, mbind, SE_bind, lift in E. rewrite Hv, decide_False in E by done.
  change (Role_Valid RoleOwner) with true in E. cbn [negb] in E. rewrite He in E.
  rewrite WithIdentityTx_run in E by (unfold Identity_Valid; cbn; by rewrite bool_decide_eq_true_2).
  unfold BeginFunc, or_fail, insert_tenant, tenant_is, set_unless_nil in E. cbn [id_TenantID id_UserID SettingTenantID] in E.
  rewrite (decide_False (P := t_ID t = uuid_Nil)), bool_decide_eq_true_2, Hs, (proj2 (Z.leb_le _ _) (proj1 Hn)),
    (proj2 (Z.leb_le _ _) (proj2 Hn)), Ht in E by done. cbn [andb negb] in E.
  rewrite bool_decide_eq_false_2 in E by (by intros [? ?]). cbn [orb] in E. destruct (has_slug db _) eqn:Hsl; cbn [orb].
  { injection E as <- <-. eexists. split; [reflexivity|vm_compute; reflexivity]. }
  unfold insert_user in E. cbn [users] in E. rewrite (bool_decide_eq_true_2 _ Hl), (proj2 (Z.leb_le _ _) (proj1 Hel)),
    (proj2 (Z.leb_le _ _) (proj2 Hel)), (proj2 (Z.leb_le _ _) Hh), Hu in E. cbn [andb negb] in E.
  rewrite bool_decide_eq_false_2 in E by (by intros [? ?]). cbn [orb] in E.
  match type of E with context [has_email (mkDB ?a (users db) ?b) email] =>
    change (has_email (mkDB a (users db) b) email) with (has_email db email) in E end.
  destruct (has_email db email).
  { injection E as <- <-. eexists. split; [reflexivity|vm_compute; reflexivity]. }
  unfold insert_membership, tenant_is in E. cbn [SettingTenantID memberships tenants users] in E.
  rewrite bool_decide_eq_true_2 in E by done. change (negb (bool_decide (RoleOwner ∈ _))) with false in E. cbn [negb] in E.
  destruct (memberships db !! (t_ID t, u_ID o)) as [[r at_]|] eqn:Hm.
  { exfalso. destruct (wf_member _ Hwf _ _ _ _ Hm) as (_ & [? Hx] & _). congruence. }
  rewrite bool_decide_eq_false_2 in E by (by intros [? ?]). rewrite !lookup_insert_eq, !bool_decide_eq_true_2 in E by eauto.
  injection E as <- <-. eauto.
Qed.
End create.

(** The seeds' owners carry a digest the users' table accepts. *)
Lemma HashPassword_long `{Argon2} rand pw : 8 <= char_length (HashPassword rand pw).
Proof.
  unfold HashPassword, encode_hash, char_length. cbn [String.append].
  do 8 (match goal with |- context [bytes_of (String ?c ?s)] => change (bytes_of (String c s)) with (byte_of c :: bytes_of s) end;
        rewrite filter_cons_True by (left; done)). cbn [length]. lia.
Qed.

Section seeding.
Context `{Unicode}.

(** What the store and the tables ask of a seed. *)
Definition plausible (s : Seed) : bool :=
  slugPattern (s_slug s) && (1 <=? slen (trim_space (s_name s))) && (slen (trim_space (s_name s)) <=? 200) &&
  (1 <=? char_length (s_name s)) && (char_length (s_name s) <=? 200) &&
  (3 <=? char_length (s_ownerEmail s)) && (char_length (s_ownerEmail s) <=? 320) &&
  bool_decide (to_lower (s_ownerEmail s) = s_ownerEmail s) &&
  match normalizeEmail (s_ownerEmail s) with Ok e => bool_decide (e = s_ownerEmail s) | Err _ => false end.

Lemma seeds_plausible : Forall (fun s => plausible s = true) seeds.
Proof. repeat constructor; vm_compute; reflexivity. Qed.

(** A seed is skipped when its slug or its owner's address is in use. *)
Definition taken (db : DB) (s : Seed) : bool := has_slug db (s_slug s) || has_email db (s_ownerEmail s).

Lemma taken_grows db db' s : DB_grows db db' -> taken db s = true -> taken db' s = true.
Proof.
  intros (Ht & Hu & _) [Hs|He]%orb_true_iff; apply orb_true_iff.
  - left. apply has_slug_true in Hs as (i & t & Hi & Hs). apply has_slug_true. exists i, t. split; [by eapply lookup_weaken|done].
  - right. apply has_email_true in He as (i & u & Hi & He). apply has_email_true. exists i, u. split; [by eapply lookup_weaken|done].
Qed.

(** Fresh identifiers: nobody's, and all different. *)
Definition fresh (sh : Shell) (n : nat) (db : DB) : Prop :=
  (forall m k i, env_id (calls sh m) i <> uuid_Nil /\ (env_id (calls sh m) i = env_id (calls sh k) i -> m = k)) /\
  forall m, (n <= m)%nat -> tenants db !! env_id (calls sh m) 0 = None /\ users db !! env_id (calls sh m) 1 = None.

(** What a line says of a seed, in the tables after the run. *)
Definition line_true (hash : string) (db : DB) (s : Seed) (l : Line) : Prop :=
  l = Skipped (s_slug s) \/
  exists id ownerID now, l = Created (s_slug s) id (s_ownerEmail s) ownerID /\
    tenants db !! id = Some (mkTenant id (s_slug s) (s_name s) now) /\
    users db !! ownerID = Some (mkUser ownerID (s_ownerEmail s) hash now) /\
    memberships db !! (id, ownerID) = Some (RoleOwner, now).

Lemma line_true_grows hash db db' s l : DB_grows db db' -> line_true hash db s l -> line_true hash db' s l.
Proof.
  intros (Ht & Hu & Hm) [->|(id & o & now & -> & H1 & H2 & H3)]; [by left|]. right. exists id, o, now.
  split_and!; try done; by eapply lookup_weaken.
Qed.

(** One seed: made when nothing of it is taken, skipped otherwise. *)
Lemma seed_one sh hash n s db :
  plausible s = true -> 8 <= char_length hash -> DB_wf db -> fresh sh n db ->
  let env := calls sh n in
  if taken db s
  then exists e, CreateTenantWithOwner env (seeded_tenant env s) (seeded_owner env hash s) RoleOwner db = (Err e, db) /\
         Is e ErrConflict = true
  else exists db', CreateTenantWithOwner env (seeded_tenant env s) (seeded_owner env hash s) RoleOwner db = (Ok tt, db') /\
         DB_wf db' /\ DB_grows db db' /\ taken db' s = true /\ fresh sh (n + 1) db' /\
         line_true hash db' s (Created (s_slug s) (env_id env 0) (s_ownerEmail s) (env_id env 1)).
Proof.
  intros Hp Hh Hwf [Hids Hnew] env. unfold plausible in Hp. rewrite !andb_true_iff in Hp.
  destruct Hp as [[[[[[[[Hs H1] H2] H3] H4] H5] H6] H7%bool_decide_eq_true] H8].
  destruct (normalizeEmail _) as [em|] eqn:He; [|done]. apply bool_decide_eq_true in H8 as ->.
  destruct (Hids n 0%nat 0%nat) as [Hnil0 _]. destruct (Hids n 0%nat 1%nat) as [Hnil1 _]. destruct (Hnew n) as [Ht Hu]; [lia|].
  pose proof (CreateTenantWithOwner_decided env (seeded_tenant env s) (seeded_owner env hash s) (s_ownerEmail s) db) as Hd.
  cbn [seeded_tenant seeded_owner t_ID t_Slug t_Name u_ID u_Email u_PWHash] in Hd. fold (taken db s) in Hd.
  assert (validateNewTenant (seeded_tenant env s) = Ok tt) as Hv.
  { apply Z.leb_le in H1, H2. unfold validateNewTenant, seeded_tenant. cbn [t_ID t_Slug t_Name].
    rewrite decide_False, Hs, (proj2 (Z.ltb_ge _ _) H1), (proj2 (Z.ltb_ge _ _) H2) by done. done. }
  specialize (Hd Hv Hnil1 He ltac:(lia) H7 ltac:(lia) Hh Hwf Ht Hu).
  destruct (taken db s); [done|]. destruct Hd as (db' & Hrun). exists db'. split; [done|].
  destruct (CreateTenantWithOwner_wf _ _ _ _ _ _ _ Hrun Hwf) as [Hwf' Hg]. do 2 (split; [done|]).
  apply CreateTenantWithOwner_Ok in Hrun as (em & Hem & _ & _ & _ & _ & _ & _ & _ & ->).
  cbn [seeded_owner u_Email] in Hem. rewrite He in Hem. injection Hem as <-. split_and!.
  - apply orb_true_iff. left. apply has_slug_true. cbn. eexists _, _. by rewrite lookup_insert_eq.
  - split; [done|]. cbn. intros m Hm. destruct (Hnew m) as [Ht' Hu']; [lia|].
    split; rewrite lookup_insert_ne; try done; intros ?%(Hids n m); lia.
  - right. exists (env_id env 0), (env_id env 1), (env_now env). cbn. by rewrite !lookup_insert_eq.
Qed.

Lemma seed_loop_spec sh hash ss n db :
  Forall (fun s => plausible s = true) ss -> 8 <= char_length hash -> DB_wf db -> fresh sh n db ->
  exists lines db', seed_loop sh hash n ss db = (lines, None, db') /\ DB_wf db' /\ DB_grows db db' /\
    Forall2 (line_true hash db') ss lines /\ Forall (fun s => taken db' s = true) ss.
Proof.
  intros Hp Hh. revert n db. induction Hp as [|s ss Hs _ IH]; intros n db Hwf Hf.
  { exists [], db. by split_and!. }
  pose proof (seed_one sh hash n s db Hs Hh Hwf Hf) as Hone. cbn [seed_loop]. destruct (taken db s) eqn:Ht.
  - destruct Hone as (e & -> & ->). destruct (IH (n + 1)%nat db Hwf) as (lines & db' & -> & Hwf' & Hg & Hl & Hall).
    { destruct Hf as [Hids Hnew]. split; [done|]. intros m Hm. apply Hnew. lia. }
    exists (Skipped (s_slug s) :: lines), db'. split_and!; try done.
    + constructor; [by left|done].
    + constructor; [by eapply taken_grows|done].
  - destruct Hone as (db1 & -> & Hwf1 & Hg1 & Ht1 & Hf1 & Hl1).
    destruct (IH (n + 1)%nat db1 Hwf1 Hf1) as (lines & db' & -> & Hwf' & Hg & Hl & Hall).
    eexists (_ :: lines), db'. split_and!; [done|done|by etrans| |].
    + constructor; [by eapply line_true_grows|done].
    + constructor; [by eapply taken_grows|done].
Qed.

Lemma seed_loop_again sh hash ss n db :
  Forall (fun s => plausible s = true) ss -> 8 <= char_length hash -> DB_wf db -> fresh sh n db ->
  Forall (fun s => taken db s = true) ss ->
  seed_loop sh hash n ss db = ((fun s => Skipped (s_slug s)) <$> ss, None, db).
Proof.
  intros Hp Hh Hwf Hf Hall. revert n Hf Hp. induction Hall as [|s ss Ht _ IH]; intros n Hf Hp; [done|].
  apply Forall_cons in Hp as [Hs Hp]. pose proof (seed_one sh hash n s db Hs Hh Hwf Hf) as Hone. rewrite Ht in Hone.
  destruct Hone as (e & He & Hc). cbn [seed_loop]. rewrite He, Hc, IH; [done| |done].
  destruct Hf as [Hids Hnew]. split; [done|]. intros m Hm. apply Hnew. lia.
Qed.
End seeding.

Section commands.
Context `{Unicode} `{Collation} `{Argon2} {S : Type} (exec : string -> S -> option S).

(** The seed command converges: once a connection is had it succeeds on any well-formed tables,
    whatever part of the seeds is there already; every line it wrote as created is a tenant with
    its owner, who logs in with the announced password; and running it again, whoever runs it,
    skips every seed and changes nothing. *)
Theorem seed_converges (sh : Shell) (sys : Sys S) :
  connect sh (Migrations.appURL (getenv sh)) = Ok tt -> DB_wf (sys_tenancy sys) -> fresh sh 0 (sys_tenancy sys) ->
  exists lines db',
    runSeed sh sys = (lines ++ [Login seedPassword; Probe], None, mkSys S (sys_migrations sys) db' (sys_keys sys)) /\
    DB_wf db' /\ DB_grows (sys_tenancy sys) db' /\ Forall2 (line_true (HashPassword (rand sh) seedPassword) db') seeds lines /\
    forall sh', connect sh' (Migrations.appURL (getenv sh')) = Ok tt -> fresh sh' 0 db' ->
      let after := mkSys S (sys_migrations sys) db' (sys_keys sys) in
      runSeed sh' after = (((fun s => Skipped (s_slug s)) <$> seeds) ++ [Login seedPassword; Probe], None, after).
Proof.
  intros Hc Hwf Hf.
  destruct (seed_loop_spec sh (HashPassword (rand sh) seedPassword) seeds 0 _ seeds_plausible (HashPassword_long _ _) Hwf Hf)
    as (lines & db' & Hrun & Hwf' & Hg & Hl & Hall).
  exists lines, db'. split_and!; try done.
  - unfold runSeed, connected. by rewrite Hc, Hrun.
  - intros sh' Hc' Hf' after. unfold runSeed, connected. rewrite Hc'. cbn [sys_tenancy after].
    by rewrite (seed_loop_again sh' _ seeds 0 db' seeds_plausible (HashPassword_long _ _) Hwf' Hf' Hall).
Qed.

(** Each command changes its own part of the database only, and none changes anything without
    a connection. *)
Lemma main_frame (sh : Shell) args (sys : Sys S) status lines sys' :
  main exec sh args sys = (status, lines, sys') ->
  (sys_migrations sys' = sys_migrations sys \/ args !! 0%nat = Some "up") /\
  (sys_tenancy sys' = sys_tenancy sys \/ args !! 0%nat = Some "seed") /\
  (sys_keys sys' = sys_keys sys \/ args !! 0%nat = Some "sweep") /\
  ((forall url, is_ok (connect sh url) = false) -> sys' = sys /\ lines = [] /\ (status = 1 \/ status = 2)).
Proof.
  unfold main. destruct args as [|cmd args]; [intros [= <- <- <-]; split_and!; eauto|].
  repeat case_decide; subst; unfold runUp, runStatus, runSeed, runSweep, connected; intros Hrun;
    [..|injection Hrun as <- <- <-; split_and!; eauto].
  all: destruct (connect _ _) eqn:Hc in Hrun; repeat case_match; simplify_eq; cbn; split_and!; eauto;
    intros Hno; exfalso; match type of Hc with connect _ ?url = _ => specialize (Hno url) end; by rewrite Hc in Hno.
Qed.

(** A sweep under a role the policies bind refuses, and says why. *)
Lemma runSweep_refuses (sh : Shell) (sys : Sys S) :
  connect sh (Migrations.ownerURL (getenv sh)) = Ok tt -> subjectToRLS sh (Migrations.ownerURL (getenv sh)) = true ->
  exists e, runSweep sh sys = ([], Some (SweepFailed e), sys) /\ Is e ErrSweepNeedsPrivilegedRole = true.
Proof.
  intros Hc Hr. unfold runSweep, connected. rewrite Hc, Hr. destruct sys. eexists. split; [reflexivity|vm_compute; reflexivity].
Qed.
End commands.

(** ** The load test's accounts *)

Lemma Resolve_Ok `{Unicode} tid u db a db' :
  Resolve tid u db = (Ok a, db') ->
  db' = db /\ exists r at_, memberships db !! (tid, u) = Some (r, at_) /\ newAuthorized tid u r = Ok a.
Proof.
  unfold Resolve, NewScope. case_decide; [done|]. case_decide; [done|]. intros Hrun. inv_bind.
  match goal with H : Authorize _ _ _ = _ |- _ => rename H into Ha end. apply lift_Ok in Hrun as [Hr ->].
  unfold Authorize in Ha. destruct (negb _) in Ha; [done|]. case_decide; [done|].
  apply or_fail_Ok, WithIdentityTx_Ok in Ha. unfold select_role in Ha.
  destruct (memberships db !! _) as [[r at_]|] eqn:Hm; [|done]. destruct (memberships_select _ _ _); [|done].
  injection Ha as <- <-. split; [done|]. by exists r, at_.
Qed.

Lemma step_of_Ok {A} fail (m : SE LoadDB err A) db a db' : step_of fail m db = (Ok a, db') <-> m db = (Ok a, db').
Proof. unfold step_of. destruct (m db) as [[b|e] s]; naive_solver. Qed.

Section load.
Context `{Unicode} `{UUIDLib} `{TimeJSON} `{Argon2} `{Token.JWT} (sh : LoadShell).

(** What a session in the file opens, in the tables after the run. *)
Definition opens (tokens : Token.TokenIssuer) (db : LoadDB) (s : session) : Prop :=
  exists tid owner env c now p,
    s_TenantID s = uuid_String tid /\ tid <> uuid_Nil /\ Token.Mint tokens env owner = Ok (s_Token s, c) /\
    memberships (tenancy db) !! (tid, owner) = Some (RoleOwner, now) /\
    Project.projects (work db) !! Project.ID p = Some p /\ Project.TenantID p = tid /\ Project.ArchivedAt p = None.

Definition grows (db db' : LoadDB) : Prop :=
  DB_grows (tenancy db) (tenancy db') /\ Project.projects (work db) ⊆ Project.projects (work db').

#[local] Instance grows_preorder : PreOrder grows.
Proof. split; [by intros db; split|]. intros a b c [? ?] [? ?]. split; by etrans. Qed.

Lemma opens_grows tokens db db' s : grows db db' -> opens tokens db s -> opens tokens db' s.
Proof.
  intros [(_ & _ & Hm) Hp] (tid & o & env & c & now & p & ? & ? & ? & ? & ? & ? & ?).
  exists tid, o, env, c, now, p. split_and!; try done; by eapply lookup_weaken.
Qed.

Lemma provision_opens tokens suffix hash n db s db' :
  provision sh tokens suffix hash n db = (Ok s, db') -> DB_wf (tenancy db) ->
  DB_wf (tenancy db') /\ grows db db' /\ opens tokens db' s.
Proof.
  unfold provision. intros Hrun Hwf. inv_bind. repeat match goal with H : step_of _ _ _ = _ |- _ => apply step_of_Ok in H end.
  injection Hrun as <- <-.
  repeat match goal with H : zoom _ _ _ _ = _ |- _ => apply zoom_Ok in H as (? & ? & ->) end.
  match goal with H : lift _ _ = _ |- _ => apply lift_Ok in H as [Hmint ->] end.
  match goal with H : Resolve _ _ _ = _ |- _ => apply Resolve_Ok in H as (-> & r & at_ & Hmem & Hauth) end.
  match goal with H : CreateTenantWithOwner _ _ _ _ _ = (Ok ?u, _) |- _ => destruct u; rename H into Hc end.
  match goal with H : Project.Create _ _ _ _ = _ |- _ => rename H into Hp end.
  destruct (CreateTenantWithOwner_wf _ _ _ _ _ _ _ Hc Hwf) as [Hwf' Hg].
  apply ProjectProps.Create_cases in Hp as (v & row & _ & Hproj & _ & _ & Hnew & _ & -> & _).
  unfold newAuthorized in Hauth. destruct (negb _) eqn:Hscope in Hauth; [done|]. case_decide; [done|].
  destruct (negb _) in Hauth; [done|]. injection Hauth as <-. cbn [tenancy work set_tenancy set_work] in *.
  pose proof (CreateTenantWithOwner_Ok _ _ _ _ _ _ Hc) as (em & _ & _ & _ & _ & _ & _ & _ & _ & Hdb).
  split; [done|]. split.
  { split; [done|]. cbn. by apply insert_subseteq. }
  match type of Hmint with _ = Ok ?x => destruct x as [raw c] end. eexists _, _, _, c, _, _. cbn. split_and!; [done| |exact Hmint| |by rewrite lookup_insert_eq|by rewrite Hproj|by rewrite Hproj].
  - intros Hz. cbn in Hz. by rewrite Hz in Hscope.
  - rewrite Hdb. cbn. by rewrite lookup_insert_eq.
Qed.

Lemma provision_all_opens tokens suffix hash count n db ss db' :
  provision_all sh tokens suffix hash n count db = (Ok ss, db') -> DB_wf (tenancy db) ->
  DB_wf (tenancy db') /\ grows db db' /\ length ss = count /\ Forall (opens tokens db') ss.
Proof.
  revert n db ss db'. induction count as [|count IH]; intros n db ss db' Hrun Hwf.
  { injection Hrun as <- <-. by split_and!. }
  cbn [provision_all] in Hrun. apply SE_bind_inv in Hrun as (s & db1 & H1' & Hrun).
  apply SE_bind_inv in Hrun as (rest & db2 & H2' & [= <- <-]).
  destruct (provision_opens _ _ _ _ _ _ _ H1' Hwf) as (Hwf1 & Hg1 & Ho).
  destruct (IH _ _ _ _ H2' Hwf1) as (Hwf2 & Hg2 & <- & Hall). split_and!; [done|by etrans|done|].
  constructor; [by eapply opens_grows|done].
Qed.
End load.

(** Nothing is provisioned in a database that is not recognised as local, nor with a count out
    of range. *)
Lemma loadseed_refuses `{Unicode} `{UUIDLib} `{TimeJSON} `{Argon2} `{Token.JWT} (sh : LoadShell) tenants out db :
  ~ (1 <= tenants <= 500) \/
  (forall cfg, Config.Load (l_getenv sh) = Ok cfg ->
     match current_database sh (Config.DatabaseURL cfg) with Ok name => looksLocal name = false | Err _ => True end) ->
  exists e, loadseed sh tenants out db = (Err e, db).
Proof.
  unfold loadseed, throw. destruct (_ || _) eqn:Hc; [by eauto|]. apply orb_false_iff in Hc as [H1'%Z.ltb_ge H2'%Z.ltb_ge].
  intros [Hn|Hl]; [lia|]. unfold run. destruct (Config.Load _) as [cfg|e]; [|by eauto]. specialize (Hl cfg eq_refl).
  destruct (l_NewPool _ _); [|by eauto]. destruct (current_database _ _); [|by eauto]. rewrite Hl. by eauto.
Qed.

(** The file of a load test that succeeded works: it holds one session per tenant asked for;
    the service takes each token, within its window, for the owner of the tenant beside it, its
    gate lets that owner do there what owners may, and a listing there is not empty. *)
Theorem load_sessions_open `{Unicode} `{UUIDLaws} `{TimeJSON} `{Argon2} `{Token.JWTLaws} (sh : LoadShell) tenants out db ss db' :
  loadseed sh tenants out db = (Ok ss, db') -> DB_wf (tenancy db) ->
  exists cfg tokens, Config.Load (l_getenv sh) = Ok cfg /\
    Token.NewTokenIssuer (Config.JWTSecret cfg) Token.DefaultIssuer Token.DefaultAudience (Config.AccessTokenTTL cfg) = Ok tokens /\
    WriteFile sh out ss = Ok tt /\ Z.of_nat (length ss) = tenants /\ DB_wf (tenancy db') /\ grows db db' /\
    Forall (fun s => exists tid owner minted p,
      s_TenantID s = uuid_String tid /\
      (forall now, Token.accepts tokens tokens minted now = true ->
         exists c, Token.Parse tokens now (s_Token s) = Ok c /\ Token.UserID c = owner) /\
      (forall perm, is_ok (guarded_route perm (Some (mkPrincipal owner uuid_Nil "" [] MethodJWT uuid_Nil)) (s_TenantID s)
                             (tenancy db')).1 = Can RoleOwner perm) /\
      Project.projects (work db') !! Project.ID p = Some p /\ Project.TenantID p = tid /\ Project.ArchivedAt p = None) ss.
Proof.
  unfold loadseed, throw. destruct (_ || _) eqn:Hc; [done|]. apply orb_false_iff in Hc as [H1'%Z.ltb_ge H2'%Z.ltb_ge].
  unfold run. intros Hrun Hwf. destruct (Config.Load _) as [cfg|] eqn:Hcfg; [|done].
  destruct (l_NewPool _ _); [|done]. destruct (current_database _ _); [|done]. destruct (negb _); [done|].
  destruct (Token.NewTokenIssuer _ _ _ _) as [tokens|] eqn:Htok; [|done].
  apply SE_bind_inv in Hrun as (ss' & db1 & Hall & Hw). destruct (WriteFile sh out ss') as [[]|] eqn:Hf; [|done].
  injection Hw as <- <-. destruct (provision_all_opens _ _ _ _ _ _ _ _ _ Hall Hwf) as (Hwf' & Hg & Hlen & Hop).
  exists cfg, tokens. split_and!; try done; [lia|]. eapply Forall_impl; [exact Hop|].
  intros s (tid & o & env & c & now & p & Hid & Hnil & Hmint & Hmem & Hp1 & Hp2 & Hp3).
  assert (o <> uuid_Nil) as Ho by (unfold Token.Mint in Hmint; by case_decide).
  exists tid, o, (env_time env), p. split_and!; try done.
  - intros at_ Ha. pose proof (Token.Parse_minted tokens tokens env o _ c at_ eq_refl Hmint) as Hp. rewrite Ha in Hp. eauto.
  - intros perm. rewrite Hid. rewrite (AccountProps.guarded_route_human perm _ _ tid) by (done || apply uuid_Parse_String).
    cbn [Authz.UserID]. by rewrite Hmem.
Qed.

Module CommandsDemo.
#[local] Existing Instance DemoUnicode.
#[local] Existing Instance DemoUUID.lib.
#[local] Existing Instance DemoUUID.laws.
#[local] Existing Instance Token.TokenDemo.jwt.
#[local] Existing Instance Token.TokenDemo.jwt_laws.
#[local] Existing Instance PasswordDemo.argon2.
#[local] Instance demo_time : TimeJSON := {| time_json t := JNum t |}.
#[local] Instance demo_collation : Collation := {| text_leb := String.leb |}.

(** Every connection answers; the [n]-th step sees identifiers from [base + 10 n] on. *)
Definition env (base : N) (n : nat) : Env :=
  mkEnv 1000 1000 (fun i => (base + 10 * N.of_nat n + N.of_nat i)%N) (fun i => N.of_nat i) (fun i => Z.of_nat i) "".
Definition shell (base : N) (vars : list (string * string)) : Shell :=
  mkShell (Config.ConfigDemo.env_of vars) (fun _ => Ok tt) (fun _ => Ok tt) (fun url => String.eqb url "app")
    Migrations.MigrationsDemo.calm Migrations.MigrationsDemo.files (env base) (fun i => Z.of_nat i).
Definition both : list (string * string) := [("MIGRATE_DATABASE_URL", "owner"); ("DATABASE_URL", "app")].
Definition blank : Sys (list string) := mkSys _ Migrations.MigrationsDemo.empty empty_DB ∅.
Definition go (base : N) (vars : list (string * string)) (args : list string) (sys : Sys (list string)) :=
  main Migrations.MigrationsDemo.exec (shell base vars) args sys.

Example a_first_day :
  let '(s1, l1, sys1) := go 100 both ["up"] blank in
  let '(s2, l2, sys2) := go 100 both ["seed"] sys1 in
  let '(s3, l3, sys3) := go 200 both ["seed"] sys2 in
  (s1, l1) = (0, [Applied "0001_init.sql"; Applied "0002_auth.sql"; Summary 2 0]) /\
  (s2, l2) = (0, [Created "acme" 100%N "owner@acme.test" 101%N; Created "globex" 110%N "owner@globex.test" 111%N; Login seedPassword; Probe]) /\
  (s3, l3) = (0, [Skipped "acme"; Skipped "globex"; Login seedPassword; Probe]) /\ sys3 = sys2.
Proof. vm_compute. done. Qed.

Example command_refusals :
  (go 100 [] ["up"] blank).1 = (1, []) /\ (go 100 both [] blank).1 = (2, []) /\ (go 100 both ["down"] blank).1 = (2, []) /\
  (go 100 both ["sweep"] blank).1 = (0, [Swept 0]) /\ (go 100 [("DATABASE_URL", "app")] ["sweep"] blank).1 = (1, []).
Proof. vm_compute. done. Qed.

(** An owner's address that is in use skips the tenant as well, and the line still says that
    the tenant is there. *)
Lemma skipped_tenant_absent :
  let db := (CreateTenantWithOwner (env 500 0) (mkTenant 500%N "other" "Other" 0)
               (mkUser 501%N "owner@acme.test" "digest-digest" 0) RoleOwner empty_DB).2 in
  let '(_, lines, sys) := go 100 both ["seed"] (mkSys _ Migrations.MigrationsDemo.empty db ∅) in
  lines !! 0%nat = Some (Skipped "acme") /\ has_slug (sys_tenancy sys) "acme" = false.
Proof. vm_compute. done. Qed.

Definition load_shell (database : string) : LoadShell :=
  mkLoadShell (Config.ConfigDemo.env_of Config.ConfigDemo.minimal) (fun _ => Ok tt) (fun _ => Ok database)
    (fun n k => env (1000 * N.of_nat (n + 1)) k) (fun i => Z.of_nat i) (fun i => Z.of_nat i) (fun _ _ => Ok tt).
Definition no_load : LoadDB := mkLoadDB empty_DB Project.empty_DB.

Example remote_refused : loadseed (load_shell "production") 2 "sessions.json" no_load = (Err (NotLocal "production"), no_load).
Proof. vm_compute. done. Qed.

Example two_provisioned :
  let '(res, db) := loadseed (load_shell "tenant_platform") 2 "sessions.json" no_load in
  is_ok res = true /\ (t_Slug <$> tenants (tenancy db) !! 1000%N) = Some "load-00010203-000" /\ (t_Slug <$> tenants (tenancy db) !! 2000%N) = Some "load-00010203-001" /\
  size (Project.projects (work db)) = 2%nat.
Proof. vm_compute. done. Qed.

Lemma seed_converges_witness :
  exists lines db', runSeed (shell 100 both) blank = (lines ++ [Login seedPassword; Probe], None,
      mkSys _ Migrations.MigrationsDemo.empty db' ∅) /\ DB_wf db' /\ length lines = 2%nat.
Proof.
  assert (fresh (shell 100 both) 0 (sys_tenancy blank)) as Hf.
  { split; [|done]. intros m k i. cbn [shell calls env env_id]. split; [unfold uuid_Nil; lia|lia]. }
  destruct (seed_converges (shell 100 both) blank eq_refl tenant_empty_wf Hf) as (lines & db' & Hrun & Hwf & _ & Hl & _).
  exists lines, db'. split; [exact Hrun|]. split; [exact Hwf|]. by apply Forall2_length in Hl.
Defined.

Lemma load_sessions_open_witness :
  exists ss db', loadseed (load_shell "tenant_platform") 2 "sessions.json" no_load = (Ok ss, db') /\ length ss = 2%nat.
Proof.
  destruct (loadseed (load_shell "tenant_platform") 2 "sessions.json" no_load) as [[ss|e] db'] eqn:E;
    [|exfalso; vm_compute in E; discriminate].
  destruct (load_sessions_open _ _ _ _ _ _ E tenant_empty_wf) as (_ & _ & _ & _ & _ & Hlen & _).
  exists ss, db'. split; [reflexivity|lia].
Defined.
End CommandsDemo.
