(* ===== verification/Lifecycle.v ===== *)
(** * The life of the processes

    From the moment [cmd/api/main.go] and [cmd/worker/main.go] have built what [Startup]
    describes until they exit: the listener's goroutine and its channel, the signal, the
    [select] of the main goroutine, the drain. The goroutines interleave: a process is a state
    with a step relation. The server of net/http is modelled as far as the shutdown needs it:
    a connection whose request has begun is served during a drain, [ListenAndServe] returns
    [ErrServerClosed] once [Shutdown] was called, and [Shutdown] returns nil when it finds no
    request open and its context's error otherwise. Times are nanoseconds of the process. *)

From S2P Require Import Prelude.

Definition Second : Z := 1000000000.

(** What [ListenAndServe] has come to; [None] is [http.ErrServerClosed], which closes the
    channel without a value. *)
Inductive Serve := Listening | Returned (e : option string).

(** The listener of a server that is told to shut down. *)
Definition shut (s : Serve) : Serve := match s with Listening => Returned None | Returned e => Returned e end.

(** ** The API *)

Definition requestTimeout : Z := 15 * Second.
Definition shutdownGrace : Z := 20 * Second.
Definition ReadHeaderTimeout : Z := 5 * Second.

Inductive exit_error :=
  | ServerFailed (e : option string)    (* [fmt.Errorf("server: %w", err)]; [None]: a nil error *)
  | ShutdownFailed.                     (* the grace ran out *)

(** The main goroutine: in its [select], in [Shutdown] since a time, or gone. *)
Inductive Phase := Selecting | Draining (since : Z) | Exited (r : result exit_error unit).

Record Api := mkApi {
  clock : Z;
  signalled : bool;
  serve : Serve;
  reading : list Z;     (* when the requests still being read began *)
  handling : list Z;    (* when the handlers still running began *)
  phase : Phase;
}.

Definition running (a : Api) : Prop := match phase a with Exited _ => False | _ => True end.
Definition set_phase (p : Phase) (a : Api) : Api := mkApi (clock a) (signalled a) (serve a) (reading a) (handling a) p.

Inductive api_step : Api -> Api -> Prop :=
  | signal a : running a -> api_step a (mkApi (clock a) true (serve a) (reading a) (handling a) (phase a))
  | tick a n : running a -> 0 <= n ->
      api_step a (mkApi (clock a + n) (signalled a) (serve a) (reading a) (handling a) (phase a))
  | request_begins a : running a -> serve a = Listening ->
      api_step a (mkApi (clock a) (signalled a) (serve a) (clock a :: reading a) (handling a) (phase a))
  | request_lost a l r k : running a -> reading a = l ++ r :: k ->
      api_step a (mkApi (clock a) (signalled a) (serve a) (l ++ k) (handling a) (phase a))
  | request_read a l r k : running a -> reading a = l ++ r :: k ->
      api_step a (mkApi (clock a) (signalled a) (serve a) (l ++ k) (clock a :: handling a) (phase a))
  | request_answered a l t k : running a -> handling a = l ++ t :: k ->
      api_step a (mkApi (clock a) (signalled a) (serve a) (reading a) (l ++ k) (phase a))
  | listen_fails a text : running a -> serve a = Listening ->
      api_step a (mkApi (clock a) (signalled a) (Returned (Some text)) (reading a) (handling a) (phase a))
  | select_signal a : phase a = Selecting -> signalled a = true ->
      api_step a (mkApi (clock a) true (shut (serve a)) (reading a) (handling a) (Draining (clock a)))
  | select_serve a e : phase a = Selecting -> serve a = Returned e -> api_step a (set_phase (Exited (Err (ServerFailed e))) a)
  | drained a since : phase a = Draining since -> reading a = [] -> handling a = [] -> api_step a (set_phase (Exited (Ok tt)) a)
  | grace_over a since : phase a = Draining since -> since + shutdownGrace <= clock a ->
      api_step a (set_phase (Exited (Err ShutdownFailed)) a).

Definition api_started (now : Z) : Api := mkApi now false Listening [] [] Selecting.

(** [main]: the exit status. *)
Definition exit_status (r : result exit_error unit) : Z := match r with Ok _ => 0 | Err _ => 1 end.

(** The server's timeout for a request's header and the router's for a handler are kept. *)
Definition timely (a : Api) : Prop :=
  Forall (fun r => clock a <= r + ReadHeaderTimeout) (reading a) /\ Forall (fun t => clock a < t + requestTimeout) (handling a).

Definition timely_step (a b : Api) : Prop := api_step a b /\ timely b.

(** What holds along the way. *)
Definition api_inv (a : Api) : Prop :=
  timely a /\
  match phase a with
  | Selecting => serve a <> Returned None /\ Forall (fun r => r <= clock a) (reading a) /\ Forall (fun t => t <= clock a) (handling a)
  | Draining since => signalled a = true /\ serve a <> Listening /\ since <= clock a /\ Forall (fun r => r <= since) (reading a) /\
      Forall (fun t => t <= since + ReadHeaderTimeout) (handling a)
  | Exited (Err (ServerFailed e)) => exists text, e = Some text /\ serve a = Returned e
  | Exited _ => signalled a = true /\ reading a = [] /\ handling a = []
  end.

Lemma Forall_later (l : list Z) x y : x <= y -> Forall (fun r => r <= x) l -> Forall (fun r => r <= y) l.
Proof. intros Hxy Hall. eapply Forall_impl; [exact Hall|]. cbn. lia. Qed.

(** No request that began before the shutdown is there when the grace is over. *)
Lemma grace_enough a since :
  timely a -> Forall (fun r => r <= since) (reading a) -> Forall (fun t => t <= since + ReadHeaderTimeout) (handling a) ->
  since + shutdownGrace <= clock a -> reading a = [] /\ handling a = [].
Proof.
  intros [Hr Ht] Hr' Ht' Hg. unfold shutdownGrace, requestTimeout, ReadHeaderTimeout, Second in *.
  split; [destruct (reading a)|destruct (handling a)]; try done; decompose_Forall_hyps; lia.
Qed.

Lemma api_inv_step a b : api_inv a -> timely_step a b -> api_inv b.
Proof.
  intros [Hta Ha] [Hs Htb]. split; [done|].
  destruct Hs as [a Hrun|a n Hrun Hn|a Hrun Hl|a l r k Hrun Hl|a l r k Hrun Hl|a l r k Hrun Hl|a text Hrun Hl|a Hp Hsig|a e Hp Hl|a since Hp Hr Ht|a since Hp Hg];
    unfold running in *; cbn [phase serve reading handling clock signalled set_phase] in *; rewrite ?Hp in *; try (rewrite Hl in Ha).
  all: try (destruct (phase a) as [|since|res]; [| |done]); cbn [phase serve reading handling clock signalled set_phase] in *.
  all: rewrite ?Forall_app, ?Forall_cons in *.
  all: try (naive_solver eauto using Forall_impl with lia).
  - destruct Ha as (? & ? & ?). split_and!; [done|eapply Forall_later; [|eassumption]; lia..].
  - destruct Ha as (? & ? & ?). rewrite Hl. split_and!; done || lia.
  - destruct Hta as [Hr _]. rewrite Hl, Forall_app, Forall_cons in Hr. unfold ReadHeaderTimeout in *.
    destruct Ha as (? & ? & ? & (? & ? & ?) & ?), Hr as (_ & ? & _). split_and!; done || lia.
  - destruct Ha as (Hs & ? & ?). split_and!; try done; [by destruct (serve a)|].
    eapply Forall_later; [|eassumption]. unfold ReadHeaderTimeout, Second. lia.
  - destruct Ha as (Hs & _). destruct e as [text|]; [|done]. by exists text.
  - destruct Ha as (? & _ & _ & Hr & Ht). split; [done|]. by eapply grace_enough.
Qed.

Lemma api_inv_run a b : rtc timely_step a b -> api_inv a -> api_inv b.
Proof. induction 1; eauto using api_inv_step. Qed.

(** The API ends well or because its listener failed. Once the signal is taken, no request is
    cut off: each one that had begun, even the last that was still sending its header, is
    answered or lost by its client before the process is gone, as long as the server's and the
    router's own timeouts are kept, because the grace covers both. An exit without a signal
    names the listener's failure, which is never the [ErrServerClosed] of a shutdown. *)
Theorem api_exit now a r :
  rtc timely_step (api_started now) a -> phase a = Exited r ->
  match r with
  | Err (ServerFailed e) => exists text, e = Some text /\ serve a = Returned e
  | _ => signalled a = true /\ reading a = [] /\ handling a = []
  end.
Proof.
  intros Hrun Hp. assert (api_inv a) as [_ Hi].
  { apply (api_inv_run _ _ Hrun). split; [by split|]. cbn. by split_and!. }
  rewrite Hp in Hi. by destruct r as [|[]].
Qed.

Lemma api_exit_silent now a r :
  rtc timely_step (api_started now) a -> phase a = Exited r -> signalled a = false -> exists text, r = Err (ServerFailed (Some text)).
Proof.
  intros Hrun Hp Hs. assert (api_inv a) as [_ Hi].
  { apply (api_inv_run _ _ Hrun). split; [by split|]. cbn. by split_and!. }
  rewrite Hp in Hi. destruct r as [|[e|]]; [|destruct Hi as (text & -> & _); eauto|]; destruct Hi; congruence.
Qed.

Lemma drain_finishes reading handling now sg s since :
  exists b, rtc api_step (mkApi now sg s reading handling (Draining since)) b /\ phase b = Exited (Ok tt).
Proof.
  induction reading as [|r rest IH].
  - induction handling as [|t rest IH].
    + eexists. split; [by apply rtc_once, (drained _ since)|done].
    + destruct IH as (b & Hb & Hp). exists b. split; [|done]. eapply rtc_l, Hb. by apply (request_answered (mkApi _ _ _ _ _ _) [] t rest).
  - destruct IH as (b & Hb & Hp). exists b. split; [|done]. eapply rtc_l, Hb. by apply (request_lost (mkApi _ _ _ _ _ _) [] r rest).
Qed.

(** A signalled API can end well from every state it can be in. *)
Lemma api_can_drain a : running a -> signalled a = true -> exists b, rtc api_step a b /\ phase b = Exited (Ok tt).
Proof.
  destruct a as [now sg s rd hd p]. unfold running. cbn. intros Hr ->. destruct p as [|since|]; [|apply drain_finishes|done].
  destruct (drain_finishes rd hd now true (shut s) now) as (b & Hb & Hp). exists b. split; [|done].
  eapply rtc_l, Hb. by apply (select_signal (mkApi _ _ _ _ _ _)).
Qed.

(** ** The worker *)

(** The goroutine of [worker.Run]: in its loop, with or without an attempt in progress, or
    returned; its error is always nil, and it returns only when its context is done. *)
Inductive Loop := Looping (attempting : bool) | RunReturned.

Inductive worker_error := MetricsFailed (text : string) | WorkerShutdownFailed.
Inductive WPhase := WSelecting | Awaiting | WDraining | WExited (r : result worker_error unit).

Record Process := mkProcess {
  w_clock : Z;
  w_signalled : bool;
  w_metrics : Serve;
  w_loop : Loop;
  w_phase : WPhase;
}.

Definition w_running (p : Process) : Prop := match w_phase p with WExited _ => False | _ => True end.

Inductive worker_step : Process -> Process -> Prop :=
  | w_signal p : w_running p -> worker_step p (mkProcess (w_clock p) true (w_metrics p) (w_loop p) (w_phase p))
  | w_tick p n : w_running p -> 0 <= n ->
      worker_step p (mkProcess (w_clock p + n) (w_signalled p) (w_metrics p) (w_loop p) (w_phase p))
  | w_attempt p b : w_running p -> w_loop p = Looping b ->
      worker_step p (mkProcess (w_clock p) (w_signalled p) (w_metrics p) (Looping (negb b)) (w_phase p))
  | w_run_returns p : w_running p -> w_loop p = Looping false -> w_signalled p = true ->
      worker_step p (mkProcess (w_clock p) true (w_metrics p) RunReturned (w_phase p))
  | w_metrics_fail p text : w_running p -> w_metrics p = Listening ->
      worker_step p (mkProcess (w_clock p) (w_signalled p) (Returned (Some text)) (w_loop p) (w_phase p))
  | w_select_run p : w_phase p = WSelecting -> w_loop p = RunReturned ->
      worker_step p (mkProcess (w_clock p) (w_signalled p) (shut (w_metrics p)) RunReturned WDraining)
  | w_select_metrics p text : w_phase p = WSelecting -> w_metrics p = Returned (Some text) ->
      worker_step p (mkProcess (w_clock p) (w_signalled p) (w_metrics p) (w_loop p) (WExited (Err (MetricsFailed text))))
  | w_select_closed p : w_phase p = WSelecting -> w_metrics p = Returned None ->
      worker_step p (mkProcess (w_clock p) (w_signalled p) (w_metrics p) (w_loop p) WDraining)
  | w_select_signal p : w_phase p = WSelecting -> w_signalled p = true ->
      worker_step p (mkProcess (w_clock p) true (w_metrics p) (w_loop p) Awaiting)
  | w_awaited p : w_phase p = Awaiting -> w_loop p = RunReturned ->
      worker_step p (mkProcess (w_clock p) (w_signalled p) (shut (w_metrics p)) RunReturned WDraining)
  | w_drained p : w_phase p = WDraining ->
      worker_step p (mkProcess (w_clock p) (w_signalled p) (w_metrics p) (w_loop p) (WExited (Ok tt)))
  | w_grace_over p : w_phase p = WDraining ->
      worker_step p (mkProcess (w_clock p) (w_signalled p) (w_metrics p) (w_loop p) (WExited (Err WorkerShutdownFailed))).

Definition worker_started (now : Z) : Process := mkProcess now false Listening (Looping false) WSelecting.

(** The probes of the worker's own listener: the status and the document. *)
Definition worker_healthz : Z * list (string * string) := (200, [("status", "ok")]).
Definition worker_readyz (ping : bool) : Z * list (string * string) :=
  if ping then (200, [("status", "ready")]) else (503, [("status", "not_ready"); ("reason", "database_unreachable")]).

Definition worker_inv (p : Process) : Prop :=
  (w_loop p = RunReturned -> w_signalled p = true) /\
  match w_phase p with
  | WSelecting | Awaiting => w_metrics p <> Returned None
  | WExited (Err (MetricsFailed text)) => w_metrics p = Returned (Some text)
  | _ => w_loop p = RunReturned
  end.

Lemma worker_inv_step p q : worker_inv p -> worker_step p q -> worker_inv q.
Proof.
  intros [Hl Hp] Hs.
  destruct Hs; unfold worker_inv, w_running in *; cbn [w_phase w_signalled w_metrics w_loop w_clock] in *;
    try match goal with Hph : w_phase _ = _ |- _ => rewrite Hph in Hp end.
  all: try (destruct (w_phase p) as [| | |[|[]]]); split; try congruence; naive_solver.
Qed.

(** The worker ends well only after a signal and after its loop has returned, with no attempt
    in progress; without that it names the metrics listener's failure. *)
Theorem worker_exit now p r :
  rtc worker_step (worker_started now) p -> w_phase p = WExited r ->
  match r with
  | Err (MetricsFailed text) => w_metrics p = Returned (Some text)
  | _ => w_signalled p = true /\ w_loop p = RunReturned
  end.
Proof.
  intros Hrun Hp. assert (worker_inv p) as [Hl Hi].
  { cut (worker_inv (worker_started now)); [|by split]. clear Hp. induction Hrun; eauto using worker_inv_step. }
  rewrite Hp in Hi. destruct r as [[]|[]]; naive_solver.
Qed.

(** The wait for the loop has no bound of its own: [shutdownGrace] starts once it has returned. *)
Lemma await_unbounded p n :
  w_phase p = Awaiting -> 0 <= n ->
  exists q, worker_step p q /\ w_clock q = w_clock p + n /\ w_phase q = Awaiting /\ w_loop q = w_loop p.
Proof.
  intros Hp Hn. eexists. split; [apply (w_tick p n); [unfold w_running; by rewrite Hp|done]|]. by cbn.
Qed.

Module LifecycleDemo.
(** A request that is being handled when the signal comes is answered before the API exits. *)
Definition at_ (s : Z) (sg : bool) (l : Serve) (rd hd : list Z) (p : Phase) : Api :=
  mkApi (s * Second) sg l ((fun x => x * Second) <$> rd) ((fun x => x * Second) <$> hd) p.
Definition over : Api := at_ 14 true (Returned None) [] [] (Exited (Ok tt)).

Ltac to b step := apply (rtc_l _ _ b); [split; [exact step|split; repeat constructor; vm_compute; congruence]|].

Lemma over_reached : rtc timely_step (api_started 0) over.
Proof.
  to (at_ 2 false Listening [] [] Selecting) (tick (api_started 0) (2 * Second) I ltac:(done)).
  to (at_ 2 false Listening [2] [] Selecting) (request_begins (at_ 2 false Listening [] [] Selecting) I eq_refl).
  to (at_ 2 false Listening [] [2] Selecting) (request_read (at_ 2 false Listening [2] [] Selecting) [] (2 * Second) [] I eq_refl).
  to (at_ 3 false Listening [] [2] Selecting) (tick (at_ 2 false Listening [] [2] Selecting) Second I ltac:(done)).
  to (at_ 3 true Listening [] [2] Selecting) (signal (at_ 3 false Listening [] [2] Selecting) I).
  to (at_ 3 true (Returned None) [] [2] (Draining (3 * Second))) (select_signal (at_ 3 true Listening [] [2] Selecting) eq_refl eq_refl).
  to (at_ 14 true (Returned None) [] [2] (Draining (3 * Second)))
    (tick (at_ 3 true (Returned None) [] [2] (Draining (3 * Second))) (11 * Second) I ltac:(done)).
  to (at_ 14 true (Returned None) [] [] (Draining (3 * Second)))
    (request_answered (at_ 14 true (Returned None) [] [2] (Draining (3 * Second))) [] (2 * Second) [] I eq_refl).
  to over (drained (at_ 14 true (Returned None) [] [] (Draining (3 * Second))) (3 * Second) eq_refl eq_refl eq_refl).
  apply rtc_refl.
Qed.

Lemma api_exit_witness : signalled over = true /\ reading over = [] /\ handling over = [].
Proof. exact (api_exit 0 over (Ok tt) over_reached eq_refl). Defined.

(** A failing listener ends the API at once, with whatever it is handling. *)
Lemma listener_failure_cuts_requests :
  exists a, rtc timely_step (api_started 0) a /\ phase a = Exited (Err (ServerFailed (Some "accept: too many open files"))) /\ length (handling a) = 1%nat.
Proof.
  exists (at_ 0 false (Returned (Some "accept: too many open files")) [] [0]
            (Exited (Err (ServerFailed (Some "accept: too many open files"))))).
  split; [|split; reflexivity].
  to (at_ 0 false Listening [0] [] Selecting) (request_begins (api_started 0) I eq_refl).
  to (at_ 0 false Listening [] [0] Selecting) (request_read (at_ 0 false Listening [0] [] Selecting) [] 0 [] I eq_refl).
  to (at_ 0 false (Returned (Some "accept: too many open files")) [] [0] Selecting)
    (listen_fails (at_ 0 false Listening [] [0] Selecting) "accept: too many open files" I eq_refl).
  apply rtc_once. split; [exact (select_serve (at_ 0 false (Returned (Some "accept: too many open files")) [] [0] Selecting) _ eq_refl eq_refl)|].
  split; repeat constructor; vm_compute; congruence.
Qed.

(** So does a metrics listener in the worker: an attempt in progress is abandoned. *)
Lemma metrics_failure_abandons_attempt :
  exists p, rtc worker_step (worker_started 0) p /\ w_phase p = WExited (Err (MetricsFailed "bind: address already in use")) /\
    w_loop p = Looping true.
Proof.
  eexists. split; [|split].
  { eapply rtc_l; [by apply (w_attempt _ false)|]. eapply rtc_l; [by apply (w_metrics_fail _ "bind: address already in use")|].
    eapply rtc_l; [by apply w_select_metrics|]. apply rtc_refl. }
  - reflexivity.
  - reflexivity.
Qed.

Lemma worker_exit_witness :
  exists p, rtc worker_step (worker_started 0) p /\ w_phase p = WExited (Ok tt) /\ w_signalled p = true /\ w_loop p = RunReturned.
Proof.
  set (p := mkProcess 0 true (Returned None) RunReturned (WExited (Ok tt))).
  assert (rtc worker_step (worker_started 0) p) as Hrun.
  { eapply rtc_l; [by apply w_signal|]. eapply rtc_l; [by apply w_select_signal|]. eapply rtc_l; [by apply w_run_returns|].
    eapply rtc_l; [by apply w_awaited|]. eapply rtc_l; [by apply w_drained|]. apply rtc_refl. }
  exists p. split; [exact Hrun|]. split; [reflexivity|]. exact (worker_exit 0 p (Ok tt) Hrun eq_refl).
Defined.
End LifecycleDemo.
