(* ===== verification/Isolation.v ===== *)
(** * Running a tenant alone: the logic

    What one tenant can see and touch of tables all tenants share. [view] keeps a tenant's
    rows of a table; a computation is [confined] to a tenant when, run over that tenant's
    rows alone, it answers what it answers over all of them and leaves that tenant's rows
    the same, while every other tenant's rows stay as they were. The rules follow the
    statements the stores are written with. *)

From S2P Require Import Prelude Apperr Ids Db Authz Tenant.

(** ** Enumeration

    A table is enumerated by its keys: leaving rows out does not reorder the others. *)

Lemma gmap_dep_fold_omap {A B C} {P : positive -> Prop} (f : positive -> B -> C -> C) (g : A -> option B)
    (mt : gmap.gmap_dep A P) : forall i y,
  gmap.gmap_dep_fold f i y (gmap.gmap_dep_omap g mt) =
  gmap.gmap_dep_fold (fun j x acc => match g x with Some x' => f j x' acc | None => acc end) i y mt.
Proof.
  induction mt as [P|P ml mx mr Hv IHl IHr] using gmap.gmap_dep_ind; intros i y; [done|].
  rewrite gmap.gmap_dep_omap_GNode, !gmap.gmap_dep_fold_GNode by done. rewrite IHr, IHl. f_equal. f_equal.
  destruct mx as [[p x]|]; [|done]. cbn. by destruct (g x).
Qed.

Section enumeration.
Context {K} `{Countable K} {A B : Type}.

Lemma map_to_list_omap_order (f : A -> option B) (m : gmap K A) :
  map_to_list (omap f m) = omap (fun kx => pair kx.1 <$> f kx.2) (map_to_list m).
Proof.
  unfold map_to_list, map_fold, gmap_fold. destruct m as [mt]. cbn [omap gmap_omap].
  rewrite gmap_dep_fold_omap.
  assert (Hg : forall P (mt : gmap.gmap_dep A P) i (l : list (K * A)) (l' : list (K * B)),
    l' = omap (fun kx => pair kx.1 <$> f kx.2) l ->
    gmap.gmap_dep_fold (fun j x acc => match f x with
       | Some x' => (match decode j with Some k => (fun k x l => (k, x) :: l) k x' | None => id end) acc | None => acc end) i l' mt =
    omap (fun kx => pair kx.1 <$> f kx.2)
     (gmap.gmap_dep_fold (fun j x => match decode j with Some k => (fun k x l => (k, x) :: l) k x | None => id end) i l mt)).
  { clear mt. intros P mt. induction mt as [P|P ml mx mr Hv IHl IHr] using gmap.gmap_dep_ind; intros i l l' Hl; [done|].
    rewrite !gmap.gmap_dep_fold_GNode by done. apply IHr. apply IHl. destruct mx as [[p x]|]; [|done]. cbn.
    destruct (decode _) as [k|]; cbn; destruct (f x); cbn; congruence. }
  by apply Hg.
Qed.
End enumeration.

Lemma map_to_list_imap_order `{Countable K} {A B} (f : K -> A -> option B) (m : gmap K A) :
  map_to_list (map_imap f m) = omap (fun kx => pair kx.1 <$> f kx.1 kx.2) (map_to_list m).
Proof.
  set (m' := map_imap (fun k x => Some (k, x)) m).
  assert (Hm : map_imap f m = omap (fun kx => f kx.1 kx.2) m').
  { apply map_eq. intros k. rewrite lookup_omap. unfold m'. rewrite !map_lookup_imap. by destruct (m !! k). }
  assert (Hs : m = snd <$> m').
  { apply map_eq. intros k. rewrite lookup_fmap. unfold m'. rewrite map_lookup_imap. by destruct (m !! k). }
  rewrite Hm, map_to_list_omap_order. rewrite Hs, map_to_list_fmap.
  assert (Hk : Forall (fun kx => kx.1 = kx.2.1) (map_to_list m')).
  { apply Forall_forall. intros [k [k' x]] Hin%elem_of_map_to_list. unfold m' in Hin.
    rewrite map_lookup_imap in Hin. cbn. destruct (m !! k); cbn in Hin; congruence. }
  revert Hk. generalize (map_to_list m') as l. intros l Hk.
  induction Hk as [|[k [k' x]] l Hx _ IH]; [done|]. cbn in Hx. subst k'. cbn. rewrite IH. done.
Qed.

(** ** A tenant's rows *)

Section view.
Context {K} `{Countable K} {R : Type} (owner : K -> R -> uuid).

Definition view (t : uuid) (m : gmap K R) : gmap K R :=
  map_imap (fun k r => if decide (owner k r = t) then Some r else None) m.

(** The row at [k], if there is one, is the tenant's. *)
Definition own (t : uuid) (m : gmap K R) (k : K) : Prop := forall r, m !! k = Some r -> owner k r = t.

Lemma view_lookup t m k :
  view t m !! k = match m !! k with Some r => if decide (owner k r = t) then Some r else None | None => None end.
Proof. unfold view. rewrite map_lookup_imap. by destruct (m !! k). Qed.

Lemma view_Some t m k r : view t m !! k = Some r <-> m !! k = Some r /\ owner k r = t.
Proof. rewrite view_lookup. destruct (m !! k); [case_decide|]; naive_solver. Qed.

Lemma view_own t m k : own t m k -> view t m !! k = m !! k.
Proof.
  intros Ho. rewrite view_lookup. destruct (m !! k) as [r|] eqn:E; [|done]. by rewrite decide_True by auto.
Qed.

Lemma view_insert t m k r : owner k r = t -> view t (<[k := r]> m) = <[k := r]> (view t m).
Proof.
  intros Hr. apply map_eq. intros i. rewrite view_lookup. destruct (decide (i = k)) as [->|Hi].
  - rewrite !lookup_insert_eq. by rewrite decide_True.
  - rewrite !lookup_insert_ne by done. by rewrite view_lookup.
Qed.

Lemma view_insert_foreign t u m k r :
  u <> t -> owner k r = t -> own t m k -> view u (<[k := r]> m) = view u m.
Proof.
  intros Hu Hr Ho. apply map_eq. intros i. rewrite !view_lookup. destruct (decide (i = k)) as [->|Hi].
  - rewrite lookup_insert_eq, decide_False by congruence. destruct (m !! k) as [x|] eqn:E; [|done].
    rewrite decide_False; [done|]. rewrite (Ho x E). congruence.
  - by rewrite lookup_insert_ne.
Qed.

Lemma view_delete t m k : view t (delete k m) = delete k (view t m).
Proof.
  apply map_eq. intros i. rewrite view_lookup. destruct (decide (i = k)) as [->|Hi].
  - by rewrite !lookup_delete_eq.
  - rewrite !lookup_delete_ne by done. by rewrite view_lookup.
Qed.

Lemma view_delete_foreign t u m k : u <> t -> own t m k -> view u (delete k m) = view u m.
Proof.
  intros Hu Ho. apply map_eq. intros i. rewrite !view_lookup. destruct (decide (i = k)) as [->|Hi].
  - rewrite lookup_delete_eq. destruct (m !! k) as [x|] eqn:E; [|done].
    rewrite decide_False; [done|]. rewrite (Ho x E). congruence.
  - by rewrite lookup_delete_ne.
Qed.

(** What is the tenant's stays so when every other tenant's rows are as before. *)
Lemma own_kept t m m' k : (forall u, u <> t -> view u m' = view u m) -> own t m k -> own t m' k.
Proof.
  intros Hk Ho r Hr. destruct (decide (owner k r = t)) as [|Hne]; [done|].
  assert (Hv : view (owner k r) m' !! k = Some r) by by apply view_Some.
  rewrite (Hk _ Hne) in Hv. apply view_Some in Hv as [Hv _]. by apply Ho.
Qed.

Lemma view_list t m : map_to_list (view t m) = filter (fun kr => owner kr.1 kr.2 = t) (map_to_list m).
Proof.
  unfold view. rewrite map_to_list_imap_order. induction (map_to_list m) as [|[k r] l IH]; [done|].
  rewrite filter_cons. cbn. case_decide; cbn; [f_equal|]; exact IH.
Qed.

Lemma omap_view {B} (g : K * R -> option B) t m :
  (forall k r, m !! k = Some r -> is_Some (g (k, r)) -> owner k r = t) ->
  omap g (map_to_list (view t m)) = omap g (map_to_list m).
Proof.
  intros Hg. rewrite view_list.
  assert (Hl : Forall (fun kr => is_Some (g kr) -> owner kr.1 kr.2 = t) (map_to_list m)).
  { apply Forall_forall. intros [k r] Hin%elem_of_map_to_list. by apply Hg. }
  induction Hl as [|[k r] l Hx _ IH]; [done|]. rewrite filter_cons. cbn in Hx |- *. case_decide as Hd; cbn.
  - rewrite IH. done.
  - destruct (g (k, r)) eqn:E; [|exact IH]. exfalso. apply Hd, Hx. by eexists.
Qed.

Lemma filter_view (P : R -> Prop) `{forall r, Decision (P r)} t m :
  (forall k r, m !! k = Some r -> P r -> owner k r = t) ->
  filter P (map_to_list (view t m)).*2 = filter P (map_to_list m).*2.
Proof.
  intros HP. rewrite view_list.
  assert (Hl : Forall (fun kr => P kr.2 -> owner kr.1 kr.2 = t) (map_to_list m)).
  { apply Forall_forall. intros [k r] Hin%elem_of_map_to_list. by apply HP. }
  induction Hl as [|[k r] l Hx _ IH]; [done|]. rewrite filter_cons, (fmap_cons snd), (filter_cons P (k, r).2), <- IH.
  case_decide as Hd; [by rewrite fmap_cons, filter_cons|]. rewrite decide_False; [done|]. intros Hp. by apply Hd, Hx.
Qed.

Lemma existsb_view {B} (h : K * R -> B) (f : B -> bool) t m :
  (forall k r, m !! k = Some r -> f (h (k, r)) = true -> owner k r = t) ->
  existsb f (h <$> map_to_list (view t m)) = existsb f (h <$> map_to_list m).
Proof.
  intros HP. rewrite view_list.
  assert (Hl : Forall (fun kr => f (h kr) = true -> owner kr.1 kr.2 = t) (map_to_list m)).
  { apply Forall_forall. intros [k r] Hin%elem_of_map_to_list. by apply HP. }
  induction Hl as [|[k r] l Hx _ IH]; [done|]. rewrite filter_cons. cbn in Hx |- *. case_decide as Hd; cbn.
  - by rewrite IH.
  - rewrite IH. destruct (f (h (k, r))) eqn:E; [|done]. exfalso. by apply Hd, Hx.
Qed.
End view.

(** The same for a table kept as the list of its rows. *)
Section list_view.
Context {R : Type} (owner : R -> uuid).

Definition list_view (t : uuid) (l : list R) : list R := filter (fun r => owner r = t) l.

Lemma list_view_app t l l' : list_view t (l ++ l') = list_view t l ++ list_view t l'.
Proof. apply filter_app. Qed.

Lemma list_view_one t r : owner r = t -> list_view t [r] = [r].
Proof. intros Hr. unfold list_view. by rewrite filter_cons_True. Qed.

Lemma list_view_other t u r : owner r = t -> u <> t -> list_view u [r] = [].
Proof. intros Hr Hu. unfold list_view. rewrite filter_cons_False; [done|congruence]. Qed.

Lemma filter_list_view (P : R -> Prop) `{forall r, Decision (P r)} t l :
  (forall r, r ∈ l -> P r -> owner r = t) -> filter P (list_view t l) = filter P l.
Proof.
  intros HP. unfold list_view. induction l as [|r l IH]; [done|]. rewrite !filter_cons.
  assert (IH' := IH ltac:(intros; apply HP; [by right|done])).
  case_decide as Ho; [rewrite filter_cons, IH'; done|]. rewrite IH', decide_False; [done|].
  intros Hp. apply Ho, HP; [by left|done].
Qed.

Lemma existsb_list_view (f : R -> bool) t l :
  (forall r, r ∈ l -> f r = true -> owner r = t) -> existsb f (list_view t l) = existsb f l.
Proof.
  intros HP. unfold list_view. induction l as [|r l IH]; [done|]. rewrite filter_cons. cbn [existsb].
  assert (IH' := IH ltac:(intros; apply HP; [by right|done])).
  case_decide as Ho; cbn [existsb]; rewrite IH'; [done|]. destruct (f r) eqn:E; [|done].
  exfalso. apply Ho, HP; [by left|done].
Qed.

Lemma list_own_kept (Q : R -> Prop) t l l' :
  (forall u, u <> t -> list_view u l' = list_view u l) ->
  (forall r, r ∈ l -> Q r -> owner r = t) -> forall r, r ∈ l' -> Q r -> owner r = t.
Proof.
  intros Hk Ho r Hr HQ. destruct (decide (owner r = t)) as [|Hne]; [done|].
  assert (Hv : r ∈ list_view (owner r) l') by by apply list_elem_of_filter.
  rewrite (Hk _ Hne) in Hv. apply list_elem_of_filter in Hv as [_ Hv]. by apply Ho.
Qed.
End list_view.

#[global] Arguments view : simpl never.
#[global] Arguments list_view : simpl never.

(** ** Confinement

    [restrict t] keeps the tenant's rows of a state; [wf] is what the keys of its tables
    guarantee; [unclaimed t env] says that no other tenant's row has an identifier or a secret the
    call will draw. *)
Class Tenanted (D : Type) := {
  restrict : uuid -> D -> D;
  wf : D -> Prop;
  unclaimed : uuid -> Env -> D -> Prop;
  unclaimed_kept : forall t env d d',
    (forall u, u <> t -> restrict u d' = restrict u d) -> unclaimed t env d -> unclaimed t env d';
}.

Definition kept {D} `{Tenanted D} (t : uuid) (d d' : D) : Prop := forall u, u <> t -> restrict u d' = restrict u d.

#[export] Instance kept_refl {D} `{Tenanted D} t : Reflexive (kept (D:=D) t).
Proof. by intros d u Hu. Qed.
#[export] Instance kept_trans {D} `{Tenanted D} t : Transitive (kept (D:=D) t).
Proof. intros d1 d2 d3 H1 H2 u Hu. by rewrite H2, H1. Qed.

(** The identifiers a call draws. *)
Definition drawn (env : Env) (k : uuid) : Prop := (exists n, k = env_id env n) \/ (exists n, k = env_dbid env n).
Lemma drawn_id env n : drawn env (env_id env n).
Proof. left. by exists n. Qed.
Lemma drawn_dbid env n : drawn env (env_dbid env n).
Proof. right. by exists n. Qed.
Create HintDb isolation.
#[export] Hint Extern 1 (drawn _ _) => first [apply drawn_id | apply drawn_dbid] : isolation.

(** The settings of the tenant's transactions. *)
Definition mine (t : uuid) (g : Settings) : Prop :=
  SettingTenantID g = Some t /\ SettingWorker g = false /\ SettingAPIKeyHash g = None.

Lemma mine_is t g x : mine t g -> tenant_is g x = true <-> x = t.
Proof. intros (Ht & _). unfold tenant_is. rewrite Ht, bool_decide_eq_true. naive_solver. Qed.
Lemma mine_self t g : mine t g -> tenant_is g t = true.
Proof. intros Hg. by apply (mine_is t g t Hg). Qed.

Section confined.
Context (t : uuid) (env : Env) {D : Type} `{Tenanted D} {E : Type}.

Definition confined {A} (m : SE D E A) (d : D) : Prop :=
  wf d -> unclaimed t env d ->
  m (restrict t d) = ((m d).1, restrict t (m d).2) /\ wf (m d).2 /\ kept t d (m d).2.

Lemma confined_run {A} (m : SE D E A) d r d' :
  confined m d -> m d = (r, d') -> wf d -> unclaimed t env d ->
  m (restrict t d) = (r, restrict t d') /\ wf d' /\ unclaimed t env d' /\ kept t d d'.
Proof.
  intros Hm Hr Hw Hf. destruct (Hm Hw Hf) as (H1 & H2 & H3). rewrite Hr in *.
  split_and!; [done|done| |done]. by eapply unclaimed_kept.
Qed.

Lemma confined_const {A} (r : result E A) d : confined (fun s => (r, s)) d.
Proof. intros Hw Hf. by split_and!. Qed.
Lemma confined_ret {A} (a : A) d : confined (mret a) d.
Proof. apply confined_const. Qed.
Lemma confined_throw {A} (e : E) d : confined (throw (A:=A) e) d.
Proof. apply confined_const. Qed.
Lemma confined_lift {A} (r : result E A) d : confined (lift r) d.
Proof. apply confined_const. Qed.

(** A query whose answer the tenant's rows decide. *)
Lemma confined_query {A} (f : D -> result E A) d :
  (wf d -> unclaimed t env d -> f (restrict t d) = f d) -> confined (fun s => (f s, s)) d.
Proof. intros Hf Hw Hr. rewrite Hf by done. by split_and!. Qed.

(** A statement that writes the tenant's rows. *)
Lemma confined_write {A} (r : result E A) (f : D -> D) d :
  (wf d -> unclaimed t env d -> f (restrict t d) = restrict t (f d) /\ wf (f d) /\ kept t d (f d)) ->
  confined (fun s => (r, f s)) d.
Proof. intros Hf Hw Hr. destruct (Hf Hw Hr) as (H1 & H2 & H3). cbn. by rewrite H1. Qed.

Lemma confined_if {A} (c : D -> bool) (m1 m2 : SE D E A) d :
  (wf d -> unclaimed t env d -> c (restrict t d) = c d) ->
  (wf d -> unclaimed t env d -> c d = true -> confined m1 d) ->
  (wf d -> unclaimed t env d -> c d = false -> confined m2 d) ->
  confined (fun s => if c s then m1 s else m2 s) d.
Proof.
  intros Hc H1 H2 Hw Hr. rewrite Hc by done. destruct (c d) eqn:E1; [by apply H1|by apply H2].
Qed.

Lemma confined_case {A X} (q : D -> option X) (m1 : X -> SE D E A) (m2 : SE D E A) d :
  (wf d -> unclaimed t env d -> q (restrict t d) = q d) ->
  (forall x, wf d -> unclaimed t env d -> q d = Some x -> confined (m1 x) d) ->
  (wf d -> unclaimed t env d -> q d = None -> confined m2 d) ->
  confined (fun s => match q s with Some x => m1 x s | None => m2 s end) d.
Proof.
  intros Hc H1 H2 Hw Hr. rewrite Hc by done. destruct (q d) eqn:E1; [by apply H1|by apply H2].
Qed.

Lemma confined_bind {A B} (m : SE D E A) (f : A -> SE D E B) d :
  confined m d ->
  (forall a d', m d = (Ok a, d') -> wf d -> unclaimed t env d -> wf d' -> unclaimed t env d' -> kept t d d' -> confined (f a) d') ->
  confined (m ≫= f) d.
Proof.
  intros Hm Hf Hw Hr. destruct (m d) as [[a|e] d'] eqn:Em;
    destruct (confined_run _ _ _ _ Hm Em Hw Hr) as (H1 & H2 & H3 & H4); unfold mbind, SE_bind; rewrite Em, H1.
  - destruct (Hf a d' eq_refl Hw Hr H2 H3 H4 H2 H3) as (H5 & H6 & H7). split_and!; [done|done|]. by transitivity d'.
  - by split_and!.
Qed.

(** A statement that starts from what a query returned. *)
Lemma confined_with {A X} (q : D -> X) (m : X -> SE D E A) d :
  (wf d -> unclaimed t env d -> q (restrict t d) = q d) -> confined (m (q d)) d -> confined (fun s => m (q s) s) d.
Proof. intros Hq Hm Hw Hr. rewrite Hq by done. by apply Hm. Qed.

Lemma confined_ext {A} (m m' : SE D E A) d : (forall s, m s = m' s) -> confined m d -> confined m' d.
Proof. intros He Hm Hw Hr. destruct (Hm Hw Hr) as (H1 & H2 & H3). rewrite !He in *. by split_and!. Qed.
End confined.

(** Handing on what became of a computation. *)
Lemma confined_catch {D} `{Tenanted D} {E E' A B} t env (m : SE D E A) (f : result E A -> result E' B) d :
  confined t env m d -> confined t env (fun s => let '(r, s') := m s in (f r, s')) d.
Proof. intros Hm Hw Hr. destruct (Hm Hw Hr) as (H1 & H2 & H3). rewrite H1. by destruct (m d). Qed.

(** Commits of the tenant's own sessions. *)
Definition of_tenant {D} `{Tenanted D} (t : uuid) (env : Env) (mid : D -> D) : Prop :=
  forall d, confined t env (modify (E:=err) mid) d.

Lemma of_tenant_id {D} `{Tenanted D} t env : of_tenant t env (fun d : D => d).
Proof. intros d. apply confined_const. Qed.
#[export] Hint Resolve of_tenant_id : isolation.

Section failures.
Context (t : uuid) (env : Env) {D : Type} `{Tenanted D}.

Lemma confined_or_fail {A} (m : SE D err A) f d : confined t env m d -> confined t env (or_fail m f) d.
Proof.
  intros Hm Hw Hr. destruct (m d) as [[a|e] d'] eqn:Em;
    destruct (confined_run _ _ _ _ _ _ Hm Em Hw Hr) as (H1 & H2 & H3 & H4); unfold or_fail; rewrite Em, H1; by split_and!.
Qed.

Lemma confined_failing {A} (m : SE D err A) d : confined t env m d -> confined t env (failing m) d.
Proof.
  intros Hm Hw Hr. destruct (m d) as [[a|e] d'] eqn:Em;
    destruct (confined_run _ _ _ _ _ _ Hm Em Hw Hr) as (H1 & H2 & H3 & H4); unfold failing; rewrite Em, H1; by split_and!.
Qed.

Lemma confined_BeginFunc {A} (m : SE D err A) d : confined t env m d -> confined t env (BeginFunc m) d.
Proof.
  intros Hm Hw Hr. destruct (m d) as [[a|e] d'] eqn:Em;
    destruct (confined_run _ _ _ _ _ _ Hm Em Hw Hr) as (H1 & H2 & H3 & H4); unfold BeginFunc; rewrite Em, H1; by split_and!.
Qed.

Lemma confined_tx {A} (u : uuid) (fn : Settings -> SE D err A) d :
  t <> uuid_Nil -> (forall g, mine t g -> confined t env (fn g) d) ->
  confined t env (WithIdentityTx (mkIdentity t u) fn) d.
Proof.
  intros Ht Hfn. apply (confined_ext _ _ (BeginFunc (fn (mkSettings (set_unless_nil t) (set_unless_nil u) None None false)))).
  - intros s. symmetry. apply WithIdentityTx_run. unfold Identity_Valid. cbn. by rewrite bool_decide_eq_true_2.
  - apply confined_BeginFunc, Hfn. unfold mine, set_unless_nil. by rewrite decide_False.
Qed.

Lemma confined_for_range {A B} (fn : Z -> A -> SE D err B) l : forall i d,
  (forall i x d', x ∈ l -> kept t d d' -> confined t env (fn i x) d') ->
  confined t env (for_range i l fn) d.
Proof.
  induction l as [|x l IH]; intros i d Hfn; cbn; [apply confined_ret|].
  apply confined_bind; [by apply Hfn; [left|]|]. intros y d' _ _ _ Hw' _ Hk. apply confined_bind.
  - apply IH. intros j z d2 Hz Hk2. apply Hfn; [by right|]. by transitivity d'.
  - intros. apply confined_ret.
Qed.
End failures.

(** A component's tables within a larger state. *)
Class Lens {S T : Type} `{Tenanted S} `{Tenanted T} (get : S -> T) (set : T -> S -> S) := {
  lens_restrict_get : forall t s, get (restrict t s) = restrict t (get s);
  lens_restrict_set : forall t x s, restrict t (set x s) = set (restrict t x) (restrict t s);
  lens_get_set : forall x s, get (set x s) = x;
  lens_set_get : forall s, set (get s) s = s;
  lens_wf_get : forall s, wf s -> wf (get s);
  lens_wf_set : forall x s, wf s -> wf x -> wf (set x s);
  lens_unclaimed_get : forall t env s, unclaimed t env s -> unclaimed t env (get s);
}.

Lemma confined_zoom {S T} `{HS : Tenanted S} `{HT : Tenanted T} {E A} (t : uuid) env (get : S -> T) (set : T -> S -> S) `{!Lens get set} (m : SE T E A) (s : S) :
  confined t env m (get s) -> confined t env (zoom get set m) s.
Proof.
  intros Hm Hw Hf. assert (Hw' := lens_wf_get s Hw). assert (Hf' := lens_unclaimed_get t env s Hf).
  destruct (m (get s)) as [r x] eqn:Em.
  destruct (confined_run _ _ _ _ _ _ Hm Em Hw' Hf') as (H1 & H2 & H3 & H4).
  assert (Hz : zoom get set m s = (r, set x s)) by (unfold zoom; rewrite Em; by destruct r).
  assert (Hz' : zoom get set m (restrict t s) = (r, set (restrict t x) (restrict t s)))
    by (unfold zoom; rewrite lens_restrict_get, H1; by destruct r).
  rewrite Hz, Hz'. cbn. split_and!.
  - by rewrite lens_restrict_set.
  - by apply lens_wf_set.
  - intros u Hu. rewrite lens_restrict_set, (H4 u Hu), <- lens_restrict_get. apply lens_set_get.
Qed.

#[export] Hint Resolve confined_const confined_ret confined_throw confined_lift : isolation.

(** One rule per construct; what is left is about the statements themselves. *)
Ltac confine1 :=
  lazymatch goal with
  | |- confined _ _ (mret _) _ => apply confined_ret
  | |- confined _ _ (throw _) _ => apply confined_throw
  | |- confined _ _ (lift _) _ => apply confined_lift
  | |- confined _ _ (or_fail _ _) _ => apply confined_or_fail
  | |- confined _ _ (failing _) _ => apply confined_failing
  | |- confined _ _ (mbind _ _) _ => apply confined_bind; [|intros]
  | |- confined _ _ (WithIdentityTx _ _) _ => apply confined_tx; [done|intros]
  | |- confined _ _ (zoom _ _ _) _ => apply confined_zoom; try apply _
  | |- confined ?t ?e (fun s => ?m s) ?d => change (confined t e m d)
  | |- confined _ _ (let _ := _ in _) _ => cbv zeta
  | |- confined _ _ (if decide ?P then _ else _) _ => destruct (decide P)
  | |- confined _ _ (if ?b then _ else _) _ => let E := fresh "E" in destruct b eqn:E
  | |- confined _ _ (match ?x with _ => _ end) _ => let E := fresh "E" in destruct x eqn:E
  end.
Ltac confine := repeat confine1; auto with isolation.
