(* ===== verification/IsolationStores.v ===== *)
(** * Running a tenant alone: the stores

    Every statement of the tenant-scoped stores is confined to the tenant of its settings. *)

From S2P Require Import Prelude Apperr Encoding Ids Cursor Db Authz Tenant Paging Isolation.
From S2P Require AuditLog Project Webhook Outbox Invoice InvoiceStore ApiKey.

(** ** The audit trail *)

#[export] Instance audit_tenanted : Tenanted AuditLog.Table.
Proof.
  refine {|
    restrict := list_view AuditLog.r_TenantID;
    wf _ := True;
    unclaimed t env l := forall r, r ∈ l -> drawn env (AuditLog.r_ID r) -> AuditLog.r_TenantID r = t;
  |}.
  intros t env d d' Hk. by apply (list_own_kept AuditLog.r_TenantID (fun r => drawn env (AuditLog.r_ID r))).
Defined.

Section audit.
Context (t : uuid) (env : Env).

Lemma confined_insert_row g r d :
  mine t g -> drawn env (AuditLog.r_ID r) -> confined t env (AuditLog.insert_row g r) d.
Proof.
  intros Hg Hid. unfold AuditLog.insert_row.
  apply confined_if; [done|auto with isolation|]. intros _ _ Ht%negb_false_iff. apply (mine_is t) in Ht; [|done].
  apply confined_if; [done|auto with isolation|]. intros _ _ _.
  apply confined_if; [|auto with isolation|].
  { intros _ Hun. apply existsb_list_view. intros x Hx Hf%bool_decide_eq_true. apply Hun; [done|]. by rewrite Hf. }
  intros _ _ _. apply confined_write. intros _ _. cbn. split_and!; [|done|].
  - by rewrite list_view_app, list_view_one.
  - intros u Hu. cbn. by rewrite list_view_app, (list_view_other _ t), app_nil_r.
Qed.

Lemma confined_Write `{Unicode} g id e d : mine t g -> drawn env id -> confined t env (AuditLog.Write env g id e) d.
Proof. intros Hg Hid. unfold AuditLog.Write. confine. by apply confined_insert_row. Qed.

Lemma visible_rows_view g d : mine t g -> AuditLog.visible_rows g t (restrict t d) = AuditLog.visible_rows g t d.
Proof. intros Hg. unfold AuditLog.visible_rows. apply filter_list_view. by intros r _ [_ ?]. Qed.
End audit.
#[export] Hint Resolve confined_Write : isolation.

(** ** Projects *)

Notation project_view := (view (fun _ : uuid => Project.TenantID)).
Notation project_own := (own (fun _ : uuid => Project.TenantID)).

#[export] Instance project_tenanted : Tenanted Project.DB.
Proof.
  refine {|
    restrict t d := Project.mkDB (project_view t (Project.projects d)) (restrict t (Project.audit_log d));
    wf d := forall k p, Project.projects d !! k = Some p -> Project.ID p = k;
    unclaimed t env d := (forall k, drawn env k -> project_own t (Project.projects d) k) /\ unclaimed t env (Project.audit_log d);
  |}.
  intros t env d d' Hk [Hp Ha]. split.
  - intros k Hd. eapply own_kept; [|by apply Hp]. intros u Hu. by injection (Hk u Hu).
  - eapply unclaimed_kept; [|done]. intros u Hu. by injection (Hk u Hu).
Defined.

#[export] Instance project_audit_lens : Lens Project.audit_log Project.set_audit.
Proof. by split; [| | |intros []| | |intros t env s []]. Qed.

Section projects.
Context (t : uuid) (env : Env).

Lemma find_project_view g id d : Project.find_project g t id (restrict t d) = Project.find_project g t id d.
Proof.
  unfold Project.find_project. cbn. rewrite view_lookup. destruct (Project.projects d !! id) as [p|]; [|done].
  case_decide as Ho; [done|]. by rewrite (bool_decide_eq_false_2 _ Ho), andb_false_r.
Qed.

Lemma live_slug_view slug d : Project.live_slug t slug (restrict t d) = Project.live_slug t slug d.
Proof.
  apply (existsb_view _ snd). intros k p _ [Hp _]%andb_true_iff. by apply bool_decide_eq_true in Hp as [? _].
Qed.

Lemma confined_insert_project g p d :
  mine t g -> drawn env (Project.ID p) -> confined t env (Project.insert_project g p) d.
Proof.
  intros Hg Hid. unfold Project.insert_project.
  apply confined_if; [done|auto with isolation|]. intros _ _ Ht%negb_false_iff. apply (mine_is t) in Ht; [|done].
  apply confined_if; [done|auto with isolation|]. intros _ _ _. rewrite Ht.
  apply confined_if; [|auto with isolation|].
  { intros _ [Hun _]. rewrite live_slug_view. cbn. by rewrite (view_own _ _ _ _ (Hun _ Hid)). }
  intros _ _ _. apply confined_write. intros Hw [Hun Hau]. split_and!.
  - unfold Project.set_projects. cbn. by rewrite view_insert.
  - intros k q. cbn. rewrite lookup_insert_Some. intros [[<- <-]|[_ Hq]]; [done|]. by apply Hw.
  - intros u Hu. cbn. f_equal. apply (view_insert_foreign _ t); auto.
Qed.

Lemma confined_update_project g id cond f d :
  mine t g -> (forall p, Project.TenantID (f p) = Project.TenantID p /\ Project.ID (f p) = Project.ID p) ->
  confined t env (Project.update_project g t id cond f) d.
Proof.
  intros Hg Hf. unfold Project.update_project.
  apply (confined_case t env (Project.find_project g t id)); [intros; apply find_project_view| |auto with isolation].
  intros p _ _ Hp. apply confined_if; [done|auto with isolation|]. intros _ _ _.
  apply confined_if; [done|auto with isolation|]. intros _ _ _.
  apply confined_if; [done|auto with isolation|]. intros _ _ _. apply confined_write. intros Hw _.
  unfold Project.find_project in Hp. destruct (Project.projects d !! id) as [p'|] eqn:El; [|done].
  destruct (_ && _) eqn:Et in Hp; [|done]. injection Hp as ->. apply andb_true_iff in Et as [_ Et%bool_decide_eq_true].
  destruct (Hf p) as [Hft Hfi]. split_and!.
  - unfold Project.set_projects. cbn. rewrite view_insert; [done|congruence].
  - intros k q. cbn. rewrite lookup_insert_Some. intros [[<- <-]|[_ Hq]]; [rewrite Hfi; by apply Hw|by apply Hw].
  - intros u Hu. cbn. f_equal. apply (view_insert_foreign _ t); [done|congruence|]. intros r Hr. congruence.
Qed.

Lemma listed_rows_view g f d : mine t g -> Project.listed_rows g t f (restrict t d) = Project.listed_rows g t f d.
Proof. intros Hg. unfold Project.listed_rows. apply filter_view. by intros k p _ (_ & ? & _). Qed.

Lemma confined_auditProject `{Unicode} `{UUIDLib} g id a action p before after d :
  mine t g -> drawn env id -> confined t env (Project.auditProject env g id a action p before after) d.
Proof. intros Hg Hid. unfold Project.auditProject. confine. Qed.
End projects.
#[export] Hint Resolve confined_auditProject : isolation.

Section operations.
Context (env : Env) (a : Authorized) (Ha : scope a <> uuid_Nil).

Lemma mine_settings : mine (scope a) (settings_of (Identity_of a)).
Proof. unfold mine, settings_of, set_unless_nil. cbn. by rewrite decide_False. Qed.

Lemma confined_audit_List after limit d : confined (scope a) env (AuditLog.List_ a after limit) d.
Proof. unfold AuditLog.List_. confine. apply confined_query. intros _ _. by rewrite visible_rows_view. Qed.

Section project_operations.
Context `{Unicode} `{UUIDLib} `{TimeJSON}.

Lemma confined_project_Create i d : confined (scope a) env (Project.Create env a i) d.
Proof. unfold Project.Create. confine. apply confined_insert_project; auto with isolation. Qed.

Lemma confined_project_Get id d : confined (scope a) env (Project.Get a id) d.
Proof.
  unfold Project.Get. confine. apply confined_query. intros _ _. by rewrite find_project_view.
Qed.

Lemma confined_write_project g id verb action before cond f d :
  mine (scope a) g -> (forall p, Project.TenantID (f p) = Project.TenantID p /\ Project.ID (f p) = Project.ID p) ->
  confined (scope a) env (Project.write_project env g a id verb action before cond f) d.
Proof. intros Hg Hf. unfold Project.write_project. confine. by apply confined_update_project. Qed.

(** The shape of an update and an archive: a read, other sessions' commits, the transaction, and a second
    read when no row matched. *)
Lemma confined_attempt {B} mid mid2 (q : Project.DB -> Project.Project)
    (w : Project.Project -> SE Project.DB err (option Project.Project)) (ok : Project.Project -> result err B)
    (why : Project.DB -> result err B) d :
  of_tenant (scope a) env mid -> of_tenant (scope a) env mid2 ->
  (forall d, q (restrict (scope a) d) = q d) -> (forall d, why (restrict (scope a) d) = why d) ->
  (forall p d, confined (scope a) env (w p) d) ->
  confined (scope a) env (fun db => match BeginFunc (w (q db)) (mid db) with
    | (Err e, db') => (Err e, db')
    | (Ok (Some p), db') => (ok p, db')
    | (Ok None, db') => (why (mid2 db'), mid2 db')
    end) d.
Proof.
  intros Hm Hm2 Hq Hy Hw. set (ask := (fun s => (why s, s)) : SE Project.DB err B).
  set (m before := (_ ← modify mid; r ← BeginFunc (w before);
    match r with Some p => lift (ok p) | None => modify mid2 ≫= (fun _ => ask) end) : SE Project.DB err B).
  apply (confined_ext _ _ (fun s => m (q s) s)).
  { intros s. unfold m, ask, mbind, SE_bind, modify, lift. by destruct (BeginFunc (w (q s)) (mid s)) as [[[p|]|e] s']. }
  apply (confined_with _ _ q m); [auto|]. unfold m. generalize (q d) as before. intros before.
  apply confined_bind; [apply Hm|intros]. apply confined_bind; [apply confined_BeginFunc, Hw|intros [p|] ? ?; intros].
  - apply confined_lift.
  - apply confined_bind; [apply Hm2|intros]. apply confined_query. auto.
Qed.

Lemma confined_project_Update mid mid2 id i d :
  of_tenant (scope a) env mid -> of_tenant (scope a) env mid2 ->
  confined (scope a) env (Project.Update env mid mid2 a id i) d.
Proof.
  intros Hm Hm2. unfold Project.Update. destruct (Valid a) eqn:Hv; cbn [negb]; [|apply confined_const].
  case_decide; [apply confined_const|]. destruct (_ <=? 0); [apply confined_const|].
  destruct (match Project.up_Name i with None => _ | Some n => _ end) as [name|e]; [|apply confined_const].
  destruct (match Project.up_Description i with None => _ | Some n => _ end) as [[]|e]; [|apply confined_const]. cbv zeta.
  destruct (Project.MaxInt32 <? _).
  { apply (confined_ext _ _ (_ ← modify mid; throw (Wrapf "update project: integer out of range" numeric_out_of_range))).
    - done.
    - confine. }
  apply (confined_attempt mid mid2
    (fun db => default Project.zero_project (Project.find_project (settings_of (Identity_of a)) (scope a) id db))
    (fun before => Project.write_project env (settings_of (Identity_of a)) a id "update" AuditLog.ActionProjectUpdate before _ _)
    Ok (fun db => Err (Project.classify (settings_of (Identity_of a)) a id (Project.ExpectedVersion i) db))); try done.
  - intros s. by rewrite find_project_view.
  - intros s. unfold Project.classify. by rewrite find_project_view.
  - intros p s. apply confined_write_project; [by apply mine_settings|done].
Qed.

Lemma confined_project_Archive mid mid2 id d :
  of_tenant (scope a) env mid -> of_tenant (scope a) env mid2 ->
  confined (scope a) env (Project.Archive env mid mid2 a id) d.
Proof.
  intros Hm Hm2. unfold Project.Archive. destruct (Valid a) eqn:Hv; cbn [negb]; [|apply confined_const].
  case_decide; [apply confined_const|]. cbv zeta. set (g := settings_of (Identity_of a)).
  set (why db := match Project.find_project g (scope a) id db with
    | None => Err (Sentinel ErrNotFound)
    | Some p => if Project.Archived p then Ok tt else Err (Sentinel ErrNotFound) end).
  eapply confined_ext; [|apply (confined_attempt mid mid2
    (fun db => default Project.zero_project (Project.find_project g (scope a) id db))
    (fun before => Project.write_project env g a id "archive" AuditLog.ActionProjectArchive before (fun p => negb (Project.Archived p)) (Project.retired env))
    (fun _ => Ok tt) why); try done].
  - intros s. cbn. destruct (BeginFunc _ _) as [[[p|]|e] s']; try done. unfold why.
    destruct (Project.find_project g (scope a) id (mid2 s')) as [p|]; [by destruct (Project.Archived p)|done].
  - intros s. by rewrite find_project_view.
  - intros s. unfold why. by rewrite find_project_view.
  - intros p s. apply confined_write_project; [by apply mine_settings|done].
Qed.

Lemma confined_project_List f after limit d : confined (scope a) env (Project.List_ a f after limit) d.
Proof. unfold Project.List_. confine. apply confined_query. intros _ _. by rewrite listed_rows_view. Qed.
End project_operations.
End operations.
