(* ===== verification/IsolationHooks.v ===== *)
(** * Running a tenant alone: webhooks and invoices *)

From S2P Require Import Prelude Apperr Encoding Ids Cursor Db Authz Tenant Paging Isolation IsolationStores.
From S2P Require Import Webhook.
From S2P Require AuditLog Outbox Invoice InvoiceStore.

(** ** The outbox and the endpoints *)

Notation endpoint_view := (view (fun _ : uuid => Outbox.ep_TenantID)).
Notation endpoint_own := (own (fun _ : uuid => Outbox.ep_TenantID)).
Notation outbox_view := (view (fun _ : uuid => Outbox.o_TenantID)).
Notation outbox_own := (own (fun _ : uuid => Outbox.o_TenantID)).

#[export] Instance outbox_tenanted : Tenanted Outbox.DB.
Proof.
  refine {|
    restrict t d := Outbox.mkDB (endpoint_view t (Outbox.endpoints d)) (outbox_view t (Outbox.outbox d))
                      (restrict t (Outbox.audit_log d));
    wf d := (forall k e, Outbox.endpoints d !! k = Some e -> Outbox.ep_ID e = k) /\
            (forall k r, Outbox.outbox d !! k = Some r -> Outbox.o_ID r = k);
    unclaimed t env d := (forall k, drawn env k -> endpoint_own t (Outbox.endpoints d) k /\ outbox_own t (Outbox.outbox d) k) /\
                         unclaimed t env (Outbox.audit_log d);
  |}.
  intros t env d d' Hk [Hp Ha]. split; [intros k Hd; split|].
  - eapply own_kept; [|by apply Hp]. intros u Hu. by injection (Hk u Hu).
  - eapply own_kept; [|by apply Hp]. intros u Hu. by injection (Hk u Hu).
  - eapply unclaimed_kept; [|done]. intros u Hu. by injection (Hk u Hu).
Defined.

#[export] Instance outbox_audit_lens : Lens Outbox.audit_log Outbox.set_audit.
Proof. by split; [| | |intros []| | |intros t env s []]. Qed.

Lemma mine_sees t g x : mine t g -> Outbox.sees g x = true <-> x = t.
Proof. intros Hg. unfold Outbox.sees. rewrite (proj1 (proj2 Hg)), orb_false_r. by apply mine_is. Qed.

Section outbox.
Context (t : uuid) (env : Env).

Lemma kept_endpoints (d d' : Outbox.DB) k :
  kept t d d' -> endpoint_own t (Outbox.endpoints d) k -> endpoint_own t (Outbox.endpoints d') k.
Proof. intros Hk. apply own_kept. intros u Hu. by injection (Hk u Hu). Qed.

Lemma confined_insert_outbox g r d :
  mine t g -> drawn env (Outbox.o_ID r) -> endpoint_own t (Outbox.endpoints d) (Outbox.o_EndpointID r) ->
  confined t env (Outbox.insert_outbox g r) d.
Proof.
  intros Hg Hid He. unfold Outbox.insert_outbox.
  apply confined_if; [done|auto with isolation|]. intros _ _ Ht%negb_false_iff. apply (mine_sees t) in Ht; [|done].
  apply confined_if; [done|auto with isolation|]. intros _ _ _.
  apply confined_if; [|auto with isolation|].
  { intros _ [Hun _]. cbn. by rewrite (view_own _ _ _ _ (proj2 (Hun _ Hid))). }
  intros _ _ _.
  apply (confined_case t env (fun d => Outbox.endpoints d !! Outbox.o_EndpointID r)); [| |auto with isolation].
  { intros _ _. cbn. by rewrite (view_own _ _ _ _ He). }
  intros e _ _ _. apply confined_if; [done| |auto with isolation]. intros _ _ _. apply confined_write.
  intros [Hwe Hwo] [Hun _]. split_and!.
  - unfold Outbox.set_outbox. cbn. by rewrite view_insert.
  - split; [exact Hwe|]. intros k q. cbn. rewrite lookup_insert_Some. intros [[<- <-]|[_ Hq]]; [done|]. by apply Hwo.
  - intros u Hu. cbn. f_equal. apply (view_insert_foreign _ t); [done|done|]. by apply Hun.
Qed.

Lemma confined_update_outbox r d :
  Outbox.o_TenantID r = t -> outbox_own t (Outbox.outbox d) (Outbox.o_ID r) -> confined t env (Outbox.update_outbox r) d.
Proof.
  intros Ht Ho. unfold Outbox.update_outbox. apply confined_if; [done|auto with isolation|]. intros _ _ _.
  apply confined_write. intros [Hwe Hwo] _. split_and!.
  - unfold Outbox.set_outbox. cbn. by rewrite view_insert.
  - split; [exact Hwe|]. intros k q. cbn. rewrite lookup_insert_Some. intros [[<- <-]|[_ Hq]]; [done|]. by apply Hwo.
  - intros u Hu. cbn. f_equal. by apply (view_insert_foreign _ t).
Qed.

Lemma subscribers_view g event d : Outbox.subscribers g t event (restrict t d) = Outbox.subscribers g t event d.
Proof. apply filter_view. by intros k e _ (_ & ? & _). Qed.

Lemma subscribers_own g event d e :
  wf d -> e ∈ Outbox.subscribers g t event d -> endpoint_own t (Outbox.endpoints d) (Outbox.ep_ID e).
Proof.
  intros [Hw _] He. apply list_elem_of_filter in He as [(_ & Ht & _) Hin].
  apply list_elem_of_fmap in Hin as ([k x] & -> & Hx). apply elem_of_map_to_list in Hx. cbn in *.
  rewrite (Hw _ _ Hx). intros r Hr. congruence.
Qed.

Lemma confined_write_audit `{Unicode} g id e d :
  mine t g -> drawn env id -> confined t env (Outbox.write_audit env g id e) d.
Proof. intros Hg Hid. unfold Outbox.write_audit. confine. Qed.

Lemma confined_Enqueue `{Unicode} `{UUIDLib} `{Outbox.GoJSON} g eventID tp event data d :
  mine t g -> confined t env (Outbox.Enqueue env g eventID tp t event data) d.
Proof.
  intros Hg. unfold Outbox.Enqueue. destruct (negb _); [apply confined_throw|]. cbv zeta.
  destruct (_ <? _); [apply confined_throw|].
  apply confined_bind.
  { apply confined_query. intros _ _. by rewrite subscribers_view. }
  intros subs d' [= <- <-] Hw Hun _ _ _. apply confined_bind; [|intros; apply confined_ret].
  apply confined_or_fail, confined_for_range. intros i e d' He Hk. apply confined_insert_outbox; [done|auto with isolation|].
  eapply kept_endpoints; [done|]. by eapply subscribers_own.
Qed.
End outbox.
#[export] Hint Resolve confined_write_audit : isolation.

Section outbox_operations.
Context `{Unicode} `{UUIDLib} (env : Env) (a : Authorized) (Ha : scope a <> uuid_Nil).

Lemma find_endpoint_view g id d : Outbox.find_endpoint g a id (restrict (scope a) d) = Outbox.find_endpoint g a id d.
Proof.
  unfold Outbox.find_endpoint. cbn. rewrite view_lookup. destruct (Outbox.endpoints d !! id) as [e|]; [|done]. cbn.
  case_decide as Ho; [done|]. by rewrite (bool_decide_eq_false_2 _ Ho), andb_false_r.
Qed.

Lemma find_endpoint_Some g id d e :
  wf d -> Outbox.find_endpoint g a id d = Some e ->
  Outbox.endpoints d !! id = Some e /\ Outbox.ep_ID e = id /\ Outbox.ep_TenantID e = scope a.
Proof.
  intros [Hw _]. unfold Outbox.find_endpoint. destruct (Outbox.endpoints d !! id) as [x|] eqn:El; [|done]. cbn.
  destruct (_ && _) eqn:Et; [|done]. intros [= ->]. apply andb_true_iff in Et as [_ Et%bool_decide_eq_true].
  split_and!; [done|by apply Hw|done].
Qed.

Lemma confined_CreateEndpoint v d : confined (scope a) env (Outbox.CreateEndpoint env a v) d.
Proof.
  unfold Outbox.CreateEndpoint. confine. set (e := Outbox.mkEndpoint _ _ _ _ _ _ _ _ _ _ _).
  unfold Outbox.insert_endpoint. apply confined_if; [done|auto with isolation|]. intros _ _ _.
  apply confined_if; [done|auto with isolation|]. intros _ _ _.
  assert (Hid : drawn env (Outbox.ep_ID e)) by (auto with isolation).
  apply confined_if; [|auto with isolation|].
  { intros _ [Hun _]. cbn. by rewrite (view_own _ _ _ _ (proj1 (Hun _ (drawn_id env 0)))). }
  intros _ _ _. apply confined_write. intros [Hwe Hwo] [Hun _]. split_and!.
  - unfold Outbox.set_endpoints. cbn. by rewrite view_insert.
  - split; [|exact Hwo]. intros k q. cbn. rewrite lookup_insert_Some. intros [[<- <-]|[_ Hq]]; [done|]. by apply Hwe.
  - intros u Hu. cbn. f_equal. apply (view_insert_foreign _ (scope a)); [done|done|]. by apply Hun.
Qed.

Lemma confined_GetEndpoint id d : confined (scope a) env (Outbox.GetEndpoint a id) d.
Proof.
  unfold Outbox.GetEndpoint. confine.
  apply (confined_case _ _ (Outbox.find_endpoint g a id)); [intros; apply find_endpoint_view|auto with isolation..].
Qed.

Lemma confined_ListEndpoints after limit d : confined (scope a) env (Outbox.ListEndpoints a after limit) d.
Proof.
  unfold Outbox.ListEndpoints. confine. apply confined_query. intros _ _. cbn. rewrite filter_view; [done|].
  by intros k e _ [_ ?].
Qed.

Lemma confined_UpdateEndpoint id i d : confined (scope a) env (Outbox.UpdateEndpoint env a id i) d.
Proof.
  unfold Outbox.UpdateEndpoint. confine.
  apply (confined_case _ _ (Outbox.find_endpoint g a id)); [intros; apply find_endpoint_view| |auto with isolation].
  intros before Hw _ (Hl & Hi & Ht)%find_endpoint_Some; [|done]. cbv zeta.
  apply confined_if; [done|auto with isolation|]. intros _ _ _.
  set (e := Outbox.updated _ _ before). set (entry := Outbox.endpoint_entry _ _ _ _ e _ _).
  apply (confined_ext _ _ (modify (fun db => Outbox.set_endpoints (<[Outbox.ep_ID e := e]> (Outbox.endpoints db)) db) ≫= (fun _ =>
    Outbox.write_audit env g (env_id env 0) entry ≫= (fun _ => mret e)))).
  { intros db. unfold mbind, SE_bind, modify, mret, SE_ret. by destruct (Outbox.write_audit _ _ _ _ _) as [[]]. }
  apply confined_bind; [|intros; confine]. apply confined_write. intros [Hwe Hwo] _. split_and!.
  - unfold Outbox.set_endpoints. cbn. by rewrite view_insert.
  - split; [|exact Hwo]. intros k q. cbn. rewrite lookup_insert_Some. intros [[<- <-]|[_ Hq]]; [done|]. by apply Hwe.
  - intros v Hv. cbn. f_equal. apply (view_insert_foreign _ (scope a)); [done|done|].
    intros r Hr. cbn in Hr. congruence.
Qed.

Lemma confined_Replay id d : confined (scope a) env (Outbox.Replay env a id) d.
Proof.
  unfold Outbox.Replay. confine.
  set (q db := match Outbox.outbox db !! id with
               | Some r => if Outbox.sees g (Outbox.o_TenantID r) && bool_decide (Outbox.o_TenantID r = scope a)
                           then Some r else None
               | None => None end).
  set (m r := if decide (Outbox.o_State r = Webhook.StateDead) then
      or_fail (Outbox.update_outbox (Outbox.replayed (env_now env) r))
        (fun e => Wrapf ("webhook: replay delivery: " +:+ error_text e) e) ≫= (fun _ =>
      mret (Outbox.delivery_of (Outbox.replayed (env_now env) r)))
    else throw (Wrapf (sentinel_text WebhookErrNotDead +:+ " (this delivery is "
                            +:+ Webhook.state_text (Outbox.o_State r) +:+ ")") (Sentinel WebhookErrNotDead))).
  apply (confined_ext _ _ (fun s => match q s with Some r => m r s | None => throw (Sentinel WebhookErrNotFound) s end)).
  { intros s. unfold q, m. destruct (Outbox.outbox s !! id) as [r|]; [|done]. destruct (_ && _); [|done].
    case_decide; [|done]. unfold mbind, SE_bind, or_fail, mret, SE_ret. by destruct (Outbox.update_outbox _ _) as [[]]. }
  apply (confined_case _ _ q).
  - intros _ _. unfold q. cbn. rewrite view_lookup. destruct (Outbox.outbox d !! id) as [r|]; [|done].
    case_decide as Ho; [done|]. by rewrite (bool_decide_eq_false_2 _ Ho), andb_false_r.
  - intros r [_ Hw] _. unfold q. destruct (Outbox.outbox d !! id) as [x|] eqn:El; [|done].
    destruct (_ && _) eqn:Et; [|done]. intros [= ->]. apply andb_true_iff in Et as [_ Et%bool_decide_eq_true].
    unfold m. confine. apply confined_update_outbox; [done|]. cbn. rewrite (Hw _ _ El). intros y Hy. congruence.
  - auto with isolation.
Qed.

Lemma confined_outbox_List f after limit d : confined (scope a) env (Outbox.List_ a f after limit) d.
Proof.
  unfold Outbox.List_. confine. apply confined_query. intros _ _. cbn. rewrite filter_view; [done|].
  by intros k r _ (_ & ? & _).
Qed.
End outbox_operations.

(** ** Invoices *)

Import Invoice.

Notation invoice_view := (view (fun _ : uuid => TenantID)).
Notation invoice_own := (own (fun _ : uuid => TenantID)).
Notation item_view := (view (fun _ : uuid => item_TenantID)).
Notation item_own := (own (fun _ : uuid => item_TenantID)).
Notation counter_view := (view (fun (k : uuid) (_ : Z) => k)).

#[export] Instance invoice_tenanted : Tenanted InvoiceStore.DB.
Proof.
  refine {|
    restrict t d := InvoiceStore.mkDB (invoice_view t (InvoiceStore.invoices d)) (item_view t (InvoiceStore.items d))
                      (list_view InvoiceStore.ev_TenantID t (InvoiceStore.events d)) (counter_view t (InvoiceStore.counters d))
                      (restrict t (InvoiceStore.hooks d));
    wf d := (forall k i, InvoiceStore.invoices d !! k = Some i -> ID i = k) /\
            (forall k it, InvoiceStore.items d !! k = Some it -> item_ID it = k /\
               exists p, InvoiceStore.invoices d !! item_InvoiceID it = Some p /\ TenantID p = item_TenantID it) /\
            wf (InvoiceStore.hooks d);
    unclaimed t env d := (forall k, drawn env k -> invoice_own t (InvoiceStore.invoices d) k /\ item_own t (InvoiceStore.items d) k) /\
      (forall e, e ∈ InvoiceStore.events d -> drawn env (InvoiceStore.ev_ID e) -> InvoiceStore.ev_TenantID e = t) /\
      unclaimed t env (InvoiceStore.hooks d);
  |}.
  intros t env d d' Hk (Hp & He & Ha). split_and!; [intros k Hd; split| |].
  - eapply own_kept; [|by apply Hp]. intros u Hu. by injection (Hk u Hu).
  - eapply own_kept; [|by apply Hp]. intros u Hu. by injection (Hk u Hu).
  - eapply (list_own_kept _ (fun e => drawn env (InvoiceStore.ev_ID e))); [|done]. intros u Hu. by injection (Hk u Hu).
  - eapply unclaimed_kept; [|done]. intros u Hu. exact (f_equal InvoiceStore.hooks (Hk u Hu)).
Defined.

#[export] Instance hooks_lens : Lens InvoiceStore.hooks InvoiceStore.set_hooks.
Proof.
  split; [done|done|done|intros []; done|by intros s (_ & _ & ?)| |by intros t env s (_ & _ & ?)].
  intros x s (H1 & H2 & _) Hx. by split_and!.
Qed.

Lemma kept_invoices t (d d' : InvoiceStore.DB) k :
  kept t d d' -> invoice_own t (InvoiceStore.invoices d) k -> invoice_own t (InvoiceStore.invoices d') k.
Proof. intros Hk. apply own_kept. intros u Hu. by injection (Hk u Hu). Qed.

Lemma drawn_invoice t env (d : InvoiceStore.DB) k :
  unclaimed t env d -> drawn env k -> invoice_own t (InvoiceStore.invoices d) k.
Proof. intros [Hun _] Hd. by apply Hun. Qed.

Section invoices.
Context (t : uuid) (env : Env).

Lemma find_invoice_view g id d : InvoiceStore.find_invoice g id t (restrict t d) = InvoiceStore.find_invoice g id t d.
Proof.
  unfold InvoiceStore.find_invoice. cbn. rewrite view_lookup. destruct (InvoiceStore.invoices d !! id) as [p|]; [|done]. cbn.
  case_decide as Ho; [done|]. by rewrite (bool_decide_eq_false_2 _ Ho), andb_false_r.
Qed.

Lemma invoice_found g id d inv :
  wf d -> InvoiceStore.find_invoice g id t d = Some inv ->
  ID inv = id /\ TenantID inv = t /\ invoice_own t (InvoiceStore.invoices d) id.
Proof.
  intros [Hw _]. unfold InvoiceStore.find_invoice. destruct (InvoiceStore.invoices d !! id) as [x|] eqn:El; [|done]. cbn.
  destruct (_ && _) eqn:Et; [|done]. intros [= ->]. apply andb_true_iff in Et as [_ Et%bool_decide_eq_true].
  split_and!; [by apply Hw|done|]. intros r Hr. congruence.
Qed.

Lemma items_guard_view i d :
  invoice_own t (InvoiceStore.invoices d) i -> InvoiceStore.items_guard i (restrict t d) = InvoiceStore.items_guard i d.
Proof. intros Ho. unfold InvoiceStore.items_guard. cbn. by rewrite (view_own _ _ _ _ Ho). Qed.

Lemma same_number_view n d : InvoiceStore.same_number t n (restrict t d) = InvoiceStore.same_number t n d.
Proof. apply (existsb_view _ snd). intros k i _ Hi. by apply bool_decide_eq_true in Hi as [? _]. Qed.

(** A line of another tenant never stands on this tenant's invoice: the foreign key. *)
Lemma same_position_view i p d :
  wf d -> invoice_own t (InvoiceStore.invoices d) i -> InvoiceStore.same_position i p (restrict t d) = InvoiceStore.same_position i p d.
Proof.
  intros (_ & Hfk & _) Ho. apply (existsb_view _ snd). intros k it Hit Hi.
  apply bool_decide_eq_true in Hi as [Hi _]. cbn in Hi. destruct (Hfk _ _ Hit) as (_ & inv & Hinv & <-).
  rewrite Hi in Hinv. by apply Ho.
Qed.

Lemma items_of_view g i u d : mine t g -> InvoiceStore.items_of g i u (restrict t d) = InvoiceStore.items_of g i u d.
Proof.
  intros Hg. unfold InvoiceStore.items_of. cbn. rewrite filter_view; [done|]. intros k it _ (Hit & _).
  by apply (mine_is t g _ Hg), Is_true_eq_true.
Qed.

Lemma lines_of_view g i d : mine t g -> InvoiceStore.lines_of g i (restrict t d) = InvoiceStore.lines_of g i d.
Proof.
  intros Hg. unfold InvoiceStore.lines_of. cbn. rewrite filter_view; [done|]. intros k it _ (Hit & _).
  by apply (mine_is t g _ Hg), Is_true_eq_true.
Qed.

Lemma confined_loadItems g i u d : mine t g -> confined t env (InvoiceStore.loadItems g i u) d.
Proof. intros Hg. apply confined_query. intros _ _. by rewrite items_of_view. Qed.

Lemma confined_sum_lines g i d : mine t g -> confined t env (InvoiceStore.sum_lines g i) d.
Proof.
  intros Hg. unfold InvoiceStore.sum_lines. cbv zeta.
  apply (confined_with _ _ (InvoiceStore.lines_of g i) (fun l s =>
    if in_int64b (sum_Z (LineTotalMinor <$> l)) then (Ok (sum_Z (LineTotalMinor <$> l)), s)
    else (Err (Wrapf "recompute subtotal: numeric out of range" numeric_out_of_range), s))).
  - intros _ _. by apply lines_of_view.
  - by destruct (in_int64b _); apply confined_const.
Qed.

(** Writing one of the tenant's invoices, a new one or one it has. *)
Lemma confined_put_invoice {A} (r : go_result A) inv d :
  TenantID inv = t -> (wf d -> unclaimed t env d -> invoice_own t (InvoiceStore.invoices d) (ID inv)) ->
  confined t env (fun db => (r, InvoiceStore.set_invoices (<[ID inv := inv]> (InvoiceStore.invoices db)) db)) d.
Proof.
  intros Ht Ho. apply confined_write. intros (Hk & Hfk & Hh) Hun. specialize (Ho ltac:(by split_and!) Hun). split_and!.
  - unfold InvoiceStore.set_invoices. cbn. by rewrite view_insert.
  - split_and!; [| |exact Hh].
    + intros k q. cbn. rewrite lookup_insert_Some. intros [[<- <-]|[_ Hq]]; [done|]. by apply Hk.
    + intros k it Hit. cbn in Hit. destruct (Hfk _ _ Hit) as (Hid & p & Hp & Hpt). split; [done|]. cbn.
      destruct (decide (item_InvoiceID it = ID inv)) as [He|Hne].
      * exists inv. rewrite He, lookup_insert_eq. split; [done|]. rewrite Ht, <- Hpt. rewrite He in Hp. by rewrite (Ho _ Hp).
      * exists p. by rewrite lookup_insert_ne.
  - intros u Hu. cbn. f_equal. by apply (view_insert_foreign _ t).
Qed.

Lemma confined_insert_invoice g inv d :
  mine t g -> drawn env (ID inv) -> confined t env (InvoiceStore.insert_invoice g inv) d.
Proof.
  intros Hg Hid. unfold InvoiceStore.insert_invoice.
  apply confined_if; [done|auto with isolation|]. intros _ _ Ht%negb_false_iff. apply (mine_is t) in Ht; [|done].
  apply confined_if; [done|auto with isolation|]. intros _ _ _. rewrite Ht.
  apply confined_if; [|auto with isolation|].
  { intros _ Hun. rewrite same_number_view. cbn. by rewrite (view_own _ _ _ _ (drawn_invoice _ _ _ _ Hun Hid)). }
  intros _ _ _. apply confined_put_invoice; [done|]. intros _ Hun. by eapply drawn_invoice.
Qed.

Lemma confined_update_invoice old new d :
  TenantID new = t -> invoice_own t (InvoiceStore.invoices d) (ID new) ->
  confined t env (InvoiceStore.update_invoice old new) d.
Proof.
  intros Ht Ho. unfold InvoiceStore.update_invoice.
  do 3 (apply confined_if; [done|auto with isolation|]; intros _ _ _). by apply confined_put_invoice.
Qed.

Lemma confined_insert_item g it d :
  mine t g -> drawn env (item_ID it) -> (unclaimed t env d -> invoice_own t (InvoiceStore.invoices d) (item_InvoiceID it)) ->
  confined t env (InvoiceStore.insert_item g it) d.
Proof.
  intros Hg Hid Ho. unfold InvoiceStore.insert_item.
  apply confined_if; [intros _ Hun; by rewrite items_guard_view by auto|auto with isolation|]. intros _ _ _.
  apply confined_if; [done|auto with isolation|]. intros _ _ Ht%negb_false_iff. apply (mine_is t) in Ht; [|done].
  do 2 (apply confined_if; [done|auto with isolation|]; intros _ _ _).
  apply confined_if; [|auto with isolation|].
  { intros Hw Hun. rewrite same_position_view by auto. cbn. by rewrite (view_own _ _ _ _ (proj2 (proj1 Hun _ Hid))). }
  intros _ Hun0 _. specialize (Ho Hun0).
  apply (confined_case t env (fun d => InvoiceStore.invoices d !! item_InvoiceID it)); [| |auto with isolation].
  { intros _ _. cbn. by rewrite (view_own _ _ _ _ Ho). }
  intros p _ _ Hp. apply confined_if; [done| |auto with isolation]. intros _ _ Hpt%bool_decide_eq_true. apply confined_write.
  intros (Hk & Hfk & Hh) (Hun & _). split_and!.
  - unfold InvoiceStore.set_items. cbn. by rewrite view_insert.
  - split_and!; [exact Hk| |exact Hh]. intros k q. cbn. rewrite lookup_insert_Some.
    intros [[<- <-]|[_ Hq]]; [|by apply Hfk]. split; [done|]. eauto.
  - intros u Hu. cbn. f_equal. apply (view_insert_foreign _ t); [done|done|]. by apply Hun.
Qed.

Lemma confined_delete_item g item i d :
  mine t g -> invoice_own t (InvoiceStore.invoices d) i -> confined t env (InvoiceStore.delete_item g item i t) d.
Proof.
  intros Hg Ho. unfold InvoiceStore.delete_item.
  set (q db := match InvoiceStore.items db !! item with
               | Some it => if tenant_is g (item_TenantID it) && bool_decide (item_InvoiceID it = i) && bool_decide (item_TenantID it = t)
                            then Some it else None
               | None => None end).
  set (m (it : Item) (db : InvoiceStore.DB) := if InvoiceStore.items_guard i db
                 then (Ok 1, InvoiceStore.set_items (delete item (InvoiceStore.items db)) db)
                 else (Err (check_violation "invoice_items_guard"), db)).
  apply (confined_ext _ _ (fun s => match q s with Some r => m r s | None => (Ok 0, s) end)).
  { intros s. unfold q, m. destruct (InvoiceStore.items s !! item); [|done]. by destruct (_ && _). }
  apply (confined_case _ _ q m).
  - intros _ _. unfold q. cbn. rewrite view_lookup. destruct (InvoiceStore.items d !! item) as [it|]; [|done].
    case_decide as Hit; [done|]. by rewrite (bool_decide_eq_false_2 _ Hit), andb_false_r.
  - intros it _ _ Hq. unfold m. apply confined_if; [intros; by apply items_guard_view| |auto with isolation].
    intros _ _ _. apply confined_write. intros (Hk & Hfk & Hh) _.
    assert (Hit : item_own t (InvoiceStore.items d) item).
    { intros x Hx. unfold q in Hq. rewrite Hx in Hq. destruct (_ && _) eqn:E in Hq; [|done].
      by apply andb_true_iff in E as [_ E%bool_decide_eq_true]. }
    split_and!.
    + unfold InvoiceStore.set_items. cbn. by rewrite view_delete.
    + split_and!; [exact Hk| |exact Hh]. intros k x. cbn. rewrite lookup_delete_Some. intros [_ Hx]. by apply Hfk.
    + intros u Hu. cbn. f_equal. by apply (view_delete_foreign _ t).
  - auto with isolation.
Qed.

Lemma confined_insert_event g e d :
  mine t g -> drawn env (InvoiceStore.ev_ID e) -> invoice_own t (InvoiceStore.invoices d) (InvoiceStore.ev_InvoiceID e) ->
  confined t env (InvoiceStore.insert_event g e) d.
Proof.
  intros Hg Hid Ho. unfold InvoiceStore.insert_event.
  apply confined_if; [done|auto with isolation|]. intros _ _ Ht%negb_false_iff. apply (mine_is t) in Ht; [|done].
  apply confined_if; [done|auto with isolation|]. intros _ _ _.
  apply confined_if; [|auto with isolation|].
  { intros _ (_ & Hun & _). apply existsb_list_view. intros x Hx Hf%bool_decide_eq_true. apply Hun; [done|]. by rewrite Hf. }
  intros _ _ _. apply (confined_case t env (fun d => InvoiceStore.invoices d !! InvoiceStore.ev_InvoiceID e)); [| |auto with isolation].
  { intros _ _. cbn. by rewrite (view_own _ _ _ _ Ho). }
  intros p _ _ Hp. apply confined_if; [done| |auto with isolation]. intros _ _ _. apply confined_write.
  intros Hw _. split_and!; [|exact Hw|].
  - unfold InvoiceStore.set_events. cbn. by rewrite list_view_app, list_view_one.
  - intros u Hu. cbn. f_equal. by rewrite list_view_app, (list_view_other _ t), app_nil_r.
Qed.

Lemma confined_allocateNumber g d : mine t g -> confined t env (InvoiceStore.allocateNumber g t) d.
Proof.
  intros Hg. unfold InvoiceStore.allocateNumber. apply confined_if; [done|auto with isolation|]. intros _ _ _.
  set (next db := match InvoiceStore.counters db !! t with None => 2 | Some k => k + 1 end).
  set (m n (db : InvoiceStore.DB) :=
    if MaxInt64 <? n then (Err (Wrapf "allocate invoice number: bigint out of range" numeric_out_of_range), db)
    else (Ok (InvoiceStore.number_of (n - 1)), InvoiceStore.set_counters (<[t := n]> (InvoiceStore.counters db)) db)).
  assert (Ho : own (fun (k : uuid) (_ : Z) => k) t (InvoiceStore.counters d) t) by done.
  apply (confined_with _ _ next m).
  - intros _ _. unfold next. cbn. by rewrite (view_own _ _ _ _ Ho).
  - unfold m. apply confined_if; [done|auto with isolation|]. intros _ _ _. apply confined_write. intros Hw _.
    split_and!; [|exact Hw|].
    + unfold InvoiceStore.set_counters. cbn. by rewrite view_insert.
    + intros u Hu. cbn. f_equal. by apply (view_insert_foreign _ t).
Qed.
End invoices.
#[export] Hint Resolve confined_loadItems confined_sum_lines confined_allocateNumber : isolation.

Section invoice_operations.
Context `{Unicode} `{UUIDLib} `{Outbox.GoJSON} (emits : bool) (traceparent : string).
Context (env : Env) (a : Authorized) (Ha : scope a <> uuid_Nil).

Lemma confined_emit g id event inv d :
  mine (scope a) g -> confined (scope a) env (InvoiceStore.emit emits traceparent env g id a event inv) d.
Proof. intros Hg. unfold InvoiceStore.emit. confine. by apply confined_Enqueue. Qed.

Lemma confined_auditInvoice g id action inv before after d :
  mine (scope a) g -> drawn env id -> confined (scope a) env (InvoiceStore.auditInvoice env g id a action inv before after) d.
Proof. intros Hg Hid. unfold InvoiceStore.auditInvoice. confine. Qed.

Lemma confined_writeEvent g id inv kind from to d :
  mine (scope a) g -> drawn env id -> invoice_own (scope a) (InvoiceStore.invoices d) (ID inv) ->
  confined (scope a) env (InvoiceStore.writeEvent env g id a inv kind from to) d.
Proof.
  intros Hg Hid Ho. unfold InvoiceStore.writeEvent. apply confined_bind; [apply confined_lift|].
  intros [actor kd] d' Hl _ _ _ _ Hk. apply confined_or_fail, confined_insert_event; [done|done|]. by eapply kept_invoices.
Qed.

Lemma confined_insert_items g inv l d :
  mine (scope a) g -> drawn env (ID inv) -> confined (scope a) env (InvoiceStore.insert_items env g inv l) d.
Proof.
  intros Hg Hid. unfold InvoiceStore.insert_items. apply confined_for_range. intros i [it lt] d' _ _. cbv zeta. confine.
  apply confined_insert_item; [done|auto with isolation|]. intros Hun. by eapply drawn_invoice.
Qed.

Lemma confined_invoice_Create i d : confined (scope a) env (InvoiceStore.Create emits traceparent env a i) d.
Proof.
  unfold InvoiceStore.Create. confine.
  - apply confined_insert_invoice; auto with isolation.
  - apply confined_insert_items; auto with isolation.
  - apply confined_writeEvent; [done|auto with isolation|]. eapply drawn_invoice; [done|auto with isolation].
  - by apply confined_emit.
  - apply confined_auditInvoice; auto with isolation.
Qed.

Lemma confined_invoice_Get id d : confined (scope a) env (InvoiceStore.Get a id) d.
Proof.
  unfold InvoiceStore.Get. confine.
  apply (confined_case _ _ (InvoiceStore.find_invoice g id (scope a))); [intros; apply find_invoice_view| |auto with isolation].
  intros inv _ _ _. confine.
Qed.

Lemma confined_invoice_List status after limit d : confined (scope a) env (InvoiceStore.List_ a status after limit) d.
Proof.
  unfold InvoiceStore.List_. confine. apply confined_query. intros _ _. cbn. rewrite filter_view; [done|].
  by intros k i _ (_ & ? & _).
Qed.

(** Writing back a row just found: the store's compare-and-set updates. *)
Lemma confined_rewrite_invoice (fail : err -> err) cur new d :
  ID new = ID cur -> TenantID new = scope a -> invoice_own (scope a) (InvoiceStore.invoices d) (ID cur) ->
  confined (scope a) env (fun db => match InvoiceStore.update_invoice cur new db with
    | (Ok _, db') => (Ok new, db')
    | (Err e, db') => (Err (fail e), db')
    end) d.
Proof.
  intros Hi Ht Ho. apply (confined_ext _ _ (or_fail (InvoiceStore.update_invoice cur new) fail ≫= (fun _ => mret new))).
  { intros s. unfold mbind, SE_bind, or_fail, mret, SE_ret. by destruct (InvoiceStore.update_invoice _ _ _) as [[]]. }
  confine. apply confined_update_invoice; [done|]. by rewrite Hi.
Qed.

Lemma confined_store_totals g k before action eventKind subtotal d :
  mine (scope a) g -> TenantID before = scope a -> invoice_own (scope a) (InvoiceStore.invoices d) (ID before) ->
  confined (scope a) env (InvoiceStore.store_totals env g k before a action eventKind subtotal) d.
Proof.
  intros Hg Ht Ho. unfold InvoiceStore.store_totals. rewrite Ht.
  apply confined_bind; [apply confined_lift|]. intros total d1 Hl _ _ _ _ Hk1. apply confined_bind.
  { apply (confined_case _ _ (InvoiceStore.find_invoice g (ID before) (scope a))); [intros; apply find_invoice_view| |auto with isolation].
    intros cur Hw _ (Hi & Hct & Hco)%invoice_found; [|done]. case_decide; [|apply confined_const].
    apply confined_rewrite_invoice; [done|done|]. by rewrite Hi. }
  intros after d2 Hafter Hw1 _ _ _ Hk2.
  assert (Hid : ID after = ID before).
  { destruct (InvoiceStore.find_invoice g (ID before) (scope a) d1) as [cur|] eqn:Ef; [|done].
    apply invoice_found in Ef as (Hi & _); [|done]. case_decide; [|done].
    destruct (InvoiceStore.update_invoice _ _ d1) as [[u|e] d3]; [|done]. by injection Hafter as <- _. }
  confine.
  - apply confined_writeEvent; [done|auto with isolation|]. cbn. rewrite Hid. eauto using kept_invoices.
  - apply confined_auditInvoice; auto with isolation.
Qed.

Lemma confined_recomputeTotals g k before action eventKind d :
  mine (scope a) g -> TenantID before = scope a -> invoice_own (scope a) (InvoiceStore.invoices d) (ID before) ->
  confined (scope a) env (InvoiceStore.recomputeTotals env g k before a action eventKind) d.
Proof.
  intros Hg Ht Ho. unfold InvoiceStore.recomputeTotals. apply confined_bind; [by apply confined_sum_lines|].
  intros s d' _ _ _ _ _ Hk. apply confined_store_totals; [done|done|]. by eapply kept_invoices.
Qed.

Lemma confined_AddItem id i d : confined (scope a) env (InvoiceStore.AddItem env a id i) d.
Proof.
  unfold InvoiceStore.AddItem. confine.
  apply (confined_case _ _ (InvoiceStore.find_invoice g id (scope a))); [intros; apply find_invoice_view| |auto with isolation].
  intros before Hw _ (Hi & Ht & Ho)%invoice_found; [|done]. case_decide; [|apply confined_const]. cbv zeta.
  apply (confined_with _ _ (InvoiceStore.lines_of g id) (fun l s =>
    (if InvoiceStore.MaxInt32 <? InvoiceStore.next_position l then throw _
     else or_fail (InvoiceStore.insert_item g (mkItem (env_id env 0) id (TenantID before) (InvoiceStore.next_position l) _ _ _ _ _)) _
            ≫= (fun _ => InvoiceStore.recomputeTotals env g 1 before a _ _)) s)).
  { intros _ _. by apply lines_of_view. }
  destruct (_ <? _); [apply confined_throw|]. apply confined_bind.
  - apply confined_or_fail, confined_insert_item; [done|auto with isolation|done].
  - intros _ d2 _ _ _ _ _ Hk. apply confined_recomputeTotals; [done|done|]. rewrite Hi. by eapply kept_invoices.
Qed.

Lemma confined_RemoveItem id item d : confined (scope a) env (InvoiceStore.RemoveItem env a id item) d.
Proof.
  unfold InvoiceStore.RemoveItem. confine.
  apply (confined_case _ _ (InvoiceStore.find_invoice g id (scope a))); [intros; apply find_invoice_view| |auto with isolation].
  intros before Hw _ (Hi & Ht & Ho)%invoice_found; [|done]. case_decide; [|apply confined_const].
  apply confined_bind.
  - apply confined_or_fail. rewrite Ht. by apply confined_delete_item.
  - intros n d2 _ _ _ _ _ Hk. destruct (n =? 0); [apply confined_throw|].
    apply confined_recomputeTotals; [done|done|]. rewrite Hi. by eapply kept_invoices.
Qed.

Lemma cas_transition_ID g t before to v d inv d' :
  wf d -> InvoiceStore.cas_transition env g t before to v d = (Ok inv, d') -> ID inv = ID before.
Proof.
  intros Hw. unfold InvoiceStore.cas_transition. destruct (_ <? _); [done|].
  destruct (InvoiceStore.find_invoice g (ID before) (TenantID before) d) as [cur|] eqn:Ef; [|done].
  apply invoice_found in Ef as (Hi & _); [|done]. destruct (_ && _); [|done].
  destruct (InvoiceStore.update_invoice _ _ d) as [[u|e] d3]; [|done]. by intros [= <- _].
Qed.

Lemma confined_cas_transition g t before to v d :
  TenantID before = scope a -> confined (scope a) env (InvoiceStore.cas_transition env g t before to v) d.
Proof.
  intros Ht. unfold InvoiceStore.cas_transition. apply confined_if; [done|auto with isolation|]. intros _ _ _. rewrite Ht.
  apply (confined_case _ _ (InvoiceStore.find_invoice g (ID before) (scope a))); [intros; apply find_invoice_view| |auto with isolation].
  intros cur Hw _ (Hi & Hct & Hco)%invoice_found; [|done].
  apply confined_if; [done| |auto with isolation]. intros _ _ _. apply confined_rewrite_invoice; [done|done|]. by rewrite Hi.
Qed.

Lemma confined_TransitionInvoice id t v d :
  confined (scope a) env (InvoiceStore.TransitionInvoice emits traceparent env a id t v) d.
Proof.
  unfold InvoiceStore.TransitionInvoice. confine.
  apply (confined_case _ _ (InvoiceStore.find_invoice g id (scope a))); [intros; apply find_invoice_view| |auto with isolation].
  intros before Hw _ (Hi & Ht & Ho)%invoice_found; [|done]. apply confined_if; [done|auto with isolation|]. intros _ _ _.
  apply confined_bind; [by apply confined_cas_transition|]. intros inv d2 Hcas _ _ _ _ Hk.
  apply cas_transition_ID in Hcas; [|done]. confine.
  - apply confined_writeEvent; [done|auto with isolation|]. cbn. rewrite Hcas, Hi. eauto using kept_invoices.
  - by apply confined_emit.
  - apply confined_auditInvoice; auto with isolation.
Qed.
End invoice_operations.
