(* ===== verification/IsolationAccounts.v ===== *)
(** * Running a tenant alone: memberships and API keys

    Users are accounts of the service, not of a tenant: restricting the tables keeps them. *)

From S2P Require Import Prelude Apperr Encoding Ids Db Authz Tenant Isolation IsolationStores.
From S2P Require AuditLog ApiKey.

(** ** Tenants and memberships *)

Notation tenant_view := (view (fun (k : uuid) (_ : Tenant) => k)).
Notation membership_view := (view (fun (k : uuid * uuid) (_ : Role * gotime) => k.1)).

#[export] Instance accounts_tenanted : Tenanted DB.
Proof.
  refine {|
    restrict t d := mkDB (tenant_view t (tenants d)) (users d) (membership_view t (memberships d));
    wf _ := True;
    unclaimed _ _ _ := True;
  |}.
  done.
Defined.

Section accounts.
Context (t : uuid) (env : Env).

Lemma membership_lookup_view u d : memberships (restrict t d) !! (t, u) = memberships d !! (t, u).
Proof. apply view_own. by intros r _. Qed.

Lemma tenant_lookup_view d : tenants (restrict t d) !! t = tenants d !! t.
Proof. apply view_own. by intros r _. Qed.

Lemma confined_select_role g u d : confined t env (select_role g t u) d.
Proof.
  unfold select_role.
  apply (confined_case _ _ (fun d => memberships d !! (t, u)) (fun x s => let '(r, _) := x in
    if memberships_select g t u then (Ok r, s) else (Err (Sentinel PgxErrNoRows), s))).
  - intros _ _. apply membership_lookup_view.
  - intros [r at_] _ _ _. by destruct (memberships_select g t u); apply confined_const.
  - auto with isolation.
Qed.

Lemma tenants_select_view g d : tenants_select g (restrict t d) t = tenants_select g d t.
Proof. unfold tenants_select. destruct (SettingUserID g); [|done]. by rewrite membership_lookup_view. Qed.

Lemma confined_select_tenant g d : confined t env (select_tenant g t) d.
Proof.
  unfold select_tenant. apply (confined_case _ _ (fun d => tenants d !! t)); [intros; apply tenant_lookup_view| |auto with isolation].
  intros row _ _ _. apply confined_if; [intros; apply tenants_select_view|auto with isolation..].
Qed.

Lemma confined_insert_membership g u r d : confined t env (insert_membership env g t u r) d.
Proof.
  unfold insert_membership.
  do 2 (apply confined_if; [done|auto with isolation|]; intros _ _ _).
  apply confined_if; [intros _ _; by rewrite membership_lookup_view|auto with isolation|]. intros _ _ _.
  apply confined_if; [intros _ _; by rewrite tenant_lookup_view|auto with isolation|]. intros _ _ _.
  apply confined_write. intros _ _. split_and!; [|done|].
  - cbn. by rewrite view_insert.
  - intros v Hv. cbn. f_equal. by apply (view_insert_foreign _ t).
Qed.
End accounts.
#[export] Hint Resolve confined_select_role confined_select_tenant confined_insert_membership : isolation.

Section gate.
Context `{Unicode} `{UUIDLib} (t : uuid) (env : Env).

Lemma confined_Resolve u d : confined t env (Resolve t u) d.
Proof.
  unfold Resolve, NewScope. destruct (decide (t = uuid_Nil)); [apply confined_throw|]. confine.
  unfold Authorize. confine.
Qed.

Lemma confined_ResolveTenant pr path d : uuid_Parse path = Some t -> confined t env (ResolveTenant pr path) d.
Proof.
  intros Hp. unfold ResolveTenant. rewrite Hp. destruct pr as [p|]; [|apply confined_const].
  destruct (decide (Method p = MethodAPIKey)).
  - destruct (decide (Authz.TenantID p = t)); [|apply confined_const].
    destruct (NewScope t); [|apply confined_const]. destruct (NewMachineAuthorized _ _); apply confined_const.
  - apply (confined_ext _ _ (failing (Resolve t (Authz.UserID p)) ≫= (fun a =>
      mret (a, WithResolvedTenant p (scope a) (role a))))).
    { intros s. unfold mbind, SE_bind, failing, mret, SE_ret. by destruct (Resolve t (Authz.UserID p) s) as [[]]. }
    confine. apply confined_Resolve.
Qed.
End gate.

Section tenant_operations.
Context `{Unicode} `{UUIDLib} `{Collation} (env : Env) (a : Authorized) (Ha : scope a <> uuid_Nil).

Lemma confined_tenant_Get d : confined (scope a) env (Get a) d.
Proof. unfold Get. confine. Qed.

Lemma confined_ListMembers d : confined (scope a) env (ListMembers a) d.
Proof.
  unfold ListMembers. confine. apply confined_query. intros _ _. cbn. rewrite omap_view; [done|].
  intros [t v] [r at_] _ [x Hx]. cbn in Hx. destruct (users d !! v); [|done]. cbn in Hx. by case_decide.
Qed.

Lemma confined_AddMember u r d : confined (scope a) env (AddMember env a u r) d.
Proof. unfold AddMember. confine. Qed.

Lemma confined_handleAddMember u r d : confined (scope a) env (handleAddMember env a u r) d.
Proof.
  unfold handleAddMember. destruct (uuid_Parse (trim_space u)) as [v|]; [|apply confined_const]. cbv zeta.
  do 2 (apply confined_if; [done|auto with isolation|]; intros _ _ _).
  apply (confined_ext _ _ (failing (AddMember env a v (trim_space r)) ≫= (fun _ => mret (v, trim_space r)))).
  { intros s. unfold mbind, SE_bind, failing, mret, SE_ret. by destruct (AddMember env a v (trim_space r) s) as [[]]. }
  confine. apply confined_AddMember.
Qed.
End tenant_operations.

(** ** API keys *)

Definition key_owner (_ : uuid) (r : ApiKey.KeyRow) : uuid := ApiKey.k_TenantID (ApiKey.row_key r).

Definition drawn_hash (env : Env) : string := (ApiKey.newAPIKeySecret (env_rand env)).2.

#[export] Instance keys_tenanted : Tenanted ApiKey.DB.
Proof.
  refine {|
    restrict t d := ApiKey.mkDB (view key_owner t (ApiKey.api_keys d)) (restrict t (ApiKey.accounts d))
                      (restrict t (ApiKey.audit_log d));
    wf d := forall k r, ApiKey.api_keys d !! k = Some r -> ApiKey.k_ID (ApiKey.row_key r) = k;
    unclaimed t env d := (forall k, drawn env k -> own key_owner t (ApiKey.api_keys d) k) /\
      (forall k r, ApiKey.api_keys d !! k = Some r -> ApiKey.row_hash r = drawn_hash env -> key_owner k r = t) /\
      unclaimed t env (ApiKey.audit_log d);
  |}.
  intros t env d d' Hk (Hp & Hh & Ha). split_and!.
  - intros k Hd. eapply own_kept; [|by apply Hp]. intros u Hu. by injection (Hk u Hu).
  - intros k r Hr He. destruct (decide (key_owner k r = t)) as [|Hne]; [done|].
    assert (Hv : view key_owner (key_owner k r) (ApiKey.api_keys d') !! k = Some r) by by apply view_Some.
    assert (Hkv : view key_owner (key_owner k r) (ApiKey.api_keys d') = view key_owner (key_owner k r) (ApiKey.api_keys d))
      by by injection (Hk _ Hne).
    rewrite Hkv in Hv. apply view_Some in Hv as [Hv _]. by eapply Hh.
  - eapply unclaimed_kept; [|done]. intros u Hu. exact (f_equal ApiKey.audit_log (Hk u Hu)).
Defined.

#[export] Instance keys_audit_lens : Lens ApiKey.audit_log ApiKey.set_audit.
Proof. by split; [| | |intros []| | |intros t env s (_ & _ & ?)]. Qed.

Lemma mine_key_visible t g r : mine t g -> ApiKey.key_visible g r = true <-> ApiKey.k_TenantID (ApiKey.row_key r) = t.
Proof.
  intros Hg. unfold ApiKey.key_visible. destruct (Hg) as (_ & _ & ->). rewrite orb_true_iff, (mine_is t g _ Hg).
  rewrite bool_decide_eq_true. split; [|by left]. by intros [?|?].
Qed.

Section keys.
Context `{Unicode} `{TimeJSON} (t : uuid) (env : Env).

Lemma confined_key_audit g id e d : mine t g -> drawn env id -> confined t env (ApiKey.write_audit env g id e) d.
Proof. intros Hg Hid. unfold ApiKey.write_audit. confine. Qed.

Lemma confined_put_key {A} (r : go_result A) row d :
  ApiKey.k_TenantID (ApiKey.row_key row) = t ->
  (wf d -> unclaimed t env d -> own key_owner t (ApiKey.api_keys d) (ApiKey.k_ID (ApiKey.row_key row))) ->
  confined t env (fun db => (r, ApiKey.set_keys (<[ApiKey.k_ID (ApiKey.row_key row) := row]> (ApiKey.api_keys db)) db)) d.
Proof.
  intros Ht Ho. apply confined_write. intros Hw Hun. split_and!.
  - unfold ApiKey.set_keys. cbn. by rewrite view_insert.
  - intros k q. cbn. rewrite lookup_insert_Some. intros [[<- <-]|[_ Hq]]; [done|]. by apply Hw.
  - intros u Hu. cbn. f_equal. apply (view_insert_foreign _ t); auto.
Qed.

Lemma has_hash_view hash d :
  (forall k r, ApiKey.api_keys d !! k = Some r -> ApiKey.row_hash r = hash -> key_owner k r = t) ->
  ApiKey.has_hash (restrict t d) hash = ApiKey.has_hash d hash.
Proof.
  intros Hh. unfold ApiKey.has_hash. cbn.
  pose proof (existsb_view key_owner id (fun kr => bool_decide (ApiKey.row_hash kr.2 = hash)) t (ApiKey.api_keys d)) as He.
  rewrite !list_fmap_id in He. apply He. intros k r Hr Hb%bool_decide_eq_true. by eapply Hh.
Qed.

Lemma confined_insert_key g r d :
  mine t g -> drawn env (ApiKey.k_ID (ApiKey.row_key r)) -> ApiKey.row_hash r = drawn_hash env ->
  confined t env (ApiKey.insert_key env g r) d.
Proof.
  intros Hg Hid Hh. unfold ApiKey.insert_key.
  apply confined_if; [done|auto with isolation|]. intros _ _ Ht%negb_false_iff. apply (mine_key_visible t) in Ht; [|done].
  apply confined_if; [done|auto with isolation|]. intros _ _ _.
  apply confined_if; [|auto with isolation|].
  { intros _ (Hun & Hhash & _). rewrite has_hash_view by (rewrite Hh; exact Hhash). cbn.
    by rewrite (view_own _ _ _ _ (Hun _ Hid)). }
  intros _ _ _. apply confined_if; [|auto with isolation|].
  { intros _ _. rewrite Ht. change (ApiKey.accounts (restrict t d)) with (restrict t (ApiKey.accounts d)).
    by rewrite tenant_lookup_view. }
  intros _ _ _. apply confined_put_key; [done|]. intros _ (Hun & _). by apply Hun.
Qed.

Lemma find_key_view g id d : ApiKey.find_key g t id (restrict t d) = ApiKey.find_key g t id d.
Proof.
  unfold ApiKey.find_key. cbn. rewrite view_lookup. destruct (ApiKey.api_keys d !! id) as [r|]; [|done]. cbn.
  unfold key_owner. case_decide as Ho; [done|]. by rewrite (bool_decide_eq_false_2 _ Ho), andb_false_r.
Qed.

Lemma confined_loadKey g id d : confined t env (ApiKey.loadKey g t id) d.
Proof.
  unfold ApiKey.loadKey. apply (confined_case _ _ (ApiKey.find_key g t id)); [intros; apply find_key_view|auto with isolation..].
Qed.

Lemma confined_Mint u name scopes expires d :
  confined t env (ApiKey.Mint env t u name scopes expires) d.
Proof.
  unfold ApiKey.Mint. destruct (decide (t = uuid_Nil \/ u = uuid_Nil)) as [|Hn]; [apply confined_throw|].
  assert (Ht : t <> uuid_Nil) by (intros ->; tauto).
  destruct (_ || _); [apply confined_throw|]. destruct (ValidateKeyScopes scopes); [|apply confined_throw].
  destruct (match expires with Some _ => _ | None => _ end); [apply confined_throw|].
  destruct (ApiKey.newAPIKeySecret (env_rand env)) as [[secret prefix] hash] eqn:Es. cbv zeta. confine.
  - apply confined_insert_key; [done|auto with isolation|]. unfold drawn_hash. by rewrite Es.
  - apply confined_key_audit; auto with isolation.
Qed.

Lemma confined_Revoke u id d : confined t env (ApiKey.Revoke env t u id) d.
Proof.
  unfold ApiKey.Revoke. destruct (decide (t = uuid_Nil \/ u = uuid_Nil \/ id = uuid_Nil)) as [|Hn]; [apply confined_throw|].
  assert (Ht : t <> uuid_Nil) by (intros ->; tauto). confine.
  apply (confined_case _ _ (ApiKey.find_key g t id)); [intros; apply find_key_view| |auto with isolation].
  intros r Hw _ Hf. destruct (ApiKey.k_RevokedAt (ApiKey.row_key r)); [apply confined_const|].
  unfold ApiKey.find_key in Hf. destruct (ApiKey.api_keys d !! id) as [x|] eqn:El; [|done]. cbn in Hf.
  destruct (_ && _) eqn:Et in Hf; [|done]. injection Hf as ->. apply andb_true_iff in Et as [_ Et%bool_decide_eq_true].
  set (row := ApiKey.revoke (env_now env) r).
  assert (Hrow : ApiKey.k_ID (ApiKey.row_key row) = id) by exact (Hw _ _ El).
  match goal with |- confined _ _ (fun s => ?body (ApiKey.set_keys _ s)) _ => set (after := body) end.
  apply (confined_ext _ _ (modify (fun s => ApiKey.set_keys (<[ApiKey.k_ID (ApiKey.row_key row) := row]> (ApiKey.api_keys s)) s)
    ≫= (fun _ => after))).
  { intros s. by rewrite Hrow. }
  apply confined_bind.
  - apply confined_put_key; [done|]. intros _ _ y Hy. unfold key_owner. rewrite Hrow in Hy. congruence.
  - intros. unfold after. confine; [apply confined_loadKey|apply confined_key_audit; auto with isolation].
Qed.

Lemma confined_keys_List u d : confined t env (ApiKey.List_ t u) d.
Proof.
  unfold ApiKey.List_. destruct (decide (t = uuid_Nil)); [apply confined_throw|]. confine.
  apply confined_query. intros _ _. cbn. rewrite filter_view; [done|]. by intros k r _ [_ ?].
Qed.
End keys.
