(* ===== verification/IsolationHttp.v ===== *)
(** * Running a tenant alone: the limiter, the gate and the idempotency layer *)

From S2P Require Import Prelude Apperr Ids Db Authz Isolation IsolationAccounts.
From S2P Require Tenant RateLimit Idempotency IdempotencyHttp Router RouterProps.

(** ** Pairs of tables *)

#[export] Instance prod_tenanted {A B} `{Tenanted A} `{Tenanted B} : Tenanted (A * B).
Proof.
  refine {|
    restrict t d := (restrict t d.1, restrict t d.2);
    wf d := wf d.1 /\ wf d.2;
    unclaimed t env d := unclaimed t env d.1 /\ unclaimed t env d.2;
  |}.
  intros t env d d' Hk [H1 H2]. split.
  - eapply unclaimed_kept; [|exact H1]. intros u Hu. exact (f_equal fst (Hk u Hu)).
  - eapply unclaimed_kept; [|exact H2]. intros u Hu. exact (f_equal snd (Hk u Hu)).
Defined.

Lemma kept_pair {A B} `{Tenanted A} `{Tenanted B} t (x x' : A) (y y' : B) :
  kept t x x' -> kept t y y' -> kept t (x, y) (x', y').
Proof. intros Hx Hy u Hu. exact (f_equal2 pair (Hx u Hu) (Hy u Hu)). Qed.

(** ** The limiter

    The bucket of a tenant is a key of redis by its name. *)

Definition tenant_bucket `{UUIDLib} (t : uuid) : string := "tenant:" +:+ uuid_String t.

(** The tenant a bucket's key names; the nil identifier for a bucket that is no tenant's. *)
Definition bucket_owner `{UUIDLib} (key : string) : uuid :=
  default uuid_Nil (cut_str "}:tenant:" key ≫= (fun ab => uuid_Parse ab.2)).

Lemma cut_brace a sep b :
  has_byte "}"%char a = false -> cut_str ("}" +:+ sep) (a +:+ ("}" +:+ sep) +:+ b) = Some (a, b).
Proof.
  induction a as [|x a IH]; intros Ha.
  - change ("" +:+ ("}" +:+ sep) +:+ b) with (("}" +:+ sep) +:+ b). pose proof (strip_prefix_app ("}" +:+ sep) b) as Hs.
    destruct (("}" +:+ sep) +:+ b); cbn [cut_str]; by rewrite Hs.
  - cbn in Ha. case_decide as Hx; [done|]. cbn in IH |- *. rewrite decide_False by congruence. by rewrite (IH Ha).
Qed.

Lemma bucket_owner_tenant `{UUIDLaws} p t :
  has_byte "}"%char (RateLimit.Name p) = false -> bucket_owner (RateLimit.keyFor p (tenant_bucket t)) = t.
Proof.
  intros Hn. unfold bucket_owner, RateLimit.keyFor, tenant_bucket.
  replace ("rl:{" +:+ RateLimit.Name p +:+ "}:" +:+ "tenant:" +:+ uuid_String t)
    with (("rl:{" +:+ RateLimit.Name p) +:+ ("}" +:+ ":tenant:") +:+ uuid_String t) by (by rewrite <- !str_app_assoc).
  change "}:tenant:" with ("}" +:+ ":tenant:").
  rewrite cut_brace by (by rewrite has_byte_app, Hn). cbn. by rewrite uuid_Parse_String.
Qed.

#[export] Instance redis_tenanted `{UUIDLib} : Tenanted RateLimit.Redis.
Proof.
  refine {|
    restrict t d := view (fun k (_ : RateLimit.ZSet) => bucket_owner k) t d;
    wf _ := True;
    unclaimed _ _ _ := True;
  |}.
  done.
Defined.

Section gate.
Context `{Unicode} `{UUIDLaws} (t : uuid) (env : Env) (d : Router.Deps).

(** The script reads and writes its own key. *)
Lemma slidingWindow_view key n w m now (db : RateLimit.Redis) :
  bucket_owner key = t ->
  RateLimit.slidingWindow key n w m now (restrict t db) =
    ((RateLimit.slidingWindow key n w m now db).1, restrict t (RateLimit.slidingWindow key n w m now db).2) /\
  kept t db (RateLimit.slidingWindow key n w m now db).2.
Proof.
  intros Hk. set (ow := fun (k : string) (_ : RateLimit.ZSet) => bucket_owner k).
  assert (Ho : own ow t db key) by (by intros r _). unfold RateLimit.slidingWindow.
  change (restrict t db) with (view ow t db). rewrite (view_own ow t db key Ho).
  assert (Hi : forall x, view ow t (<[key := x]> db) = <[key := x]> (view ow t db)) by (intros x; by apply view_insert).
  assert (Hf : forall x u, u <> t -> view ow u (<[key := x]> db) = view ow u db) by
    (intros x u Hu; by apply (view_insert_foreign ow t)).
  assert (Hd : forall u, u <> t -> view ow u (delete key db) = view ow u db) by
    (intros u Hu; by apply (view_delete_foreign ow t)).
  cbv zeta. set (l := RateLimit.evict _ _). set (reset := match RateLimit.oldest l with Some _ => _ | None => _ end).
  destruct (_ <? n); cbn.
  - split; [by rewrite <- Hi|]. intros u Hu. by apply Hf.
  - destruct l; cbn; split.
    + by rewrite <- view_delete.
    + intros u Hu. by apply Hd.
    + by rewrite <- Hi.
    + intros u Hu. by apply Hf.
Qed.

Definition plain_policy (l : option RateLimit.Policy) : Prop :=
  match l with Some p => has_byte "}"%char (RateLimit.Name p) = false | None => True end.

Lemma limit_view l rq (db : RateLimit.Redis) :
  plain_policy l ->
  Router.limit l (tenant_bucket t) rq (restrict t db) =
    ((Router.limit l (tenant_bucket t) rq db).1, restrict t (Router.limit l (tenant_bucket t) rq db).2) /\
  kept t db (Router.limit l (tenant_bucket t) rq db).2.
Proof.
  intros Hp. unfold Router.limit. destruct l as [p|]; [|by split]. unfold RateLimit.Allow.
  destruct (negb (Router.reachable rq)); [by split|].
  destruct (slidingWindow_view (RateLimit.keyFor p (tenant_bucket t)) (RateLimit.Limit p)
    (RateLimit.Window p / RateLimit.Millisecond) (Router.member rq) (Router.redis_now rq) db (bucket_owner_tenant p t Hp)) as [He Hk].
  rewrite He. destruct (RateLimit.slidingWindow _ _ _ _ _ db) as [[[flag rem] reset] db']. by split.
Qed.

(** What the gate resolves for a path is an authorization for the tenant the path names. *)
Lemma ResolveTenant_scope pr path db ap db' :
  uuid_Parse path = Some t -> Tenant.ResolveTenant pr path db = (Ok ap, db') ->
  Tenant.scope ap.1 = t /\ t <> uuid_Nil.
Proof.
  intros Hp. unfold Tenant.ResolveTenant. rewrite Hp. destruct pr as [p|]; [|done].
  assert (Hs : forall sc, Tenant.NewScope t = Ok sc -> sc = t /\ t <> uuid_Nil)
    by (intros sc; unfold Tenant.NewScope; case_decide; [done|by intros [= <-]]).
  case_decide.
  - case_decide; [|done]. destruct (Tenant.NewScope t) as [sc|] eqn:Es; [|done].
    unfold Tenant.NewMachineAuthorized. destruct (negb _); [done|]. case_decide; [done|]. intros [= <- _].
    by destruct (Hs sc eq_refl) as [-> ?].
  - unfold Tenant.Resolve. destruct (Tenant.NewScope t) as [sc|] eqn:Es; [|done]. destruct (Hs sc eq_refl) as [-> ?].
    case_decide; [done|]. unfold mbind, SE_bind, lift, Tenant.newAuthorized.
    destruct (Tenant.Authorize t _ db) as [[r|e] db1]; [|done].
    destruct (negb (Tenant.Scope_Valid t)); [done|]. case_decide; [done|]. destruct (negb (Role_Valid r)); [done|].
    by intros [= <- _].
Qed.

Definition authorized_in (ctx : Router.Ctx) : Prop :=
  exists a, Router.authorized ctx = Some a /\ Tenant.scope a = t /\ t <> uuid_Nil.

(** A guard behind the gate. *)
Definition inner (g : Router.Guard) : Prop :=
  match g with
  | Router.RequireAuthorized | Router.Require_ _ => True
  | Router.LimitByPrincipal l => plain_policy l
  | _ => False
  end.

Lemma confined_inner g rq ctx s :
  inner g -> authorized_in ctx -> confined t env (Router.pass d g rq ctx) s.
Proof.
  intros Hg (a & Ha & Hs & _). destruct g as [| | | |l|perm]; try done; unfold Router.pass.
  intros Hw _. destruct s as [db acc]. cbn [restrict prod_tenanted fst snd]. rewrite Ha. cbn [RateLimit.principal_bucket].
    change ("tenant:" +:+ uuid_String (id_TenantID (Tenant.Identity_of a))) with (tenant_bucket (Tenant.scope a)). rewrite Hs.
    destruct (limit_view l rq db Hg) as [He Hk]. rewrite He.
    destruct (Router.limit l (tenant_bucket t) rq db) as [[e|] db']; cbn in *;
      (split_and!; [done|done|done|]; by apply kept_pair).
Qed.

Lemma pass_inner_ctx g rq ctx s ctx' s' :
  inner g -> Router.pass d g rq ctx s = (Ok ctx', s') -> ctx' = ctx.
Proof.
  destruct g; try done; cbn [Router.pass]; intros _.
  - destruct (Router.authorized ctx); [|done]. by intros [= <- _].
  - destruct (Router.limit _ _ _ _) as [[e|] db']; [done|]. by intros [= <- _].
  - unfold Authz.Require_. destruct (Router.principal ctx); [|done]. destruct (negb _); [done|]. by intros [= <- _].
Qed.

Lemma confined_pass_inner gs rq : forall ctx s,
  Forall inner gs -> authorized_in ctx -> confined t env (Router.pass_all d gs rq ctx) s.
Proof.
  induction gs as [|g gs IH]; intros ctx s Hgs Hc; cbn [Router.pass_all]; [apply confined_ret|].
  apply Forall_cons in Hgs as [Hg Hgs]. apply confined_bind; [by apply confined_inner|].
  intros ctx' s' Hp _ _ _ _ _. apply pass_inner_ctx in Hp as ->; [|done]. by apply IH.
Qed.

(** The guards of a tenant's route, from the gate on. *)
Lemma confined_pass_all gs rq pr s :
  uuid_Parse (Router.param_tenantID rq) = Some t -> Forall inner gs ->
  confined t env (Router.pass_all d (Router.ResolveTenant :: gs) rq (Router.mkCtx pr None)) s.
Proof.
  intros Hp Hgs. cbn [Router.pass_all]. intros Hw Hun. destruct s as [db acc].
  pose proof (confined_ResolveTenant t env pr (Router.param_tenantID rq) acc Hp) as Hc.
  destruct (Tenant.ResolveTenant pr (Router.param_tenantID rq) acc) as [[ap|e] acc'] eqn:Er.
  - destruct (confined_run _ _ _ _ _ _ Hc Er I I) as (A1 & _ & _ & Hk).
    destruct (ResolveTenant_scope _ _ _ _ _ Hp Er) as [Hs Hn].
    destruct (confined_pass_inner gs rq (Router.mkCtx (Some ap.2) (Some ap.1)) (db, acc') Hgs) as (A2 & A3 & Hk2);
      [by exists ap.1|done|done|]. unfold mbind, SE_bind. cbn [Router.pass Router.principal restrict prod_tenanted fst snd] in *.
    rewrite Er, A1. split; [exact A2|split; [exact A3|]]. transitivity (db, acc'); [by apply kept_pair|exact Hk2].
  - destruct (confined_run _ _ _ _ _ _ Hc Er I I) as (A1 & _ & _ & Hk). unfold mbind, SE_bind.
    cbn [Router.pass Router.principal restrict prod_tenanted fst snd] in *.
    rewrite Er, A1. split; [done|split; [done|]]. by apply kept_pair.
Qed.

Lemma pass_inner_all_ctx gs rq : forall ctx s ctx' s',
  Forall inner gs -> Router.pass_all d gs rq ctx s = (Ok ctx', s') -> ctx' = ctx.
Proof.
  induction gs as [|g gs IH]; intros ctx s ctx' s' Hgs; cbn [Router.pass_all]; [by intros [= <- _]|].
  apply Forall_cons in Hgs as [Hg Hgs]. intros (c & s1 & Hp & Hr)%SE_bind_inv.
  apply pass_inner_ctx in Hp as ->; [|done]. by eapply IH.
Qed.

(** Behind the guards stands an authorization for the tenant of the path. *)
Lemma pass_all_ctx gs rq pr s ctx s' :
  uuid_Parse (Router.param_tenantID rq) = Some t -> Forall inner gs ->
  Router.pass_all d (Router.ResolveTenant :: gs) rq (Router.mkCtx pr None) s = (Ok ctx, s') -> authorized_in ctx.
Proof.
  intros Hp Hgs. cbn [Router.pass_all]. intros (c & s1 & Hr & Hi)%SE_bind_inv. apply pass_inner_all_ctx in Hi as ->; [|done].
  cbn [Router.pass Router.principal] in Hr.
  destruct (Tenant.ResolveTenant pr (Router.param_tenantID rq) s.2) as [[ap|e] acc'] eqn:Er; [|done].
  injection Hr as <- _. exists ap.1. by destruct (ResolveTenant_scope _ _ _ _ _ Hp Er).
Qed.

(** A path that names no tenant changes nothing. *)
Lemma pass_all_unresolved gs rq pr s :
  uuid_Parse (Router.param_tenantID rq) = None ->
  exists p, Router.pass_all d (Router.ResolveTenant :: gs) rq (Router.mkCtx pr None) s = (Err (Router.Denied p None), s).
Proof.
  intros Hp. cbn [Router.pass_all]. unfold mbind, SE_bind. cbn [Router.pass Router.principal].
  unfold Tenant.ResolveTenant. rewrite Hp. destruct s as [db acc], pr; cbn; by eexists.
Qed.
End gate.

(** ** The idempotency layer *)

#[export] Instance keys_table_tenanted : Tenanted Idempotency.Table.
Proof.
  refine {|
    restrict t d := view (fun (k : uuid * string) (_ : Idempotency.Row) => k.1) t d;
    wf _ := True;
    unclaimed _ _ _ := True;
  |}.
  done.
Defined.

Section idempotency.
Context `{Unicode} (retention lease : Z) (a : Tenant.Authorized) (Ha : Tenant.scope a <> uuid_Nil).

Notation key_owner := (fun (k : uuid * string) (_ : Idempotency.Row) => k.1).

Lemma key_view (t : uuid) (key : string) (tb : Idempotency.Table) : restrict t tb !! (t, key) = tb !! (t, key).
Proof. apply (view_own key_owner). by intros r _. Qed.

Lemma confined_put_row {A} (t : uuid) (env : Env) (key : string) (row : Idempotency.Row) (r : go_result A) (tb : Idempotency.Table) :
  confined t env (fun tb : Idempotency.Table => (r, <[(t, key) := row]> tb)) tb.
Proof.
  apply confined_write. intros _ _. split_and!; [|done|].
  - cbn. by rewrite (view_insert key_owner).
  - intros u Hu. cbn. by apply (view_insert_foreign key_owner t).
Qed.

Lemma confined_drop_row {A} (t : uuid) (env : Env) (key : string) (r : go_result A) (tb : Idempotency.Table) :
  confined t env (fun tb : Idempotency.Table => (r, delete (t, key) tb)) tb.
Proof.
  apply confined_write. intros _ _. split_and!; [|done|].
  - cbn. by rewrite (view_delete key_owner).
  - intros u Hu. cbn. by apply (view_delete_foreign key_owner t).
Qed.

Lemma confined_claim (env0 : Env) key fp env tb :
  confined (Tenant.scope a) env0 (Idempotency.insert_key retention a (Tenant.scope a) key fp env) tb.
Proof.
  unfold Idempotency.insert_key. confine. cbv zeta.
  do 2 (apply confined_if; [done|auto with isolation|]; intros _ _ _).
  apply (confined_case _ _ (fun tb => tb !! (Tenant.scope a, key))); [intros; apply key_view|auto with isolation|].
  intros _ _ _. apply confined_put_row.
Qed.

Lemma confined_clearExpired (env0 : Env) key env tb :
  confined (Tenant.scope a) env0 (Idempotency.clearExpired a (Tenant.scope a) key env) tb.
Proof.
  unfold Idempotency.clearExpired. confine.
  apply (confined_case _ _ (fun tb => tb !! (Tenant.scope a, key))); [intros; apply key_view| |auto with isolation].
  intros r _ _ _. apply confined_if; [done| |auto with isolation]. intros _ _ _. apply confined_drop_row.
Qed.

Lemma confined_takeOver (env0 : Env) key fp env tb :
  confined (Tenant.scope a) env0 (Idempotency.takeOver retention lease a (Tenant.scope a) key fp env) tb.
Proof.
  unfold Idempotency.takeOver. confine.
  apply (confined_case _ _ (fun tb => tb !! (Tenant.scope a, key))); [intros; apply key_view| |auto with isolation].
  intros r _ _ _. apply confined_if; [done| |auto with isolation]. intros _ _ _. cbv zeta.
  apply confined_if; [done|auto with isolation|]. intros _ _ _. apply confined_put_row.
Qed.

Lemma confined_read (env0 : Env) key env tb :
  confined (Tenant.scope a) env0 (Idempotency.read lease a (Tenant.scope a) key env) tb.
Proof.
  unfold Idempotency.read. confine.
  apply (confined_case _ _ (fun tb => tb !! (Tenant.scope a, key))); [intros; apply key_view| |auto with isolation].
  intros r _ _ _. apply confined_if; [done|auto with isolation|auto with isolation].
Qed.

Lemma confined_Complete (env0 : Env) key res env tb :
  confined (Tenant.scope a) env0 (Idempotency.Complete a key res env) tb.
Proof.
  unfold Idempotency.Complete. confine. cbv zeta.
  apply (confined_case _ _ (fun tb => tb !! (Tenant.scope a, key))); [intros; apply key_view| |auto with isolation].
  intros r _ _ _. apply confined_if; [done| |auto with isolation]. intros _ _ _.
  apply confined_if; [done|auto with isolation|]. intros _ _ _. apply confined_put_row.
Qed.

(** A run of the store's transactions; the counter of them is no tenant's. *)
Definition steps_alone {A} (m : SE (nat * Idempotency.Table) err A) : Prop := forall n tb,
  m (n, restrict (Tenant.scope a) tb) =
    ((m (n, tb)).1, ((m (n, tb)).2.1, restrict (Tenant.scope a) (m (n, tb)).2.2)) /\
  kept (Tenant.scope a) tb (m (n, tb)).2.2.

Lemma steps_const {A : Type} (r : go_result A) : steps_alone (fun s => (r, s)).
Proof. by intros n tb. Qed.

Lemma steps_bind {A B : Type} (m : SE (nat * Idempotency.Table) err A) (f : A -> SE (nat * Idempotency.Table) err B) :
  steps_alone m -> (forall x, steps_alone (f x)) -> steps_alone (m ≫= f).
Proof.
  intros Hm Hf n tb. destruct (Hm n tb) as [H1 H2]. unfold mbind, SE_bind. rewrite H1.
  destruct (m (n, tb)) as [[x|e] [n' tb']]; cbn in *; [|done].
  destruct (Hf x n' tb') as [H3 H4]. split; [exact H3|]. by transitivity tb'.
Qed.

Context (env0 : Env) (env : nat -> Env) (others : nat -> Idempotency.Table -> Idempotency.Table).
Context (Hothers : forall n, of_tenant (Tenant.scope a) env0 (others n)).

Lemma steps_tx {A : Type} (f : Env -> SE Idempotency.Table err A) :
  (forall e tb, confined (Tenant.scope a) env0 (f e) tb) -> steps_alone (Idempotency.tx env others f).
Proof.
  intros Hf n tb. destruct (Hothers n tb I I) as (H1 & _ & H3). apply (f_equal snd) in H1.
  change (others n (restrict (Tenant.scope a) tb) = restrict (Tenant.scope a) (others n tb)) in H1. destruct (Hf (env n) (others n tb) I I) as (H4 & _ & H6). unfold Idempotency.tx.
  cbn [fst snd]. rewrite H1, H4. destruct (f (env n) (others n tb)) as [r tb']. cbn in *. split; [done|].
  by transitivity (others n tb).
Qed.

Lemma steps_claim_once key fp : steps_alone (Idempotency.claim_once retention env others a (Tenant.scope a) key fp).
Proof.
  intros n tb. pose proof (steps_tx (Idempotency.insert_key retention a (Tenant.scope a) key fp)) as Ht.
  destruct (Ht ltac:(intros; apply confined_claim) n tb) as [H1 H2]. unfold Idempotency.claim_once. rewrite H1.
  destruct (Idempotency.tx _ _ _ (n, tb)) as [[x|e] [n' tb']]; cbn in *; [done|]. by destruct (Is e PgxErrNoRows).
Qed.

Lemma steps_Begin key fp : steps_alone (Idempotency.Begin retention lease env others a key fp).
Proof.
  unfold Idempotency.Begin. destruct (negb _); [apply steps_const|]. destruct (Idempotency.ValidateKey key); [|apply steps_const].
  generalize 2%nat as k. induction k as [|k IH]; cbn [Idempotency.begin_attempts]; [apply steps_const|].
  apply steps_bind.
  { unfold Idempotency.tryClaim. apply steps_bind; [apply steps_claim_once|]. intros []; [apply steps_const|].
    apply steps_bind; [apply steps_tx; intros; apply confined_clearExpired|]. intros []; [apply steps_claim_once|apply steps_const]. }
  intros []; [apply steps_const|]. apply steps_bind; [apply steps_tx; intros; apply confined_read|].
  intros [rec|]; [|exact IH]. destruct (negb _); [apply steps_const|]. destruct (decide _).
  { destruct (negb _); apply steps_const. }
  destruct (Idempotency.LeaseExpired rec); [|apply steps_const].
  apply steps_bind; [apply steps_tx; intros; apply confined_takeOver|]. intros []; apply steps_const.
Qed.

(** ** The middleware around a confined handler *)

Section middleware.
Context {W : Type} `{Tenanted W}.

(** A handler as a computation. *)
Definition as_steps (next : IdempotencyHttp.Handler (W:=W)) (path : string) (body : IdempotencyHttp.BodyReader)
    : SE W err (list Idempotency.wop * bool) := fun s =>
  let '(ops, panics, s') := next path body s in (Ok (ops, panics), s').

Definition handler_alone (next : IdempotencyHttp.Handler (W:=W)) : Prop :=
  forall path body s, confined (Tenant.scope a) env0 (as_steps next path body) s.

Lemma confined_serve (next : IdempotencyHttp.Handler (W:=W)) path body (w : Idempotency.Writer) (s : W) :
  handler_alone next ->
  confined (Tenant.scope a) env0 (E:=err) (fun s => let '(o, s') := IdempotencyHttp.serve next path body w s in (Ok o, s')) s.
Proof.
  intros Hn Hw Hun. pose proof (Hn path body s Hw Hun) as (H1 & H2 & H3). unfold as_steps, IdempotencyHttp.serve in *.
  destruct (next path body s) as [[ops pn] s'], (next path body (restrict _ s)) as [[ops' pn'] s'']. cbn in *.
  injection H1 as -> -> ->. by split_and!.
Qed.

Lemma confined_Idempotency (enabled : bool) (next : IdempotencyHttp.Handler (W:=W)) (r : IdempotencyHttp.Request) (w : Idempotency.Writer) (s : Idempotency.Table * W) :
  handler_alone next ->
  confined (Tenant.scope a) env0 (E:=err)
    (fun s : Idempotency.Table * W => let '(o, tb, x) := IdempotencyHttp.Idempotency retention lease enabled env others next (Some a) r w s.1 s.2 in
       (Ok o, (tb, x))) s.
Proof.
  intros Hn Hw Hun. destruct s as [tb x]. unfold IdempotencyHttp.Idempotency.
  destruct Hw as [_ Hw], Hun as [_ Hun]. cbn [fst snd restrict prod_tenanted].
  pose proof (confined_serve next (IdempotencyHttp.Path r) (IdempotencyHttp.Body r) w x Hn Hw Hun) as (P1 & P2 & P3).
  assert (Hpass : forall x', kept (Tenant.scope a) x x' -> kept (Tenant.scope a) (tb, x) (tb, x'))
    by (intros x' Hk; by apply kept_pair).
  destruct (IdempotencyHttp.serve next _ _ w x) as [o x'] eqn:Es,
    (IdempotencyHttp.serve next _ _ w (restrict _ x)) as [o' x''] eqn:Es'. cbn in P1, P2, P3. injection P1 as -> ->.
  assert (Hdone : forall (o2 : IdempotencyHttp.Outcome) tb' y, kept (Tenant.scope a) (tb, x) (tb', y) -> wf y ->
    (Ok (E:=err) o2, (restrict (Tenant.scope a) tb', restrict (Tenant.scope a) y)) =
      (Ok o2, (restrict (Tenant.scope a) tb', restrict (Tenant.scope a) y)) /\ (True /\ wf y) /\ kept (Tenant.scope a) (tb, x) (tb', y))
    by (intros; by split_and!).
  destruct (negb enabled); [by apply Hdone; auto|].
  destruct (negb (IdempotencyHttp.idempotentMethod _)); [by apply Hdone; auto|].
  destruct (IdempotencyHttp.KeyHeader r) as [|v rest]; [by apply Hdone; auto|].
  destruct (Idempotency.ValidateKey _); [|by apply Hdone].
  destruct (IdempotencyHttp.readBodyOnce _) as [body|]; [|by apply Hdone].
  destruct (steps_Begin (trim_space v) (Idempotency.Fingerprint (IdempotencyHttp.Method r) (IdempotencyHttp.routePattern r)
    (IdempotencyHttp.RawQuery r) body) 0%nat tb) as [B1 B2]. rewrite B1.
  assert (Hkeys : forall tb' x', kept (Tenant.scope a) tb tb' -> kept (Tenant.scope a) x x' ->
    kept (Tenant.scope a) (tb, x) (tb', x')) by (intros; by apply kept_pair).
  assert (Hx : kept (Tenant.scope a) x x) by reflexivity.
  destruct (Idempotency.Begin _ _ _ _ _ _ _ (0%nat, tb)) as [[[|rec]|e] [n tb1]]; cbn [fst snd] in *;
    [|by apply Hdone; auto..].
  pose proof (Hn (IdempotencyHttp.Path r) (IdempotencyHttp.restored (IdempotencyHttp.Body r) body) x Hw Hun) as (N1 & N2 & N3).
  unfold as_steps in *. destruct (next _ _ x) as [[ops pn] y], (next _ _ (restrict _ x)) as [[ops' pn'] y'].
  cbn in N1, N2, N3. injection N1 as -> -> ->. destruct pn; [by apply Hdone; auto|].
  destruct (steps_tx (Idempotency.Complete a (trim_space v)
    (Idempotency.Captured (foldl Idempotency.c_op (Idempotency.NewCapture w) ops))) ltac:(intros; apply confined_Complete) n tb1)
    as [C1 C2]. rewrite C1. destruct (Idempotency.tx _ _ _ (n, tb1)) as [r2 [n2 tb2]]. cbn in *.
  apply Hdone; [|done]. apply Hkeys; [by transitivity tb1|done].
Qed.
End middleware.
End idempotency.
