(* ===== verification/Api.v ===== *)
(** * The tenant's API

    The routes below [/v1/tenants/{tenantID}] of [internal/httpx/router.go] over one database
    and one redis: a request goes through the guards of its route ([Router.pass_all]), then
    through the idempotency layer if the route has it, to the handler registered there. The
    authenticator that stands before every route has already put its principal on the
    request. *)

From S2P Require Import Prelude Apperr Ids Cursor Db Authz Tenant Render Handlers.
From S2P Require AuditLog Invoice Webhook Outbox InvoiceStore ApiKey Project Ssrf Account.
From S2P Require RateLimit Idempotency IdempotencyHttp Router.

(** ** The stores

    [hooks] of the billing tables holds the webhook tables and the audit trail, which projects
    and keys share. *)
Record App := mkApp {
  redis : RateLimit.Redis;
  billing : InvoiceStore.DB;
  projects : gmap uuid Project.Project;
  api_keys : gmap uuid ApiKey.KeyRow;
  accounts : Tenant.DB;
  replays : Idempotency.Table;
}.

Definition set_billing (x : InvoiceStore.DB) (s : App) : App :=
  mkApp (redis s) x (projects s) (api_keys s) (accounts s) (replays s).
Definition hooks (s : App) : Outbox.DB := InvoiceStore.hooks (billing s).
Definition set_hooks (x : Outbox.DB) (s : App) : App := set_billing (InvoiceStore.set_hooks x (billing s)) s.
Definition trail (s : App) : AuditLog.Table := Outbox.audit_log (hooks s).
Definition set_trail (x : AuditLog.Table) (s : App) : App := set_hooks (Outbox.set_audit x (hooks s)) s.
Definition set_accounts (x : Tenant.DB) (s : App) : App :=
  mkApp (redis s) (billing s) (projects s) (api_keys s) x (replays s).
Definition set_replays (x : Idempotency.Table) (s : App) : App :=
  mkApp (redis s) (billing s) (projects s) (api_keys s) (accounts s) x.

(** What the project store and the key store work on, and what the guards do. *)
Definition project_tables (s : App) : Project.DB := Project.mkDB (projects s) (trail s).
Definition set_project_tables (x : Project.DB) (s : App) : App :=
  set_trail (Project.audit_log x) (mkApp (redis s) (billing s) (Project.projects x) (api_keys s) (accounts s) (replays s)).
Definition key_tables (s : App) : ApiKey.DB := ApiKey.mkDB (api_keys s) (accounts s) (trail s).
Definition set_key_tables (x : ApiKey.DB) (s : App) : App :=
  set_trail (ApiKey.audit_log x) (mkApp (redis s) (billing s) (projects s) (ApiKey.api_keys x) (ApiKey.accounts x) (replays s)).
Definition gate_tables (s : App) : RateLimit.Redis * Tenant.DB := (redis s, accounts s).
Definition set_gate_tables (x : RateLimit.Redis * Tenant.DB) (s : App) : App :=
  mkApp x.1 (billing s) (projects s) (api_keys s) x.2 (replays s).

(** ** Requests

    A request by the handler it is routed to, with the path parameters, the query and the
    decoded body; [mid] and [mid2] are the commits of other sessions the two project writes
    can see. *)
Inductive Call :=
  | GetTenant
  | ListMembers
  | AddMember (user_id role : string)
  | ListAudit (limit cursor : string)
  | ListInvoices (limit cursor status : string)
  | GetInvoice (id : string)
  | CreateInvoice (body : go_result Invoice.CreateInput)
  | AddInvoiceItem (id : string) (body : go_result Invoice.ItemInput)
  | RemoveInvoiceItem (id item : string)
  | IssueInvoice (id : string) (body : go_result Z)
  | PayInvoice (id : string) (body : go_result Z)
  | VoidInvoice (id : string) (body : go_result Z)
  | ListWebhookEndpoints (limit cursor : string)
  | GetWebhookEndpoint (id : string)
  | ListWebhookDeliveries (id limit cursor state : string)
  | CreateWebhookEndpoint (body : go_result Webhook.CreateInput)
  | UpdateWebhookEndpoint (id : string) (body : go_result Outbox.UpdateInput)
  | ReplayWebhookDelivery (id : string)
  | ListAPIKeys
  | CreateAPIKey (body : go_result createKeyRequest)
  | RevokeAPIKey (id : string)
  | ListProjects (limit cursor include_archived : string)
  | GetProject (id : string)
  | CreateProject (body : go_result createProjectRequest)
  | UpdateProject (mid mid2 : Project.DB -> Project.DB) (id : string) (body : go_result updateProjectRequest)
  | ArchiveProject (mid mid2 : Project.DB -> Project.DB) (id : string).

Definition handler_name (c : Call) : string :=
  match c with
  | GetTenant => "handleGetTenant"
  | ListMembers => "handleListMembers"
  | AddMember _ _ => "handleAddMember"
  | ListAudit _ _ => "handleListAudit"
  | ListInvoices _ _ _ => "handleListInvoices"
  | GetInvoice _ => "handleGetInvoice"
  | CreateInvoice _ => "handleCreateInvoice"
  | AddInvoiceItem _ _ => "handleAddInvoiceItem"
  | RemoveInvoiceItem _ _ => "handleRemoveInvoiceItem"
  | IssueInvoice _ _ => "handleIssueInvoice"
  | PayInvoice _ _ => "handlePayInvoice"
  | VoidInvoice _ _ => "handleVoidInvoice"
  | ListWebhookEndpoints _ _ => "handleListWebhookEndpoints"
  | GetWebhookEndpoint _ => "handleGetWebhookEndpoint"
  | ListWebhookDeliveries _ _ _ _ => "handleListWebhookDeliveries"
  | CreateWebhookEndpoint _ => "handleCreateWebhookEndpoint"
  | UpdateWebhookEndpoint _ _ => "handleUpdateWebhookEndpoint"
  | ReplayWebhookDelivery _ => "handleReplayWebhookDelivery"
  | ListAPIKeys => "handleListAPIKeys"
  | CreateAPIKey _ => "handleCreateAPIKey"
  | RevokeAPIKey _ => "handleRevokeAPIKey"
  | ListProjects _ _ _ => "handleListProjects"
  | GetProject _ => "handleGetProject"
  | CreateProject _ => "handleCreateProject"
  | UpdateProject _ _ _ _ => "handleUpdateProject"
  | ArchiveProject _ _ _ => "handleArchiveProject"
  end.

(** What a handler answers with. *)
Inductive Response :=
  | RTenant (b : Account.tenantBody)
  | RMembers (b : list Account.memberBody)
  | RMember (b : uuid * Role)
  | RAudit (r : Reply (list auditEntryResponse))
  | RInvoice (r : Reply invoiceResponse)
  | RInvoices (r : Reply (list invoiceResponse))
  | REndpoint (r : Reply webhookEndpointResponse)
  | RNewEndpoint (r : Reply (webhookEndpointResponse * string))
  | REndpoints (r : Reply (list webhookEndpointResponse))
  | RDelivery (r : Reply webhookDeliveryResponse)
  | RDeliveries (r : Reply (list webhookDeliveryResponse))
  | RKeys (r : Reply (list apiKeyResponse))
  | RNewKey (r : Reply (apiKeyResponse * string))
  | RProject (r : Reply projectResponse)
  | RProjects (r : Reply (list projectResponse))
  | RNothing (r : Reply unit).

(** The answer of a handler as one of the service's. *)
Definition answer {S A} (render : A -> Response) (m : SE S Problem A) : SE S Problem Response :=
  a ← m; mret (render a).

(** What a deployment is built with: the cursor codec, the collaborators that may be missing, the guard of
    webhook addresses, and the idempotency store's periods. *)
Record Deployment := mkDeployment {
  json_Unmarshal : string -> option encoded;
  codec : Codec;
  deps : Router.Deps;
  audit_wired : bool;
  emits : bool;
  ssrf : option Ssrf.Guard;
  retention : Z;
  lease : Z;
}.

Section api.
Context `{Unicode} `{UUIDLib} `{Collation} `{TimeJSON} `{Outbox.GoJSON} `{Webhook.NetURL} `{Ssrf.AddrText}.
Context (time_Parse : string -> option gotime) (u_Port : Webhook.URL -> string) (d : Deployment).

(** [env] is what the call observes, [traceparent] its trace context, [lookup] what the resolver answers. *)
Definition dispatch (env : Env) (traceparent : string) (lookup : string -> result string (list Ssrf.Addr))
    (c : Call) (a : Authorized) : SE App Problem Response :=
  match c with
  | GetTenant => zoom accounts set_accounts (answer RTenant (Account.handleGetTenant a))
  | ListMembers => zoom accounts set_accounts (answer RMembers (Account.handleListMembers a))
  | AddMember u r => zoom accounts set_accounts (answer RMember (handleAddMember env a u r))
  | ListAudit l k => zoom trail set_trail (answer RAudit (handleListAudit (json_Unmarshal d) (codec d) (audit_wired d) a l k))
  | ListInvoices l k s =>
      zoom billing set_billing (answer RInvoices (handleListInvoices (json_Unmarshal d) (codec d) a l k s))
  | GetInvoice id => zoom billing set_billing (answer RInvoice (handleGetInvoice a id))
  | CreateInvoice b => zoom billing set_billing (answer RInvoice (handleCreateInvoice (emits d) traceparent env a b))
  | AddInvoiceItem id b => zoom billing set_billing (answer RInvoice (handleAddInvoiceItem env a id b))
  | RemoveInvoiceItem id it => zoom billing set_billing (answer RInvoice (handleRemoveInvoiceItem env a id it))
  | IssueInvoice id b => zoom billing set_billing (answer RInvoice (handleIssueInvoice (emits d) traceparent env a id b))
  | PayInvoice id b => zoom billing set_billing (answer RInvoice (handlePayInvoice (emits d) traceparent env a id b))
  | VoidInvoice id b => zoom billing set_billing (answer RInvoice (handleVoidInvoice (emits d) traceparent env a id b))
  | ListWebhookEndpoints l k =>
      zoom hooks set_hooks (answer REndpoints (handleListWebhookEndpoints (json_Unmarshal d) (codec d) a l k))
  | GetWebhookEndpoint id => zoom hooks set_hooks (answer REndpoint (handleGetWebhookEndpoint a id))
  | ListWebhookDeliveries id l k s =>
      zoom hooks set_hooks (answer RDeliveries (handleListWebhookDeliveries (json_Unmarshal d) (codec d) a id l k s))
  | CreateWebhookEndpoint b =>
      zoom hooks set_hooks (answer RNewEndpoint (handleCreateWebhookEndpoint (ssrf d) lookup u_Port env a b))
  | UpdateWebhookEndpoint id b => zoom hooks set_hooks (answer REndpoint (handleUpdateWebhookEndpoint env a id b))
  | ReplayWebhookDelivery id => zoom hooks set_hooks (answer RDelivery (handleReplayWebhookDelivery env a id))
  | ListAPIKeys => zoom key_tables set_key_tables (answer RKeys (handleListAPIKeys a))
  | CreateAPIKey b => zoom key_tables set_key_tables (answer RNewKey (handleCreateAPIKey time_Parse env a b))
  | RevokeAPIKey id => zoom key_tables set_key_tables (answer RNothing (handleRevokeAPIKey env a id))
  | ListProjects l k i =>
      zoom project_tables set_project_tables (answer RProjects (handleListProjects (json_Unmarshal d) (codec d) a l k i))
  | GetProject id => zoom project_tables set_project_tables (answer RProject (handleGetProject a id))
  | CreateProject b => zoom project_tables set_project_tables (answer RProject (handleCreateProject env a b))
  | UpdateProject mid mid2 id b =>
      zoom project_tables set_project_tables (answer RProject (handleUpdateProject env mid mid2 a id b))
  | ArchiveProject mid mid2 id =>
      zoom project_tables set_project_tables (answer RNothing (handleArchiveProject env mid mid2 a id))
  end.

(** The route a call is registered under in this deployment. *)
Definition route_of (c : Call) : option Router.Route :=
  snd <$> list_find (fun rt => Router.handler rt = handler_name c) (Router.tenantRoutes (deps d)).

(** A request as it leaves the authenticator: its principal, what the guards read of it, the handler it is
    routed to with its decoded arguments, the response under construction, and what its call and the idempotency
    store's transactions observe. *)
Record Req := mkReq {
  rq_env : Env;
  rq_traceparent : string;
  rq_lookup : string -> result string (list Ssrf.Addr);
  rq_envs : nat -> Env;
  rq_others : nat -> Idempotency.Table -> Idempotency.Table;
  rq_principal : option Principal;
  rq_in : Router.Incoming;
  rq_call : Call;
  rq_writer : Idempotency.Writer;
}.

(** [write] is what a handler writes for its answer: the status, the headers and the bytes of [encoding/json]. A
    handler that finds no valid authorization panics. *)
Context (write : result Problem Response -> list Idempotency.wop).

Definition endpoint (rq : Req) (ctx : Router.Ctx) : IdempotencyHttp.Handler (W:=App) := fun _ _ s =>
  match Account.authorizedFrom (Router.authorized ctx) with
  | None => ([], true, s)
  | Some a =>
      let '(r, s') := dispatch (rq_env rq) (rq_traceparent rq) (rq_lookup rq) (rq_call rq) a s in (write r, false, s')
  end.

(** The request on its way: the guards, the idempotency layer, the handler. *)
Definition request (rq : Req) (s : App) : Router.Answer * App :=
  match route_of (rq_call rq) with
  | None => (Router.Denied Router.NotFound None, s)
  | Some rt =>
      match Router.pass_all (deps d) (Router.guards rt) (rq_in rq) (Router.mkCtx (rq_principal rq) None) (gate_tables s) with
      | (Err e, x) => (e, set_gate_tables x s)
      | (Ok ctx, x) =>
          let s1 := set_gate_tables x s in
          let r := Router.request (rq_in rq) in
          if Router.guarded rt then
            let '(o, tb, s2) := IdempotencyHttp.Idempotency (retention d) (lease d) (Router.Idempotency_ (deps d)) (rq_envs rq)
                                  (rq_others rq) (endpoint rq ctx) (Router.authorized ctx) r (rq_writer rq) (replays s1) s1 in
            (Router.Answered o, set_replays tb s2)
          else
            let '(o, s2) := IdempotencyHttp.serve (endpoint rq ctx) (IdempotencyHttp.Path r) (IdempotencyHttp.Body r)
                              (rq_writer rq) s1 in
            (Router.Answered o, s2)
      end
  end.

(** Requests one after the other, each with its answer. *)
Fixpoint run (rqs : list Req) (s : App) : list (Req * Router.Answer) * App :=
  match rqs with
  | [] => ([], s)
  | rq :: rest =>
      let '(r, s1) := request rq s in
      let '(out, s2) := run rest s1 in ((rq, r) :: out, s2)
  end.
End api.
