(* ===== verification/ApiProps.v ===== *)
(** * The tenant's API: tenants do not see each other

    Every handler is confined to the tenant the gate resolved, so a mixed run of requests is,
    for each tenant, the run of its own requests over its own rows. *)

From S2P Require Import Prelude Apperr Encoding Ids Cursor Db Authz Tenant Render Handlers Api.
From S2P Require Import Isolation IsolationStores IsolationHooks IsolationAccounts IsolationHttp.
From S2P Require AuditLog Invoice Webhook Outbox InvoiceStore ApiKey Project Ssrf Account.
From S2P Require RateLimit Idempotency IdempotencyHttp Router RouterProps.

(** ** The stores, one tenant's part *)

#[export] Instance app_tenanted `{UUIDLib} : Tenanted App.
Proof.
  refine {|
    restrict t s := mkApp (restrict t (redis s)) (restrict t (billing s)) (view (fun _ => Project.TenantID) t (projects s))
                      (view key_owner t (api_keys s)) (restrict t (accounts s)) (restrict t (replays s));
    wf s := wf (billing s) /\ wf (project_tables s) /\ wf (key_tables s);
    unclaimed t env s := unclaimed t env (billing s) /\ unclaimed t env (project_tables s) /\ unclaimed t env (key_tables s);
  |}.
  intros t env s s' Hk (Hb & Hp & Hy). split_and!.
  - eapply unclaimed_kept; [|exact Hb]. intros u Hu. exact (f_equal billing (Hk u Hu)).
  - eapply unclaimed_kept; [|exact Hp]. intros u Hu. exact (f_equal project_tables (Hk u Hu)).
  - eapply unclaimed_kept; [|exact Hy]. intros u Hu. exact (f_equal key_tables (Hk u Hu)).
Defined.

Section lenses.
Context `{UUIDLib}.

#[export] Instance billing_lens : Lens billing set_billing.
Proof.
  split; [done|done|done|intros []; done|by intros s (? & _)| |by intros t env s (? & _)].
  intros x s (_ & Hp & Hk) Hx. by split_and!.
Qed.

#[export] Instance app_hooks_lens : Lens hooks set_hooks.
Proof.
  split; [done|done|done|by intros [? [] ? ? ? ?]| | |].
  - intros s (Hb & _). by apply (lens_wf_get (billing s)).
  - intros x s (Hb & Hp & Hk) Hx. split_and!; [|done|done]. by apply lens_wf_set.
  - intros t env s (Hb & _). by apply (lens_unclaimed_get t env (billing s)).
Qed.

#[export] Instance trail_lens : Lens trail set_trail.
Proof.
  split; [done|done|done|by intros [? [? ? ? ? []] ? ? ? ?]|done| |].
  - intros x s ((H1 & H2 & H3) & Hp & Hk) Hx. by split_and!.
  - intros t env s (Hb & (_ & Ha) & _). exact Ha.
Qed.

#[export] Instance app_accounts_lens : Lens accounts set_accounts.
Proof. split; [done|done|done|by intros []|done|done|done]. Qed.

#[export] Instance gate_lens : Lens gate_tables set_gate_tables.
Proof. split; [done|done|by intros []|by intros []|done|done|done]. Qed.

#[export] Instance replays_lens : Lens replays set_replays.
Proof. split; [done|done|done|by intros []|done|done|done]. Qed.

#[export] Instance project_tables_lens : Lens project_tables set_project_tables.
Proof.
  split; [done|done|by intros []|by intros [? [? ? ? ? []] ? ? ? ?]|by intros s (_ & ? & _)| |by intros t env s (_ & ? & _)].
  intros x s ((H1 & H2 & H3) & Hp & Hk) Hx. by split_and!.
Qed.

#[export] Instance key_tables_lens : Lens key_tables set_key_tables.
Proof.
  split; [done|done|by intros []|by intros [? [? ? ? ? []] ? ? ? ?]|by intros s (_ & _ & ?)| |by intros t env s (_ & _ & ?)].
  intros x s ((H1 & H2 & H3) & Hp & Hk) Hx. by split_and!.
Qed.
End lenses.

(** ** Handlers *)

#[export] Hint Resolve confined_audit_List confined_project_Create confined_project_Get confined_project_Update
  confined_project_Archive confined_project_List confined_CreateEndpoint confined_GetEndpoint confined_ListEndpoints
  confined_UpdateEndpoint confined_Replay confined_outbox_List confined_invoice_Create confined_invoice_Get
  confined_invoice_List confined_AddItem confined_RemoveItem confined_TransitionInvoice confined_tenant_Get
  confined_ListMembers confined_handleAddMember confined_Mint confined_Revoke confined_keys_List : isolation.

(** What the two project writes may see of other sessions: those of the tenant's own members. *)
Definition own_sessions (t : uuid) (env : Env) (c : Call) : Prop :=
  match c with
  | UpdateProject mid mid2 _ _ | ArchiveProject mid mid2 _ => of_tenant t env mid /\ of_tenant t env mid2
  | _ => True
  end.

Section api.
Context `{Unicode} `{UUIDLaws} `{Collation} `{TimeJSON} `{Outbox.GoJSON} `{Webhook.NetURL} `{Ssrf.AddrText}.
Context (time_Parse : string -> option gotime) (u_Port : Webhook.URL -> string) (d : Deployment).

#[local] Ltac unfold_handler :=
  lazymatch goal with |- confined _ _ ?m _ => let rec head m := lazymatch m with ?f _ => head f | _ => m end in
    let h := head m in unfold h end.

Lemma confined_dispatch env tp lookup c a s :
  scope a <> uuid_Nil -> own_sessions (scope a) env c ->
  confined (scope a) env (dispatch time_Parse u_Port d env tp lookup c a) s.
Proof.
  intros Ha Hc. unfold dispatch. destruct c; cbn [own_sessions] in Hc; try destruct Hc as [Hm Hm2];
    apply confined_zoom; try apply _; unfold answer; confine; unfold_handler; try unfold handleTransition; confine.
Qed.

Context (write : result Problem Response -> list Idempotency.wop).

Notation serve_request := (request time_Parse u_Port d write).
Notation serve_all := (run time_Parse u_Port d write).

Definition tenant_of (rq : Req) : option uuid := uuid_Parse (Router.param_tenantID (rq_in rq)).

Lemma endpoint_alone rq ctx a :
  Router.authorized ctx = Some a -> scope a <> uuid_Nil -> own_sessions (scope a) (rq_env rq) (rq_call rq) ->
  handler_alone a (rq_env rq) (endpoint time_Parse u_Port d write rq ctx).
Proof.
  intros Hc Ha Hs path body s. set (m := dispatch time_Parse u_Port d (rq_env rq) (rq_traceparent rq) (rq_lookup rq) (rq_call rq) a).
  apply (confined_ext _ _ (if Valid a then (fun s => let '(r, s') := m s in (Ok (E:=err) (write r, false), s'))
                           else (fun s => (Ok (E:=err) ([], true), s)))).
  - intros x. unfold as_steps, endpoint. rewrite Hc. unfold Account.authorizedFrom. cbn [mbind option_bind].
    destruct (Valid a); [|done]. unfold m. by destruct (dispatch _ _ _ _ _ _ _ a x).
  - destruct (Valid a); [|apply confined_const]. apply (confined_catch _ _ m (fun r => Ok (write r, false))).
    by apply confined_dispatch.
Qed.

Context (Hlimit : plain_policy (Router.API (Router.limits (deps d)))).

(** Every route of a tenant starts with the gate. *)
Lemma route_guards c rt :
  route_of d c = Some rt -> exists gs, Router.guards rt = Router.ResolveTenant :: gs /\ Forall inner gs.
Proof.
  unfold route_of. destruct (list_find _ _) as [[i x]|] eqn:Ef; [|done]. intros [= ->].
  apply list_find_Some in Ef as (Hi & _ & _). apply list_elem_of_lookup_2 in Hi.
  pose proof (proj1 (Forall_forall _ _) (RouterProps.tenantRoutes_guarded (deps d)) _ Hi) as Hwg.
  destruct Hwg as [(perm & -> & _)|(-> & _)]; eexists; (split; [reflexivity|]); by repeat constructor.
Qed.

(** What other sessions commit while a request runs is its own tenant's. *)
Definition own_request (t : uuid) (rq : Req) : Prop :=
  own_sessions t (rq_env rq) (rq_call rq) /\ forall n, of_tenant t (rq_env rq) (rq_others rq n).

Definition answered (m : App -> Router.Answer * App) : SE App err Router.Answer := fun s =>
  let '(r, s') := m s in (Ok r, s').

(** The layers behind the guards. *)
Definition behind (rq : Req) (rt : Router.Route) (ctx : Router.Ctx) : SE App Router.Answer Router.Answer := fun s1 =>
  let next := endpoint time_Parse u_Port d write rq ctx in
  let r := Router.request (rq_in rq) in
  if Router.guarded rt then
    let '(o, tb, s2) := IdempotencyHttp.Idempotency (retention d) (lease d) (Router.Idempotency_ (deps d)) (rq_envs rq)
                          (rq_others rq) next (Router.authorized ctx) r (rq_writer rq) (replays s1) s1 in
    (Ok (Router.Answered o), set_replays tb s2)
  else
    let '(o, s2) := IdempotencyHttp.serve next (IdempotencyHttp.Path r) (IdempotencyHttp.Body r) (rq_writer rq) s1 in
    (Ok (Router.Answered o), s2).

Definition guards_of (rq : Req) (rt : Router.Route) : SE App Router.Answer Router.Ctx :=
  zoom gate_tables set_gate_tables
    (Router.pass_all (deps d) (Router.guards rt) (rq_in rq) (Router.mkCtx (rq_principal rq) None)).

Lemma request_layers rq rt s :
  route_of d (rq_call rq) = Some rt ->
  answered (serve_request rq) s =
    (let '(r, s') := (guards_of rq rt ≫= behind rq rt) s in (Ok (match r with Ok o => o | Err e => e end), s')).
Proof.
  intros Er. unfold answered, request, guards_of, behind, mbind, SE_bind, zoom. rewrite Er.
  destruct (Router.pass_all _ _ _ _ (gate_tables s)) as [[ctx|e] y]; [|done]. destruct (Router.guarded rt).
  - by destruct (IdempotencyHttp.Idempotency _ _ _ _ _ _ _ _ _ _ _) as [[o tb] s2].
  - by destruct (IdempotencyHttp.serve _ _ _ _ _) as [o s2].
Qed.

Lemma confined_behind rq rt ctx a s :
  Router.authorized ctx = Some a -> scope a <> uuid_Nil -> own_request (scope a) rq ->
  confined (scope a) (rq_env rq) (behind rq rt ctx) s.
Proof.
  intros Hc Ha [Hs Ho] Hw Hun. assert (Hal := endpoint_alone rq ctx a Hc Ha Hs). unfold behind. rewrite Hc. cbv zeta.
  set (next := endpoint _ _ _ _ _ _) in *. set (r := Router.request _). destruct (Router.guarded rt).
  - destruct (confined_Idempotency (retention d) (lease d) a Ha (rq_env rq) (rq_envs rq) (rq_others rq) Ho
      (Router.Idempotency_ (deps d)) next r (rq_writer rq) (replays s, s) Hal (conj Logic.I Hw) (conj Logic.I Hun)) as (I1 & I2 & I3).
    change (replays (restrict (scope a) s)) with (restrict (scope a) (replays s)).
    revert I1 I2 I3. cbn [fst snd restrict prod_tenanted]. destruct (IdempotencyHttp.Idempotency _ _ _ _ _ _ _ _ _ (replays s) s) as [[o tb] s2].
    destruct (IdempotencyHttp.Idempotency _ _ _ _ _ _ _ _ _ _ _) as [[o' tb'] s2'].
    intros I1 [_ I2] I3. cbn [fst snd] in *. injection I1 as -> -> ->. split; [done|]. split; [exact I2|].
    intros u Hu. pose proof (f_equal fst (I3 u Hu)) as K1. pose proof (f_equal snd (I3 u Hu)) as K2. cbn [fst snd restrict prod_tenanted] in K1, K2.
    change (set_replays (restrict u tb) (restrict u s2) = restrict u s). rewrite K1, K2. done.
  - destruct (confined_serve a (rq_env rq) next (IdempotencyHttp.Path r) (IdempotencyHttp.Body r) (rq_writer rq) s Hal Hw Hun)
      as (I1 & I2 & I3).
    revert I1 I2 I3. destruct (IdempotencyHttp.serve _ _ _ _ s) as [o s2], (IdempotencyHttp.serve _ _ _ _ (restrict _ s)) as [o' s2'].
    intros I1 I2 I3. cbn [fst snd] in *. injection I1 as -> ->. by split_and!.
Qed.

Lemma confined_request t rq s :
  tenant_of rq = Some t -> own_request t rq -> confined t (rq_env rq) (answered (serve_request rq)) s.
Proof.
  intros Ht Ho. destruct (route_of d (rq_call rq)) as [rt|] eqn:Er.
  2:{ apply (confined_ext _ _ (fun s => (Ok (Router.Denied Router.NotFound None), s))); [|apply confined_const].
      intros x. unfold answered, request. by rewrite Er. }
  destruct (route_guards _ _ Er) as (gs & Hg & Hgs).
  eapply confined_ext; [intros x; symmetry; by apply request_layers|]. cbv beta.
  apply (confined_catch _ _ (guards_of rq rt ≫= behind rq rt) (fun r => Ok (match r with Ok o => o | Err e => e end))).
  apply confined_bind.
  - apply confined_zoom; [apply _|]. rewrite Hg. by apply confined_pass_all.
  - intros ctx x Hp _ _ _ _ _. apply zoom_Ok in Hp as (y & Hp & _). rewrite Hg in Hp.
    destruct (pass_all_ctx _ _ _ _ _ _ _ _ Ht Hgs Hp) as (a & Ha & <- & Hn). by apply confined_behind.
Qed.

(** A request whose path names no tenant is refused and changes nothing. *)
Lemma unresolved_request rq s : tenant_of rq = None -> (serve_request rq s).2 = s.
Proof.
  intros Ht. unfold request. destruct (route_of d (rq_call rq)) as [rt|] eqn:Er; [|done].
  destruct (route_guards _ _ Er) as (gs & Hg & Hgs). rewrite Hg.
  destruct (pass_all_unresolved (deps d) gs (rq_in rq) (rq_principal rq) (gate_tables s) Ht) as [p ->]. by destruct s.
Qed.

(** ** A mixed run *)

(** What the runs of other tenants may not do: draw what is a tenant's. *)
Fixpoint undisturbed (rqs : list Req) (s : App) : Prop :=
  match rqs with
  | [] => True
  | rq :: rest =>
      (forall t, tenant_of rq = Some t -> unclaimed t (rq_env rq) s /\ own_request t rq) /\
      undisturbed rest (serve_request rq s).2
  end.

Definition requests_of (t : uuid) (rqs : list Req) : list Req := filter (fun rq => tenant_of rq = Some t) rqs.

(** C2: Tenants are isolated from one another: run any sequence of requests to any tenants, of members and strangers,
    through the gate, the limiter, the permissions, the idempotency layer and the handlers, none of them drawing an
    identifier or a secret that is another tenant's. What one tenant's requests are answered, and the rows, replay
    records and limiter bucket it ends with, are those of its own requests run over its own rows and the accounts of
    the service, as if no other tenant had ever been in the tables or sent a request. *)
Theorem tenants_are_isolated t rqs s :
  wf s -> undisturbed rqs s ->
  serve_all (requests_of t rqs) (restrict t s) =
    (filter (fun ans => tenant_of ans.1 = Some t) (serve_all rqs s).1, restrict t (serve_all rqs s).2).
Proof.
  unfold requests_of. revert s. induction rqs as [|rq rqs IH]; intros s Hw Hu; [done|]. destruct Hu as [Hrq Hrest].
  rewrite filter_cons. cbn [run]. destruct (serve_request rq s) as [r s1] eqn:Er. cbn [snd] in Hrest.
  destruct (tenant_of rq) as [u|] eqn:Et.
  - destruct (Hrq u eq_refl) as [Hun Ho]. destruct (confined_request u rq s Et Ho Hw Hun) as (H7 & H8 & H9).
    unfold answered in H7, H8, H9. rewrite Er in H7, H8, H9. cbn [fst snd] in *. specialize (IH s1 H8 Hrest).
    destruct (serve_all rqs s1) as [out s2] eqn:Eo. cbn [fst snd] in *. rewrite filter_cons. cbn [fst]. rewrite Et.
    destruct (decide (u = t)) as [->|Hne].
    + rewrite !decide_True by done. cbn [run]. destruct (serve_request rq (restrict t s)) as [r' s1'] eqn:Er'.
      assert (Hs : s1' = restrict t s1) by exact (f_equal snd H7). assert (Hr : r' = r) by by injection (f_equal fst H7).
      subst s1' r'. by rewrite IH.
    + rewrite !decide_False by congruence. rewrite <- (H9 t) by done. exact IH.
  - pose proof (unresolved_request rq s Et) as Hs. rewrite Er in Hs. cbn [snd] in Hs. subst s1. specialize (IH s Hw Hrest).
    destruct (serve_all rqs s) as [out s2] eqn:Eo. cbn [fst snd] in *. rewrite filter_cons. cbn [fst]. rewrite Et.
    by rewrite !decide_False by done.
Qed.
End api.

(** ** Witness

    Two tenants of two owners, one of whom also asks for the other's projects. *)

Module ApiDemo.
#[local] Existing Instance DemoUnicode.
#[local] Existing Instance DemoUUID.lib.
#[local] Existing Instance DemoUUID.laws.
#[local] Instance by_bytes : Collation := {| text_leb := String.leb |}.
#[local] Instance demo_time : TimeJSON := {| time_json t := JNum t |}.
#[local] Instance demo_json : Outbox.GoJSON := {| Outbox.json_Marshal _ := "{}"; Outbox.json_time t := JNum t |}.
#[local] Instance net : Webhook.NetURL := {| Webhook.url_Parse _ := None |}.
#[local] Instance text : Ssrf.AddrText := {| Ssrf.addr_String _ := "address" |}.

(** The identifiers drawn with base [b]: [b] and above. *)
Definition env_at (b : N) : Env := mkEnv 7000 7000 (fun n => (b + N.of_nat n)%N) (fun n => (b + 500 + N.of_nat n)%N) (fun _ => 7) "req".

Lemma drawn_above b k : drawn (env_at b) k -> (b <= k)%N.
Proof. intros [[n ->]|[n ->]]; cbn; lia. Qed.

(** Every row below [b] or the tenant's, by evaluation. *)
Definition below {R} (owner : uuid -> R -> uuid) (b t : uuid) (m : gmap uuid R) : bool :=
  forallb (fun kr => (kr.1 <? b)%N || bool_decide (owner kr.1 kr.2 = t)) (map_to_list m).
Definition list_below {R} (id owner : R -> uuid) (b t : uuid) (l : list R) : bool :=
  forallb (fun r => (id r <? b)%N || bool_decide (owner r = t)) l.

Lemma below_own {R} (owner : uuid -> R -> uuid) b t m k : below owner b t m = true -> drawn (env_at b) k -> own owner t m k.
Proof.
  intros Hb Hd%drawn_above r Hr. unfold below in Hb. rewrite forallb_forall in Hb.
  assert (Hin : (k, r) ∈ map_to_list m) by by apply elem_of_map_to_list. apply list_elem_of_In in Hin.
  specialize (Hb _ Hin). cbn in Hb. apply orb_true_iff in Hb as [Hb|Hb]; [apply N.ltb_lt in Hb; lia|].
  by apply bool_decide_eq_true in Hb.
Qed.

Lemma list_below_own {R} (id owner : R -> uuid) b t l r :
  list_below id owner b t l = true -> r ∈ l -> drawn (env_at b) (id r) -> owner r = t.
Proof.
  intros Hb Hin Hd%drawn_above. unfold list_below in Hb. rewrite forallb_forall in Hb. apply list_elem_of_In in Hin.
  specialize (Hb _ Hin). apply orb_true_iff in Hb as [Hb|Hb]; [apply N.ltb_lt in Hb; lia|]. by apply bool_decide_eq_true in Hb.
Qed.

Definition untouched (b t : uuid) (s : App) : bool :=
  below (fun _ => Invoice.TenantID) b t (InvoiceStore.invoices (billing s)) &&
  below (fun _ => Invoice.item_TenantID) b t (InvoiceStore.items (billing s)) &&
  list_below InvoiceStore.ev_ID InvoiceStore.ev_TenantID b t (InvoiceStore.events (billing s)) &&
  below (fun _ => Outbox.ep_TenantID) b t (Outbox.endpoints (hooks s)) &&
  below (fun _ => Outbox.o_TenantID) b t (Outbox.outbox (hooks s)) &&
  list_below AuditLog.r_ID AuditLog.r_TenantID b t (trail s) &&
  below (fun _ => Project.TenantID) b t (projects s) && bool_decide (api_keys s = ∅).

Lemma untouched_unclaimed b t s : untouched b t s = true -> unclaimed t (env_at b) s.
Proof.
  unfold untouched. rewrite !andb_true_iff. intros (((((((H1 & H2) & H3) & H4) & H5) & H6) & H7) & H8%bool_decide_eq_true).
  assert (Ha : unclaimed t (env_at b) (trail s)) by (intros r; by apply list_below_own).
  split; [split; [|split; [|split]]|split; [split|split; [|split]]].
  - intros k Hk. split; by eapply below_own.
  - intros e. by apply list_below_own.
  - intros k Hk. split; by eapply below_own.
  - exact Ha.
  - intros k Hk. by eapply below_own.
  - exact Ha.
  - cbn. rewrite H8. intros k _ r Hr. by rewrite lookup_empty in Hr.
  - cbn. rewrite H8. intros k r Hr. by rewrite lookup_empty in Hr.
  - exact Ha.
Qed.

Definition d : Deployment :=
  mkDeployment CursorDemo.demo_Unmarshal CursorDemo.demo_codec
    (Router.mkDeps true true true true (Some (Router.mkRateLimits None None None (Some RateLimit.PolicyAPI) None)))
    true true None 86400 60.

Definition write (r : result Problem Response) : list Idempotency.wop :=
  match r with
  | Err p => [Idempotency.OpWriteHeader (Status p)]
  | Ok (RProject rp) => [Idempotency.OpWriteHeader (code rp)]
  | Ok _ => [Idempotency.OpWriteHeader 200]
  end.

Definition accounts0 : Tenant.DB :=
  (CreateTenantWithOwner (env_at 10) (mkTenant 6%N "beta" "Beta" 0) (mkUser 12%N "bob@example.com" "argon2id-hash" 0) RoleOwner
     Tenant.TenantDemo.db1).2.
Definition s0 : App :=
  mkApp ∅ (InvoiceStore.mkDB ∅ ∅ [] ∅ (Outbox.mkDB ∅ ∅ [])) ∅ ∅ accounts0 ∅.

Definition sent (b : N) (p : Principal) (path method : string) (c : Call) : Req :=
  mkReq (env_at b) "" (fun _ => Ok []) (fun _ => env_at b) (fun _ tb => tb) (Some p)
    (Router.mkIncoming path "203.0.113.9:4711" ∅ true 1000 "m"
       (IdempotencyHttp.mkRequest method ["key-1"] "/projects" "/projects" "" (IdempotencyHttp.Stream "{}")))
    c (Idempotency.new_writer ∅).

Definition apollo : Call := CreateProject (Ok (mkCreateProject "Apollo" "moon" "")).
Definition rqs : list Req :=
  [sent 1000 Tenant.TenantDemo.ada_jwt "5" "POST" apollo; sent 2000 Tenant.TenantDemo.bob_jwt "6" "POST" apollo;
   sent 3000 Tenant.TenantDemo.bob_jwt "5" "GET" (ListProjects "" "" ""); sent 4000 Tenant.TenantDemo.ada_jwt "5" "GET" (ListProjects "" "" "")].

Definition parse_time (_ : string) : option gotime := None.
Definition port_of (_ : Webhook.URL) : string := "443".

Definition status (ans : Req * Router.Answer) : Z :=
  match ans.2 with
  | Router.Denied p _ => Status p
  | Router.Answered (IdempotencyHttp.Served w) => match Idempotency.w_Sent w with Some (st, _) => st | None => 0 end
  | Router.Answered _ => 0
  end.

Lemma s0_wf : wf s0.
Proof.
  split; [split; [|split; [|split]]|split]; cbn; intros k r Hr; by rewrite lookup_empty in Hr.
Qed.

(** One tenant's request keeps clear of what the others have drawn. *)
Lemma sent_undisturbed b p path method c rest s t :
  uuid_Parse path = Some t -> untouched b t s = true -> (match c with UpdateProject _ _ _ _ | ArchiveProject _ _ _ => False | _ => True end) ->
  undisturbed parse_time port_of d write rest (request parse_time port_of d write (sent b p path method c) s).2 ->
  undisturbed parse_time port_of d write (sent b p path method c :: rest) s.
Proof.
  intros Hp Hu Hc Hrest. split; [|exact Hrest]. intros t' Ht'. change (uuid_Parse path = Some t') in Ht'.
  assert (t' = t) as -> by congruence. split; [by apply untouched_unclaimed|]. split; [by destruct c|].
  intros n. apply of_tenant_id.
Qed.

Lemma rqs_undisturbed : undisturbed parse_time port_of d write rqs s0.
Proof. do 4 (eapply sent_undisturbed; [reflexivity|vm_compute; reflexivity|exact Logic.I|]). exact Logic.I. Qed.

(** Both tenants create a project under one slug with one idempotency key; the stranger is told that the tenant
    does not exist, and what the owner reads is what it reads alone. *)
Lemma tenants_are_isolated_witness :
  run parse_time port_of d write (requests_of 5%N rqs) (restrict 5%N s0) =
    (filter (fun ans => tenant_of ans.1 = Some 5%N) (run parse_time port_of d write rqs s0).1,
     restrict 5%N (run parse_time port_of d write rqs s0).2) /\
  status <$> (run parse_time port_of d write rqs s0).1 = [201; 201; 404; 200].
Proof.
  split; [|vm_compute; reflexivity].
  refine (tenants_are_isolated parse_time port_of d write _ 5%N rqs s0 s0_wf rqs_undisturbed). reflexivity.
Defined.
End ApiDemo.
