(* ===== verification/Invariants.v ===== *)
(** * What every store leaves alone

    An operation keeps an invariant whatever it returns; the rules follow the statements. The
    first uses: what each component writes on the audit trail, which all of them share, and
    that announcing an invoice leaves the outbox in order. *)

From S2P Require Import Prelude Apperr Ids Db Authz Tenant.
From S2P Require AuditLog Project ProjectProps Webhook Outbox OutboxProps Invoice InvoiceStore InvoiceProps ApiKey ApiKeyProps.

(** ** Keeping an invariant *)

Definition keeps {S E A} (I : S -> Prop) (m : SE S E A) : Prop := forall s, I s -> I (m s).2.

Section keeps.
Context {S : Type}.

Lemma keeps_same {E A} (I : S -> Prop) (m : SE S E A) : (forall s, (m s).2 = s) -> keeps I m.
Proof. intros Hm s Hs. by rewrite Hm. Qed.
Lemma keeps_ret {E A} (I : S -> Prop) (a : A) : keeps (E:=E) I (mret a).
Proof. by apply keeps_same. Qed.
Lemma keeps_throw {E A} (I : S -> Prop) (e : E) : keeps (A:=A) I (throw e).
Proof. by apply keeps_same. Qed.
Lemma keeps_lift {E A} (I : S -> Prop) (r : result E A) : keeps I (lift r).
Proof. by apply keeps_same. Qed.

Lemma keeps_bind {E A B} (I : S -> Prop) (m : SE S E A) (f : A -> SE S E B) :
  keeps I m -> (forall a, keeps I (f a)) -> keeps I (m ≫= f).
Proof.
  intros Hm Hf s Hs. specialize (Hm s Hs). unfold mbind, SE_bind. destruct (m s) as [[a|e] s']; [by apply Hf|exact Hm].
Qed.

Lemma keeps_or_fail {A} (I : S -> Prop) (m : SE S err A) f : keeps I m -> keeps I (or_fail m f).
Proof. intros Hm s Hs. specialize (Hm s Hs). unfold or_fail. by destruct (m s) as [[a|e] s']. Qed.

Lemma keeps_failing {A} (I : S -> Prop) (m : SE S err A) : keeps I m -> keeps I (failing m).
Proof. intros Hm s Hs. specialize (Hm s Hs). unfold failing. by destruct (m s) as [[a|e] s']. Qed.

Lemma keeps_BeginFunc {A} (I : S -> Prop) (m : SE S err A) : keeps I m -> keeps I (BeginFunc m).
Proof. intros Hm s Hs. specialize (Hm s Hs). unfold BeginFunc. by destruct (m s) as [[a|e] s']. Qed.

Lemma keeps_tx {A} (I : S -> Prop) id (fn : Settings -> SE S err A) : (forall g, keeps I (fn g)) -> keeps I (WithIdentityTx id fn).
Proof.
  intros Hf. unfold WithIdentityTx, WithSettings. destruct (negb _); [apply keeps_throw|].
  case_decide; [apply keeps_throw|]. by apply keeps_BeginFunc.
Qed.

Lemma keeps_for_range {A B} (I : S -> Prop) (fn : Z -> A -> SE S err B) l : forall i,
  (forall j x, keeps I (fn j x)) -> keeps I (for_range i l fn).
Proof.
  induction l as [|x l IH]; intros i Hf; cbn; [apply keeps_ret|].
  apply keeps_bind; [apply Hf|]. intros y. apply keeps_bind; [by apply IH|]. intros. apply keeps_ret.
Qed.

Lemma keeps_zoom {T E A} (I : S -> Prop) (J : T -> Prop) (get : S -> T) set (m : SE T E A) :
  (forall s, I s -> J (get s)) -> (forall s x, I s -> J x -> I (set x s)) -> keeps J m -> keeps I (zoom get set m).
Proof.
  intros Hg Hs Hm s HI. specialize (Hm _ (Hg s HI)). unfold zoom. destruct (m (get s)) as [[a|e] x]; by apply Hs.
Qed.

(** With what relates the part's new value to its old one. *)
Lemma keeps_part {T E A} (I : S -> Prop) (J : T -> T -> Prop) (get : S -> T) set (m : SE T E A) :
  (forall s, I s -> J (get s) (get s)) -> (forall s x, I s -> J (get s) x -> I (set x s)) ->
  (forall x0, keeps (J x0) m) -> keeps I (zoom get set m).
Proof.
  intros Hg Hs Hm s HI. specialize (Hm _ _ (Hg s HI)). unfold zoom. destruct (m (get s)) as [[a|e] x]; by apply Hs.
Qed.
End keeps.

Create HintDb keeping.
#[export] Hint Resolve keeps_ret keeps_throw keeps_lift : keeping.

Ltac keep1 :=
  lazymatch goal with
  | |- keeps _ (mret _) => apply keeps_ret
  | |- keeps _ (throw _) => apply keeps_throw
  | |- keeps _ (lift _) => apply keeps_lift
  | |- keeps _ (or_fail _ _) => apply keeps_or_fail
  | |- keeps _ (failing _) => apply keeps_failing
  | |- keeps _ (BeginFunc _) => apply keeps_BeginFunc
  | |- keeps _ (mbind _ _) => apply keeps_bind; [|intros]
  | |- keeps _ (WithIdentityTx _ _) => apply keeps_tx; intros
  | |- keeps _ (for_range _ _ _) => apply keeps_for_range; intros
  | |- keeps _ (let _ := _ in _) => cbv zeta
  | |- keeps _ (if decide ?P then _ else _) => destruct (decide P)
  | |- keeps _ (if ?b then _ else _) => destruct b
  | |- keeps _ (match ?x with _ => _ end) => destruct x
  end.
Ltac keep := repeat keep1; auto with keeping.

(** A statement whose outcomes are in sight. *)
Ltac keep_cases := intros ? ?; cbv zeta; repeat case_match; simplify_eq/=; auto with keeping.

(** Running on from a state that has the invariant. *)
Ltac keep_run := match goal with |- ?I (?m ?s).2 => cut (keeps I m); [intros Hk; apply (Hk s); auto|] end.

(** ** The audit trail

    What a component appends names its own resource. *)

Definition tagged (res : string) (t0 t : AuditLog.Table) : Prop :=
  exists l, t = t0 ++ l /\ Forall (fun r => AuditLog.r_Resource r = res /\ (res <> "api_key" ->
    AuditLog.r_Action r <> AuditLog.ActionAPIKeyCreate /\ AuditLog.r_Action r <> AuditLog.ActionAPIKeyRevoke)) l.

Lemma tagged_refl res t : tagged res t t.
Proof. exists []. by rewrite app_nil_r. Qed.

Lemma tagged_trans res a b c : tagged res a b -> tagged res b c -> tagged res a c.
Proof.
  intros (l & -> & Hl) (l' & -> & Hl'). exists (l ++ l'). split; [by rewrite app_assoc|]. by apply Forall_app.
Qed.

Definition entry_ok (res : string) (e : AuditLog.Entry) : Prop :=
  AuditLog.e_Resource e = res /\ (res <> "api_key" ->
    AuditLog.e_Action e <> AuditLog.ActionAPIKeyCreate /\ AuditLog.e_Action e <> AuditLog.ActionAPIKeyRevoke).

Lemma keeps_Write `{Unicode} res t0 env g id e : entry_ok res e -> keeps (tagged res t0) (AuditLog.Write env g id e).
Proof.
  intros He s Hs. destruct (AuditLog.Write env g id e s) as [[[]|x] s'] eqn:Hw; cbn.
  - apply AuditLog.Write_Ok in Hw as (_ & _ & -> & _). eapply tagged_trans; [exact Hs|].
    exists [AuditLog.row_of env id e]. split; [done|]. by repeat constructor; apply He.
  - by apply AuditLog.Write_Err in Hw as ->.
Qed.
#[export] Hint Extern 1 (entry_ok _ _) => (by split) : keeping.
#[export] Hint Resolve keeps_Write : keeping.

(** *** Projects *)

Section projects.
Context `{Unicode} `{UUIDLib} `{TimeJSON}.

Definition project_tag (t0 : AuditLog.Table) (db : Project.DB) : Prop := tagged "project" t0 (Project.audit_log db).

Lemma keeps_auditProject t0 env g id a action p before after :
  action <> AuditLog.ActionAPIKeyCreate -> action <> AuditLog.ActionAPIKeyRevoke ->
  keeps (project_tag t0) (Project.auditProject env g id a action p before after).
Proof.
  intros H1' H2'. unfold Project.auditProject. keep. apply (keeps_zoom _ (tagged "project" t0)); [done|done|]. by apply keeps_Write.
Qed.

Lemma keeps_update_project t0 g t id cond f : keeps (project_tag t0) (Project.update_project g t id cond f).
Proof. unfold Project.update_project. keep_cases. Qed.

Lemma keeps_write_project t0 env g a id verb action before cond f :
  action <> AuditLog.ActionAPIKeyCreate -> action <> AuditLog.ActionAPIKeyRevoke ->
  keeps (project_tag t0) (Project.write_project env g a id verb action before cond f).
Proof.
  intros H1' H2'. unfold Project.write_project. keep; [apply keeps_update_project|by apply keeps_auditProject].
Qed.

Lemma project_step_tagged db db' : ProjectProps.step db db' -> tagged "project" (Project.audit_log db) (Project.audit_log db').
Proof.
  intros Hs. change (project_tag (Project.audit_log db) db').
  assert (Hrun : forall A (m : SE Project.DB err A) res, keeps (project_tag (Project.audit_log db)) m -> m db = (res, db') ->
    project_tag (Project.audit_log db) db').
  { intros A m res Hm Hr. specialize (Hm db (tagged_refl _ _)). by rewrite Hr in Hm. }
  destruct Hs as [env a i res db db' Hr|env a id before expected name desc res db db' _ Hr|env a id before res db db' Hr];
    (eapply Hrun; [|exact Hr]).
  - unfold Project.Create. keep; [|by apply keeps_auditProject]. unfold Project.insert_project. keep_cases.
  - apply keeps_BeginFunc. by apply keeps_write_project.
  - apply keeps_BeginFunc. by apply keeps_write_project.
Qed.

Lemma project_steps_tagged db db' : rtc ProjectProps.step db db' -> tagged "project" (Project.audit_log db) (Project.audit_log db').
Proof.
  induction 1 as [db|a b c Hs _ IH]; [apply tagged_refl|]. eapply tagged_trans, IH. by apply project_step_tagged.
Qed.

(** Entries about other resources are not on a project's trail. *)
Lemma project_wf_other P t l :
  ProjectProps.DB_wf (Project.mkDB P t) -> Forall (fun r => AuditLog.r_Resource r <> "project") l ->
  ProjectProps.DB_wf (Project.mkDB P (t ++ l)).
Proof.
  intros [W1 W2 W3] Hl. split; [exact W1|exact W2|]. intros i. etrans; [|exact (W3 i)]. cbn [Project.audit_log]. do 2 f_equal.
  unfold ProjectProps.trail. rewrite filter_app. rewrite <- (app_nil_r (filter _ t)) at 2. f_equal.
  induction Hl as [|r l Hr _ IH]; [done|]. rewrite filter_cons_False; [exact IH|]. by intros [? _].
Qed.
End projects.

(** *** Keys *)

Section keys.
Context `{Unicode} `{TimeJSON}.

Definition key_tag (t0 : AuditLog.Table) (db : ApiKey.DB) : Prop := tagged "api_key" t0 (ApiKey.audit_log db).

Lemma keeps_key_audit t0 env g id actor action t key before after :
  keeps (key_tag t0) (ApiKey.write_audit env g id (ApiKey.key_entry env actor action t key before after)).
Proof. apply (keeps_zoom _ (tagged "api_key" t0)); [done|done|]. by apply keeps_Write. Qed.

Lemma keeps_Mint t0 env t u name scopes exp : keeps (key_tag t0) (ApiKey.Mint env t u name scopes exp).
Proof.
  unfold ApiKey.Mint. keep; [|apply keeps_key_audit]. unfold ApiKey.insert_key. keep_cases.
Qed.

Lemma keeps_Revoke t0 env t u id : keeps (key_tag t0) (ApiKey.Revoke env t u id).
Proof.
  unfold ApiKey.Revoke. keep. intros s Hs. destruct (ApiKey.find_key _ _ _ s) as [r|]; [|done].
  destruct (ApiKey.k_RevokedAt _); [done|].
  keep_run. keep; [|apply keeps_key_audit]. unfold ApiKey.loadKey. keep_cases.
Qed.

Lemma key_wf_other K A t l :
  ApiKeyProps.DB_wf (ApiKey.mkDB K A t) ->
  Forall (fun r => AuditLog.r_Action r <> AuditLog.ActionAPIKeyCreate /\ AuditLog.r_Action r <> AuditLog.ActionAPIKeyRevoke) l ->
  ApiKeyProps.DB_wf (ApiKey.mkDB K A (t ++ l)).
Proof.
  intros [W1 W2 W3 W4 W5] Hl.
  assert (Hn : forall action i, action = AuditLog.ActionAPIKeyCreate \/ action = AuditLog.ActionAPIKeyRevoke ->
    ApiKeyProps.entries_on action i (t ++ l) = ApiKeyProps.entries_on action i t).
  { intros action i Ha. rewrite ApiKeyProps.entries_on_app. rewrite <- (app_nil_r (ApiKeyProps.entries_on action i t)) at 2. f_equal.
    unfold ApiKeyProps.entries_on. induction Hl as [|r l [H1' H2'] _ IH]; [done|]. rewrite filter_cons_False; [exact IH|].
    intros [Hr _]. destruct Ha; congruence. }
  split; [exact W1|exact W2|exact W3| |]; intros i; cbn -[ApiKeyProps.entries_on]; rewrite Hn by auto; [apply W4|apply W5].
Qed.
End keys.

(** ** Webhooks *)

Section hooks.
Context `{Unicode} `{UUIDLib}.

Definition hook_tag (res : string) (t0 : AuditLog.Table) (db : Outbox.DB) : Prop := tagged res t0 (Outbox.audit_log db).

Lemma keeps_hook_audit res t0 env g id e : entry_ok res e -> keeps (hook_tag res t0) (Outbox.write_audit env g id e).
Proof. intros He. apply (keeps_zoom _ (tagged res t0)); [done|done|]. by apply keeps_Write. Qed.

Lemma keeps_CreateEndpoint t0 env a v : keeps (hook_tag "webhook_endpoint" t0) (Outbox.CreateEndpoint env a v).
Proof.
  unfold Outbox.CreateEndpoint. keep; [|by apply keeps_hook_audit]. unfold Outbox.insert_endpoint. keep_cases.
Qed.

Lemma keeps_UpdateEndpoint t0 env a id i : keeps (hook_tag "webhook_endpoint" t0) (Outbox.UpdateEndpoint env a id i).
Proof.
  unfold Outbox.UpdateEndpoint. keep. intros db Hdb. destruct (Outbox.find_endpoint _ _ _ db) as [before|]; [|done]. cbv zeta.
  destruct (negb _); [done|].
  match goal with |- context [Outbox.write_audit ?e ?g ?i ?en ?x] =>
    pose proof (keeps_hook_audit "webhook_endpoint" t0 e g i en ltac:(by split) x Hdb) as Hk;
    destruct (Outbox.write_audit e g i en x) as [[u|y] s'] end; exact Hk.
Qed.

(** The outbox's own transactions leave the trail. *)
Lemma keeps_Replay res t0 env a id : keeps (hook_tag res t0) (Outbox.Replay env a id).
Proof. unfold Outbox.Replay, Outbox.update_outbox. keep. keep_cases. Qed.

Lemma keeps_insert_outbox_tag res t0 g r : keeps (hook_tag res t0) (Outbox.insert_outbox g r).
Proof. unfold Outbox.insert_outbox. keep_cases. Qed.

(** A delivery enqueued leaves the outbox in order, also when the announcement fails half way. *)
Lemma keeps_insert_outbox_wf g r : OutboxProps.new_outbox_row r -> keeps OutboxProps.DB_wf (Outbox.insert_outbox g r).
Proof.
  intros Hr s Hs. unfold Outbox.insert_outbox. destruct (negb _); [done|]. destruct (negb _); [done|].
  case_bool_decide as Hf; [done|]. destruct (Outbox.endpoints s !! _) as [e|] eqn:He; [|done]. case_bool_decide; [|done].
  destruct Hs as [W1 W2 W3 W4]. split; cbn; [| |exact W3|].
  - intros i x. rewrite lookup_insert_Some. intros [[<- <-]|[_ Hx]]; [done|by apply W1].
  - intros i x. rewrite lookup_insert_Some. intros [[<- <-]|[_ Hx]]; [by apply OutboxProps.new_row_wf|by eapply W2].
  - intros i x. rewrite lookup_insert_Some. intros [[<- <-]|[_ Hx]]; [by exists e|by eapply W4].
Qed.

Lemma keeps_Enqueue `{Outbox.GoJSON} (I : Outbox.DB -> Prop) env g ev tp t event data :
  (forall r, OutboxProps.new_outbox_row r -> keeps I (Outbox.insert_outbox g r)) ->
  keeps I (Outbox.Enqueue env g ev tp t event data).
Proof. intros Hi. unfold Outbox.Enqueue. keep; [by apply keeps_same|]. by apply Hi. Qed.

Lemma hooks_wf_audit db l : OutboxProps.DB_wf db -> OutboxProps.DB_wf (Outbox.set_audit l db).
Proof. by intros [W1 W2 W3 W4]. Qed.

Lemma keeps_hook_audit_wf env g id e : keeps OutboxProps.DB_wf (Outbox.write_audit env g id e).
Proof.
  apply (keeps_zoom _ (fun _ => True)); [done| |done]. intros s x Hs _. by apply hooks_wf_audit.
Qed.
End hooks.

(** ** Invoices: what their operations do to the webhook tables and the trail *)

Section invoices.
Context `{Unicode} `{UUIDLib} `{Outbox.GoJSON} (emits : bool) (tp : string).
Import Invoice InvoiceStore.

Definition billed (t0 : AuditLog.Table) (db : InvoiceStore.DB) : Prop :=
  hook_tag "invoice" t0 (hooks db) /\ OutboxProps.DB_wf (hooks db).

Context (t0 : AuditLog.Table) (env : Env) (a : Authorized).

Lemma keeps_emit g id event inv : keeps (billed t0) (emit emits tp env g id a event inv).
Proof.
  unfold emit. keep. apply (keeps_zoom _ (fun h => hook_tag "invoice" t0 h /\ OutboxProps.DB_wf h)); [done|done|].
  apply keeps_Enqueue. intros r Hr h [Ht Hw]. split; [by apply keeps_insert_outbox_tag|by apply keeps_insert_outbox_wf].
Qed.

Lemma keeps_auditInvoice g id action inv before after :
  action <> AuditLog.ActionAPIKeyCreate -> action <> AuditLog.ActionAPIKeyRevoke ->
  keeps (billed t0) (auditInvoice env g id a action inv before after).
Proof.
  intros H1' H2'. unfold auditInvoice. keep.
  apply (keeps_zoom _ (fun h => hook_tag "invoice" t0 h /\ OutboxProps.DB_wf h)); [done|done|]. intros h [Ht Hw].
  split; [by apply keeps_hook_audit|by apply keeps_hook_audit_wf].
Qed.

(** A statement on the billing tables does not reach the webhook tables. *)
Lemma keeps_statement {A} (m : SE InvoiceStore.DB err A) : (forall s, hooks (m s).2 = hooks s) -> keeps (billed t0) m.
Proof. intros Hm s Hs. unfold billed. by rewrite Hm. Qed.

Lemma keeps_writeEvent g id inv kd from to : keeps (billed t0) (writeEvent env g id a inv kd from to).
Proof. unfold writeEvent. keep. apply keeps_statement. intros ?. unfold insert_event. by repeat case_match. Qed.

Lemma keeps_insert_item g it : keeps (billed t0) (insert_item g it).
Proof. apply keeps_statement. intros ?. unfold insert_item. by repeat case_match. Qed.

Lemma keeps_loadItems g i u : keeps (billed t0) (loadItems g i u).
Proof. by apply keeps_statement. Qed.

Lemma keeps_update_invoice old new : keeps (billed t0) (update_invoice old new).
Proof. apply keeps_statement. intros ?. unfold update_invoice. by repeat case_match. Qed.

Lemma keeps_invoice_Create i : keeps (billed t0) (Create emits tp env a i).
Proof.
  unfold Create. keep.
  - apply keeps_statement. intros ?. unfold allocateNumber. cbv zeta. by repeat case_match.
  - apply keeps_statement. intros ?. unfold insert_invoice. by repeat case_match.
  - unfold insert_items. keep. apply keeps_insert_item.
  - apply keeps_writeEvent.
  - apply keeps_emit.
  - by apply keeps_auditInvoice.
Qed.

Lemma keeps_recomputeTotals g k before action kd :
  action <> AuditLog.ActionAPIKeyCreate -> action <> AuditLog.ActionAPIKeyRevoke ->
  keeps (billed t0) (recomputeTotals env g k before a action kd).
Proof.
  intros H1' H2'. unfold recomputeTotals, store_totals. keep.
  - apply keeps_statement. intros ?. unfold sum_lines. cbv zeta. by repeat case_match.
  - apply keeps_statement. intros ?. unfold update_invoice. by repeat case_match; simplify_eq/=.
  - apply keeps_loadItems.
  - apply keeps_writeEvent.
  - by apply keeps_auditInvoice.
Qed.

Lemma keeps_AddItem id i : keeps (billed t0) (AddItem env a id i).
Proof.
  unfold AddItem. keep. intros db Hdb. destruct (find_invoice _ _ _ db) as [before|]; [|done]. case_decide; [|done]. cbv zeta.
  keep_run. keep; [apply keeps_insert_item|]. by apply keeps_recomputeTotals.
Qed.

Lemma keeps_RemoveItem id item : keeps (billed t0) (RemoveItem env a id item).
Proof.
  unfold RemoveItem. keep. intros db Hdb. destruct (find_invoice _ _ _ db) as [before|]; [|done]. case_decide; [|done].
  keep_run. keep; [|by apply keeps_recomputeTotals].
  apply keeps_statement. intros ?. unfold delete_item. by repeat case_match.
Qed.

Lemma auditActionFor_not_key t :
  auditActionFor t <> AuditLog.ActionAPIKeyCreate /\ auditActionFor t <> AuditLog.ActionAPIKeyRevoke.
Proof. unfold auditActionFor. by repeat case_decide. Qed.

Lemma keeps_TransitionInvoice id t v : keeps (billed t0) (TransitionInvoice emits tp env a id t v).
Proof.
  unfold TransitionInvoice. keep. intros db Hdb. destruct (find_invoice _ _ _ db) as [before|]; [|done].
  destruct (negb _); [done|]. keep_run. keep.
  - apply keeps_statement. intros ?. unfold cas_transition, update_invoice. by repeat case_match; simplify_eq/=.
  - apply keeps_loadItems.
  - apply keeps_writeEvent.
  - apply keeps_emit.
  - apply keeps_auditInvoice; apply auditActionFor_not_key.
Qed.
End invoices.

(** ** What the operations of each store keep

    From the tables [x0] an operation starts in: its own invariant, and the audit trail a continuation of that of
    [x0] with entries about its own resource. *)

Definition books `{Unicode} (x0 x : InvoiceStore.DB) : Prop :=
  InvoiceProps.DB_wf x /\ billed (Outbox.audit_log (InvoiceStore.hooks x0)) x.
Definition announced (x0 x : Outbox.DB) : Prop :=
  OutboxProps.DB_wf x /\ hook_tag "webhook_endpoint" (Outbox.audit_log x0) x.
Definition planned `{Unicode} (x0 x : Project.DB) : Prop :=
  ProjectProps.DB_wf x /\ project_tag (Project.audit_log x0) x.
Definition same_accounts (x0 x : ApiKey.DB) : Prop := ApiKey.accounts x = ApiKey.accounts x0.
Definition keyring `{Unicode} (x0 x : ApiKey.DB) : Prop :=
  ApiKeyProps.DB_wf x /\ key_tag (ApiKey.audit_log x0) x /\ same_accounts x0 x.

(** An invariant by the steps of a component. *)
Lemma keeps_by_step {S E A} (R : S -> S -> Prop) (I : S -> Prop) (m : SE S E A) :
  (forall s s', R s s' -> I s -> I s') -> (forall s r s', m s = (r, s') -> R s s') -> keeps I m.
Proof. intros HR Hm s Hs. destruct (m s) as [r s'] eqn:Em. cbn. eapply HR; [by eapply Hm|done]. Qed.

Lemma keeps_and {S E A} (I J : S -> Prop) (m : SE S E A) : keeps I m -> keeps J m -> keeps (fun s => I s /\ J s) m.
Proof. intros HI HJ s [? ?]. split; [by apply HI|by apply HJ]. Qed.

Section stores.
Context `{Unicode} `{UUIDLib} `{TimeJSON} `{Collation} `{Outbox.GoJSON}.

Lemma books_step emits tp {A} (m : SE InvoiceStore.DB err A) x0 :
  (forall db r db', m db = (r, db') -> InvoiceProps.step emits tp db db') ->
  keeps (billed (Outbox.audit_log (InvoiceStore.hooks x0))) m -> keeps (books x0) m.
Proof.
  intros Hs Hb. apply keeps_and; [|exact Hb]. eapply keeps_by_step; [|exact Hs].
  intros s s' Hst Hw. by apply (InvoiceProps.inv_step_DB_step _ _ _ _ Hst Hw).
Qed.

Lemma announced_step {A} (m : SE Outbox.DB err A) x0 :
  (forall db r db', m db = (r, db') -> OutboxProps.step db db') ->
  keeps (hook_tag "webhook_endpoint" (Outbox.audit_log x0)) m -> keeps (announced x0) m.
Proof.
  intros Hs Hb. apply keeps_and; [|exact Hb]. eapply keeps_by_step; [|exact Hs].
  intros s s' Hst Hw. eapply OutboxProps.DB_step_wf, Hw. by apply OutboxProps.outbox_step_DB_step.
Qed.

Lemma planned_steps {A} (m : SE Project.DB err A) x0 :
  (forall db r db', m db = (r, db') -> rtc ProjectProps.step db db') -> keeps (planned x0) m.
Proof.
  intros Hs. eapply keeps_by_step; [|exact Hs]. intros s s' Hst [Hw Ht]. split.
  - by apply (ProjectProps.project_steps_DB_step _ _ Hst Hw).
  - eapply tagged_trans; [exact Ht|]. by apply project_steps_tagged.
Qed.

Lemma keyring_step {A} (m : SE ApiKey.DB err A) x0 :
  (forall db r db', m db = (r, db') -> ApiKeyProps.step db db') ->
  keeps (key_tag (ApiKey.audit_log x0)) m -> keeps (same_accounts x0) m -> keeps (keyring x0) m.
Proof.
  intros Hs Ht Ha. apply keeps_and; [|by apply keeps_and]. eapply keeps_by_step; [|exact Hs].
  intros s s' Hst Hw. by apply (ApiKeyProps.key_step_DB_step _ _ Hst Hw).
Qed.

Lemma books_Create emits tp x0 env a i : keeps (books x0) (InvoiceStore.Create emits tp env a i).
Proof. apply (books_step emits tp); [by econstructor|apply keeps_invoice_Create]. Qed.
Lemma books_AddItem x0 env a id i : keeps (books x0) (InvoiceStore.AddItem env a id i).
Proof. apply (books_step true ""); [by econstructor|apply keeps_AddItem]. Qed.
Lemma books_RemoveItem x0 env a id it : keeps (books x0) (InvoiceStore.RemoveItem env a id it).
Proof. apply (books_step true ""); [by econstructor|apply keeps_RemoveItem]. Qed.
Lemma books_Transition emits tp x0 env a id t v : keeps (books x0) (InvoiceStore.TransitionInvoice emits tp env a id t v).
Proof. apply (books_step emits tp); [by econstructor|apply keeps_TransitionInvoice]. Qed.

Lemma announced_CreateEndpoint x0 env a i : keeps (announced x0) (Outbox.CreateEndpoint env a i).
Proof. apply announced_step; [by econstructor|apply keeps_CreateEndpoint]. Qed.
Lemma announced_UpdateEndpoint x0 env a id i : keeps (announced x0) (Outbox.UpdateEndpoint env a id i).
Proof. apply announced_step; [by econstructor|apply keeps_UpdateEndpoint]. Qed.
Lemma announced_Replay x0 env a id : keeps (announced x0) (Outbox.Replay env a id).
Proof. apply announced_step; [by econstructor|apply keeps_Replay]. Qed.

Lemma planned_Create x0 env a i : keeps (planned x0) (Project.Create env a i).
Proof. apply planned_steps. intros. apply rtc_once. by econstructor. Qed.
Lemma planned_Update x0 env mid mid2 a id i :
  ProjectProps.interferes mid -> ProjectProps.interferes mid2 -> keeps (planned x0) (Project.Update env mid mid2 a id i).
Proof. intros H1x H2x. apply planned_steps. intros db r db1 Hr. exact (ProjectProps.Update_steps _ _ _ _ _ _ _ _ _ H1x H2x Hr). Qed.
Lemma planned_Archive x0 env mid mid2 a id :
  ProjectProps.interferes mid -> ProjectProps.interferes mid2 -> keeps (planned x0) (Project.Archive env mid mid2 a id).
Proof. intros H1x H2x. apply planned_steps. intros db r db1 Hr. exact (ProjectProps.Archive_steps _ _ _ _ _ _ _ _ H1x H2x Hr). Qed.

Lemma keyring_Mint x0 env t u name scopes exp : keeps (keyring x0) (ApiKey.Mint env t u name scopes exp).
Proof.
  apply keyring_step; [by econstructor|apply keeps_Mint|].
  unfold ApiKey.Mint. keep; [unfold ApiKey.insert_key; keep_cases|]. apply (keeps_zoom _ (fun _ => True)); done.
Qed.
Lemma keyring_Revoke x0 env t u id : keeps (keyring x0) (ApiKey.Revoke env t u id).
Proof.
  apply keyring_step; [by econstructor|apply keeps_Revoke|].
  unfold ApiKey.Revoke. keep. intros db Hdb. destruct (ApiKey.find_key _ _ _ db) as [r|]; [|done].
  destruct (ApiKey.k_RevokedAt _); [done|]. keep_run. keep; [unfold ApiKey.loadKey; keep_cases|].
  apply (keeps_zoom _ (fun _ => True)); done.
Qed.
End stores.

#[export] Hint Resolve books_Create books_AddItem books_RemoveItem books_Transition announced_CreateEndpoint
  announced_UpdateEndpoint announced_Replay planned_Create planned_Update planned_Archive keyring_Mint keyring_Revoke : keeping.
