(* ===== verification/Service.v ===== *)
(** * The service

    The composed API with the authenticator before it, and what changes its tables besides
    requests: accounts being opened and the webhook worker. *)

From S2P Require Import Prelude Apperr Ids Cursor Db Authz Tenant Render Handlers.
From S2P Require AuditLog Invoice Webhook Outbox OutboxProps InvoiceStore InvoiceProps ApiKey ApiKeyProps Project ProjectProps.
From S2P Require Commands Ssrf Account RateLimit Idempotency IdempotencyHttp Router RouterProps.
From S2P Require Import Isolation IsolationStores IsolationHooks IsolationAccounts IsolationHttp Api ApiProps Invariants.

(** ** The whole of a request

    [env0] and [parse] are what authenticating observes, [header] the Authorization header; nothing is
    committed between the read of a key and the note of its use. *)
Definition with_principal (pr : option Principal) (rq : Req) : Req :=
  mkReq (rq_env rq) (rq_traceparent rq) (rq_lookup rq) (rq_envs rq) (rq_others rq) pr (rq_in rq) (rq_call rq) (rq_writer rq).

Section service.
Context `{Unicode} `{UUIDLaws} `{Collation} `{TimeJSON} `{Outbox.GoJSON} `{Webhook.NetURL} `{Ssrf.AddrText}.
Context (time_Parse : string -> option gotime) (u_Port : Webhook.URL -> string) (d : Deployment).
Context (write : result Problem Response -> list Idempotency.wop).

Definition ServeHTTP (env0 : Env) (parse : string -> go_result uuid) (header : string) (rq : Req) (s : App)
    : Router.Answer * App :=
  match ApiKey.Middleware env0 parse id header (key_tables s) with
  | (Err p, x) => (Router.Denied p None, set_key_tables x s)
  | (Ok pr, x) => request time_Parse u_Port d write (with_principal pr rq) (set_key_tables x s)
  end.

(** The commits of other sessions a request sees change projects as the project store does, and are its own
    tenant's. *)
Definition interleaves (c : Call) : Prop :=
  match c with
  | UpdateProject mid mid2 _ _ | ArchiveProject mid mid2 _ => ProjectProps.interferes mid /\ ProjectProps.interferes mid2
  | _ => True
  end.

Definition sessions (rq : Req) : Prop :=
  (forall t, tenant_of rq = Some t -> own_request t rq) /\ interleaves (rq_call rq).

(** One thing after the other: a request, which draws no identifier or secret of another tenant; an account, a tenant or
    a member; the worker claiming deliveries and settling one; the sweep of the replay records. *)
Inductive service_step : App -> App -> Prop :=
  | by_request env0 parse header rq s :
      sessions rq -> (forall t, tenant_of rq = Some t -> unclaimed t (rq_env rq) s) ->
      service_step s (ServeHTTP env0 parse header rq s).2
  | by_accounts b s : Tenant.step (accounts s) b -> service_step s (set_accounts b s)
  | by_claim env locked n s : service_step s (zoom hooks set_hooks (Outbox.Claim env locked n) s).2
  | by_settle env due r j s : service_step s (zoom hooks set_hooks (Outbox.Settle env due r j) s).2
  | by_sweep l rls limit env s : service_step s (zoom replays set_replays (Idempotency.Sweep l rls limit env) s).2.

(** ** The tables agree *)

Record consistent (s : App) : Prop := {
  con_billing : InvoiceProps.DB_wf (billing s);
  con_hooks : OutboxProps.DB_wf (hooks s);
  con_projects : ProjectProps.DB_wf (project_tables s);
  con_keys : ApiKeyProps.DB_wf (key_tables s);
}.

(** Another component's entries on the trail. *)
Lemma con_trail res P K A t0 t :
  tagged res t0 t -> res <> "api_key" -> ApiKeyProps.DB_wf (ApiKey.mkDB K A t0) -> ApiKeyProps.DB_wf (ApiKey.mkDB K A t) /\
  (res <> "project" -> ProjectProps.DB_wf (Project.mkDB P t0) -> ProjectProps.DB_wf (Project.mkDB P t)).
Proof.
  intros (l & -> & Hl) Hres Hk. split; [|intros Hp Hw].
  - apply key_wf_other; [done|]. eapply Forall_impl; [exact Hl|]. intros r [_ Hr]. by apply Hr.
  - apply project_wf_other; [done|]. eapply Forall_impl; [exact Hl|]. by intros r [-> _].
Qed.

Lemma con_project_trail t0 t P : tagged "api_key" t0 t -> ProjectProps.DB_wf (Project.mkDB P t0) -> ProjectProps.DB_wf (Project.mkDB P t).
Proof.
  intros (l & -> & Hl) Hw. apply project_wf_other; [done|]. eapply Forall_impl; [exact Hl|]. by intros r [-> _].
Qed.

Lemma con_books s x : consistent s -> books (billing s) x -> consistent (set_billing x s).
Proof.
  intros [C1 C2 C3 C4] (B1 & B2 & B3).
  destruct (con_trail _ (projects s) (api_keys s) (accounts s) _ _ B2 ltac:(done) C4) as [Hk Hp]. split; [done|done|by apply Hp|done].
Qed.

Lemma con_hooks_set s x res :
  consistent s -> OutboxProps.DB_wf x -> hook_tag res (trail s) x -> res <> "api_key" -> res <> "project" -> consistent (set_hooks x s).
Proof.
  intros [C1 C2 C3 C4] Hx Ht Hr1 Hr2. destruct (con_trail _ (projects s) (api_keys s) (accounts s) _ _ Ht Hr1 C4) as [Hk Hp].
  split; [by destruct C1|done|by apply Hp|done].
Qed.

Lemma con_planned s x : consistent s -> planned (project_tables s) x -> consistent (set_project_tables x s).
Proof.
  intros [C1 C2 C3 C4] [P1 P2]. destruct (con_trail _ ∅ (api_keys s) (accounts s) _ _ P2 ltac:(done) C4) as [Hk _].
  split; [by destruct C1|by apply hooks_wf_audit|by destruct x|done].
Qed.

Lemma con_keyring s x :
  consistent s -> ApiKeyProps.DB_wf x -> key_tag (trail s) x -> consistent (set_key_tables x s).
Proof.
  intros [C1 C2 C3 C4] K1 K2. split; [by destruct C1|by apply hooks_wf_audit| |by destruct x].
  exact (con_project_trail _ _ _ K2 C3).
Qed.

Lemma con_accounts s b : consistent s -> rtc Tenant.step (accounts s) b -> consistent (set_accounts b s).
Proof.
  intros [C1 C2 C3 C4] Hb. split; [done|done|done|].
  cut (forall a, ApiKeyProps.DB_wf (ApiKey.mkDB (api_keys s) a (trail s)) -> rtc Tenant.step a b ->
    ApiKeyProps.DB_wf (ApiKey.mkDB (api_keys s) b (trail s))); [by intros Hc; apply (Hc _ C4)|].
  clear. intros a Hw Hs. induction Hs as [|x y z Hxy _ IH]; [done|]. apply IH.
  exact (ApiKeyProps.ds_wf _ _ (ApiKeyProps.account_step (ApiKey.mkDB _ x _) y Hw Hxy)).
Qed.

Lemma con_starts s : consistent s ->
  books (billing s) (billing s) /\ announced (hooks s) (hooks s) /\ planned (project_tables s) (project_tables s) /\
  keyring (key_tables s) (key_tables s).
Proof.
  intros []. unfold books, billed, announced, planned, keyring, hook_tag, project_tag, key_tag.
  split_and!; first [done|apply tagged_refl].
Qed.

(** ** A handler leaves the tables in agreement *)

(** What reads the tables leaves them. *)
#[local] Ltac unfold_op := lazymatch goal with |- keeps _ ?m =>
  let rec head m := lazymatch m with ?f _ => head f | _ => m end in let h := head m in unfold h end.
#[local] Ltac reading := unfold_op; keep; try unfold_op; intros ? ?; repeat case_match; by simplify_eq/=.

Lemma reads_invoice_Get I a id : keeps I (InvoiceStore.Get a id).
Proof. reading. Qed.
Lemma reads_invoice_List I a st after l : keeps I (InvoiceStore.List_ a st after l).
Proof. reading. Qed.
Lemma reads_GetEndpoint I a id : keeps I (Outbox.GetEndpoint a id).
Proof. reading. Qed.
Lemma reads_ListEndpoints I a after l : keeps I (Outbox.ListEndpoints a after l).
Proof. reading. Qed.
Lemma reads_deliveries I a f after l : keeps I (Outbox.List_ a f after l).
Proof. reading. Qed.
Lemma reads_keys I t u : keeps I (ApiKey.List_ t u).
Proof. reading. Qed.
Lemma reads_project_Get I a id : keeps I (Project.Get a id).
Proof. reading. Qed.
Lemma reads_projects I a f after l : keeps I (Project.List_ a f after l).
Proof. reading. Qed.
Lemma reads_audit I a after l : keeps I (AuditLog.List_ a after l).
Proof. reading. Qed.
Lemma reads_tenant_Get I id : keeps I (Tenant.Get id).
Proof. reading. Qed.
Lemma reads_members I a : keeps I (Tenant.ListMembers a).
Proof. reading. Qed.

Lemma accounts_handleAddMember x0 env a u r : keeps (rtc Tenant.step x0) (handleAddMember env a u r).
Proof. eapply keeps_by_step; [intros s s' Hs Hx; by eapply rtc_r|]. by econstructor. Qed.

#[local] Hint Resolve reads_invoice_Get reads_invoice_List reads_GetEndpoint reads_ListEndpoints reads_deliveries reads_keys
  reads_project_Get reads_projects reads_audit reads_tenant_Get reads_members accounts_handleAddMember : keeping.

Notation dispatching := (dispatch time_Parse u_Port d).

(** Accounts are only ever added. *)
Definition sound (s0 s : App) : Prop := consistent s /\ DB_grows (accounts s0) (accounts s).

Lemma sound_refl s : consistent s -> sound s s.
Proof. by split. Qed.
Lemma sound_same s0 s s' : sound s0 s -> consistent s' -> accounts s' = accounts s -> sound s0 s'.
Proof. intros [_ Hg] Hc Ha. split; [done|by rewrite Ha]. Qed.

Lemma sound_accounts s0 s b : sound s0 s -> rtc Tenant.step (accounts s) b -> sound s0 (set_accounts b s).
Proof.
  intros [Hc Hg] Hb. split; [by apply con_accounts|]. etrans; [exact Hg|].
  by apply (tenant_steps_wf _ _ Hb), (ApiKeyProps.wf_accounts _ (con_keys _ Hc)).
Qed.

#[local] Ltac handled := intros ?; unfold answer; keep; unfold_op; try unfold handleTransition; keep.
#[local] Ltac starting := by intros ? [(?&?&?&?)%con_starts _].
#[local] Ltac resuming := intros ? ? Hs ?; eapply sound_same; [exact Hs|destruct Hs as [Hs _]|].

Lemma sound_dispatch s0 env tp lookup c a : interleaves c -> keeps (sound s0) (dispatching env tp lookup c a).
Proof.
  intros Hc. unfold dispatch. destruct c; cbn [interleaves] in Hc; try destruct Hc as [Hm Hm2].
  1-3: apply (keeps_part _ (rtc Tenant.step)); [intros; apply rtc_refl|intros; by apply sound_accounts|handled].
  1: apply (keeps_part _ (fun x0 x => x = x0)); [done|intros s x Hs ->; by rewrite (lens_set_get (get:=trail))|handled].
  1-8: apply (keeps_part _ books); [starting|resuming; [by apply con_books|done]|handled].
  1-6: apply (keeps_part _ announced);
    [starting|intros ? ? Hs [? ?]; eapply sound_same; [exact Hs|destruct Hs; by apply (con_hooks_set _ _ "webhook_endpoint")|done]|handled].
  1-3: apply (keeps_part _ keyring);
    [starting|intros ? ? Hs (? & ? & ?); eapply sound_same; [exact Hs|destruct Hs; by apply con_keyring|done]|handled].
  1-5: apply (keeps_part _ planned); [starting|resuming; [by apply con_planned|done]|handled].
Qed.

(** ** A request does *)

(** The idempotency layer adds nothing to what the handler does to the tables. *)
Lemma serve_world (I : App -> Prop) (next : IdempotencyHttp.Handler (W:=App)) path body w s :
  (forall path body s, I s -> I (next path body s).2) -> I s -> I (IdempotencyHttp.serve next path body w s).2.
Proof. intros Hn Hs. unfold IdempotencyHttp.serve. specialize (Hn path body s Hs). by destruct (next path body s) as [[ops []] s']. Qed.

Lemma layer_world (I : App -> Prop) (next : IdempotencyHttp.Handler (W:=App)) ret ls en env others auth r w tb s :
  (forall path body s, I s -> I (next path body s).2) -> I s ->
  I (IdempotencyHttp.Idempotency ret ls en env others next auth r w tb s).2.
Proof.
  intros Hn Hs. unfold IdempotencyHttp.Idempotency. pose proof (serve_world I next (IdempotencyHttp.Path r) (IdempotencyHttp.Body r) w s Hn Hs) as Hp.
  destruct (IdempotencyHttp.serve _ _ _ _ s) as [o s1]. cbn in Hp. cbv zeta.
  destruct (negb en); [done|]. destruct (negb _); [done|]. destruct (IdempotencyHttp.KeyHeader r) as [|v l]; [done|].
  destruct (Idempotency.ValidateKey _) as [k|]; [|done]. destruct auth as [a|]; [|done].
  destruct (IdempotencyHttp.readBodyOnce _) as [b|]; [|done].
  destruct (Idempotency.Begin _ _ _ _ _ _ _ _) as [[[|rec]|e] [n tb1]]; [|done|done].
  specialize (Hn (IdempotencyHttp.Path r) (IdempotencyHttp.restored (IdempotencyHttp.Body r) b) s Hs).
  destruct (next _ _ s) as [[ops []] s']; [done|]. by destruct (Idempotency.tx _ _ _ _) as [? [? ?]].
Qed.

Lemma con_gate s x : consistent s -> x.2 = accounts s -> consistent (set_gate_tables x s).
Proof. intros [C1 C2 C3 C4] Hx. split; [done|done|done|]. unfold key_tables, set_gate_tables. cbn. by rewrite Hx. Qed.

Lemma sound_gate s0 s x : sound s0 s -> x.2 = accounts s -> sound s0 (set_gate_tables x s).
Proof. intros Hs Hx. eapply sound_same; [exact Hs|apply con_gate; [apply Hs|done]|done]. Qed.

Lemma sound_replays s0 s x : sound s0 s -> sound s0 (set_replays x s).
Proof. by intros [[] ?]. Qed.

Lemma sound_endpoint s0 rq ctx path body s :
  interleaves (rq_call rq) -> sound s0 s -> sound s0 (endpoint time_Parse u_Port d write rq ctx path body s).2.
Proof.
  intros Hi Hs. unfold endpoint. destruct (Account.authorizedFrom _) as [a|]; [|done].
  pose proof (sound_dispatch s0 (rq_env rq) (rq_traceparent rq) (rq_lookup rq) (rq_call rq) a Hi s Hs) as Hd.
  by destruct (dispatching _ _ _ _ _ s).
Qed.

Lemma sound_request s0 rq s : interleaves (rq_call rq) -> sound s0 s -> sound s0 (request time_Parse u_Port d write rq s).2.
Proof.
  intros Hi Hs. unfold request. destruct (route_of d _) as [rt|]; [|done].
  pose proof (RouterProps.pass_all_reads (deps d) (Router.guards rt) (rq_in rq) (Router.mkCtx (rq_principal rq) None) (gate_tables s)) as Ha.
  destruct (Router.pass_all _ _ _ _ _) as [[ctx|e] x]; [|by apply sound_gate]. cbv zeta. cbn in Ha.
  pose proof (sound_gate s0 s x Hs Ha) as Hg.
  assert (Hn : forall path body s, sound s0 s -> sound s0 (endpoint time_Parse u_Port d write rq ctx path body s).2)
    by (intros; by apply sound_endpoint).
  destruct (Router.guarded rt).
  - match goal with |- context [IdempotencyHttp.Idempotency ?a ?b ?c ?e ?f ?g ?h ?i ?j ?k ?l] =>
      pose proof (layer_world (sound s0) g a b c e f h i j k l Hn Hg) as Hl end.
    destruct (IdempotencyHttp.Idempotency _ _ _ _ _ _ _ _ _ _ _) as [[o tb] s2]. by apply sound_replays.
  - match goal with |- context [IdempotencyHttp.serve ?g ?p ?b ?w ?l] => pose proof (serve_world (sound s0) g p b w l Hn Hg) as Hl end.
    by destruct (IdempotencyHttp.serve _ _ _ _ _) as [o s2].
Qed.

(** ** Authentication does *)

Record authenticates (x x' : ApiKey.DB) (r : result Problem (option Principal)) : Prop := {
  auth_wf : ApiKeyProps.DB_wf x';
  auth_accounts : ApiKey.accounts x' = ApiKey.accounts x;
  auth_trail : ApiKey.audit_log x' = ApiKey.audit_log x;
  auth_keys : forall k y, ApiKey.api_keys x' !! k = Some y -> exists y0, ApiKey.api_keys x !! k = Some y0 /\
                key_owner k y = key_owner k y0 /\ ApiKey.row_hash y = ApiKey.row_hash y0;
  auth_tenant : forall p, r = Ok (Some p) -> Method p = MethodAPIKey ->
                  is_Some (tenants (ApiKey.accounts x) !! (Authz.TenantID p : uuid));
}.

Lemma authenticates_no_key x r :
  ApiKeyProps.DB_wf x -> (forall p, r = Ok (Some p) -> Method p <> MethodAPIKey) -> authenticates x x r.
Proof. intros Hw Hr. split; [done|done|done|by eauto|]. intros p Hp Hk. by destruct (Hr p Hp). Qed.

(** The last use of the key is recorded. *)
Lemma authenticates_touch env x i y :
  ApiKeyProps.DB_wf x -> ApiKey.api_keys x !! i = Some y ->
  forall p, Authz.TenantID p = ApiKey.k_TenantID (ApiKey.row_key y) ->
  authenticates x (ApiKey.set_keys (<[i := ApiKey.touch (env_now env) y]> (ApiKey.api_keys x)) x) (Ok (Some p)).
Proof.
  intros Hw Hi p Hp. pose proof (ApiKeyProps.wf_key _ Hw _ _ Hi) as (Hid & _ & _ & Hten & _).
  assert (Ht : BeginFunc (ApiKey.touch_key env (ApiKey.presented_key (ApiKey.row_hash y)) i) x =
    (Ok (env_now env), ApiKey.set_keys (<[i := ApiKey.touch (env_now env) y]> (ApiKey.api_keys x)) x)).
  { unfold BeginFunc, ApiKey.touch_key. rewrite Hi. unfold ApiKey.key_visible. cbn.
    by rewrite (bool_decide_eq_true_2 (Some _ = Some _)), orb_true_r. }
  split; [|done|done| |by intros p' [= <-] _; rewrite Hp].
  - exact (ApiKeyProps.ds_wf _ _ (ApiKeyProps.key_step_DB_step _ _ (ApiKeyProps.step_touch _ _ _ _ _ _ Ht) Hw)).
  - intros k z. cbn. rewrite lookup_insert_Some. intros [[<- <-]|[_ Hz]]; [by exists y|by exists z].
Qed.

Lemma authenticated env0 parse header x r x' :
  ApiKeyProps.DB_wf x -> ApiKey.Middleware env0 parse id header x = (r, x') -> authenticates x x' r.
Proof.
  intros Hw. unfold ApiKey.Middleware.
  destruct (ApiKey.parseAuthorization header) as [[scheme credential]|] eqn:Hpa; [|intros [= <- <-]; by apply authenticates_no_key].
  assert (credential <> "") as Hc by (unfold ApiKey.parseAuthorization in Hpa; repeat case_match; simplify_eq; done).
  case_decide.
  { unfold ApiKey.PrincipalForAccessToken, mbind, result_bind. destruct (parse credential); intros [= <- <-];
      apply authenticates_no_key; try done. by intros p [= <-]. }
  unfold ApiKey.PrincipalForAPIKey, mbind, SE_bind.
  destruct (ApiKeyProps.hash_row (ApiKey.HashAPIKey credential) x) as [(i & y & Hi & Hh)|Hn].
  2:{ rewrite ApiKeyProps.Authenticate_none by done. intros [= <- <-]. by apply authenticates_no_key. }
  rewrite (ApiKeyProps.Authenticate_row _ _ _ _ i y); [|done|by apply ApiKeyProps.key_DB_step_refl|done|done|done].
  destruct (bool_decide _); [intros [= <- <-]; by apply authenticates_no_key|].
  destruct (match ApiKey.k_ExpiresAt _ with Some _ => _ | None => _ end); [intros [= <- <-]; by apply authenticates_no_key|].
  cbn. rewrite Hi. intros [= <- <-]. by apply authenticates_touch.
Qed.

(** ** No row without its tenant *)

(** The tables hold nothing of [u]. *)
Record vacant (u : uuid) (s : App) : Prop := {
  va_projects : forall k p, projects s !! k = Some p -> Project.TenantID p <> u;
  va_invoices : forall k i, InvoiceStore.invoices (billing s) !! k = Some i -> Invoice.TenantID i <> u;
  va_items : forall k it, InvoiceStore.items (billing s) !! k = Some it -> Invoice.item_TenantID it <> u;
  va_events : forall e, e ∈ InvoiceStore.events (billing s) -> InvoiceStore.ev_TenantID e <> u;
  va_counters : InvoiceStore.counters (billing s) !! u = None;
  va_endpoints : forall k e, Outbox.endpoints (hooks s) !! k = Some e -> Outbox.ep_TenantID e <> u;
  va_outbox : forall k r, Outbox.outbox (hooks s) !! k = Some r -> Outbox.o_TenantID r <> u;
  va_trail : forall r, r ∈ trail s -> AuditLog.r_TenantID r <> u;
  va_keys : forall k r, api_keys s !! k = Some r -> ApiKey.k_TenantID (ApiKey.row_key r) <> u;
  va_replays : forall k r, replays s !! k = Some r -> k.1 <> u;
}.

Definition housed (s : App) : Prop := forall u, tenants (accounts s) !! u = None -> vacant u s.

Lemma view_foreign {K R} `{Countable K} (owner : K -> R -> uuid) u (m m' : gmap K R) :
  view owner u m' = view owner u m -> (forall k r, m !! k = Some r -> owner k r <> u) ->
  forall k r, m' !! k = Some r -> owner k r <> u.
Proof.
  intros He Hm k r Hk Ho. assert (Hv : view owner u m' !! k = Some r) by by apply view_Some.
  rewrite He in Hv. apply view_Some in Hv as [Hv _]. by eapply Hm.
Qed.

Lemma list_view_foreign {R} (owner : R -> uuid) u (l l' : list R) :
  list_view owner u l' = list_view owner u l -> (forall r, r ∈ l -> owner r <> u) -> forall r, r ∈ l' -> owner r <> u.
Proof.
  intros He Hl r Hr Ho. assert (Hv : r ∈ list_view owner u l') by by apply list_elem_of_filter.
  rewrite He in Hv. apply list_elem_of_filter in Hv as [_ Hv]. by apply (Hl r).
Qed.

(** What is not [u]'s to change leaves it without rows. *)
Lemma vacant_kept u s s' : restrict u s' = restrict u s -> vacant u s -> vacant u s'.
Proof.
  intros Hk [V1 V2 V3 V4 V5 V6 V7 V8 V9 V10]. split.
  - eapply (view_foreign (fun _ => Project.TenantID)); [exact (f_equal projects Hk)|exact V1].
  - eapply (view_foreign (fun _ => Invoice.TenantID)); [exact (f_equal (fun s => InvoiceStore.invoices (billing s)) Hk)|exact V2].
  - eapply (view_foreign (fun _ => Invoice.item_TenantID)); [exact (f_equal (fun s => InvoiceStore.items (billing s)) Hk)|exact V3].
  - eapply (list_view_foreign InvoiceStore.ev_TenantID); [exact (f_equal (fun s => InvoiceStore.events (billing s)) Hk)|exact V4].
  - apply eq_None_not_Some. intros [n Hn].
    eapply (view_foreign (fun k (_ : Z) => k) u _ _ (f_equal (fun s => InvoiceStore.counters (billing s)) Hk)); [|exact Hn|done].
    intros k r Hr ->. by rewrite V5 in Hr.
  - eapply (view_foreign (fun _ => Outbox.ep_TenantID)); [exact (f_equal (fun s => Outbox.endpoints (hooks s)) Hk)|exact V6].
  - eapply (view_foreign (fun _ => Outbox.o_TenantID)); [exact (f_equal (fun s => Outbox.outbox (hooks s)) Hk)|exact V7].
  - eapply (list_view_foreign AuditLog.r_TenantID); [exact (f_equal trail Hk)|exact V8].
  - eapply (view_foreign key_owner); [exact (f_equal api_keys Hk)|exact V9].
  - eapply (view_foreign (fun (k : uuid * string) (_ : Idempotency.Row) => k.1)); [exact (f_equal replays Hk)|exact V10].
Qed.

Lemma con_wf s : consistent s -> wf s.
Proof.
  intros [C1 C2 C3 C4]. refine (conj (conj _ (conj _ (conj _ _))) (conj _ _)).
  - intros k i Hi. by apply (InvoiceProps.wf_invoice _ C1).
  - intros k it Hi. destruct (InvoiceProps.wf_item _ C1 _ _ Hi) as (? & _ & ?). done.
  - exact (OutboxProps.wf_endpoint_id _ C2).
  - exact (OutboxProps.wf_id _ C2).
  - intros k p Hp. by apply (ProjectProps.wf_row _ C3).
  - intros k r Hr. by apply (ApiKeyProps.wf_key _ C4).
Qed.

(** The gate lets a request through to a tenant that exists. *)
Lemma gate_exists gs rq pr s ctx x t :
  Tenant.DB_wf s.2 ->
  (forall p, pr = Some p -> Method p = MethodAPIKey -> is_Some (tenants s.2 !! (Authz.TenantID p : uuid))) ->
  uuid_Parse (Router.param_tenantID rq) = Some t ->
  Router.pass_all (deps d) (Router.ResolveTenant :: gs) rq (Router.mkCtx pr None) s = (Ok ctx, x) -> is_Some (tenants s.2 !! t).
Proof.
  intros Hw Hk Ht. cbn [Router.pass_all]. unfold mbind, SE_bind. cbn [Router.pass Router.principal].
  destruct (Tenant.ResolveTenant pr _ s.2) as [[ap|e] y] eqn:Hr; [intros _|done].
  unfold Tenant.ResolveTenant in Hr. destruct pr as [p|]; [|done]. rewrite Ht in Hr. case_decide as Hm.
  - case_decide as Hp; [|done]. rewrite <- Hp. by apply Hk.
  - destruct (Tenant.Resolve t _ s.2) as [[a|e] z] eqn:He; [|done].
    apply Commands.Resolve_Ok in He as (_ & r & at_ & Hmem & _). by apply (Tenant.wf_member _ Hw _ _ _ _ Hmem).
Qed.

(** The name of the API limit, which is written between the braces of a bucket's key, has none of its own. *)
Context (Hlimit : plain_policy (Router.API (Router.limits (deps d)))).

Lemma vacant_gate u x s : vacant u s -> vacant u (set_gate_tables x s).
Proof. by intros []. Qed.

Lemma housed_request rq s :
  consistent s -> housed s -> sessions rq -> (forall t, tenant_of rq = Some t -> unclaimed t (rq_env rq) s) ->
  (forall p, rq_principal rq = Some p -> Method p = MethodAPIKey -> is_Some (tenants (accounts s) !! (Authz.TenantID p : uuid))) ->
  housed (request time_Parse u_Port d write rq s).2.
Proof.
  intros Hc Hh [Ho Hi] Hun Hp u Hu.
  assert (Hu0 : tenants (accounts s) !! u = None).
  { eapply lookup_weaken_None; [exact Hu|]. by apply (sound_request s rq s Hi (sound_refl s Hc)). }
  specialize (Hh u Hu0). destruct (tenant_of rq) as [t|] eqn:Ht; [|by rewrite unresolved_request].
  destruct (decide (u = t)) as [->|Hne].
  - unfold request. destruct (route_of d _) as [rt|] eqn:Er; [|done]. destruct (route_guards d Hlimit _ _ Er) as (gs & Hg & _). rewrite Hg.
    destruct (Router.pass_all _ _ _ _ _) as [[ctx|e] x] eqn:Hpa; [|by apply vacant_gate].
    apply (gate_exists gs (rq_in rq) _ _ _ _ t) in Hpa; [|exact (ApiKeyProps.wf_accounts _ (con_keys _ Hc))|exact Hp|exact Ht].
    cbn in Hpa. rewrite Hu0 in Hpa. by destruct Hpa.
  - destruct (confined_request time_Parse u_Port d write Hlimit t rq s Ht (Ho t eq_refl) (con_wf s Hc) (Hun t eq_refl)) as (_ & _ & Hk).
    eapply vacant_kept; [|exact Hh]. specialize (Hk u Hne). unfold answered in Hk.
    by destruct (request _ _ _ _ rq s).
Qed.

(** Authentication changes a key's last use and nothing else. *)
Lemma set_key_tables_quiet x s :
  ApiKey.audit_log x = trail s -> ApiKey.accounts x = accounts s ->
  set_key_tables x s = mkApp (redis s) (billing s) (projects s) (ApiKey.api_keys x) (accounts s) (replays s).
Proof. intros Ha Hc. unfold set_key_tables. rewrite Ha, Hc. by destruct s as [? [? ? ? ? []] ? ? ? ?]. Qed.

Lemma unclaimed_auth t env s x r :
  authenticates (key_tables s) x r -> unclaimed t env s -> unclaimed t env (set_key_tables x s).
Proof.
  intros Ha (U1 & U2 & U3 & U4 & U5). rewrite set_key_tables_quiet by apply Ha. refine (conj U1 (conj U2 (conj _ (conj _ U5)))).
  - intros k Hd y Hy. destruct (auth_keys _ _ _ Ha _ _ Hy) as (y0 & Hy0 & -> & _). by apply (U3 k Hd).
  - intros k y Hy He. destruct (auth_keys _ _ _ Ha _ _ Hy) as (y0 & Hy0 & -> & Hh). apply (U4 k y0 Hy0). by rewrite <- Hh.
Qed.

Lemma housed_auth s x r :
  consistent s -> authenticates (key_tables s) x r -> housed s -> housed (set_key_tables x s).
Proof.
  intros Hc Ha Hh. rewrite set_key_tables_quiet by apply Ha. intros u Hu. destruct (Hh u Hu) as [V1 V2 V3 V4 V5 V6 V7 V8 V9 V10].
  split; try done. intros k y Hy. destruct (auth_keys _ _ _ Ha _ _ Hy) as (y0 & Hy0 & Ho & _).
  unfold key_owner in Ho. rewrite Ho. by apply (V9 k).
Qed.

(** ** The worker and the sweep *)

(** The worker's transactions change deliveries only. *)
Definition deliveries_only (x0 x : Outbox.DB) : Prop :=
  OutboxProps.DB_wf x /\ Outbox.endpoints x = Outbox.endpoints x0 /\ Outbox.audit_log x = Outbox.audit_log x0.

Lemma deliveries_step {A} (m : SE Outbox.DB err A) x0 :
  (forall db r db', m db = (r, db') -> OutboxProps.step db db') ->
  (forall db, Outbox.endpoints (m db).2 = Outbox.endpoints db /\ Outbox.audit_log (m db).2 = Outbox.audit_log db) ->
  keeps (deliveries_only x0) m.
Proof.
  intros Hs Hm x (Hw & He & Ha). unfold deliveries_only. destruct (Hm x) as [-> ->]. split; [|done]. destruct (m x) as [r x'] eqn:Er.
  eapply OutboxProps.DB_step_wf, Hw. by eapply OutboxProps.outbox_step_DB_step, Hw; eapply Hs.
Qed.

Lemma deliveries_Claim x0 env locked n : keeps (deliveries_only x0) (Outbox.Claim env locked n).
Proof. apply deliveries_step; [by econstructor|done]. Qed.

Lemma deliveries_Settle x0 env due r j : keeps (deliveries_only x0) (Outbox.Settle env due r j).
Proof.
  apply deliveries_step; [by econstructor|]. intros db. unfold Outbox.Settle. destruct (_ <=? 0); [done|].
  destruct (Outbox.settle_plan _ _ _ _) as [st at_]. unfold mbind, SE_bind, WithSettings, BeginFunc.
  unfold or_fail, Outbox.update_outbox. by repeat case_match; simplify_eq/=.
Qed.

Lemma con_deliveries s x : consistent s -> deliveries_only (hooks s) x -> consistent (set_hooks x s).
Proof.
  intros Hc (Hw & _ & Ha). apply (con_hooks_set s x "invoice"); try done. exists []. by rewrite app_nil_r, Ha.
Qed.

Lemma housed_deliveries s x : housed s -> deliveries_only (hooks s) x -> housed (set_hooks x s).
Proof.
  intros Hh (Hw & He & Ha) u Hu. destruct (Hh u Hu) as [V1 V2 V3 V4 V5 V6 V7 V8 V9 V10]. split; try done; cbn.
  - intros k e Hk. rewrite He in Hk. by apply (V6 k).
  - intros k r Hk. destruct (OutboxProps.wf_fk _ Hw _ _ Hk) as (e & Hfk & <-). rewrite He in Hfk. by eapply V6.
  - intros r. unfold trail. cbn. rewrite Ha. apply V8.
Qed.

Lemma zoom_state {S T E A} (get : S -> T) set (m : SE T E A) s : (zoom get set m s).2 = set (m (get s)).2 s.
Proof. unfold zoom. by destruct (m (get s)) as [[a|e] x]. Qed.

Lemma sweep_removes l rls limit env tb k r :
  (Idempotency.Sweep l rls limit env tb).2 !! k = Some r -> tb !! k = Some r.
Proof.
  unfold Idempotency.Sweep. destruct rls; [done|]. cbn [snd]. generalize ((take (Z.to_nat (if limit <=? 0 then 1000 else limit))
    (order_by Idempotency.expiry_leb (filter (fun kr : (uuid * string) * Idempotency.Row => Idempotency.lapsed l (env_now env) kr.2) (map_to_list tb)))).*1).
  intros ks. revert tb. induction ks as [|x ks IH]; intros tb; [done|]. cbn. intros Hk%IH. by apply lookup_delete_Some in Hk as [_ ?].
Qed.

(** ** Every step *)

Lemma step_sound s s' : service_step s s' -> consistent s /\ housed s -> consistent s' /\ housed s'.
Proof.
  intros Hs [Hc Hh]. destruct Hs as [env0 parse header rq s Hq Hun|b s Hb|env locked n s|env due r j s|l rls limit env s].
  - unfold ServeHTTP. destruct (ApiKey.Middleware env0 parse id header (key_tables s)) as [r x] eqn:Hm.
    pose proof (authenticated env0 parse header _ _ _ (con_keys s Hc) Hm) as Ha.
    assert (Hc1 : consistent (set_key_tables x s)).
    { apply con_keyring; [done|apply Ha|]. unfold key_tag. rewrite (auth_trail _ _ _ Ha). apply tagged_refl. }
    pose proof (housed_auth s x r Hc Ha Hh) as Hh1. destruct r as [pr|p]; [|done]. cbn [snd]. split.
    + exact (proj1 (sound_request _ (with_principal pr rq) _ (proj2 Hq) (sound_refl _ Hc1))).
    + apply housed_request; [done|done|exact Hq|intros t Ht; eapply unclaimed_auth; [exact Ha|by apply Hun]|].
      intros p Hp Hk. change (accounts (set_key_tables x s)) with (ApiKey.accounts x). rewrite (auth_accounts _ _ _ Ha).
      by apply (auth_tenant _ _ _ Ha); [cbn in Hp; by rewrite Hp|].
  - split; [by apply con_accounts, rtc_once|]. intros u Hu.
    destruct (Tenant.step_wf _ _ Hb (ApiKeyProps.wf_accounts _ (con_keys _ Hc))) as (_ & Ht & _).
    destruct (Hh u (lookup_weaken_None _ _ _ Hu Ht)). by split.
  - rewrite zoom_state. pose proof (deliveries_Claim (hooks s) env locked n (hooks s) (conj (con_hooks _ Hc) (conj eq_refl eq_refl))) as Hd.
    split; [by apply con_deliveries|by apply housed_deliveries].
  - rewrite zoom_state. pose proof (deliveries_Settle (hooks s) env due r j (hooks s) (conj (con_hooks _ Hc) (conj eq_refl eq_refl))) as Hd.
    split; [by apply con_deliveries|by apply housed_deliveries].
  - rewrite zoom_state. split; [by destruct Hc|]. intros u Hu. destruct (Hh u Hu) as [V1 V2 V3 V4 V5 V6 V7 V8 V9 V10].
    split; try done. intros k r Hk%sweep_removes. by apply (V10 k r).
Qed.

Lemma steps_sound s s' : rtc service_step s s' -> consistent s /\ housed s -> consistent s' /\ housed s'.
Proof. induction 1 as [|x y z Hxy _ IH]; [done|]. intros Hx. by apply IH, (step_sound x). Qed.

Definition empty_App : App :=
  mkApp ∅ (InvoiceStore.mkDB ∅ ∅ [] ∅ OutboxProps.empty_DB) ∅ ∅ Tenant.empty_DB ∅.

Lemma empty_sound : consistent empty_App /\ housed empty_App.
Proof.
  split.
  - split; [apply InvoiceProps.inv_empty_wf|apply OutboxProps.outbox_empty_wf|apply ProjectProps.project_empty_wf|apply ApiKeyProps.key_empty_wf].
  - intros u _. split; cbn; try done; intros *; rewrite ?lookup_empty; try done; intros Hin; by apply elem_of_nil in Hin.
Qed.

(** C3: The service, run as a whole from an empty database: requests from the authenticator to the handler, in any
    order, of any tenants, with any outcome, between them accounts being opened, the worker's transactions and the
    sweep. Requests never overlap: each ends before the next begins, apart from the changes to projects and replay
    records that other sessions commit inside it; and none draws an identifier or a key's secret that another tenant's
    row has. (Overlapping edits of one invoice can break its sum: [InvoiceSessions].) Then every invoice is the sum of its lines and numbered once;
    every delivery goes to an endpoint of its own tenant; no two live projects of a tenant share a slug; the one audit
    trail all components write on has for every project as many entries as its version says, and for every key one of
    its creation and one of its revocation if it is revoked; and no table has a row of a tenant that does not exist. *)
Theorem service_invariants s :
  rtc service_step empty_App s ->
  (forall k inv, InvoiceStore.invoices (billing s) !! k = Some inv ->
     Invoice.SubtotalMinor inv = InvoiceProps.line_sum (InvoiceStore.items (billing s)) k) /\
  (forall i j x y, InvoiceStore.invoices (billing s) !! i = Some x -> InvoiceStore.invoices (billing s) !! j = Some y ->
     Invoice.TenantID x = Invoice.TenantID y -> Invoice.Number x = Invoice.Number y -> i = j) /\
  (forall k r, Outbox.outbox (hooks s) !! k = Some r ->
     exists e, Outbox.endpoints (hooks s) !! Outbox.o_EndpointID r = Some e /\ Outbox.ep_TenantID e = Outbox.o_TenantID r) /\
  (forall i j p q, projects s !! i = Some p -> projects s !! j = Some q -> Project.ArchivedAt p = None ->
     Project.ArchivedAt q = None -> Project.TenantID p = Project.TenantID q -> Project.p_Slug p = Project.p_Slug q -> i = j) /\
  (forall k p, projects s !! k = Some p -> Z.of_nat (length (ProjectProps.trail k (trail s))) = Project.Version p) /\
  (forall k r, api_keys s !! k = Some r ->
     length (ApiKeyProps.entries_on AuditLog.ActionAPIKeyCreate k (trail s)) = 1%nat /\
     length (ApiKeyProps.entries_on AuditLog.ActionAPIKeyRevoke k (trail s)) =
       if bool_decide (is_Some (ApiKey.k_RevokedAt (ApiKey.row_key r))) then 1%nat else 0%nat) /\
  (forall u, tenants (accounts s) !! u = None -> vacant u s).
Proof.
  intros Hs. destruct (steps_sound _ _ Hs empty_sound) as [[C1 C2 C3 C4] Hh]. split_and!.
  - apply (InvoiceProps.wf_subtotal _ C1).
  - apply (InvoiceProps.wf_unique _ C1).
  - apply (OutboxProps.wf_fk _ C2).
  - apply (ProjectProps.wf_slug _ C3).
  - intros k p Hp. etrans; [exact (ProjectProps.wf_trail _ C3 k)|]. change (match projects s !! k with Some p => Project.Version p | None => 0 end = Project.Version p).
    by rewrite Hp.
  - intros k r Hr. pose proof (ApiKeyProps.wf_created _ C4 k) as Hn. pose proof (ApiKeyProps.wf_revoked _ C4 k) as Hv.
    unfold ApiKeyProps.revoked_of in Hv. change (ApiKey.api_keys (key_tables s)) with (api_keys s) in Hn, Hv. rewrite Hr in Hn, Hv. done.
  - exact Hh.
Qed.

(** Whatever state the service reaches is one of those [tenants_are_isolated] is about. *)
Lemma service_wf s : rtc service_step empty_App s -> wf s.
Proof. intros Hs. by apply con_wf, (steps_sound _ _ Hs empty_sound). Qed.
End service.

(** ** Witness

    Two tenants open, each starts a project under the same slug, one bills a customer; a stranger is refused; the
    worker polls. *)

Module ServiceDemo.
Import ApiDemo.
#[local] Existing Instance DemoUnicode.
#[local] Existing Instance DemoUUID.lib.
#[local] Existing Instance DemoUUID.laws.
#[local] Existing Instances by_bytes demo_time demo_json net text.

Notation step := (service_step parse_time port_of d write).

Definition signed_in (p : Principal) (_ : string) : go_result uuid := Ok (Authz.UserID p).
Definition bill : Call := CreateInvoice (Ok (Invoice.mkCreateInput "usd" 250 [Invoice.mkItemInput "Seats" 3 1500])).

(** A request with an idempotency key of its own. *)
Definition keyed (key : string) (rq : Req) : Req :=
  let i := rq_in rq in let r := Router.request i in
  mkReq (rq_env rq) (rq_traceparent rq) (rq_lookup rq) (rq_envs rq) (rq_others rq) (rq_principal rq)
    (Router.mkIncoming (Router.param_tenantID i) (Router.RemoteAddr i) (Router.Header_ i) (Router.reachable i) (Router.redis_now i)
       (Router.member i) (IdempotencyHttp.mkRequest (IdempotencyHttp.Method r) [key] (IdempotencyHttp.Path r)
          (IdempotencyHttp.Pattern r) (IdempotencyHttp.RawQuery r) (IdempotencyHttp.Body r)))
    (rq_call rq) (rq_writer rq).

Definition serve (key : string) (b : N) (p : Principal) (path method : string) (c : Call) (s : App) : App :=
  (ServeHTTP parse_time port_of d write (env_at b) (signed_in p) "Bearer token" (keyed key (sent b p path method c)) s).2.

Lemma serve_step key b p path method c t s :
  uuid_Parse path = Some t -> untouched b t s = true -> (match c with UpdateProject _ _ _ _ | ArchiveProject _ _ _ => False | _ => True end) ->
  step s (serve key b p path method c s).
Proof.
  intros Hp Hu Hc. apply by_request.
  - split; [|by destruct c]. intros t' _. split; [by destruct c|]. intros n. apply of_tenant_id.
  - intros t' Ht. change (uuid_Parse path = Some t') in Ht. assert (t' = t) as -> by congruence. by apply untouched_unclaimed.
Qed.

Definition opened : App := set_accounts accounts0 empty_App.
Definition s1 : App := serve "key-1" 1000 Tenant.TenantDemo.ada_jwt "5" "POST" apollo opened.
Definition s2 : App := serve "key-1" 2000 Tenant.TenantDemo.bob_jwt "6" "POST" apollo s1.
Definition s3 : App := serve "key-1" 3000 Tenant.TenantDemo.ada_jwt "6" "POST" apollo s2.
Definition s4 : App := serve "key-2" 4000 Tenant.TenantDemo.ada_jwt "5" "POST" bill s3.
Definition s5 : App := (zoom hooks set_hooks (Outbox.Claim (env_at 5000) (fun _ => false) 10) s4).2.

Lemma opened_reached : rtc step empty_App opened.
Proof.
  eapply rtc_l; [apply (by_accounts _ _ _ _ Tenant.TenantDemo.db1)|].
  - apply (step_register TenantDemo.env0 TenantDemo.acme TenantDemo.ada RoleOwner (Ok tt)). vm_compute. reflexivity.
  - apply rtc_once. apply (by_accounts _ _ _ _ accounts0 (set_accounts TenantDemo.db1 empty_App)).
    eapply step_register. apply surjective_pairing.
Qed.

Lemma s5_reached : rtc step empty_App s5.
Proof.
  apply (rtc_r _ s4); [|apply by_claim].
  apply (rtc_r _ s3); [|by eapply serve_step; [reflexivity|vm_compute; reflexivity|]].
  apply (rtc_r _ s2); [|by eapply serve_step; [reflexivity|vm_compute; reflexivity|]].
  apply (rtc_r _ s1); [|by eapply serve_step; [reflexivity|vm_compute; reflexivity|]].
  apply (rtc_r _ opened); [exact opened_reached|]. by eapply serve_step; [reflexivity|vm_compute; reflexivity|].
Qed.

(** Two projects under one slug, one invoice of 3 * 1500 + 250, and nothing of a third tenant. *)
Lemma service_invariants_witness :
  (forall k inv, InvoiceStore.invoices (billing s5) !! k = Some inv ->
     Invoice.SubtotalMinor inv = InvoiceProps.line_sum (InvoiceStore.items (billing s5)) k) /\
  vacant 7%N s5 /\
  (Project.p_Slug <$> (map_to_list (projects s5)).*2 = ["moon"; "moon"]) /\
  ((fun inv => (Invoice.SubtotalMinor inv, Invoice.TotalMinor inv)) <$> (map_to_list (InvoiceStore.invoices (billing s5))).*2 = [(4500, 4750)]).
Proof.
  destruct (service_invariants parse_time port_of d write ltac:(vm_compute; reflexivity) s5 s5_reached) as (W1 & _ & _ & _ & _ & _ & W7).
  split; [exact W1|]. split; [apply W7; vm_compute; reflexivity|]. split; vm_compute; reflexivity.
Defined.
End ServiceDemo.
